(* ===== verification/_CoqProject ===== *)
-Q . S2P
Prelude.v
TokenRing.v
WeakRing.v
Chardev.v
FileOps.v
Blocking.v
Tokenizer.v
RefTokenizer.v
BlockFormat.v
Arena.v
Floats.v
CacheIndex.v
Dispatch.v
Response.v
Wavefront.v
Gpu.v
InferGpu.v
Attention.v
Mx.v
InferCpu.v
Pipeline.v
Sampling.v
Decode.v
Scheduler.v
Drain.v
Lifetimes.v
WeightLoader.v
Reactor.v
EndToEnd.v
Trace.v
TraceTool.v
PagedAttention.v
OnlineSoftmax.v
ExactAttention.v
Benchmark.v
DeviceTests.v
