(* ===== verification/Prelude.v ===== *)
(** * xpu-kllm: a verification library for the kernel-integrated LLM server

    ** The program

    A client writes a prompt to the character device [/dev/llm_prompt1] of a
    kernel module; an eBPF program turns the bytes into token ids and appends
    them to a token ring in a huge page; a userspace reactor maps the ring and
    polls it; a dispatch policy sends each prompt to the CPU or the GPU;
    inference looks up the KV cache block of the token prefix in a
    content-addressed index over an arena of fixed-size slots and runs attention
    on it; a decode loop (or a batching scheduler) samples the next token and
    pushes it back through the device, where the client reads it.  Weights and
    KV blocks reach the GPU in wavefronts of NVMe reads; probes trace each stage.

    ** The files

    Each file models the sources it names (paths under [src/]), with the
    source's names for data and operations.

    - [Prelude]: machine integers, arrays, loops, and the lemmas, tactics and
      hint databases shared by all files.
    - [TokenRing]: [kernel/chardev/kllm_ring.h],
      [userspace/include/kllm_ring_user.h] and the ring layout of
      [bpf/tokenizer.bpf.c].  State [ring]; [spsc_step] is the interleaving of
      one producer and one consumer.
    - [WeakRing]: the same producer and consumer with store buffers between them
      and the memory; [weak_step] is a step of the machine.
    - [Chardev]: [kernel/chardev/llm_prompt.c].  State [kllm_device]; one
      definition per file operation, [kllm_init], [kllm_exit]; [reader_step] is
      [kllm_read] cut where it does not hold the lock.  [FileOps]: [open],
      [release] and the table [kllm_fops], on the descriptors of any number of
      clients; [Blocking]: readers and emitters as threads that sleep on the wait
      queue and wake each other, with [bstep] a step of one of them.
    - [Tokenizer]: [bpf/tokenizer.bpf.c].
    - [RefTokenizer]: the reference tokenizer of [tests/bench_tokenizer.c].
    - [BlockFormat], [Arena], [CacheIndex]: [userspace/kvcache/block_format.h],
      [arena_alloc.c] and [cache_index.c].  The index is proved against the
      class [BlockAllocator], which the arena implements.
    - [Floats]: [float] and [double] as IEEE 754 binary32 and binary64.
    - [Dispatch]: [userspace/compute/dispatch_policy.c].
    - [Response]: [userspace/reactor/kllm_response.c], on the device of
      [Chardev].
    - [Wavefront], [Gpu], [InferGpu]: [userspace/gpu/nvme_ep_wavefront.c],
      [p2p_dma.c], [gpu_attention.c] and [userspace/compute/infer_gpu.c].
    - [Attention], [Mx], [InferCpu]: [userspace/compute/ace_attention.c],
      [mx_dequant.h] and [infer_cpu.c].
    - [Sampling], [Decode]: [userspace/decode/decode_loop.c].  The loop is proved
      against the class [Inference], which [InferCpu] and [InferGpu] together
      implement; a call on the GPU need not return.
    - [Scheduler]: [userspace/reactor/batch_scheduler.c], against the same class;
      [Drain]: whole runs of it.
    - [Lifetimes]: what the create and destroy functions of the userspace
      components do to the heap.  Each pair implements the class [Lifecycle].
    - [WeightLoader]: [userspace/weights/weight_loader.c].
    - [Reactor]: [userspace/reactor/kllm_reactor.c], composed of [TokenRing],
      [Arena], [CacheIndex] and [Dispatch].
    - [EndToEnd]: the path of a prompt through [Tokenizer], [TokenRing] and
      [Reactor], and of an answer through [Decode], [Response] and [Chardev].
    - [Trace]: [bpf/kllm_trace.bpf.c] and the event handler and summary of
      [userspace/tools/kllm_trace.c]; [TraceTool]: the [main] of the tool.
    - [PagedAttention], [OnlineSoftmax]: [userspace/gpu/paged_attention.cu],
      [paged_attention.hip] and [paged_attention_xe.cpp], on an abstract device
      and over the real numbers; [ExactAttention] compares them with the CPU
      kernels of [Attention], which are generic in their numbers.
    - [Pipeline]: the synthetic run of [tests/test_e2e_latency.c], on [Arena],
      [CacheIndex], [BlockFormat], [Dispatch] and [Attention]; [Benchmark]: the
      benchmark and its report of [tests/bench_tokenizer.c]; [DeviceTests]: the
      tests and benchmarks that open the device of [FileOps].

    ** How the code is translated

    A [w]-bit unsigned integer is a [Z] with its wrap-around written out
    ([wrap]); a struct is a record; an array is a list.  State is passed
    explicitly.  An operation returns [None] where the C code has undefined
    behaviour (an access out of bounds, a null dereference, a double free, a
    signed overflow, a bad shift), so that a theorem that it returns [Some]
    contains its memory safety; the errors that the code reports are ordinary
    results.  What the operating system, the C library and the hardware answer
    (allocations, faults, clocks, [rand], descriptors) are arguments, and the
    functions the sources only call (SHA-256, [expf], the AVX-512 intrinsics, the
    arithmetic of a GPU, kernel macros) are classes with their documented laws.

    ** What is proved

    - Data in flight: the ring is a bounded FIFO queue for every use that does
      not consume from it when it is empty (where it hands out an old slot and
      miscounts), also under every interleaving of producer and consumer, and
      when their stores are buffered and reordered between the barriers; the response path delivers the
      emitted tokens in order, across batching, wrap-around and the unlocked
      copy of a single reader; the device answers any calls of any clients as a
      bounded queue does; no wake-up of a sleeping reader is lost, and a reader
      with tokens to read is served.
    - End to end: the tokens of the first 2048 bytes of each prompt, after at
      most 128 merges, reach the reactor while the ring has room; a client reads
      the tokens that a decode run generates, followed by the end of the
      sequence, as far as the response ring goes (what does not fit is dropped,
      the end included); the synthetic run of the latency test passes and
      releases what it holds when its allocations succeed.
    - Tokenization is best-rank leftmost BPE, at most 128 merges on the first 2048
      bytes.  It agrees with the reference tokenizer, on prompts of at most 2048
      bytes and merges that do not feed merges of a better rank, exactly when no
      more merges are needed.
    - The KV cache: the arena is an allocator on the set of its slots; the index
      never shares, leaks or frees a slot twice; a block inserted is found; the
      tensors of a block tile it.
    - Computation: the CPU kernels compute softmax attention for every shape and
      instruction set; CPU inference returns the projection of it; the GPU
      kernels compute the online softmax, in exact arithmetic the softmax average
      on the elements of lane 0, where they agree with the CPU if each is given
      the keys and values in the order in which it reads them; attention stays
      within the bounds of the values; BF16 conversion, MX scaling and sampling do what
      they say, inside of their arrays.
    - Control: decoding streams the tokens that sampling picks from the answers
      of the inference, and one end of sequence; a scheduler step keeps its pool
      well-formed within its budgets and streams the answers of the inference, and
      a pool whose prompts fit the budget drains.  These terminate without a GPU
      context; with one, as far as the calls on the GPU return; dispatch counters are consistent; the reactor refines
      its session specification and shuts down clean; tracing accounts for every
      event, and the tool prints them in order.
    - Errors: every failure path of module init, arena creation, weight loading,
      GPU context creation, CPU inference, reactor start and of the trace tool
      (where the call that attaches the probes, which has the wrong arguments,
      returns at all); contexts, created and destroyed in any order under any
      failing allocations, give the heap back.
    - Defects, as theorems: among others, two concurrent readers duplicate a
      token; eviction hides entries; a new scheduler rejects every request; a
      long prompt overruns its buffer; a failed start makes shutdown destroy
      twice; GPU inference never returns; only lane 0 rescales its accumulator;
      tracing never completes a request of another process; two prompts tokenized
      at the same time lose one of them; a prompt above the prefill budget blocks
      the scheduler; with two readers a blocking read can return nothing; the CPU
      and the GPU read a block in different layouts; CPU inference reads past the
      block of a sequence longer than it; the weight loader reports the embedding
      table and the LM head as loaded and never reads them; the tests of the
      tokenizer see no token, since a [write] does not tokenize.

    ** Fuel and bounds

    [for] loops are [for_range], which runs exactly the iterations of the
    source.  The other loops take fuel, and the theorems show that it suffices:
    the AVX-512 chunks of [Attention] and the blocks of [Mx] get one step each,
    [emit_rounds] of [Response] one for each token, the decimal digits of
    [Wavefront] ten (a 32-bit number has no more), [decode_loop] one for each
    place of the sequence buffer, of which every step fills one, [merge_loop] of
    [RefTokenizer] one more than there are tokens.  A run of the scheduler in
    [Drain] gets as many iterations as [pool_work] counts, a read of [Blocking]
    four steps.  [poll_loop] of
    [TraceTool] runs until a signal: its fuel suffices once it exceeds the number
    of polls before one.
    [wait_completions] of [InferGpu] waits for the device, and the
    theorem shows that no fuel suffices.  The widths of integers are those of the
    sources; hypotheses on sizes are those under which the code's own
    computations do not overflow.

    ** Not modelled

    - [main] of the reactor, which hands its callbacks to SPDK: the framework is
      not part of the sources, and [main] does nothing but call it.
    - The formatting of printed text, log messages.
    - Speculative or reordered loads: in [WeakRing] the loads of the consumer
      happen in program order, which its acquire load and fence enforce; of the
      response ring every access but the unlocked copy is under a spin lock.
    - Concurrent probes on one request in [Trace]: probes run one at a time.
    - Divergent execution within a GPU group: the kernels have no divergence but
      the update of lane 0, and run in lockstep.
    - The inside of the wait queue: in [Blocking] the evaluation of the condition
      with the sleep that follows it is one step, since no wake-up falls between
      the two, which is what [wait_event_interruptible] promises.
    - Build files. *)

From Stdlib Require Import ZArith Lia.
From stdpp Require Import base numbers list gmap.

#[global] Open Scope Z_scope.

(** ** Machine integers

    Unsigned C integers are integers [Z] with the wrap-around written out. *)

Definition wrap (w x : Z) : Z := x mod 2 ^ w.

Abbreviation u8 := (wrap 8) (only parsing).
Abbreviation u16 := (wrap 16) (only parsing).
Abbreviation u32 := (wrap 32) (only parsing).
Abbreviation u64 := (wrap 64) (only parsing).

(** The values a [w]-bit unsigned variable holds. *)
Definition fits (w x : Z) : Prop := 0 <= x < 2 ^ w.

Definition UINT32_MAX : Z := 0xFFFFFFFF.
Definition UINT64_MAX : Z := 0xFFFFFFFFFFFFFFFF.

(** ** Arrays

    A C array is a list.  An access out of its bounds is undefined behaviour,
    which every operation of the development reports as [None]; a theorem that
    an operation returns [Some] therefore contains its memory safety. *)

Definition arr_get {A} (l : list A) (i : Z) : option A :=
  if 0 <=? i then l !! Z.to_nat i else None.

Definition arr_set {A} (l : list A) (i : Z) (x : A) : option (list A) :=
  if (0 <=? i) && (i <? Z.of_nat (length l))
  then Some (<[Z.to_nat i := x]> l) else None.

(** [memcpy] of [n] elements from offset [off]. *)
Definition arr_slice {A} (l : list A) (off n : Z) : option (list A) :=
  if (0 <=? off) && (0 <=? n) && (off + n <=? Z.of_nat (length l))
  then Some (take (Z.to_nat n) (drop (Z.to_nat off) l)) else None.

(** [calloc]: an array of [n] zeroed entries. *)
Definition zeroed (n : Z) : list Z := replicate (Z.to_nat n) 0.

Arguments zeroed n : simpl never.

Abbreviation len l := (Z.of_nat (length l)) (only parsing).

(** ** Loops

    [for (i = lo; i < hi; i++) body] over an explicit state, with [break] and
    [return] in the body. *)

Inductive ctl (S R : Type) : Type :=
| Continue (s : S)
| Break (s : S)
| Return (r : R).

Arguments Continue {S R} s.
Arguments Break {S R} s.
Arguments Return {S R} r.

Fixpoint for_loop {S R} (n : nat) (i : Z) (body : Z -> S -> option (ctl S R))
    (s : S) : option (S + R) :=
  match n with
  | O => Some (inl s)
  | Datatypes.S n' =>
      match body i s with
      | None => None
      | Some (Continue s') => for_loop n' (i + 1) body s'
      | Some (Break s') => Some (inl s')
      | Some (Return r) => Some (inr r)
      end
  end.

Definition for_range {S R} (lo hi : Z) (body : Z -> S -> option (ctl S R))
    (s : S) : option (S + R) :=
  for_loop (Z.to_nat (hi - lo)) lo body s.

(** ** Circular buffers

    The [c] entries of the circular buffer [l] of [n] slots that start at
    position [t]: what both rings of the program hold between their tail and
    their head. *)

Definition window (l : list Z) (n t : Z) (c : nat) : list Z :=
  (fun i => l !!! Z.to_nat ((t + Z.of_nat i) mod n)) <$> seq 0 c.

(** ** Struct layout

    The offsets of the members of a C struct and its size.  A member is its
    size, its natural alignment and its explicit alignment (1 for none). *)

Record member : Type := Member {
  m_size : Z;
  m_natural : Z;
  m_explicit : Z;
}.

Definition round_to (off align : Z) : Z := (off + align - 1) / align * align.

(** A packed struct drops the natural alignment and keeps the explicit one. *)
Definition m_align (packed : bool) (m : member) : Z :=
  if packed then m_explicit m else Z.max (m_natural m) (m_explicit m).

Fixpoint layout_from (packed : bool) (off align : Z) (ms : list member)
    : list Z * Z :=
  match ms with
  | [] => ([], round_to off align)
  | m :: ms' =>
      let a := m_align packed m in
      let o := round_to off a in
      let '(os, size) := layout_from packed (o + m_size m) (Z.max align a) ms' in
      (o :: os, size)
  end.

Definition layout (packed : bool) (ms : list member) : list Z * Z :=
  layout_from packed 0 1 ms.

Definition m_u32 : member := Member 4 4 1.
Definition m_u32_aligned64 : member := Member 4 4 64.
Definition m_u32_15 : member := Member 60 4 1.

Definition m_u64 : member := Member 8 8 1.
Definition m_bytes (n : Z) : member := Member n 1 1.

(** ** Automation *)

Create HintDb kllm discriminated.
Create Rewrite HintDb kllm_simpl.

(** Turns boolean tests of the code into propositions for [lia]. *)
Ltac unbool :=
  repeat match goal with
  | H : (_ && _)%bool = true |- _ => apply andb_true_iff in H as [? ?]
  | H : (_ || _)%bool = false |- _ => apply orb_false_iff in H as [? ?]
  | H : negb _ = true |- _ => apply negb_true_iff in H
  | H : negb _ = false |- _ => apply negb_false_iff in H
  | H : (_ <? _) = true |- _ => apply Z.ltb_lt in H
  | H : (_ <? _) = false |- _ => apply Z.ltb_ge in H
  | H : (_ <=? _) = true |- _ => apply Z.leb_le in H
  | H : (_ <=? _) = false |- _ => apply Z.leb_gt in H
  | H : (_ =? _) = true |- _ => apply Z.eqb_eq in H
  | H : (_ =? _) = false |- _ => apply Z.eqb_neq in H
  end.

(** Case analysis on the condition of the [if] or [match] in the goal, the
    impossible branches closed by arithmetic. *)
Ltac case_cond :=
  match goal with
  | |- context [if ?b then _ else _] =>
      let E := fresh "E" in destruct b eqn:E; unbool; try lia
  end.

(** [lia] with division and modulo by constants. *)
Ltac dlia := Z.to_euclidean_division_equations; lia.

(** ** Lemmas on machine integers *)

Lemma wrap_bound w x : 0 <= w -> 0 <= wrap w x < 2 ^ w.
Proof. intros. apply Z.mod_pos_bound. lia. Qed.

Lemma wrap_small w x : fits w x -> wrap w x = x.
Proof. apply Z.mod_small. Qed.

Lemma wrap_fits w x : 0 <= w -> fits w (wrap w x).
Proof. apply wrap_bound. Qed.

(** Masking with [2^k - 1] is reduction modulo [2^k]. *)
Lemma land_mask k x : 0 <= k -> Z.land x (2 ^ k - 1) = x mod 2 ^ k.
Proof.
  intros. rewrite <- Z.land_ones by lia. by rewrite Z.ones_equiv.
Qed.

(** Reduction modulo a power of two sees through the wrap of a wider type. *)
Lemma wrap_mod_pow2 w k x : 0 <= k <= w -> (wrap w x) mod 2 ^ k = x mod 2 ^ k.
Proof.
  intros. unfold wrap.
  rewrite <- !Z.land_ones by lia. apply Z.bits_inj'. intros i Hi.
  rewrite !Z.land_spec.
  destruct (Z.lt_ge_cases i k) as [Hik|Hik].
  - by rewrite (Z.ones_spec_low w i), andb_true_r by lia.
  - rewrite (Z.ones_spec_high k i) by lia. by rewrite !andb_false_r.
Qed.

Lemma wrap_testbit w x j :
  0 <= w -> 0 <= j -> Z.testbit (wrap w x) j = (j <? w) && Z.testbit x j.
Proof.
  intros. unfold wrap. destruct (Z.ltb_spec j w).
  - by rewrite Z.mod_pow2_bits_low by lia.
  - by rewrite Z.mod_pow2_bits_high by lia.
Qed.

Lemma pow2_pos k : 0 <= k -> 0 < 2 ^ k.
Proof. intros. lia. Qed.

Lemma pow2_le_32 k : 0 <= k <= 32 -> 1 <= 2 ^ k <= 2 ^ 32.
Proof.
  intros. split; [pose proof (pow2_pos k); lia|].
  apply Z.pow_le_mono_r; lia.
Qed.

Lemma pow2_lt_32 k : 0 <= k < 32 -> 1 <= 2 ^ k < 2 ^ 32.
Proof.
  intros. split; [pose proof (pow2_pos k); lia|].
  apply Z.pow_lt_mono_r; lia.
Qed.

#[export] Hint Resolve wrap_bound wrap_fits pow2_pos : kllm.
#[export] Hint Rewrite @length_insert @length_fmap @length_seq @length_app
  @length_take @length_drop @length_replicate : kllm_simpl.

(** ** Lemmas on arrays *)

Section arrays.
Context {A : Type}.
Implicit Types (l : list A) (i j : Z) (x : A).

Lemma arr_get_lookup l i : 0 <= i -> arr_get l i = l !! Z.to_nat i.
Proof. intros. unfold arr_get. by case_cond. Qed.

Lemma arr_get_is_Some l i : 0 <= i < len l <-> is_Some (arr_get l i).
Proof.
  unfold arr_get. destruct (Z.leb_spec 0 i).
  - rewrite lookup_lt_is_Some. lia.
  - split; [lia|]. intros [? [=]].
Qed.

Lemma arr_get_range l i x : arr_get l i = Some x -> 0 <= i < len l.
Proof. intros. apply arr_get_is_Some. eauto. Qed.

Lemma arr_get_total `{!Inhabited A} l i :
  0 <= i < len l -> arr_get l i = Some (l !!! Z.to_nat i).
Proof.
  intros. rewrite arr_get_lookup by lia.
  apply list_lookup_lookup_total_lt. lia.
Qed.

Lemma arr_set_in l i x :
  0 <= i < len l -> arr_set l i x = Some (<[Z.to_nat i := x]> l).
Proof. intros. unfold arr_set. by case_cond. Qed.

Lemma arr_set_out l i x : ~ (0 <= i < len l) -> arr_set l i x = None.
Proof. intros. unfold arr_set. by case_cond. Qed.

Lemma arr_set_Some l l' i x :
  arr_set l i x = Some l' -> 0 <= i < len l /\ l' = <[Z.to_nat i := x]> l.
Proof. unfold arr_set. case_cond; intros; simplify_eq. split; [lia|done]. Qed.

Lemma arr_set_length l l' i x : arr_set l i x = Some l' -> length l' = length l.
Proof. intros [_ ->]%arr_set_Some. apply length_insert. Qed.

Lemma arr_get_set_eq l l' i x : arr_set l i x = Some l' -> arr_get l' i = Some x.
Proof.
  intros [Hi ->]%arr_set_Some. rewrite arr_get_lookup by lia.
  apply list_lookup_insert_eq. lia.
Qed.

Lemma arr_get_set_ne l l' i j x :
  arr_set l i x = Some l' -> i <> j -> arr_get l' j = arr_get l j.
Proof.
  intros [Hi ->]%arr_set_Some Hne. unfold arr_get.
  destruct (Z.leb_spec 0 j); [|done].
  apply list_lookup_insert_ne. lia.
Qed.

Lemma arr_slice_in l off n :
  0 <= off -> 0 <= n -> off + n <= len l ->
  arr_slice l off n = Some (take (Z.to_nat n) (drop (Z.to_nat off) l)).
Proof. intros. unfold arr_slice. by case_cond. Qed.

Lemma arr_slice_out l off n : len l < off + n -> arr_slice l off n = None.
Proof. intros. unfold arr_slice. by case_cond. Qed.

End arrays.

Section array_parts.
Context {A : Type}.
Implicit Types (l k : list A) (i : Z) (x y : A).

Lemma arr_get_app l x k i : i = len l -> arr_get (l ++ x :: k) i = Some x.
Proof.
  intros ->. rewrite arr_get_lookup, Nat2Z.id by lia. by apply list_lookup_middle.
Qed.

Lemma arr_set_app l x k i y : i = len l -> arr_set (l ++ x :: k) i y = Some (l ++ y :: k).
Proof.
  intros ->. rewrite arr_set_in by (rewrite length_app; simpl; lia).
  by rewrite Nat2Z.id, insert_app_r_alt, Nat.sub_diag by lia.
Qed.

End array_parts.

(** Lists given by a function of the index. *)
Lemma arr_get_tab {A} (f : Z -> A) n i : 0 <= i < n -> arr_get (f <$> seqZ 0 n) i = Some (f i).
Proof.
  intros Hi. rewrite arr_get_lookup, list_lookup_fmap by lia.
  rewrite (lookup_seqZ_lt 0 n) by lia. simpl. do 2 f_equal. lia.
Qed.

Lemma arr_set_tab {A} (f g : Z -> A) n i :
  0 <= i < n -> (forall j, 0 <= j < n -> j <> i -> g j = f j) ->
  arr_set (f <$> seqZ 0 n) i (g i) = Some (g <$> seqZ 0 n).
Proof.
  intros Hi Hg. rewrite arr_set_in by (rewrite length_fmap, length_seqZ; lia). f_equal.
  apply list_eq. intros k. rewrite list_lookup_fmap.
  destruct (decide (Z.of_nat k < n)) as [Hk|Hk].
  - rewrite (lookup_seqZ_lt 0 n k) by lia. simpl.
    destruct (decide (k = Z.to_nat i)) as [->|Hne].
    + rewrite list_lookup_insert_eq by (rewrite length_fmap, length_seqZ; lia).
      do 2 f_equal. lia.
    + rewrite list_lookup_insert_ne, list_lookup_fmap, (lookup_seqZ_lt 0 n k) by lia.
      simpl. f_equal. symmetry. apply Hg; lia.
  - rewrite (lookup_seqZ_ge 0 n k) by lia. simpl. apply lookup_ge_None_2.
    rewrite length_insert, length_fmap, length_seqZ. lia.
Qed.

Lemma zeroed_len n : 0 <= n -> len (zeroed n) = n.
Proof. intros. unfold zeroed. rewrite length_replicate. lia. Qed.

(** ** The loop rule

    Total correctness of [for_range]: an invariant that each iteration keeps
    (and whose iterations are all defined) gives a result, and the result has
    the postcondition. *)

Section loops.
Context {S R : Type}.

Lemma for_loop_rule (I : Z -> S -> Prop) (Q : S + R -> Prop) body n lo s :
  I lo s ->
  (forall i s, lo <= i < lo + Z.of_nat n -> I i s ->
     exists c, body i s = Some c /\
       match c with
       | Continue s' => I (i + 1) s'
       | Break s' => Q (inl s')
       | Return r => Q (inr r)
       end) ->
  (forall s, I (lo + Z.of_nat n) s -> Q (inl s)) ->
  exists o, for_loop n lo body s = Some o /\ Q o.
Proof.
  revert lo s. induction n as [|n IH]; intros lo s HI Hbody Hend; simpl.
  - exists (inl s). split; [done|]. apply Hend. by rewrite Z.add_0_r.
  - destruct (Hbody lo s) as (c & -> & Hc); [lia|done|].
    destruct c as [s'|s'|r]; eauto.
    apply IH; [done| |].
    + intros i s0 Hi. apply Hbody. lia.
    + intros s0 Hs0. apply Hend. by replace (lo + Z.of_nat (Datatypes.S n))
        with (lo + 1 + Z.of_nat n) by lia.
Qed.

Lemma for_range_rule (I : Z -> S -> Prop) (Q : S + R -> Prop) body lo hi s :
  lo <= hi ->
  I lo s ->
  (forall i s, lo <= i < hi -> I i s ->
     exists c, body i s = Some c /\
       match c with
       | Continue s' => I (i + 1) s'
       | Break s' => Q (inl s')
       | Return r => Q (inr r)
       end) ->
  (forall s, I hi s -> Q (inl s)) ->
  exists o, for_range lo hi body s = Some o /\ Q o.
Proof.
  intros Hle HI Hbody Hend. unfold for_range.
  apply (for_loop_rule I); [done| |];
    rewrite Z2Nat.id by lia; replace (lo + (hi - lo)) with hi by lia; auto.
Qed.

(** A loop whose body always continues. *)
Lemma for_range_inv (I : Z -> S -> Prop) body lo hi s :
  lo <= hi -> I lo s ->
  (forall i s, lo <= i < hi -> I i s -> exists s', body i s = Some (Continue s') /\ I (i + 1) s') ->
  exists s', @for_range S R lo hi body s = Some (inl s') /\ I hi s'.
Proof.
  intros Hle HI Hbody.
  destruct (for_range_rule I (fun o => exists s', o = inl s' /\ I hi s') body lo hi s)
    as (o & Hrun & s' & -> & Hs'); [done|done| |by eauto|by eauto].
  intros i t Hi Ht. destruct (Hbody i t Hi Ht) as (t' & Hb & Ht'). by eauto.
Qed.

(** What every iteration preserves, a loop that ends preserves. *)
Lemma for_range_pres (I : S -> Prop) body lo hi s s' :
  (forall i t c, I t -> body i t = Some c ->
     match c with Continue t' | Break t' => I t' | Return _ => True end) ->
  I s -> @for_range S R lo hi body s = Some (inl s') -> I s'.
Proof.
  intros Hbody. unfold for_range. generalize (Z.to_nat (hi - lo)) as n. intros n. revert lo s.
  induction n as [|n IH]; intros lo s HI Hrun; simpl in Hrun; [by simplify_eq|].
  destruct (body lo s) as [c|] eqn:Hb; [|done]. pose proof (Hbody _ _ _ HI Hb) as Hc.
  destruct c; simplify_eq; by eauto.
Qed.

(** What a loop returns, an iteration returned. *)
Lemma for_range_returns (Q : R -> Prop) body lo hi s r :
  (forall i t x, body i t = Some (Return x) -> Q x) ->
  @for_range S R lo hi body s = Some (inr r) -> Q r.
Proof.
  intros Hbody. unfold for_range. generalize (Z.to_nat (hi - lo)) as n. intros n. revert lo s.
  induction n as [|n IH]; intros lo s Hrun; simpl in Hrun; [by simplify_eq|].
  destruct (body lo s) as [[]|] eqn:Hb; simplify_eq; by eauto.
Qed.

(** A loop that reaches an iteration with undefined behaviour. *)
Lemma for_range_undef (I : Z -> S -> Prop) body lo hi k s :
  lo <= k < hi -> I lo s ->
  (forall i s, lo <= i < k -> I i s ->
     exists s', body i s = Some (Continue s') /\ I (i + 1) s') ->
  (forall s, I k s -> body k s = None) ->
  @for_range S R lo hi body s = None.
Proof.
  intros Hk HI Hbody Hk'. unfold for_range.
  remember (Z.to_nat (hi - lo)) as n eqn:Hn. revert lo s Hk HI Hbody Hn.
  induction n as [|n IH]; intros lo s Hk HI Hbody Hn; [lia|]. simpl.
  destruct (decide (lo = k)) as [->|Hne]; [by rewrite Hk'|].
  destruct (Hbody lo s) as (s' & -> & HI'); [lia|done|].
  apply IH; [lia|done| |lia]. intros i s0 Hi. apply Hbody. lia.
Qed.

(** A loop whose body is a function of its state is a fold. *)
Lemma for_range_fold (f : Z -> S -> S) body lo hi s :
  lo <= hi ->
  (forall i s, lo <= i < hi -> body i s = Some (Continue (f i s))) ->
  @for_range S R lo hi body s =
    Some (inl (foldl (fun s i => f i s) s (seqZ lo (hi - lo)))).
Proof.
  intros Hle Hbody.
  edestruct (for_range_rule
    (fun i t => t = foldl (fun s i => f i s) s (seqZ lo (i - lo)))
    (fun o => o = inl (foldl (fun s i => f i s) s (seqZ lo (hi - lo))))) as (o & -> & ->);
    [..|done].
  - done.
  - by rewrite Z.sub_diag.
  - intros i t Hi ->. eexists. split; [by apply Hbody|]. cbn.
    replace (i + 1 - lo) with (i - lo + 1) by lia.
    rewrite seqZ_app, foldl_app by lia. simpl. f_equal. lia.
  - intros t ->. done.
Qed.

(** A range whose bounds cross runs no iteration. *)
Lemma for_range_steps (st : Z -> S) body lo hi :
  lo <= hi ->
  (forall i, lo <= i < hi -> body i (st i) = Some (Continue (st (i + 1)))) ->
  @for_range S R lo hi body (st lo) = Some (inl (st hi)).
Proof.
  intros Hle Hstep.
  edestruct (for_range_rule (fun i t => t = st i) (fun o => o = inl (st hi)))
    as (o & -> & ->); [done|done| |by intros ? ->|done].
  intros i t Hi ->. eexists. split; [by apply Hstep|done].
Qed.

Lemma for_range_return (st : Z -> S) body lo hi k r :
  lo <= k < hi ->
  (forall i, lo <= i < k -> body i (st i) = Some (Continue (st (i + 1)))) ->
  body k (st k) = Some (Return r) ->
  @for_range S R lo hi body (st lo) = Some (inr r).
Proof.
  intros Hk Hstep Hret.
  edestruct (for_range_rule (fun i t => i <= k /\ t = st i) (fun o => o = inr r))
    as (o & -> & ->); [lia|by split; [lia|]| |intros ? [? _]; lia|done].
  intros i t Hi [Hik ->]. destruct (decide (i = k)) as [->|].
  - by exists (Return r).
  - exists (Continue (st (i + 1))). split; [apply Hstep; lia|split; [lia|done]].
Qed.

Lemma for_range_empty lo hi body s :
  hi <= lo -> @for_range S R lo hi body s = Some (inl s).
Proof. intros. unfold for_range. by replace (Z.to_nat (hi - lo)) with 0%nat by lia. Qed.

End loops.

(** ** Lemmas on circular buffers *)

Section windows.
Implicit Types (l : list Z) (n t x : Z) (c k : nat).

Lemma window_length l n t c : length (window l n t c) = c.
Proof. unfold window. by autorewrite with kllm_simpl. Qed.

Lemma window_lookup l n t c k :
  (k < c)%nat -> window l n t c !! k = Some (l !!! Z.to_nat ((t + Z.of_nat k) mod n)).
Proof.
  intros. unfold window. rewrite list_lookup_fmap, lookup_seq_lt by lia. done.
Qed.

Lemma window_ext l l' n t t' c :
  (forall i, (i < c)%nat -> l !!! Z.to_nat ((t + Z.of_nat i) mod n) =
                      l' !!! Z.to_nat ((t' + Z.of_nat i) mod n)) ->
  window l n t c = window l' n t' c.
Proof.
  intros Hext. unfold window. apply list_fmap_ext.
  intros i y [-> Hi]%lookup_seq. apply Hext. lia.
Qed.

(** Two positions of the buffer that differ by less than its size differ. *)
Lemma ring_pos_inj n t (i j : Z) :
  0 < n -> 0 <= i < n -> 0 <= j < n -> (t + i) mod n = (t + j) mod n -> i = j.
Proof.
  intros Hn Hi Hj Heq.
  pose proof (Z.div_mod (t + i) n ltac:(lia)) as Ei.
  pose proof (Z.div_mod (t + j) n ltac:(lia)) as Ej.
  assert (i - j = n * ((t + i) / n - (t + j) / n)) by lia.
  assert ((t + i) / n - (t + j) / n = 0) by nia. lia.
Qed.

(** Only the position modulo the size matters. *)
Lemma window_mod l n t c : window l n (t mod n) c = window l n t c.
Proof.
  apply window_ext. intros i _. by rewrite Zplus_mod_idemp_l.
Qed.

(** Writing at the end of the window extends it by one entry. *)
Lemma window_push l n t c x :
  0 < n <= len l -> Z.of_nat c < n ->
  window (<[Z.to_nat ((t + Z.of_nat c) mod n) := x]> l) n t (S c) =
  window l n t c ++ [x].
Proof.
  intros Hn Hc. apply list_eq. intros i.
  assert (forall z, 0 <= z mod n < n) as Hb by (intros; apply Z.mod_pos_bound; lia).
  pose proof (Hb (t + Z.of_nat c)).
  destruct (Nat.lt_trichotomy i c) as [Hi|[->|Hi]].
  - rewrite lookup_app_l by (rewrite window_length; lia).
    rewrite !window_lookup by lia. f_equal.
    apply list_lookup_total_insert_ne. pose proof (Hb (t + Z.of_nat i)).
    intros Heq%Z2Nat.inj; [|lia..]. apply ring_pos_inj in Heq; lia.
  - rewrite window_lookup by lia.
    rewrite lookup_app_r by (rewrite window_length; lia).
    rewrite window_length, Nat.sub_diag. simpl. f_equal.
    apply list_lookup_total_insert_eq. lia.
  - rewrite !lookup_ge_None_2; [done|..];
      rewrite ?length_app, !window_length; simpl; lia.
Qed.

(** A write outside of the window leaves it alone. *)
Lemma window_insert_other l n t c k x :
  0 < n ->
  (forall i, (i < c)%nat -> Z.to_nat ((t + Z.of_nat i) mod n) <> k) ->
  window (<[k := x]> l) n t c = window l n t c.
Proof.
  intros Hn Hne. apply window_ext. intros i Hi.
  apply list_lookup_total_insert_ne. symmetry. by apply Hne.
Qed.

Lemma window_cons l n t c :
  window l n t (S c) = l !!! Z.to_nat (t mod n) :: window l n (t + 1) c.
Proof.
  apply list_eq. intros [|i].
  - rewrite window_lookup by lia. simpl. by rewrite Z.add_0_r.
  - change ((?x :: ?l) !! S i) with (l !! i). destruct (decide (i < c)%nat).
    + rewrite !window_lookup by lia. do 4 f_equal. lia.
    + rewrite !lookup_ge_None_2; [done|..]; rewrite !window_length; lia.
Qed.

Lemma window_take l n t c k :
  (k <= c)%nat -> take k (window l n t c) = window l n t k.
Proof.
  intros. unfold window. rewrite <- fmap_take, take_seq. do 2 f_equal. lia.
Qed.

Lemma window_drop l n t c k :
  drop k (window l n t c) = window l n (t + Z.of_nat k) (c - k).
Proof.
  apply list_eq. intros i. rewrite lookup_drop.
  destruct (decide (k + i < c)%nat).
  - rewrite !window_lookup by lia. do 4 f_equal. lia.
  - rewrite !lookup_ge_None_2; [done|..]; rewrite !window_length; lia.
Qed.

Lemma window_app l n t c k :
  window l n t (c + k) = window l n t c ++ window l n (t + Z.of_nat c) k.
Proof.
  rewrite <- (take_drop c (window l n t (c + k))).
  rewrite window_take, window_drop by lia. do 2 f_equal. lia.
Qed.

(** A window that does not wrap is a slice of the buffer. *)
Lemma window_slice l n t c :
  0 <= t -> t + Z.of_nat c <= n -> n <= len l ->
  take c (drop (Z.to_nat t) l) = window l n t c.
Proof.
  intros Ht Hc Hn. apply list_eq. intros i.
  destruct (decide (i < c)%nat).
  - rewrite lookup_take_lt, lookup_drop, window_lookup by lia.
    rewrite Z.mod_small by lia.
    replace (Z.to_nat (t + Z.of_nat i)) with (Z.to_nat t + i)%nat by lia.
    apply list_lookup_lookup_total_lt. lia.
  - rewrite !lookup_ge_None_2; [done|..].
    + rewrite window_length. lia.
    + rewrite length_take. lia.
Qed.

(** A window that wraps is the end of the buffer followed by its start. *)
Lemma window_slice_wrap l n t c :
  0 <= t < n -> n <= t + Z.of_nat c -> Z.of_nat c <= n -> n <= len l ->
  take (Z.to_nat (n - t)) (drop (Z.to_nat t) l)
    ++ take (c - Z.to_nat (n - t)) l
  = window l n t c.
Proof.
  intros Ht Hw Hc Hn.
  replace (window l n t c)
    with (window l n t (Z.to_nat (n - t) + (c - Z.to_nat (n - t)))) by (f_equal; lia).
  rewrite window_app. f_equal.
  - apply window_slice; lia.
  - replace (t + Z.of_nat (Z.to_nat (n - t))) with (0 + 1 * n) by lia.
    rewrite <- window_mod, Z_mod_plus_full, Z.mod_0_l by lia.
    by rewrite <- (window_slice l n 0) by lia.
Qed.

End windows.
