(* ===== verification/TokenRing.v ===== *)
(** * The hugepage token ring

    Models [kernel/chardev/kllm_ring.h] (the kernel's view), its userspace
    mirror [userspace/include/kllm_ring_user.h] and the copy of the header
    layout in [bpf/tokenizer.bpf.c].  The ring is a single-producer
    single-consumer circular buffer of token ids: the state is [ring], the
    operations are the functions of the two headers, and [ring_contents] is
    the queue of tokens a ring stands for.

    The file proves that the operations implement a bounded FIFO queue
    ([queue_run]), that they never touch memory outside of the slots, and that
    a producer and a consumer that interleave at the grain of single memory
    accesses (the relation [spsc_step]) neither lose, duplicate nor reorder
    tokens.  The memory model of [spsc_step] is sequential consistency;
    [WeakRing] has the barriers that the source relies on. *)

From Stdlib Require Import ZArith Lia.
From stdpp Require Import base numbers list gmap relations.
From S2P Require Import Prelude.

#[local] Open Scope Z_scope.

(** ** Data *)

Definition KLLM_TOKEN_RING_MAGIC : Z := 0x4B4C4C4D.
Definition KLLM_TOKEN_RING_VERSION : Z := 1.

(** [struct kllm_ring_hdr] with the token slots that follow it in memory. *)
Record ring : Type := Ring {
  magic : Z;
  version : Z;
  slot_count : Z;
  head : Z;
  tail : Z;
  seq_id : Z;
  slots : list Z;
}.

Definition with_head (r : ring) (v : Z) : ring :=
  Ring (magic r) (version r) (slot_count r) v (tail r) (seq_id r) (slots r).

Definition with_tail (r : ring) (v : Z) : ring :=
  Ring (magic r) (version r) (slot_count r) (head r) v (seq_id r) (slots r).

Definition with_seq_id (r : ring) (v : Z) : ring :=
  Ring (magic r) (version r) (slot_count r) (head r) (tail r) v (slots r).

Definition with_slots (r : ring) (v : list Z) : ring :=
  Ring (magic r) (version r) (slot_count r) (head r) (tail r) (seq_id r) v.

(** *** Layout of the shared header

    The header is declared three times: packed with aligned members in the
    kernel, with [_Alignas] in userspace, with aligned members in the BPF
    program. *)

(** magic, version, slot_count, _pad0, head, _pad1, tail, _pad2, seq_id, _pad3 *)
Definition kernel_ring_hdr : list Z * Z :=
  layout true [m_u32; m_u32; m_u32; m_u32; m_u32_aligned64; m_u32_15;
    m_u32_aligned64; m_u32_15; m_u32_aligned64; m_u32_15].

Definition user_ring_hdr : list Z * Z :=
  layout false [m_u32; m_u32; m_u32; m_u32; m_u32_aligned64; m_u32_15;
    m_u32_aligned64; m_u32_15; m_u32_aligned64; m_u32_15].

Definition bpf_ring_hdr : list Z * Z :=
  layout false [m_u32; m_u32; m_u32; m_u32; m_u32_aligned64; m_u32_15;
    m_u32_aligned64; m_u32_15; m_u32_aligned64; m_u32_15].

Definition KLLM_RING_HDR_SIZE : Z := snd kernel_ring_hdr.

(** ** Operations of the kernel header *)

Definition kllm_ring_mask (r : ring) : Z := u32 (slot_count r - 1).

Definition kllm_ring_free (r : ring) : Z :=
  Z.land (u32 (tail r - head r - 1)) (kllm_ring_mask r).

(** Returns the C result (-1 when the ring is full) and the ring. *)
Definition kllm_ring_produce (r : ring) (token_id : Z) : option (Z * ring) :=
  let hd := head r in
  let next := Z.land (u32 (hd + 1)) (kllm_ring_mask r) in
  if next =? tail r then Some (-1, r)
  else
    slots' ← arr_set (slots r) hd token_id;
    Some (0, with_head (with_slots r slots') next).

Definition kllm_ring_available (r : ring) : Z :=
  Z.land (u32 (head r - tail r)) (kllm_ring_mask r).

Definition kllm_ring_consume (r : ring) : option (Z * ring) :=
  let tl := tail r in
  token_id ← arr_get (slots r) tl;
  Some (token_id, with_tail r (Z.land (u32 (tl + 1)) (kllm_ring_mask r))).

(** ** Operations of the userspace header *)

Definition user_ring_mask (r : ring) : Z := u32 (slot_count r - 1).

Definition user_ring_available (r : ring) : Z :=
  Z.land (u32 (head r - tail r)) (user_ring_mask r).

Definition user_ring_consume (r : ring) : option (Z * ring) :=
  let tl := tail r in
  token_id ← arr_get (slots r) tl;
  Some (token_id, with_tail r (Z.land (u32 (tl + 1)) (user_ring_mask r))).

(** [out] is the caller's array; the result is the count, the array and the
    ring. *)
Definition kllm_ring_consume_batch (r : ring) (out : list Z) (max_tokens : Z)
    : option (Z * list Z * ring) :=
  let avail := user_ring_available r in
  let count := if avail <? max_tokens then avail else max_tokens in
  let tl := tail r in
  let mask := user_ring_mask r in
  res ← for_range (R := unit) 0 count (fun i out =>
    v ← arr_get (slots r) (Z.land (u32 (tl + i)) mask);
    out' ← arr_set out i v;
    Some (Continue out')) out;
  match res with
  | inl out' => Some (count, out', with_tail r (Z.land (u32 (tl + count)) mask))
  | inr _ => None
  end.

(** ** Well-formedness and abstraction *)

(** The slot count is a power of two that a [u32] holds, the indices are slots,
    and the slots lie in the mapped memory. *)
Record ring_wf (r : ring) : Prop := {
  wf_pow2 : exists k, 0 <= k < 32 /\ slot_count r = 2 ^ k;
  wf_head : 0 <= head r < slot_count r;
  wf_tail : 0 <= tail r < slot_count r;
  wf_slots : slot_count r <= len (slots r);
}.

Definition ring_used (r : ring) : Z := (head r - tail r) mod slot_count r.

(** The tokens in the ring, oldest first. *)
Definition ring_contents (r : ring) : list Z :=
  window (slots r) (slot_count r) (tail r) (Z.to_nat (ring_used r)).

(** One slot is kept free to tell a full ring from an empty one. *)
Definition ring_capacity (r : ring) : Z := slot_count r - 1.

(** The specification: a bounded queue. *)
Definition queue_push (cap : Z) (q : list Z) (x : Z) : Z * list Z :=
  if len q <? cap then (0, q ++ [x]) else (-1, q).

Definition queue_pop_batch (q : list Z) (n : Z) : list Z * list Z :=
  (take (Z.to_nat n) q, drop (Z.to_nat n) q).

(** What a client of the ring asks for, and what it observes. *)
Inductive ring_op : Type :=
| OpProduce (token_id : Z)
| OpConsume
| OpConsumeBatch (max_tokens : Z).

Inductive ring_obs : Type :=
| ObsProduce (rc : Z)
| ObsConsume (token_id : Z)
| ObsConsumeBatch (tokens : list Z).

(** One call on the ring.  [kllm_ring_consume] does not check that a token is
    available; the array handed to [kllm_ring_consume_batch] has [max_tokens]
    entries. *)
Definition ring_call (r : ring) (op : ring_op) : option (ring_obs * ring) :=
  match op with
  | OpProduce x =>
      '(rc, r') ← kllm_ring_produce r x; Some (ObsProduce rc, r')
  | OpConsume =>
      '(x, r') ← user_ring_consume r; Some (ObsConsume x, r')
  | OpConsumeBatch n =>
      '(count, out, r') ←
        kllm_ring_consume_batch r (replicate (Z.to_nat n) 0) n;
      Some (ObsConsumeBatch (take (Z.to_nat count) out), r')
  end.

Fixpoint ring_run (r : ring) (ops : list ring_op)
    : option (list ring_obs * ring) :=
  match ops with
  | [] => Some ([], r)
  | op :: ops' =>
      '(o, r1) ← ring_call r op;
      '(os, r2) ← ring_run r1 ops';
      Some (o :: os, r2)
  end.

(** The bounded queue has no answer for the consumption of a token that is not
    there. *)
Definition queue_call (cap : Z) (q : list Z) (op : ring_op)
    : option (ring_obs * list Z) :=
  match op with
  | OpProduce x => let '(rc, q') := queue_push cap q x in Some (ObsProduce rc, q')
  | OpConsume =>
      match q with
      | [] => None
      | x :: q' => Some (ObsConsume x, q')
      end
  | OpConsumeBatch n =>
      let '(out, q') := queue_pop_batch q n in Some (ObsConsumeBatch out, q')
  end.

Fixpoint queue_run (cap : Z) (q : list Z) (ops : list ring_op)
    : option (list ring_obs * list Z) :=
  match ops with
  | [] => Some ([], q)
  | op :: ops' =>
      '(o, q1) ← queue_call cap q op;
      '(os, q2) ← queue_run cap q1 ops';
      Some (o :: os, q2)
  end.

(** The specification that also answers there: a wheel of slots that starts with
    the oldest token, of which the first [used] are tokens and the others hold
    what was left in them.  Consumption turns the wheel by one slot; without a
    token it returns what was left in the first slot, and all other slots then
    count as tokens. *)
Record wheel : Type := Wheel {
  w_slots : list Z;
  w_used : nat;
}.

Definition wheel_call (w : wheel) (op : ring_op) : ring_obs * wheel :=
  let '(Wheel l used) := w in
  match op with
  | OpProduce x =>
      if (S used <? length l)%nat then (ObsProduce 0, Wheel (<[used := x]> l) (S used))
      else (ObsProduce (-1), w)
  | OpConsume =>
      (ObsConsume (l !!! 0%nat),
       Wheel (drop 1 l ++ take 1 l) (if decide (used = 0%nat) then pred (length l) else pred used))
  | OpConsumeBatch n =>
      let k := Nat.min used (Z.to_nat n) in
      (ObsConsumeBatch (take k l), Wheel (drop k l ++ take k l) (used - k))
  end.

Fixpoint wheel_run (w : wheel) (ops : list ring_op) : list ring_obs * wheel :=
  match ops with
  | [] => ([], w)
  | op :: ops' =>
      let '(o, w1) := wheel_call w op in
      let '(os, w2) := wheel_run w1 ops' in
      (o :: os, w2)
  end.

(** The slots of a ring from the tail on. *)
Definition ring_wheel (r : ring) : wheel :=
  Wheel (window (slots r) (slot_count r) (tail r) (Z.to_nat (slot_count r)))
    (Z.to_nat (ring_used r)).

Definition op_ok (op : ring_op) : Prop :=
  match op with
  | OpConsumeBatch n => fits 32 n
  | _ => True
  end.

(** An empty ring of [2^k] zeroed slots, both indices at slot 0. *)
Definition ring_empty (k : Z) : ring :=
  Ring KLLM_TOKEN_RING_MAGIC KLLM_TOKEN_RING_VERSION (2 ^ k) 0 0 0
    (replicate (Z.to_nat (2 ^ k)) 0).

(** ** The producer and the consumer side by side

    The steps of [kllm_ring_produce] and [kllm_ring_consume_batch], one memory
    access to the shared ring at a time.  [produced] and [consumed] record the
    tokens whose publication, respectively whose release, has happened. *)

Inductive producer_pc : Type :=
| PIdle
| PChecked (token_id hd next : Z)
| PWritten (token_id hd next : Z).

Inductive consumer_pc : Type :=
| CIdle
| CCopy (tl count i : Z) (out : list Z).

Record spsc : Type := Spsc {
  shared : ring;
  prod_pc : producer_pc;
  cons_pc : consumer_pc;
  produced : list Z;
  consumed : list Z;
}.

Inductive spsc_step : spsc -> spsc -> Prop :=
| step_full r c ps cs :
    Z.land (u32 (head r + 1)) (kllm_ring_mask r) = tail r ->
    spsc_step (Spsc r PIdle c ps cs) (Spsc r PIdle c ps cs)
| step_check r c ps cs token_id next :
    next = Z.land (u32 (head r + 1)) (kllm_ring_mask r) ->
    next <> tail r ->
    spsc_step (Spsc r PIdle c ps cs)
              (Spsc r (PChecked token_id (head r) next) c ps cs)
| step_write r c ps cs token_id hd next slots' :
    arr_set (slots r) hd token_id = Some slots' ->
    spsc_step (Spsc r (PChecked token_id hd next) c ps cs)
              (Spsc (with_slots r slots') (PWritten token_id hd next) c ps cs)
| step_publish r c ps cs token_id hd next :
    spsc_step (Spsc r (PWritten token_id hd next) c ps cs)
              (Spsc (with_head r next) PIdle c (ps ++ [token_id]) cs)
| step_load r p ps cs max_tokens avail count :
    avail = user_ring_available r ->
    fits 32 max_tokens ->
    count = (if avail <? max_tokens then avail else max_tokens) ->
    spsc_step (Spsc r p CIdle ps cs)
              (Spsc r p (CCopy (tail r) count 0 []) ps cs)
| step_copy r p ps cs tl count i out v :
    i < count ->
    arr_get (slots r) (Z.land (u32 (tl + i)) (user_ring_mask r)) = Some v ->
    spsc_step (Spsc r p (CCopy tl count i out) ps cs)
              (Spsc r p (CCopy tl count (i + 1) (out ++ [v])) ps cs)
| step_release r p ps cs tl count out :
    spsc_step (Spsc r p (CCopy tl count count out) ps cs)
              (Spsc (with_tail r (Z.land (u32 (tl + count)) (user_ring_mask r)))
                    p CIdle ps (cs ++ out)).

Definition spsc_init (k : Z) : spsc := Spsc (ring_empty k) PIdle CIdle [] [].

(** The accesses the two sides are about to make lie in the slots. *)
Definition spsc_safe (s : spsc) : Prop :=
  match prod_pc s with
  | PChecked _ hd _ => 0 <= hd < len (slots (shared s))
  | _ => True
  end /\
  match cons_pc s with
  | CCopy tl count i _ =>
      i < count ->
      0 <= Z.land (u32 (tl + i)) (user_ring_mask (shared s))
         < len (slots (shared s))
  | CIdle => True
  end.

(** The slot the producer is filling is none of those the consumer reads. *)
Definition spsc_disjoint (s : spsc) : Prop :=
  match prod_pc s, cons_pc s with
  | PChecked _ hd _, CCopy tl count i _ =>
      forall j, i <= j < count ->
        Z.land (u32 (tl + j)) (user_ring_mask (shared s)) <> hd
  | _, _ => True
  end.

(** The inductive invariant behind the safety of the interleavings. *)
Definition producer_inv (r : ring) (p : producer_pc) : Prop :=
  match p with
  | PIdle => True
  | PChecked _ hd next =>
      hd = head r /\ next = (head r + 1) mod slot_count r /\
      ring_used r < ring_capacity r
  | PWritten token_id hd next =>
      hd = head r /\ next = (head r + 1) mod slot_count r /\
      ring_used r < ring_capacity r /\
      slots r !! Z.to_nat hd = Some token_id
  end.

Definition consumer_inv (r : ring) (c : consumer_pc) : Prop :=
  match c with
  | CIdle => True
  | CCopy tl count i out =>
      tl = tail r /\ 0 <= i <= count /\ count <= ring_used r /\
      out = take (Z.to_nat i) (ring_contents r)
  end.

Record spsc_inv (s : spsc) : Prop := {
  inv_wf : ring_wf (shared s);
  inv_fifo : produced s = consumed s ++ ring_contents (shared s);
  inv_prod : producer_inv (shared s) (prod_pc s);
  inv_cons : consumer_inv (shared s) (cons_pc s);
}.

(** ** Lemmas *)

Section ring_lemmas.
Context (r : ring) (Hwf : ring_wf r).

Lemma slot_count_bounds : 1 <= slot_count r < 2 ^ 32.
Proof. destruct (wf_pow2 _ Hwf) as (k & Hk & ->). by apply pow2_lt_32. Qed.

(** Masking an index of the ring is reduction modulo the slot count. *)
Lemma ring_mask_mod x :
  Z.land (wrap 32 x) (kllm_ring_mask r) = x mod slot_count r.
Proof.
  destruct (wf_pow2 _ Hwf) as (k & Hk & Heq).
  pose proof (pow2_lt_32 k Hk).
  unfold kllm_ring_mask. rewrite Heq, (wrap_small 32 (2 ^ k - 1)) by (unfold fits; lia).
  rewrite land_mask by lia. apply wrap_mod_pow2. lia.
Qed.

Lemma ring_used_bounds : 0 <= ring_used r < slot_count r.
Proof. apply Z.mod_pos_bound. pose proof slot_count_bounds. lia. Qed.

Lemma ring_contents_length : len (ring_contents r) = ring_used r.
Proof.
  unfold ring_contents. rewrite window_length.
  pose proof ring_used_bounds. lia.
Qed.

Lemma ring_available_used : kllm_ring_available r = ring_used r.
Proof. apply ring_mask_mod. Qed.

Lemma ring_free_spec :
  kllm_ring_free r = ring_capacity r - len (ring_contents r).
Proof.
  rewrite ring_contents_length. unfold kllm_ring_free, ring_capacity, ring_used.
  rewrite ring_mask_mod. pose proof slot_count_bounds.
  replace (tail r - head r - 1) with (- (head r - tail r + 1)) by lia.
  set (d := head r - tail r).
  pose proof (Z.div_mod d (slot_count r) ltac:(lia)).
  pose proof (Z.mod_pos_bound d (slot_count r) ltac:(lia)).
  symmetry. apply (Z.mod_unique_pos _ _ (- (d / slot_count r) - 1)); lia.
Qed.

(** The head is the tail advanced by the number of tokens. *)
Lemma ring_head_used : head r = (tail r + ring_used r) mod slot_count r.
Proof.
  unfold ring_used. rewrite Zplus_mod_idemp_r.
  replace (tail r + (head r - tail r)) with (head r) by lia.
  rewrite Z.mod_small; [done|apply Hwf].
Qed.

(** The ring is full exactly when advancing the head would meet the tail. *)
Lemma ring_full_iff :
  (head r + 1) mod slot_count r = tail r <-> ring_used r = ring_capacity r.
Proof.
  pose proof slot_count_bounds as Hn. pose proof ring_used_bounds as Hu.
  pose proof (wf_tail _ Hwf). pose proof (wf_head _ Hwf).
  unfold ring_capacity, ring_used in *. set (n := slot_count r) in *.
  split; intros Heq.
  - destruct (decide (head r + 1 < n)).
    + rewrite Z.mod_small in Heq by lia. symmetry.
      apply (Z.mod_unique_pos _ _ (-1)); lia.
    + assert (head r = n - 1) as Hh by lia. rewrite Hh in *.
      replace (n - 1 + 1) with (1 * n) in Heq by lia. rewrite Z_mod_mult in Heq.
      rewrite <- Heq. rewrite Z.mod_small; lia.
  - pose proof (Z.div_mod (head r - tail r) n ltac:(lia)).
    symmetry. apply (Z.mod_unique_pos _ _ ((head r - tail r) / n + 1)); lia.
Qed.

End ring_lemmas.

Lemma ring_used_with_tail r k :
  ring_wf r -> 0 <= k <= ring_used r ->
  ring_used (with_tail r ((tail r + k) mod slot_count r)) = ring_used r - k.
Proof.
  intros Hwf Hk. pose proof (slot_count_bounds r Hwf).
  pose proof (ring_used_bounds r Hwf). unfold ring_used in *. simpl.
  rewrite Zminus_mod_idemp_r.
  pose proof (Z.div_mod (head r - tail r) (slot_count r) ltac:(lia)).
  symmetry.
  apply (Z.mod_unique_pos _ _ ((head r - tail r) / slot_count r)); lia.
Qed.

Lemma ring_used_with_head r s :
  ring_wf r -> ring_used r < ring_capacity r ->
  ring_used (with_head (with_slots r s) ((head r + 1) mod slot_count r))
  = ring_used r + 1.
Proof.
  intros Hwf Hk. pose proof (slot_count_bounds r Hwf).
  pose proof (ring_used_bounds r Hwf). unfold ring_used, ring_capacity in *. simpl.
  rewrite Zminus_mod_idemp_l.
  pose proof (Z.div_mod (head r - tail r) (slot_count r) ltac:(lia)).
  symmetry.
  apply (Z.mod_unique_pos _ _ ((head r - tail r) / slot_count r)); lia.
Qed.

Lemma with_tail_wf r k : ring_wf r -> ring_wf (with_tail r (k mod slot_count r)).
Proof.
  intros Hwf. pose proof (slot_count_bounds r Hwf).
  destruct Hwf; split; simpl; auto. apply Z.mod_pos_bound. lia.
Qed.

Lemma with_head_wf r s k :
  ring_wf r -> length s = length (slots r) ->
  ring_wf (with_head (with_slots r s) (k mod slot_count r)).
Proof.
  intros Hwf Hl. pose proof (slot_count_bounds r Hwf).
  destruct Hwf; split; simpl; auto; [|lia]. apply Z.mod_pos_bound. lia.
Qed.

#[export] Hint Resolve with_tail_wf with_head_wf : kllm.

(** Dropping [k] tokens from the front of the ring. *)
Lemma ring_contents_with_tail r k :
  ring_wf r -> 0 <= k <= ring_used r ->
  ring_contents (with_tail r ((tail r + k) mod slot_count r)) =
  drop (Z.to_nat k) (ring_contents r).
Proof.
  intros Hwf Hk. unfold ring_contents.
  rewrite ring_used_with_tail, window_drop by done. simpl.
  rewrite window_mod. rewrite Z2Nat.id by lia. f_equal. lia.
Qed.

(** Writing a token at the head and publishing the head appends the token. *)
Lemma ring_contents_with_head r x :
  ring_wf r -> ring_used r < ring_capacity r ->
  ring_contents (with_head (with_slots r (<[Z.to_nat (head r) := x]> (slots r)))
                   ((head r + 1) mod slot_count r)) =
  ring_contents r ++ [x].
Proof.
  intros Hwf Hk. unfold ring_contents.
  pose proof (ring_used_bounds r Hwf). pose proof (slot_count_bounds r Hwf).
  rewrite ring_used_with_head by done. simpl.
  replace (Z.to_nat (ring_used r + 1)) with (S (Z.to_nat (ring_used r))) by lia.
  unfold ring_capacity in *.
  rewrite <- (window_push _ _ _ _ x) by (pose proof (wf_slots _ Hwf); lia).
  rewrite Z2Nat.id by lia. by rewrite <- ring_head_used.
Qed.

Lemma ring_produce_ok r x :
  ring_wf r ->
  exists r', kllm_ring_produce r x =
      Some (fst (queue_push (ring_capacity r) (ring_contents r) x), r') /\
    ring_wf r' /\ slot_count r' = slot_count r /\
    ring_contents r' = snd (queue_push (ring_capacity r) (ring_contents r) x).
Proof.
  intros Hwf. unfold kllm_ring_produce, queue_push.
  rewrite ring_mask_mod, ring_contents_length by done.
  pose proof (ring_used_bounds r Hwf). pose proof (ring_full_iff r Hwf) as Hfull.
  unfold ring_capacity in *.
  case_cond; case_cond.
  - exists r. auto.
  - pose proof (wf_head _ Hwf). pose proof (wf_slots _ Hwf).
    rewrite arr_set_in by lia. eexists. split; [done|].
    split; [|split; [done|]].
    + apply with_head_wf; [done|]. by rewrite length_insert.
    + apply ring_contents_with_head; [done|]. unfold ring_capacity. lia.
Qed.

Lemma ring_consume_ok r :
  ring_wf r -> 0 < ring_used r ->
  exists x r', user_ring_consume r = Some (x, r') /\ ring_wf r' /\
    slot_count r' = slot_count r /\ ring_contents r = x :: ring_contents r'.
Proof.
  intros Hwf Hu. unfold user_ring_consume.
  change (user_ring_mask r) with (kllm_ring_mask r).
  pose proof (wf_tail _ Hwf). pose proof (wf_slots _ Hwf).
  rewrite arr_get_total by lia. simpl. rewrite ring_mask_mod by done.
  do 2 eexists. split; [done|]. split; [auto with kllm|]. split; [done|].
  rewrite ring_contents_with_tail by (done || lia).
  unfold ring_contents.
  replace (Z.to_nat (ring_used r)) with (S (Z.to_nat (ring_used r - 1))) by lia.
  rewrite window_cons. rewrite Z.mod_small by lia. done.
Qed.

(** The copy loop of [kllm_ring_consume_batch]. *)
Lemma consume_loop_ok r out count :
  ring_wf r -> 0 <= count <= ring_used r -> count <= len out ->
  for_range (R := unit) 0 count (fun i out =>
    v ← arr_get (slots r) (Z.land (wrap 32 (tail r + i)) (user_ring_mask r));
    out' ← arr_set out i v;
    Some (Continue out')) out
  = Some (inl (take (Z.to_nat count) (ring_contents r)
                 ++ drop (Z.to_nat count) out)).
Proof.
  intros Hwf Hc Hlen. pose proof (slot_count_bounds r Hwf) as Hn.
  edestruct (for_range_rule (R := unit)
    (fun i o => o = take (Z.to_nat i) (ring_contents r) ++ drop (Z.to_nat i) out)
    (fun o => o = inl (take (Z.to_nat count) (ring_contents r)
                         ++ drop (Z.to_nat count) out)))
    as (o & -> & ->); [..|done].
  - lia.
  - done.
  - intros i o Hi ->. change (user_ring_mask r) with (kllm_ring_mask r).
    rewrite ring_mask_mod by done.
    pose proof (Z.mod_pos_bound (tail r + i) (slot_count r) ltac:(lia)).
    pose proof (wf_slots _ Hwf).
    rewrite arr_get_total by lia. simpl.
    assert (length (take (Z.to_nat i) (ring_contents r)) = Z.to_nat i) as Ht.
    { rewrite length_take. pose proof (ring_contents_length r Hwf). lia. }
    rewrite arr_set_in.
    2:{ rewrite length_app, Ht, length_drop. lia. }
    simpl. eexists. split; [done|].
    replace (Z.to_nat (i + 1)) with (S (Z.to_nat i)) by lia.
    rewrite insert_app_r_alt by lia. rewrite Ht, Nat.sub_diag.
    assert (ring_contents r !! Z.to_nat i =
      Some (slots r !!! Z.to_nat ((tail r + i) mod slot_count r))) as Hl.
    { unfold ring_contents. rewrite window_lookup by lia. by rewrite Z2Nat.id by lia. }
    rewrite (take_S_r _ _ _ Hl), <- app_assoc. f_equal.
    destruct (lookup_lt_is_Some_2 out (Z.to_nat i)) as [y Hy]; [lia|].
    by rewrite (drop_S _ _ _ Hy).
  - intros s ->. done.
Qed.

Lemma ring_consume_batch_ok r out n :
  ring_wf r -> fits 32 n -> n <= len out ->
  exists r', kllm_ring_consume_batch r out n =
      Some (Z.min (ring_used r) n,
            take (Z.to_nat n) (ring_contents r) ++
              drop (Z.to_nat (Z.min (ring_used r) n)) out, r') /\
    ring_wf r' /\ slot_count r' = slot_count r /\
    ring_contents r' = drop (Z.to_nat n) (ring_contents r).
Proof.
  intros Hwf Hn Hlen. unfold fits in Hn.
  pose proof (ring_used_bounds r Hwf). pose proof (ring_contents_length r Hwf) as Hl.
  unfold kllm_ring_consume_batch.
  change (user_ring_available r) with (kllm_ring_available r).
  rewrite ring_available_used by done.
  replace (if ring_used r <? n then ring_used r else n)
    with (Z.min (ring_used r) n) by (case_cond; lia).
  set (c := Z.min (ring_used r) n).
  rewrite (consume_loop_ok r out c) by (done || lia).
  change (user_ring_mask r) with (kllm_ring_mask r).
  simpl. rewrite ring_mask_mod by done. eexists. split.
  - do 4 f_equal. unfold c.
    destruct (Z.le_ge_cases n (ring_used r)).
    + by rewrite Z.min_r by lia.
    + rewrite !take_ge; [done|lia..].
  - split; [auto with kllm|]. split; [done|].
    rewrite ring_contents_with_tail by (done || lia). unfold c.
    destruct (Z.le_ge_cases n (ring_used r)).
    + by rewrite Z.min_r by lia.
    + rewrite !drop_ge; [done|lia..].
Qed.

(** *** Lemmas on the wheel *)

(** A wheel with at least one slot that is not a token. *)
Definition wheel_wf (w : wheel) : Prop := (w_used w < length (w_slots w))%nat.

Definition wheel_tokens (w : wheel) : list Z := take (w_used w) (w_slots w).

Lemma wheel_tokens_length w : wheel_wf w -> length (wheel_tokens w) = w_used w.
Proof. unfold wheel_wf, wheel_tokens. rewrite length_take. lia. Qed.

(** While the queue has an answer, the wheel gives the same one. *)
Lemma wheel_call_queue w op o q :
  wheel_wf w -> op_ok op ->
  queue_call (len (w_slots w) - 1) (wheel_tokens w) op = Some (o, q) ->
  fst (wheel_call w op) = o /\ wheel_tokens (snd (wheel_call w op)) = q.
Proof.
  intros Hwf Hop Hq. pose proof (wheel_tokens_length w Hwf) as Hl. destruct w as [l used].
  unfold wheel_wf, wheel_tokens in *. cbn [w_slots w_used] in *.
  destruct op as [x| |n]; cbn [queue_call wheel_call] in *.
  - unfold queue_push in Hq. rewrite Hl in Hq. destruct (Nat.ltb_spec (S used) (length l)).
    + rewrite (proj2 (Z.ltb_lt _ _)) in Hq by lia. simplify_eq. split; [done|]. cbn [snd w_slots w_used].
      rewrite (take_S_r _ _ x) by (apply list_lookup_insert_eq; lia). by rewrite take_insert_ge by lia.
    + rewrite (proj2 (Z.ltb_ge _ _)) in Hq by lia. by simplify_eq.
  - destruct l as [|y l]; [simpl in *; lia|]. destruct used as [|used]; simpl in *; [done|]. simplify_eq.
    split; [done|]. rewrite drop_0. by rewrite take_app_le by lia.
  - simplify_eq/=. split.
    + f_equal. rewrite take_take. f_equal. lia.
    + rewrite take_app_le by (rewrite length_drop; lia). rewrite <- skipn_firstn_comm.
      destruct (Nat.le_ge_cases used (Z.to_nat n)).
      * rewrite Nat.min_l, !drop_ge by (rewrite ?length_take; lia). done.
      * by rewrite Nat.min_r by lia.
Qed.

Lemma wheel_call_wf w op :
  wheel_wf w -> wheel_wf (snd (wheel_call w op)) /\
  length (w_slots (snd (wheel_call w op))) = length (w_slots w).
Proof.
  destruct w as [l used]. unfold wheel_wf. intros Hwf. cbn [w_slots w_used] in *.
  destruct op as [x| |n]; cbn [wheel_call].
  - destruct (Nat.ltb_spec (S used) (length l)); cbn; rewrite ?length_insert; lia.
  - cbn [snd w_slots w_used]. rewrite length_app, length_drop, length_take. case_decide; lia.
  - cbn [snd w_slots w_used]. rewrite length_app, length_drop, length_take. lia.
Qed.

Lemma wheel_run_queue w ops os q :
  wheel_wf w -> Forall op_ok ops ->
  queue_run (len (w_slots w) - 1) (wheel_tokens w) ops = Some (os, q) ->
  fst (wheel_run w ops) = os /\ wheel_tokens (snd (wheel_run w ops)) = q.
Proof.
  intros Hwf Hops. revert w os Hwf. induction Hops as [|op ops Hop _ IH]; intros w os Hwf Hq; simpl in *.
  { by simplify_eq. }
  destruct (queue_call _ _ op) as [[o q1]|] eqn:Hc; simpl in Hq; [|done].
  destruct (queue_run _ q1 ops) as [[os1 q2]|] eqn:Hr; simpl in Hq; [|done]. simplify_eq.
  destruct (wheel_call_queue w op o q1 Hwf Hop Hc) as [<- <-].
  destruct (wheel_call_wf w op Hwf) as [Hwf1 Hl]. destruct (wheel_call w op) as [o w1]. simpl in *.
  rewrite <- Hl in Hr. destruct (IH w1 os1 Hwf1 Hr) as [<- <-]. by destruct (wheel_run w1 ops).
Qed.

(** *** The ring and the wheel *)

Section ring_wheel.
Context (r : ring) (Hwf : ring_wf r).

Lemma ring_wheel_length : len (w_slots (ring_wheel r)) = slot_count r.
Proof. simpl. rewrite window_length. pose proof (slot_count_bounds r Hwf). lia. Qed.

Lemma ring_wheel_wf : wheel_wf (ring_wheel r).
Proof.
  unfold wheel_wf. simpl. rewrite window_length. pose proof (ring_used_bounds r Hwf). lia.
Qed.

Lemma ring_wheel_tokens : wheel_tokens (ring_wheel r) = ring_contents r.
Proof.
  unfold wheel_tokens, ring_contents. simpl. apply window_take. pose proof (ring_used_bounds r Hwf). lia.
Qed.

(** Moving the tail by [k] slots turns the wheel. *)
Lemma ring_wheel_turn k :
  0 <= k <= slot_count r ->
  w_slots (ring_wheel (with_tail r ((tail r + k) mod slot_count r))) =
    drop (Z.to_nat k) (w_slots (ring_wheel r)) ++ take (Z.to_nat k) (w_slots (ring_wheel r)).
Proof.
  intros Hk. simpl. pose proof (slot_count_bounds r Hwf) as Hn. rewrite window_drop, window_take by lia.
  replace (window _ _ (tail r) (Z.to_nat k))
    with (window (slots r) (slot_count r) (tail r + Z.of_nat (Z.to_nat k) + Z.of_nat (Z.to_nat (slot_count r) - Z.to_nat k))
            (Z.to_nat k)).
  - rewrite <- window_app, window_mod. f_equal; lia.
  - rewrite <- (window_mod _ _ (tail r)), <- window_mod. f_equal.
    replace (tail r + Z.of_nat (Z.to_nat k) + Z.of_nat (Z.to_nat (slot_count r) - Z.to_nat k))
      with (tail r + 1 * slot_count r) by lia. apply Z_mod_plus_full.
Qed.

(** Writing a token at the head. *)
Lemma ring_wheel_write x :
  window (<[Z.to_nat (head r) := x]> (slots r)) (slot_count r) (tail r) (Z.to_nat (slot_count r)) =
    <[Z.to_nat (ring_used r) := x]> (w_slots (ring_wheel r)).
Proof.
  pose proof (slot_count_bounds r Hwf) as Hn. pose proof (ring_used_bounds r Hwf) as Hu.
  pose proof (wf_slots _ Hwf). pose proof (ring_head_used r Hwf) as Hh. simpl. apply list_eq. intros i.
  destruct (decide (i < Z.to_nat (slot_count r))%nat) as [Hi|Hi].
  2:{ rewrite !lookup_ge_None_2; [done|rewrite ?length_insert, window_length; lia..]. }
  rewrite window_lookup by done. destruct (decide (i = Z.to_nat (ring_used r))) as [->|Hne].
  - rewrite list_lookup_insert_eq by (rewrite window_length; lia).
    rewrite Z2Nat.id, <- Hh by lia. f_equal. apply list_lookup_total_insert_eq. pose proof (wf_head _ Hwf). lia.
  - rewrite list_lookup_insert_ne, window_lookup by done. f_equal. apply list_lookup_total_insert_ne.
    rewrite Hh. intros Heq%Z2Nat.inj; [|apply Z.mod_pos_bound; lia..].
    apply Hne. rewrite <- (Nat2Z.id i). f_equal. apply (ring_pos_inj (slot_count r) (tail r)); [lia..|]. congruence.
Qed.

Lemma ring_wheel_produce x :
  exists r', kllm_ring_produce r x = Some (fst (queue_push (ring_capacity r) (ring_contents r) x), r') /\
    (ObsProduce (fst (queue_push (ring_capacity r) (ring_contents r) x)), ring_wheel r') =
      wheel_call (ring_wheel r) (OpProduce x).
Proof.
  unfold kllm_ring_produce, queue_push. rewrite ring_mask_mod, ring_contents_length by done.
  pose proof (ring_used_bounds r Hwf) as Hu. pose proof (ring_full_iff r Hwf) as Hfull.
  pose proof ring_wheel_length as Hl. cbn [wheel_call ring_wheel] in *. rewrite window_length in *.
  unfold ring_capacity in *.
  destruct (Z.eqb_spec ((head r + 1) mod slot_count r) (tail r)) as [He|He].
  - exists r. rewrite (proj2 (Z.ltb_ge _ _)), (proj2 (Nat.ltb_ge _ _)) by lia. done.
  - pose proof (wf_head _ Hwf). pose proof (wf_slots _ Hwf). rewrite arr_set_in by lia.
    rewrite (proj2 (Z.ltb_lt _ _)), (proj2 (Nat.ltb_lt _ _)) by lia. eexists. split; [done|].
    unfold ring_wheel. rewrite ring_used_with_head by (done || unfold ring_capacity; lia).
    cbn [slots slot_count tail with_head with_slots fst]. rewrite ring_wheel_write. do 2 f_equal. lia.
Qed.

Lemma ring_wheel_consume :
  exists x r', user_ring_consume r = Some (x, r') /\ ring_wf r' /\ slot_count r' = slot_count r /\
    (ObsConsume x, ring_wheel r') = wheel_call (ring_wheel r) OpConsume.
Proof.
  unfold user_ring_consume. change (user_ring_mask r) with (kllm_ring_mask r).
  pose proof (wf_tail _ Hwf). pose proof (wf_slots _ Hwf). pose proof (slot_count_bounds r Hwf) as Hn.
  pose proof (ring_used_bounds r Hwf) as Hu.
  rewrite arr_get_total, ring_mask_mod by (done || lia). cbn [mbind option_bind].
  do 2 eexists. split; [done|]. split; [auto with kllm|]. split; [done|].
  unfold wheel_call. destruct (ring_wheel r) as [l used] eqn:Hw.
  pose proof (ring_wheel_turn 1 ltac:(lia)) as Ht. rewrite Hw in Ht. injection Hw as <- <-.
  cbn [w_slots] in Ht. f_equal.
  - f_equal. replace (Z.to_nat (slot_count r)) with (S (Z.to_nat (slot_count r - 1))) by lia.
    rewrite window_cons. simpl. by rewrite Z.mod_small by lia.
  - unfold ring_wheel in *. cbn [w_slots slots slot_count tail with_tail] in *. rewrite Ht.
    f_equal. rewrite window_length. unfold ring_used. cbn [head tail slot_count with_tail]. fold (ring_used r). rewrite Zminus_mod_idemp_r.
    replace (head r - (tail r + 1)) with (head r - tail r - 1) by lia.
    rewrite <- Zminus_mod_idemp_l. fold (ring_used r). case_decide as Hz.
    + replace (ring_used r) with 0 by lia.
      replace ((0 - 1) mod slot_count r) with (slot_count r - 1); [lia|].
      apply (Z.mod_unique_pos _ _ (-1)); lia.
    + rewrite Z.mod_small by lia. lia.
Qed.

Lemma ring_wheel_batch n :
  fits 32 n -> exists r', kllm_ring_consume_batch r (replicate (Z.to_nat n) 0) n =
      Some (Z.min (ring_used r) n,
        take (Z.to_nat n) (ring_contents r) ++
          drop (Z.to_nat (Z.min (ring_used r) n)) (replicate (Z.to_nat n) 0), r') /\
    ring_wf r' /\ slot_count r' = slot_count r /\
    (ObsConsumeBatch (take (Z.to_nat n) (ring_contents r)), ring_wheel r') =
      wheel_call (ring_wheel r) (OpConsumeBatch n).
Proof.
  intros Hn. pose proof (ring_used_bounds r Hwf) as Hu. unfold fits in Hn.
  destruct (ring_consume_batch_ok r (replicate (Z.to_nat n) 0) n Hwf Hn) as (r' & Hr & Hwf' & Hs & _);
    [rewrite length_replicate; lia|].
  exists r'. split; [exact Hr|]. split; [done|]. split; [done|]. revert Hr.
  unfold kllm_ring_consume_batch. change (user_ring_available r) with (kllm_ring_available r).
  rewrite ring_available_used by done.
  replace (if ring_used r <? n then ring_used r else n) with (Z.min (ring_used r) n) by (case_cond; lia).
  rewrite consume_loop_ok by (rewrite ?length_replicate; done || lia).
  change (user_ring_mask r) with (kllm_ring_mask r). cbn [mbind option_bind]. rewrite ring_mask_mod by done.
  intros [= _ <-]. rewrite <- ring_wheel_tokens. unfold wheel_call, wheel_tokens.
  pose proof (ring_wheel_turn (Z.min (ring_used r) n) ltac:(lia)) as Ht.
  assert (Z.to_nat (Z.min (ring_used r) n) = Nat.min (Z.to_nat (ring_used r)) (Z.to_nat n)) as Hm by lia.
  rewrite Hm in Ht. unfold ring_wheel in *. cbn [w_slots w_used] in *. f_equal.
  - f_equal. rewrite take_take. f_equal. lia.
  - rewrite Ht, ring_used_with_tail by (done || lia). f_equal. lia.
Qed.

(** Every call on the ring is the corresponding call on the wheel. *)
Lemma ring_call_refines op :
  op_ok op ->
  exists o r', ring_call r op = Some (o, r') /\ ring_wf r' /\ slot_count r' = slot_count r /\
    (o, ring_wheel r') = wheel_call (ring_wheel r) op.
Proof.
  intros Hop. destruct op as [x| |n]; cbn [ring_call].
  - destruct (ring_produce_ok r x Hwf) as (r' & Hr & Hwf' & Hs & _).
    destruct (ring_wheel_produce x) as (r'' & Hr' & Hw). rewrite Hr in Hr'. simplify_eq.
    rewrite Hr. cbn [mbind option_bind]. by eauto 10.
  - destruct ring_wheel_consume as (x & r' & -> & Hwf' & Hs & Hw). cbn [mbind option_bind]. by eauto 10.
  - destruct (ring_wheel_batch n Hop) as (r' & -> & Hwf' & Hs & Hw). cbn [mbind option_bind].
    do 2 eexists. split; [done|]. split; [done|]. split; [done|]. rewrite <- Hw. do 2 f_equal.
    pose proof (ring_contents_length r Hwf). pose proof (ring_used_bounds r Hwf).
    simpl in Hop. unfold fits in Hop. apply take_app_length'. rewrite length_take. lia.
Qed.

End ring_wheel.

(** *** Lemmas on the interleavings *)

Lemma ring_used_nonneg r : ring_wf r -> 0 <= ring_used r.
Proof. intros Hwf. pose proof (ring_used_bounds r Hwf). lia. Qed.

(** A write at the head of a ring that is not full does not touch the tokens
    in it. *)
Lemma ring_contents_write_head r x :
  ring_wf r ->
  ring_contents (with_slots r (<[Z.to_nat (head r) := x]> (slots r))) =
  ring_contents r.
Proof.
  intros Hwf. unfold ring_contents, ring_used. simpl. fold (ring_used r).
  pose proof (ring_used_bounds r Hwf). pose proof (slot_count_bounds r Hwf).
  pose proof (wf_head _ Hwf).
  apply window_insert_other; [lia|]. intros i Hi Heq.
  pose proof (Z.mod_pos_bound (tail r + Z.of_nat i) (slot_count r) ltac:(lia)).
  apply Z2Nat.inj in Heq; [|lia..].
  rewrite (ring_head_used r Hwf) in Heq. apply ring_pos_inj in Heq; lia.
Qed.

Lemma with_slots_wf r s :
  ring_wf r -> length s = length (slots r) -> ring_wf (with_slots r s).
Proof. intros [] Hl. split; simpl; auto. lia. Qed.

Lemma consumer_inv_mono r r' c :
  consumer_inv r c -> tail r' = tail r -> ring_used r <= ring_used r' ->
  ring_contents r `prefix_of` ring_contents r' ->
  0 <= ring_used r -> len (ring_contents r) = ring_used r ->
  consumer_inv r' c.
Proof.
  destruct c as [|tl count i out]; [done|].
  intros (-> & Hi & Hc & ->) Ht Hu [q Hq] Hnn Hl. simpl. rewrite Ht.
  split_and!; [done|lia..|]. rewrite Hq, take_app_le; [done|lia].
Qed.

Lemma producer_inv_tail r p k :
  ring_wf r -> 0 <= k <= ring_used r -> producer_inv r p ->
  producer_inv (with_tail r ((tail r + k) mod slot_count r)) p.
Proof.
  intros Hwf Hk. pose proof (ring_used_with_tail r k Hwf Hk).
  unfold ring_capacity.
  destruct p; simpl; unfold ring_capacity; simpl; intuition lia.
Qed.

(** A ring whose indices are both zero is well formed and empty. *)
Lemma fresh_ring_ok m v k q l :
  0 <= k < 32 -> 2 ^ k <= len l ->
  ring_wf (Ring m v (2 ^ k) 0 0 q l) /\ ring_contents (Ring m v (2 ^ k) 0 0 q l) = [].
Proof.
  intros Hk Hl. pose proof (pow2_lt_32 k Hk). split; [|done].
  split; simpl; [eauto|lia..].
Qed.

Lemma spsc_init_inv k : 0 <= k < 32 -> spsc_inv (spsc_init k).
Proof.
  intros Hk. pose proof (pow2_lt_32 k Hk).
  split; simpl; auto.
  apply fresh_ring_ok; [done|]. rewrite length_replicate. lia.
Qed.

Lemma spsc_step_inv s s' : spsc_inv s -> spsc_step s s' -> spsc_inv s'.
Proof.
  intros [Hwf Hfifo Hp Hc] Hstep. destruct Hstep; simpl in *.
  - split; done.
  - rewrite ring_mask_mod in * by done. subst next.
    pose proof (ring_full_iff r Hwf) as Hfull.
    pose proof (ring_used_bounds r Hwf). unfold ring_capacity in Hfull.
    split; simpl; auto. unfold ring_capacity. split_and!; auto. lia.
  - destruct Hp as (-> & -> & Hu).
    match goal with H : arr_set _ _ _ = Some _ |- _ =>
      apply arr_set_Some in H as [Hr ->] end.
    assert (ring_wf (with_slots r (<[Z.to_nat (head r):=token_id]> (slots r)))).
    { apply with_slots_wf; [done|]. by rewrite length_insert. }
    split; simpl; auto.
    + by rewrite ring_contents_write_head.
    + split_and!; auto. apply list_lookup_insert_eq. lia.
    + eapply consumer_inv_mono; eauto using ring_used_nonneg, ring_contents_length;
        [done|by rewrite ring_contents_write_head].
  - destruct Hp as (-> & -> & Hu & Hslot).
    pose proof (ring_contents_with_head r token_id Hwf Hu) as Happ.
    pose proof (ring_used_with_head r (slots r) Hwf Hu) as Hused.
    rewrite list_insert_id in Happ by done.
    pose proof (with_head_wf r (slots r) (head r + 1) Hwf eq_refl).
    assert (with_slots r (slots r) = r) as Hr by by destruct r.
    rewrite Hr in *.
    split; simpl; auto.
    + rewrite Happ, Hfifo. by rewrite app_assoc.
    + eapply consumer_inv_mono; eauto using ring_used_nonneg, ring_contents_length.
      * lia.
      * rewrite Happ. by apply prefix_app_r.
  - pose proof (ring_used_nonneg r Hwf). unfold fits in *.
    change (user_ring_available r) with (kllm_ring_available r) in *.
    rewrite ring_available_used in * by done. subst.
    split; simpl; auto. split_and!; auto; try case_cond; lia.
  - destruct Hc as (-> & Hi & Hcnt & ->).
    change (user_ring_mask r) with (kllm_ring_mask r) in *.
    rewrite ring_mask_mod in * by done.
    pose proof (slot_count_bounds r Hwf). pose proof (wf_slots _ Hwf).
    pose proof (Z.mod_pos_bound (tail r + i) (slot_count r) ltac:(lia)).
    rewrite arr_get_total in * by lia. simplify_eq.
    split; simpl; auto. split_and!; auto; try lia.
    replace (Z.to_nat (i + 1)) with (S (Z.to_nat i)) by lia.
    symmetry. apply take_S_r. unfold ring_contents.
    rewrite window_lookup by lia. by rewrite Z2Nat.id by lia.
  - destruct Hc as (-> & Hi & Hcnt & ->).
    change (user_ring_mask r) with (kllm_ring_mask r).
    rewrite ring_mask_mod by done.
    split; simpl; auto with kllm.
    + rewrite ring_contents_with_tail, <- app_assoc, take_drop by done || lia. done.
    + apply producer_inv_tail; auto with lia.
Qed.

Lemma spsc_inv_safe s : spsc_inv s -> spsc_safe s /\ spsc_disjoint s.
Proof.
  intros [Hwf _ Hp Hc]. destruct s as [r p c ps cs]; simpl in *.
  unfold spsc_safe, spsc_disjoint. simpl.
  change (user_ring_mask r) with (kllm_ring_mask r).
  pose proof (slot_count_bounds r Hwf). pose proof (wf_slots _ Hwf).
  pose proof (wf_head _ Hwf). pose proof (ring_used_bounds r Hwf).
  split; [split|].
  - destruct p; simpl in *; intuition lia.
  - destruct c as [|tl count i out]; [done|]. intros Hi.
    rewrite ring_mask_mod by done.
    pose proof (Z.mod_pos_bound (tl + i) (slot_count r) ltac:(lia)). lia.
  - destruct p as [|x hd next|]; destruct c as [|tl count i out]; try done.
    destruct Hp as (-> & _ & Hu). destruct Hc as (-> & Hi & Hcnt & _).
    intros j Hj. rewrite ring_mask_mod by done.
    rewrite (ring_head_used r Hwf) at 1. intros Heq.
    apply ring_pos_inj in Heq; lia.
Qed.

(** ** Properties *)

(** C2. Any sequence of produce, consume and batch-consume calls on a well-formed
    ring runs without an access outside of the slots, keeps the ring well formed,
    and returns what the same calls return on the wheel of its slots, the
    consumption of a token that is not there included.  As long as no call of
    [kllm_ring_consume], which does not check, meets an empty ring, these are the
    answers of a FIFO queue of capacity [slot_count - 1], and the ring holds the
    contents of that queue. *)
Theorem ring_refines_queue (r : ring) (ops : list ring_op)
  (Hwf : ring_wf r) (Hops : Forall op_ok ops) :
  exists os r', ring_run r ops = Some (os, r') /\ ring_wf r' /\ slot_count r' = slot_count r /\
    (os, ring_wheel r') = wheel_run (ring_wheel r) ops /\
    forall os' q, queue_run (ring_capacity r) (ring_contents r) ops = Some (os', q) ->
      os = os' /\ ring_contents r' = q.
Proof.
  assert (exists os r', ring_run r ops = Some (os, r') /\ ring_wf r' /\ slot_count r' = slot_count r /\
    (os, ring_wheel r') = wheel_run (ring_wheel r) ops) as (os & r' & Hrun & Hwf' & Hs & Hw).
  { revert r Hwf. induction Hops as [|op ops Hop _ IH]; intros r Hwf; cbn [ring_run wheel_run]; [by eauto 10|].
    destruct (ring_call_refines r Hwf op Hop) as (o & r1 & -> & Hwf1 & Hs1 & <-).
    destruct (IH r1 Hwf1) as (os & r2 & Hr2 & Hwf2 & Hs2 & Hw2). cbn [mbind option_bind].
    rewrite Hr2, <- Hw2. cbn [mbind option_bind].
    do 2 eexists. split; [done|]. split; [done|]. split; [congruence|done]. }
  exists os, r'. split; [done|]. split; [done|]. split; [done|]. split; [done|]. intros os' q Hq.
  destruct (wheel_run_queue (ring_wheel r) ops os' q) as [Ho Ht]; [by apply ring_wheel_wf|done| |].
  - rewrite ring_wheel_length, ring_wheel_tokens by done. exact Hq.
  - rewrite <- Hw in Ho, Ht. simpl in Ho, Ht. by rewrite ring_wheel_tokens in Ht.
Qed.

Lemma ring_refines_queue_witness :
  exists r', ring_run (ring_empty 2)
      [OpProduce 7; OpProduce 8; OpProduce 9; OpProduce 10; OpConsume;
       OpProduce 11; OpConsumeBatch 2; OpConsumeBatch 5] =
      Some ([ObsProduce 0; ObsProduce 0; ObsProduce 0; ObsProduce (-1);
             ObsConsume 7; ObsProduce 0; ObsConsumeBatch [8; 9];
             ObsConsumeBatch [11]], r') /\ ring_contents r' = [].
Proof.
  edestruct (ring_refines_queue (ring_empty 2)
    [OpProduce 7; OpProduce 8; OpProduce 9; OpProduce 10; OpConsume;
       OpProduce 11; OpConsumeBatch 2; OpConsumeBatch 5]) as (os & r' & Hr & _ & _ & _ & Hq).
  - split; simpl; try (vm_compute; intuition congruence).
    exists 2. split; [lia|done].
  - repeat constructor; vm_compute; congruence.
  - destruct (Hq _ _ eq_refl) as [-> Hc]. exists r'. split; [exact Hr|exact Hc].
Defined.

(** [kllm_ring_consume] on an empty ring of four slots: it returns what was left
    in the slot, and the three other slots count as tokens. *)
Theorem consume_empty_ring :
  exists r', ring_run (ring_empty 2) [OpConsume] = Some ([ObsConsume 0], r') /\
    ring_contents r' = [0; 0; 0].
Proof. eexists. by split. Qed.

(** The lock-free protocol is safe under every interleaving: whatever the
    order in which the producer and the consumer make their accesses, the
    tokens consumed so far followed by the tokens in the ring are exactly the
    tokens published so far, in order; no access leaves the slots, and the
    producer never writes a slot the consumer still has to read. *)
Theorem spsc_interleavings_fifo (k : Z) (s : spsc)
  (Hk : 0 <= k < 32) (Hreach : rtc spsc_step (spsc_init k) s) :
  produced s = consumed s ++ ring_contents (shared s) /\
  spsc_safe s /\ spsc_disjoint s.
Proof.
  assert (spsc_inv s) as Hinv.
  { pose proof (spsc_init_inv k Hk) as Hinit.
    induction Hreach; eauto using spsc_step_inv. }
  split; [apply Hinv|]. by apply spsc_inv_safe.
Qed.

(** Two tokens published, one batch of one copied and released while the
    producer is about to write the third. *)
Lemma spsc_interleavings_fifo_witness :
  exists s, rtc spsc_step (spsc_init 2) s /\
    produced s = [5; 6] /\ consumed s = [5] /\
    produced s = consumed s ++ ring_contents (shared s).
Proof.
  eexists. assert (rtc spsc_step (spsc_init 2)
    (Spsc (with_tail (with_head (with_slots (with_head (with_slots (ring_empty 2)
       [5;0;0;0]) 1) [5;6;0;0]) 2) 1)
       (PChecked 7 2 3) CIdle [5;6] [5])) as Hreach.
  { eapply rtc_l; [by apply (step_check _ _ _ _ 5 1)|].
    eapply rtc_l; [by apply (step_write _ _ _ _ _ _ _ [5;0;0;0])|].
    eapply rtc_l; [apply step_publish|].
    eapply rtc_l; [by apply (step_load _ _ _ _ 1 1 1)|].
    eapply rtc_l; [by apply (step_check _ _ _ _ 6 2)|].
    eapply rtc_l; [by apply (step_copy _ _ _ _ _ _ _ _ 5)|].
    eapply rtc_l; [by apply (step_write _ _ _ _ _ _ _ [5;6;0;0])|].
    eapply rtc_l; [apply step_publish|].
    eapply rtc_l; [by apply (step_check _ _ _ _ 7 3)|].
    eapply rtc_l; [apply (step_release _ _ _ _ 0 1)|].
    apply rtc_refl. }
  split; [exact Hreach|]. split; [done|]. split; [done|].
  exact (proj1 (spsc_interleavings_fifo 2 _ ltac:(lia) Hreach)).
Defined.

(** The three declarations of the shared header agree: the kernel's packed
    struct, the userspace mirror and the BPF copy place every member at the
    same offset, each index on a cache line of its own, and the token slots
    start 256 bytes into the mapping in all three. *)
Theorem ring_hdr_layouts_agree :
  kernel_ring_hdr = user_ring_hdr /\ kernel_ring_hdr = bpf_ring_hdr /\
  kernel_ring_hdr = ([0; 4; 8; 12; 64; 68; 128; 132; 192; 196], 256).
Proof. by vm_compute. Qed.
