(* ===== verification/WeakRing.v ===== *)
(** * The token ring under weak memory

    [TokenRing] interleaves the accesses of producer and consumer on one memory.
    Here the stores of both sides first go to store buffers, from which they
    reach the memory later and, for stores to different locations, in any order
    that the barriers allow: [smp_wmb] and [__sync_synchronize] put a fence into
    the producer's buffer that no later store overtakes; the release store of the
    tail and the acquire load of the head make the consumer's loads happen in
    program order and before its store.

    The producer is the write loop of [kllm_tokenize] ([bpf/tokenizer.bpf.c]),
    which fills any number of slots and then publishes them with one store of the
    head; [kllm_ring_produce] ([kernel/chardev/kllm_ring.h]) is a batch of one
    token, which is dropped when the ring is full.  The consumer is
    [kllm_ring_consume_batch] ([userspace/include/kllm_ring_user.h]).

    The file proves that the ring stays a FIFO queue in this memory model, with
    an invariant over the batches that the producer's buffer holds, and that two
    producers at a time would break it. *)

From Stdlib Require Import ZArith Lia.
From stdpp Require Import base numbers list relations.
From S2P Require Import Prelude TokenRing.

#[local] Open Scope Z_scope.

(** ** The machine *)

(** A pending store of the producer, or a fence. *)
Inductive store : Type :=
| SSlot (i v : Z)
| SHead (h : Z)
| SFence.

Definition same_location (a b : store) : bool :=
  match a, b with
  | SSlot i _, SSlot j _ => i =? j
  | SHead _, SHead _ => true
  | _, _ => false
  end.

(** A store reaches the memory. *)
Definition commit (m : ring) (e : store) : option ring :=
  match e with
  | SSlot i v => slots' ← arr_set (slots m) i v; Some (with_slots m slots')
  | SHead h => Some (with_head m h)
  | SFence => Some m
  end.

(** What a side reads back of its own index: the youngest pending store, or the
    memory. *)
Definition own_head (m : ring) (buf : list store) : Z :=
  foldl (fun h e => match e with SHead h' => h' | _ => h end) (head m) buf.

Definition own_tail (m : ring) (buf : list Z) : Z := foldl (fun _ t => t) (tail m) buf.

(** The producer holds its head in a local variable while it writes the tokens
    [rest]; [wrote] are those of the batch already written. *)
Inductive weak_producer : Type :=
| WIdle
| WBatch (hd : Z) (rest wrote : list Z).

Inductive producer_step (m : ring) :
    list store * weak_producer * list Z -> list store * weak_producer * list Z -> Prop :=
| p_begin buf ps toks :
    producer_step m (buf, WIdle, ps) (buf, WBatch (own_head m buf) toks [], ps)
| p_write buf ps hd t rest ws next :
    next = Z.land (u32 (hd + 1)) (kllm_ring_mask m) ->
    next <> tail m ->
    producer_step m (buf, WBatch hd (t :: rest) ws, ps)
                    (buf ++ [SSlot hd t], WBatch next rest (ws ++ [t]), ps)
| p_full buf ps hd t rest ws :
    Z.land (u32 (hd + 1)) (kllm_ring_mask m) = tail m ->
    producer_step m (buf, WBatch hd (t :: rest) ws, ps) (buf, WBatch hd [] ws, ps)
| p_publish buf ps hd ws :
    producer_step m (buf, WBatch hd [] ws, ps) (buf ++ [SFence; SHead hd], WIdle, ps ++ ws)
| p_reject buf ps hd t :
    Z.land (u32 (hd + 1)) (kllm_ring_mask m) = tail m ->
    producer_step m (buf, WBatch hd [t] [], ps) (buf, WIdle, ps).

Inductive consumer_step (m : ring) :
    list Z * consumer_pc * list Z -> list Z * consumer_pc * list Z -> Prop :=
| c_load buf cs max_tokens avail count :
    avail = Z.land (u32 (head m - own_tail m buf)) (user_ring_mask m) ->
    fits 32 max_tokens ->
    count = (if avail <? max_tokens then avail else max_tokens) ->
    consumer_step m (buf, CIdle, cs) (buf, CCopy (own_tail m buf) count 0 [], cs)
| c_copy buf cs tl count i out v :
    i < count ->
    arr_get (slots m) (Z.land (u32 (tl + i)) (user_ring_mask m)) = Some v ->
    consumer_step m (buf, CCopy tl count i out, cs) (buf, CCopy tl count (i + 1) (out ++ [v]), cs)
| c_release buf cs tl count out :
    consumer_step m (buf, CCopy tl count count out, cs)
      (buf ++ [Z.land (u32 (tl + count)) (user_ring_mask m)], CIdle, cs ++ out).

Record weak : Type := Weak {
  w_mem : ring;
  w_pbuf : list store;
  w_prod : weak_producer;
  w_produced : list Z;
  w_cbuf : list Z;
  w_cons : consumer_pc;
  w_consumed : list Z;
}.

(** A step of the machine: of one of the two sides, or of the memory. *)
Inductive weak_step : weak -> weak -> Prop :=
| weak_produce m pb p ps pb' p' ps' cb c cs :
    producer_step m (pb, p, ps) (pb', p', ps') ->
    weak_step (Weak m pb p ps cb c cs) (Weak m pb' p' ps' cb c cs)
| weak_consume m pb p ps cb c cs cb' c' cs' :
    consumer_step m (cb, c, cs) (cb', c', cs') ->
    weak_step (Weak m pb p ps cb c cs) (Weak m pb p ps cb' c' cs')
| weak_commit m m' b1 e b2 p ps cb c cs :
    SFence ∉ b1 ++ [e] ->
    Forall (fun e' => same_location e' e = false) b1 ->
    commit m e = Some m' ->
    weak_step (Weak m (b1 ++ e :: b2) p ps cb c cs) (Weak m' (b1 ++ b2) p ps cb c cs)
| weak_fence m b p ps cb c cs :
    weak_step (Weak m (SFence :: b) p ps cb c cs) (Weak m b p ps cb c cs)
| weak_tail m pb p ps t b c cs :
    weak_step (Weak m pb p ps (t :: b) c cs) (Weak (with_tail m t) pb p ps b c cs).

Definition weak_init (k : Z) : weak := Weak (ring_empty k) [] WIdle [] [] CIdle [].

(** ** What is safe *)

(** Every access that is pending or comes next lies in the slots. *)
Definition weak_in_bounds (s : weak) : Prop :=
  let n := len (slots (w_mem s)) in
  (forall i v, SSlot i v ∈ w_pbuf s -> 0 <= i < n) /\
  match w_prod s with WBatch hd _ _ => 0 <= hd < n | WIdle => True end /\
  match w_cons s with
  | CCopy tl count i _ =>
      i < count -> 0 <= Z.land (u32 (tl + i)) (user_ring_mask (w_mem s)) < n
  | CIdle => True
  end.

(** No pending store hits a slot that the consumer still has to read. *)
Definition weak_disjoint (s : weak) : Prop :=
  match w_cons s with
  | CCopy tl count i _ => forall j p v, i <= j < count -> SSlot p v ∈ w_pbuf s ->
      Z.land (u32 (tl + j)) (user_ring_mask (w_mem s)) <> p
  | CIdle => True
  end.

(** Nothing is pending and the producer is between batches. *)
Definition weak_drained (s : weak) : Prop :=
  w_pbuf s = [] /\ w_cbuf s = [] /\ w_prod s = WIdle.

(** ** The batches in the producer's buffer

    Tokens are numbered from 0 in the order of their writing; token [j] lies in
    slot [j mod n].  The buffer consists of the slots [cur] of the oldest batch
    still being stored, preceded by its head [lo] if that is pending, and then of
    a fence, a head and the pending slots for each further batch. *)

Section batches.
Context (n : Z) (S : list Z).

Definition slot_stores (js : list Z) : list store :=
  (fun j => SSlot (j mod n) (S !!! Z.to_nat j)) <$> js.

Definition batch_stores (b : Z * list Z) : list store :=
  SFence :: SHead (b.1 mod n) :: slot_stores b.2.

Definition buffer_stores (lo : Z) (pend : bool) (cur : list Z) (rest : list (Z * list Z))
    : list store :=
  (if pend then [SHead (lo mod n)] else []) ++ slot_stores cur ++ (rest ≫= batch_stores).

End batches.

(** From head [lo] on: the tokens up to [T] are in the memory ([ok]) or pending
    in the batch they belong to, and the youngest head is [P]. *)
Fixpoint batches (ok : Z -> Prop) (P T lo : Z) (cur : list Z) (rest : list (Z * list Z)) : Prop :=
  let hi := match rest with [] => T | (h, _) :: _ => h end in
  Forall (fun j => lo <= j < hi) cur /\
  (forall j, lo <= j < hi -> ok j \/ j ∈ cur) /\
  match rest with
  | [] => lo = P /\ P <= T
  | (h, js) :: rest' => lo <= h /\ batches ok P T h js rest'
  end.

(** A slot joins the youngest batch. *)
Fixpoint push_slot (cur : list Z) (rest : list (Z * list Z)) (j : Z) : list Z * list (Z * list Z) :=
  match rest with
  | [] => (cur ++ [j], [])
  | (h, js) :: rest' => let '(js', rest'') := push_slot js rest' j in (cur, (h, js') :: rest'')
  end.

Lemma batches_le ok P T lo cur rest : batches ok P T lo cur rest -> lo <= P <= T.
Proof.
  revert lo cur. induction rest as [|[h js] rest IH]; intros lo cur (_ & _ & Hr); [lia|].
  destruct Hr as [Hlo Hr]. specialize (IH h js Hr). lia.
Qed.

Lemma batches_mono (ok ok' : Z -> Prop) P T lo cur rest :
  (forall j, lo <= j < T -> ok j -> ok' j) ->
  batches ok P T lo cur rest -> batches ok' P T lo cur rest.
Proof.
  revert lo cur. induction rest as [|[h js] rest IH]; intros lo cur Hok (Hcur & Hcov & Hr).
  - split; [done|]. split; [|done]. intros j Hj. destruct (Hcov j Hj); auto.
  - destruct Hr as [Hlo Hr]. pose proof (batches_le _ _ _ _ _ _ Hr).
    split; [done|]. split; [|split; [done|]].
    + intros j Hj. destruct (Hcov j Hj); [left; apply Hok; [lia|done]|auto].
    + apply IH; [|done]. intros j Hj. apply Hok. lia.
Qed.

Lemma batches_push ok P T lo cur rest :
  batches ok P T lo cur rest ->
  batches ok P (T + 1) lo (push_slot cur rest T).1 (push_slot cur rest T).2.
Proof.
  revert lo cur. induction rest as [|[h js] rest IH]; intros lo cur (Hcur & Hcov & Hr); simpl.
  - split; [|split; [|lia]].
    + apply Forall_app. split; [|constructor; [lia|done]].
      eapply Forall_impl; [done|]. simpl. lia.
    + intros j Hj. destruct (decide (j = T)) as [->|]; [set_solver|].
      destruct (Hcov j) as [|]; [lia|auto|set_solver].
  - destruct Hr as [Hlo Hr]. specialize (IH h js Hr).
    destruct (push_slot js rest T) as [js' rest'] eqn:Hp. done.
Qed.

Lemma batches_publish ok P T lo cur rest :
  batches ok P T lo cur rest -> batches ok T T lo cur (rest ++ [(T, [])]).
Proof.
  revert lo cur. induction rest as [|[h js] rest IH]; intros lo cur (Hcur & Hcov & Hr); simpl.
  - split; [done|]. split; [done|]. split; [lia|]. split; [done|]. split; [lia|done].
  - destruct Hr as [Hlo Hr]. auto.
Qed.

(** A slot of the oldest batch reaches the memory. *)
Lemma batches_remove (ok ok' : Z -> Prop) P T lo c1 j c2 rest :
  (forall i, lo <= i < T -> ok i -> ok' i) -> ok' j ->
  batches ok P T lo (c1 ++ j :: c2) rest -> batches ok' P T lo (c1 ++ c2) rest.
Proof.
  intros Hok Hj Hb. apply (batches_mono ok ok') in Hb; [|done].
  destruct rest as [|[h js] rest]; destruct Hb as (Hcur & Hcov & Hr);
    (split; [|split; [intros i Hi; destruct (Hcov i Hi) as [|Hin]; [auto|set_solver]|exact Hr]]);
    rewrite Forall_app, Forall_cons in Hcur; apply Forall_app; tauto.
Qed.

Section stores.
Context (n : Z).

Lemma slot_stores_app S js ks : slot_stores n S (js ++ ks) = slot_stores n S js ++ slot_stores n S ks.
Proof. apply fmap_app. Qed.

Lemma rest_stores_cons S h js rest :
  (((h, js) :: rest) ≫= batch_stores n S) =
    SFence :: SHead (h mod n) :: slot_stores n S js ++ (rest ≫= batch_stores n S).
Proof. done. Qed.

(** Tokens written later do not change the stores of earlier ones. *)
Lemma slot_stores_ext S t js :
  Forall (fun j => 0 <= j < len S) js -> slot_stores n (S ++ [t]) js = slot_stores n S js.
Proof.
  intros Hjs. apply list_fmap_ext. intros i j Hj. rewrite Forall_lookup in Hjs.
  specialize (Hjs i j Hj). f_equal. rewrite !list_lookup_total_alt, lookup_app_l by lia. done.
Qed.

Lemma rest_stores_ext S t ok P lo cur rest :
  0 <= lo -> batches ok P (len S) lo cur rest ->
  slot_stores n (S ++ [t]) cur = slot_stores n S cur /\
  (rest ≫= batch_stores n (S ++ [t])) = (rest ≫= batch_stores n S).
Proof.
  revert lo cur. induction rest as [|[h js] rest IH]; intros lo cur Hlo (Hcur & _ & Hr).
  - split; [|done]. apply slot_stores_ext. eapply Forall_impl; [done|]. simpl. lia.
  - destruct Hr as [Hle Hr]. destruct (IH h js ltac:(lia) Hr) as [Hjs Hrest].
    pose proof (batches_le _ _ _ _ _ _ Hr). split.
    + apply slot_stores_ext. eapply Forall_impl; [done|]. simpl. lia.
    + by rewrite !rest_stores_cons, Hjs, Hrest.
Qed.

Lemma push_slot_stores S cur rest j :
  slot_stores n S (push_slot cur rest j).1 ++ ((push_slot cur rest j).2 ≫= batch_stores n S) =
  (slot_stores n S cur ++ (rest ≫= batch_stores n S)) ++ [SSlot (j mod n) (S !!! Z.to_nat j)].
Proof.
  revert cur. induction rest as [|[h js] rest IH]; intros cur; cbn [push_slot fst snd].
  - rewrite slot_stores_app. change (@nil (Z * list Z) ≫= batch_stores n S) with (@nil store).
    by rewrite !app_nil_r.
  - specialize (IH js). destruct (push_slot js rest j) as [js' rest']. cbn [fst snd] in *.
    rewrite !rest_stores_cons, IH, <- (app_assoc (slot_stores n S cur)). done.
Qed.

Lemma own_head_app m b1 b2 : own_head m (b1 ++ b2) = own_head (with_head m (own_head m b1)) b2.
Proof. unfold own_head. by rewrite foldl_app. Qed.

Lemma own_head_slots m S js : own_head m (slot_stores n S js) = head m.
Proof. unfold own_head. induction js as [|j js IH]; [done|]. simpl. apply IH. Qed.

(** The producer reads back the youngest head. *)
Lemma own_head_batches m S ok P T lo cur rest :
  head m = lo mod n -> batches ok P T lo cur rest ->
  own_head m (slot_stores n S cur ++ (rest ≫= batch_stores n S)) = P mod n.
Proof.
  revert m lo cur. induction rest as [|[h js] rest IH]; intros m lo cur Hm (_ & _ & Hr);
    rewrite own_head_app, own_head_slots.
  - destruct Hr as [-> _]. simpl. by rewrite Hm.
  - destruct Hr as [_ Hr]. rewrite rest_stores_cons.
    change (own_head (with_head m (h mod n)) (slot_stores n S js ++ (rest ≫= batch_stores n S)) =
      P mod n). by apply (IH _ h).
Qed.

End stores.

(** A committed entry belongs to the oldest batch, since every further one is
    behind a fence. *)
Lemma commit_split (r0 t b1 b2 : list store) e :
  (t = [] \/ exists t', t = SFence :: t') -> SFence ∉ b1 ++ [e] ->
  r0 ++ t = b1 ++ e :: b2 -> exists b2', r0 = b1 ++ e :: b2' /\ b2 = b2' ++ t.
Proof.
  intros Ht. revert r0. induction b1 as [|x b1 IH]; intros r0 Hnf Heq.
  - destruct r0 as [|y r0]; simpl in *; [|by simplify_eq; eauto].
    destruct Ht as [->|[t' ->]]; simplify_eq. set_solver.
  - destruct r0 as [|y r0]; simpl in *.
    + destruct Ht as [->|[t' ->]]; simplify_eq. set_solver.
    + simplify_eq. destruct (IH r0) as (b2' & -> & ->); [set_solver|done|eauto].
Qed.

Lemma rest_fenced n S rest :
  (rest ≫= batch_stores n S) = [] \/ exists t', (rest ≫= batch_stores n S) = SFence :: t'.
Proof. destruct rest as [|[h js] rest]; [by left|right]. by eexists. Qed.

(** ** The invariant *)

Definition wrote_of (p : weak_producer) : list Z :=
  match p with WIdle => [] | WBatch _ _ ws => ws end.

(** The tokens written so far, published or not. *)
Definition written_tokens (s : weak) : list Z := w_produced s ++ wrote_of (w_prod s).

(** Token [j] is in its slot of the memory. *)
Definition stored (m : ring) (S : list Z) (j : Z) : Prop :=
  slots m !! Z.to_nat (j mod slot_count m) = S !! Z.to_nat j.

(** The pending tails lead from [t] to [C]. *)
Fixpoint tails (C t : Z) (ts : list Z) : Prop :=
  match ts with [] => t = C | t' :: ts' => t <= t' /\ tails C t' ts' end.

(** The indices of the memory and the buffers, counted from the start. *)
Record ghost : Type := Ghost {
  g_head : Z;
  g_tail : Z;
  g_lo : Z;
  g_pend : bool;
  g_cur : list Z;
  g_rest : list (Z * list Z);
  g_tails : list Z;
}.

Definition weak_consumer_inv (n : Z) (hm : Z) (ps cs : list Z) (c : consumer_pc) : Prop :=
  match c with
  | CIdle => True
  | CCopy tl count i out =>
      tl = len cs mod n /\ 0 <= i <= count /\ len cs + count <= hm /\
      out = take (Z.to_nat i) (drop (length cs) ps)
  end.

Record weak_inv (s : weak) (g : ghost) : Prop := {
  wi_wf : ring_wf (w_mem s);
  wi_head : head (w_mem s) = g_head g mod slot_count (w_mem s);
  wi_tail : tail (w_mem s) = g_tail g mod slot_count (w_mem s);
  wi_order : 0 <= g_tail g <= len (w_consumed s) /\
    len (w_consumed s) <= g_head g <= g_lo g /\
    len (written_tokens s) < g_tail g + slot_count (w_mem s);
  wi_pend : g_pend g = false -> g_head g = g_lo g;
  wi_pbuf : w_pbuf s = buffer_stores (slot_count (w_mem s)) (written_tokens s)
    (g_lo g) (g_pend g) (g_cur g) (g_rest g);
  wi_done : forall j, g_tail g <= j < g_lo g -> stored (w_mem s) (written_tokens s) j;
  wi_batches : batches (stored (w_mem s) (written_tokens s)) (len (w_produced s))
    (len (written_tokens s)) (g_lo g) (g_cur g) (g_rest g);
  wi_prod : match w_prod s with
            | WIdle => True
            | WBatch hd _ _ => hd = len (written_tokens s) mod slot_count (w_mem s)
            end;
  wi_cbuf : w_cbuf s = (fun t => t mod slot_count (w_mem s)) <$> g_tails g /\
    tails (len (w_consumed s)) (g_tail g) (g_tails g);
  wi_cons : weak_consumer_inv (slot_count (w_mem s)) (g_head g) (w_produced s) (w_consumed s)
    (w_cons s);
  wi_prefix : w_consumed s `prefix_of` w_produced s;
}.

Lemma stored_app m S t j : 0 <= j < len S -> stored m S j -> stored m (S ++ [t]) j.
Proof. intros Hj. unfold stored. by rewrite lookup_app_l by lia. Qed.

(** The store of one token leaves the other tokens of the window alone. *)
Lemma stored_insert m S i v j lo :
  ring_wf m -> lo <= i < lo + slot_count m -> lo <= j < lo + slot_count m ->
  S !! Z.to_nat i = Some v ->
  (j <> i -> stored m S j) ->
  stored (with_slots m (<[Z.to_nat (i mod slot_count m) := v]> (slots m))) S j.
Proof.
  intros Hwf Hi Hj Hv Hok. pose proof (slot_count_bounds m Hwf). pose proof (wf_slots m Hwf).
  pose proof (Z.mod_pos_bound i (slot_count m) ltac:(lia)).
  pose proof (Z.mod_pos_bound j (slot_count m) ltac:(lia)).
  unfold stored in *. cbn [slots with_slots slot_count].
  destruct (decide (j = i)) as [->|Hne].
  - rewrite list_lookup_insert_eq by lia. done.
  - rewrite list_lookup_insert_ne; [by apply Hok|]. intros Heq%Z2Nat.inj; [|lia..].
    apply Hne. assert (i - lo = j - lo); [|lia].
    apply (ring_pos_inj (slot_count m) lo); [lia..|].
    by replace (lo + (i - lo)) with i by lia; replace (lo + (j - lo)) with j by lia.
Qed.

Lemma tails_le C t ts : tails C t ts -> t <= C.
Proof.
  revert t. induction ts as [|t' ts IH]; intros t; simpl; [lia|]. intros [? ?%IH]. lia.
Qed.

Lemma tails_snoc C C' t ts : C <= C' -> tails C t ts -> tails C' t (ts ++ [C']).
Proof. revert t. induction ts as [|t' ts IH]; intros t; simpl; naive_solver lia. Qed.

Lemma own_tail_tails m n C t ts :
  tail m = t mod n -> tails C t ts -> own_tail m ((fun t => t mod n) <$> ts) = C mod n.
Proof.
  unfold own_tail. generalize (tail m) as x. intros x Hx. revert t x Hx.
  induction ts as [|t' ts IH]; intros t x Hx; simpl; [by intros <-|].
  intros [_ Ht]. by apply (IH t').
Qed.

(** The next position differs from the tail exactly when a slot is free. *)
Lemma next_not_tail n T tm :
  0 < n -> tm <= T < tm + n -> (T + 1) mod n <> tm mod n -> T + 1 < tm + n.
Proof.
  intros Hn HT Hne. destruct (decide (T + 1 = tm + n)) as [Heq|]; [|lia].
  exfalso. apply Hne. rewrite Heq, <- (Z_mod_plus_full tm 1 n). f_equal. lia.
Qed.

Ltac weak_simpl :=
  unfold written_tokens in *;
  cbn [w_mem w_prod w_produced wrote_of w_pbuf w_cbuf w_cons w_consumed
       g_head g_tail g_lo g_pend g_cur g_rest g_tails
       slot_count head tail slots with_head with_tail with_slots] in *.

(** *** The producer *)

Lemma weak_begin_inv m pb ps cb c cs toks g :
  weak_inv (Weak m pb WIdle ps cb c cs) g ->
  weak_inv (Weak m pb (WBatch (own_head m pb) toks []) ps cb c cs) g.
Proof.
  intros [Hwf Hh Ht Ho Hp Hb Hd Hbs _ Hcb Hc Hpre]. split; try done.
  weak_simpl.
  rewrite app_nil_r in *. rewrite Hb. unfold buffer_stores.
  destruct (g_pend g) eqn:Hpend.
  - rewrite own_head_app. by eapply own_head_batches; [|exact Hbs].
  - eapply own_head_batches; [|exact Hbs]. by rewrite Hh, Hp.
Qed.

Lemma weak_write_inv m pb hd t rest ws ps cb c cs g :
  weak_inv (Weak m pb (WBatch hd (t :: rest) ws) ps cb c cs) g ->
  Z.land (u32 (hd + 1)) (kllm_ring_mask m) <> tail m ->
  exists g', weak_inv (Weak m (pb ++ [SSlot hd t])
    (WBatch (Z.land (u32 (hd + 1)) (kllm_ring_mask m)) rest (ws ++ [t])) ps cb c cs) g'.
Proof.
  intros [Hwf Hh Ht Ho Hp Hb Hd Hbs Hpr Hcb Hc Hpre] Hne.
  weak_simpl.
  rewrite ring_mask_mod in * by done. set (S := ps ++ ws) in *. set (n := slot_count m) in *.
  pose proof (slot_count_bounds m Hwf). pose proof (batches_le _ _ _ _ _ _ Hbs).
  subst hd. rewrite Zplus_mod_idemp_l, Ht in *.
  apply next_not_tail in Hne; [|lia..].
  exists (Ghost (g_head g) (g_tail g) (g_lo g) (g_pend g) (push_slot (g_cur g) (g_rest g) (len S)).1
    (push_slot (g_cur g) (g_rest g) (len S)).2 (g_tails g)).
  split; weak_simpl; rewrite ?app_assoc; fold S n; try done.
  - rewrite length_app. simpl. lia.
  - destruct (rest_stores_ext n S t _ _ (g_lo g) (g_cur g) (g_rest g) ltac:(lia) Hbs) as [E1 E2].
    rewrite Hb. unfold buffer_stores. rewrite push_slot_stores, E1, E2.
    rewrite list_lookup_total_middle by lia. by rewrite <- !app_assoc.
  - intros j Hj. apply stored_app; [lia|]. by apply Hd.
  - rewrite length_app. simpl. replace (Z.of_nat (length S + 1)) with (len S + 1) by lia.
    apply batches_push. eapply batches_mono; [|done]. intros j Hj. apply stored_app. lia.
  - rewrite length_app. simpl. f_equal. lia.
Qed.

Lemma weak_publish_inv m pb hd ws ps cb c cs g :
  weak_inv (Weak m pb (WBatch hd [] ws) ps cb c cs) g ->
  exists g', weak_inv (Weak m (pb ++ [SFence; SHead hd]) WIdle (ps ++ ws) cb c cs) g'.
Proof.
  intros [Hwf Hh Ht Ho Hp Hb Hd Hbs Hpr Hcb Hc Hpre].
  weak_simpl.
  set (S := ps ++ ws) in *. set (n := slot_count m) in *.
  pose proof (batches_le _ _ _ _ _ _ Hbs).
  exists (Ghost (g_head g) (g_tail g) (g_lo g) (g_pend g) (g_cur g) (g_rest g ++ [(len S, [])])
    (g_tails g)).
  split; weak_simpl; rewrite ?app_nil_r; fold n; try done.
  - rewrite Hb. unfold buffer_stores. rewrite bind_app. subst hd. by rewrite <- !app_assoc.
  - by eapply batches_publish.
  - destruct c as [|tl count i out]; [done|]. destruct Hc as (H1 & H2 & H3 & ->).
    split_and!; try done; [lia..|]. unfold S. rewrite drop_app_le, take_app_le; [done|..];
      rewrite ?length_drop; lia.
  - by apply prefix_app_r.
Qed.

Lemma weak_producer_inv m pb p ps pb' p' ps' cb c cs g :
  weak_inv (Weak m pb p ps cb c cs) g -> producer_step m (pb, p, ps) (pb', p', ps') ->
  exists g', weak_inv (Weak m pb' p' ps' cb c cs) g'.
Proof.
  intros Hinv Hstep. inversion Hstep; subst.
  - exists g. by apply weak_begin_inv.
  - by eapply weak_write_inv.
  - exists g. by destruct Hinv.
  - by eapply weak_publish_inv.
  - exists g. by destruct Hinv.
Qed.

(** *** The consumer *)

(** What the consumer knows about its own tail and the tokens it may read. *)
Lemma weak_consumer_facts s g :
  weak_inv s g ->
  let n := slot_count (w_mem s) in let C := len (w_consumed s) in
  own_tail (w_mem s) (w_cbuf s) = C mod n /\ 1 <= n <= len (slots (w_mem s)) /\
  g_head g - C < n /\ g_head g <= len (w_produced s) /\
  forall j, C <= j < g_head g ->
    slots (w_mem s) !! Z.to_nat (j mod n) = w_produced s !! Z.to_nat j.
Proof.
  intros [Hwf Hh Ht Ho Hp Hb Hd Hbs Hpr [Hcb Hts] Hc Hpre]. cbn zeta.
  pose proof (batches_le _ _ _ _ _ _ Hbs). pose proof (slot_count_bounds _ Hwf).
  pose proof (wf_slots _ Hwf). split_and!; [|lia..|].
  - rewrite Hcb. by eapply own_tail_tails.
  - intros j Hj. rewrite (Hd j) by lia. unfold written_tokens. by rewrite lookup_app_l by lia.
Qed.

Lemma weak_load_inv m pb p ps cb cs n g :
  weak_inv (Weak m pb p ps cb CIdle cs) g -> fits 32 n ->
  let avail := Z.land (u32 (head m - own_tail m cb)) (user_ring_mask m) in
  weak_inv (Weak m pb p ps cb
    (CCopy (own_tail m cb) (if avail <? n then avail else n) 0 []) cs) g.
Proof.
  intros Hinv Hn. pose proof (weak_consumer_facts _ _ Hinv) as (Hot & Hn1 & Hspan & _).
  destruct Hinv. split; try done. weak_simpl.
  change (user_ring_mask m) with (kllm_ring_mask m). rewrite ring_mask_mod by done.
  rewrite wi_head0, Hot, <- Zminus_mod, (Z.mod_small (_ - _)) by lia.
  unfold fits in *. split_and!; [done|lia|case_cond; lia|case_cond; lia|done].
Qed.

Lemma weak_copy_inv m pb p ps cb tl count i out v cs g :
  weak_inv (Weak m pb p ps cb (CCopy tl count i out) cs) g -> i < count ->
  arr_get (slots m) (Z.land (u32 (tl + i)) (user_ring_mask m)) = Some v ->
  weak_inv (Weak m pb p ps cb (CCopy tl count (i + 1) (out ++ [v])) cs) g.
Proof.
  intros Hinv Hi Hv. pose proof (weak_consumer_facts _ _ Hinv) as (_ & Hn1 & _ & Hh & Hst).
  destruct Hinv. split; try done. weak_simpl. destruct wi_cons0 as (-> & Hic & Hcnt & ->).
  change (user_ring_mask m) with (kllm_ring_mask m) in Hv.
  rewrite ring_mask_mod, Zplus_mod_idemp_l in Hv by done.
  pose proof (Z.mod_pos_bound (len cs + i) (slot_count m) ltac:(lia)).
  rewrite arr_get_lookup, (Hst (len cs + i)) in Hv by lia.
  split_and!; [done|lia..|]. replace (Z.to_nat (i + 1)) with (Datatypes.S (Z.to_nat i)) by lia.
  symmetry. apply take_S_r. rewrite lookup_drop, <- Hv. f_equal. lia.
Qed.

Lemma weak_release_inv m pb p ps cb tl count out cs g :
  weak_inv (Weak m pb p ps cb (CCopy tl count count out) cs) g ->
  exists g', weak_inv (Weak m pb p ps
    (cb ++ [Z.land (u32 (tl + count)) (user_ring_mask m)]) CIdle (cs ++ out)) g'.
Proof.
  intros Hinv. pose proof (weak_consumer_facts _ _ Hinv) as (_ & Hn1 & _ & Hhp & _).
  destruct Hinv as [Hwf Hh Ht Ho Hp Hb Hd Hbs Hpr [Hcb Hts] (-> & Hi & Hcnt & ->) Hpre].
  weak_simpl. change (user_ring_mask m) with (kllm_ring_mask m).
  rewrite ring_mask_mod, Zplus_mod_idemp_l by done.
  assert (Hlen : len (cs ++ take (Z.to_nat count) (drop (length cs) ps)) = len cs + count).
  { rewrite length_app, length_take, length_drop. lia. }
  exists (Ghost (g_head g) (g_tail g) (g_lo g) (g_pend g) (g_cur g) (g_rest g)
    (g_tails g ++ [len cs + count])).
  split; weak_simpl; rewrite ?Hlen; try done; [lia| |].
  - rewrite fmap_app, Hcb. split; [done|]. apply (tails_snoc (len cs)); [lia|done].
  - destruct Hpre as [q ->]. rewrite drop_app_length. apply prefix_app, prefix_take.
Qed.

(** *** The memory *)

(** Where the memory takes the oldest batch from. *)
Lemma oldest_batch n S lo (pend : bool) cur b1 e b2 :
  (if pend then [SHead (lo mod n)] else []) ++ slot_stores n S cur = b1 ++ e :: b2 ->
  (exists c1 j c2, cur = c1 ++ j :: c2 /\ e = SSlot (j mod n) (S !!! Z.to_nat j) /\
     b1 ++ b2 = (if pend then [SHead (lo mod n)] else []) ++ slot_stores n S (c1 ++ c2)) \/
  (pend = true /\ e = SHead (lo mod n) /\ b1 ++ b2 = slot_stores n S cur).
Proof.
  assert (Hslots : forall b1, slot_stores n S cur = b1 ++ e :: b2 ->
    exists c1 j c2, cur = c1 ++ j :: c2 /\ e = SSlot (j mod n) (S !!! Z.to_nat j) /\
      b1 ++ b2 = slot_stores n S (c1 ++ c2)).
  { intros b (c1 & c' & -> & H' & ->)%fmap_app_inv. symmetry in H'.
    apply fmap_cons_inv in H' as (j & c2 & -> & -> & ->).
    exists c1, j, c2. by rewrite slot_stores_app. }
  destruct pend; simpl.
  - destruct b1 as [|x b1]; intros Heq; simplify_eq/=; [by right|left].
    destruct (Hslots b1) as (c1 & j & c2 & -> & -> & ->); [done|]. by exists c1, j, c2.
  - intros Heq%Hslots. by left.
Qed.

Lemma weak_commit_slot_inv m b1 b2 e i v slots' p ps cb c cs g :
  weak_inv (Weak m b1 p ps cb c cs) g -> arr_set (slots m) i v = Some slots' ->
  (exists c1 j c2, g_cur g = c1 ++ j :: c2 /\ e = SSlot i v /\
    e = SSlot (j mod slot_count m) ((ps ++ wrote_of p) !!! Z.to_nat j) /\
    b2 = buffer_stores (slot_count m) (ps ++ wrote_of p) (g_lo g) (g_pend g) (c1 ++ c2) (g_rest g)) ->
  exists g', weak_inv (Weak (with_slots m slots') b2 p ps cb c cs) g'.
Proof.
  intros Hinv [Hir ->]%arr_set_Some (c1 & j & c2 & Hcur & -> & Heq & ->). simplify_eq.
  destruct Hinv as [Hwf Hh Ht Ho Hp Hb Hd Hbs Hpr Hcb Hc Hpre]. weak_simpl.
  set (S := ps ++ wrote_of p) in *. pose proof (batches_le _ _ _ _ _ _ Hbs).
  assert (Hj : g_lo g <= j < len S).
  { rewrite Hcur in Hbs. destruct (g_rest g) as [|[h js] r]; destruct Hbs as (HF & _ & Hr);
      rewrite Forall_app, Forall_cons in HF; [lia|].
    destruct Hr as [_ Hr]. apply batches_le in Hr. lia. }
  assert (Hlook : S !! Z.to_nat j = Some (S !!! Z.to_nat j)) by (apply list_lookup_lookup_total_lt; lia).
  assert (Hst : forall i, g_tail g <= i < len S -> (i <> j -> stored m S i) ->
    stored (with_slots m (<[Z.to_nat (j mod slot_count m) := S !!! Z.to_nat j]> (slots m))) S i).
  { intros i Hi Hok. apply (stored_insert m S j _ i (g_tail g)); try done; lia. }
  exists (Ghost (g_head g) (g_tail g) (g_lo g) (g_pend g) (c1 ++ c2) (g_rest g) (g_tails g)).
  split; weak_simpl; fold S; try done.
  - apply with_slots_wf; [done|]. by rewrite length_insert.
  - intros i Hi. apply Hst; [lia|]. intros _. by apply Hd.
  - rewrite Hcur in Hbs. eapply batches_remove; [..|exact Hbs].
    + intros i Hi Hok. by apply Hst; [lia|].
    + by apply Hst; [lia|].
Qed.

Lemma weak_commit_inv m m' b1 e b2 p ps cb c cs g :
  weak_inv (Weak m (b1 ++ e :: b2) p ps cb c cs) g ->
  SFence ∉ b1 ++ [e] -> commit m e = Some m' ->
  exists g', weak_inv (Weak m' (b1 ++ b2) p ps cb c cs) g'.
Proof.
  intros Hinv Hnf Hcom. pose proof (wi_pbuf _ _ Hinv) as Hb. weak_simpl.
  unfold buffer_stores in Hb. rewrite app_assoc in Hb. symmetry in Hb.
  apply commit_split in Hb as (b2' & Hr0 & ->); [|apply rest_fenced|done].
  rewrite app_assoc. apply oldest_batch in Hr0 as [(c1 & j & c2 & Hcur & -> & ->)|(Hpd & -> & ->)].
  - simpl in Hcom. apply bind_Some in Hcom as (slots' & Hset & ?). simplify_eq.
    eapply weak_commit_slot_inv; [done..|]. exists c1, j, c2. split_and!; try done.
    unfold buffer_stores. by rewrite app_assoc.
  - simpl in Hcom. simplify_eq. destruct Hinv as [Hwf Hh Ht Ho Hp Hb Hd Hbs Hpr Hcb Hc Hpre].
    pose proof (slot_count_bounds m Hwf). weak_simpl.
    exists (Ghost (g_lo g) (g_tail g) (g_lo g) false (g_cur g) (g_rest g) (g_tails g)).
    split; weak_simpl; try done.
    + destruct Hwf. split; simpl; try done. apply Z.mod_pos_bound. lia.
    + lia.
    + destruct c as [|tl count i out]; [done|]. destruct Hc as (? & ? & ? & ?). split_and!; done || lia.
Qed.

Lemma weak_fence_inv m b p ps cb c cs g :
  weak_inv (Weak m (SFence :: b) p ps cb c cs) g -> exists g', weak_inv (Weak m b p ps cb c cs) g'.
Proof.
  intros [Hwf Hh Ht Ho Hp Hb Hd Hbs Hpr Hcb Hc Hpre]. weak_simpl.
  destruct g as [hm tm lo pend cur rest ts]. weak_simpl. unfold buffer_stores in Hb.
  destruct pend; [done|]. destruct cur as [|j cur]; [|done]. destruct rest as [|[h js] rest]; [done|].
  rewrite rest_stores_cons in Hb. simpl in Hb. simplify_eq.
  destruct Hbs as (_ & Hcov & Hle & Hbs).
  exists (Ghost hm tm h true js rest ts). split; weak_simpl; try done.
  - lia.
  - intros j Hj. destruct (decide (j < lo)); [apply Hd; lia|].
    destruct (Hcov j) as [|Hin]; [lia|done|by apply not_elem_of_nil in Hin].
Qed.

Lemma weak_tail_inv m pb p ps t b c cs g :
  weak_inv (Weak m pb p ps (t :: b) c cs) g ->
  exists g', weak_inv (Weak (with_tail m t) pb p ps b c cs) g'.
Proof.
  intros [Hwf Hh Ht Ho Hp Hb Hd Hbs Hpr [Hcb Hts] Hc Hpre]. weak_simpl.
  pose proof (slot_count_bounds m Hwf).
  destruct g as [hm tm lo pend cur rest [|t' ts]]; weak_simpl; simplify_eq/=.
  destruct Hts as [Hle Hts]. pose proof (tails_le _ _ _ Hts).
  exists (Ghost hm t' lo pend cur rest ts). split; weak_simpl; try done.
  - destruct Hwf. split; simpl; try done. apply Z.mod_pos_bound. lia.
  - lia.
  - intros j Hj. apply Hd. lia.
Qed.

Lemma weak_step_inv s s' g : weak_inv s g -> weak_step s s' -> exists g', weak_inv s' g'.
Proof.
  intros Hinv Hstep.
  destruct Hstep as [m pb p ps pb' p' ps' cb c cs Hps|m pb p ps cb c cs cb' c' cs' Hcs
    |m m' b1 e b2 p ps cb c cs Hnf _ Hcom|m b p ps cb c cs|m pb p ps t b c cs].
  - by eapply weak_producer_inv.
  - inversion Hcs; subst.
    + exists g. by apply weak_load_inv.
    + exists g. by eapply weak_copy_inv.
    + by eapply weak_release_inv.
  - by eapply weak_commit_inv.
  - by eapply weak_fence_inv.
  - by eapply weak_tail_inv.
Qed.

Lemma weak_init_inv k : 0 <= k < 32 -> weak_inv (weak_init k) (Ghost 0 0 0 false [] [] []).
Proof.
  intros Hk. pose proof (pow2_lt_32 k Hk).
  split; unfold weak_init, ring_empty; weak_simpl; rewrite ?Zmod_0_l; try done.
  - apply fresh_ring_ok; [done|]. rewrite length_replicate. lia.
  - simpl. lia.
  - intros j Hj. lia.
  - simpl. split; [done|]. split; [|lia]. intros j Hj. lia.
Qed.

Lemma weak_reachable k s : 0 <= k < 32 -> rtc weak_step (weak_init k) s -> exists g, weak_inv s g.
Proof.
  intros Hk Hreach. assert (exists g, weak_inv (weak_init k) g) as Hg
    by (eexists; by apply weak_init_inv).
  induction Hreach as [|s1 s2 s3 Hstep _ IH]; [done|].
  apply IH. destruct Hg as [g Hg]. by eapply weak_step_inv.
Qed.

(** ** What follows from the invariant *)

(** A pending slot store is that of a token that has been written and not been
    published to the memory. *)
Lemma pending_slot n S ok P T lo (pend : bool) cur rest i v :
  0 <= lo -> batches ok P T lo cur rest -> SSlot i v ∈ buffer_stores n S lo pend cur rest ->
  exists j, lo <= j < T /\ i = j mod n.
Proof.
  intros Hlo Hb. unfold buffer_stores. rewrite elem_of_app.
  intros [Hin|Hin]; [by destruct pend; set_solver|]. revert lo cur Hlo Hb Hin.
  induction rest as [|[h js] rest IH]; intros lo cur Hlo Hb Hin; pose proof (batches_le _ _ _ _ _ _ Hb) as Hle;
    destruct Hb as (HF & _ & Hr); rewrite Forall_forall in HF; rewrite elem_of_app in Hin;
    destruct Hin as [Hin|Hin].
  - apply list_elem_of_fmap in Hin as (j & ? & Hj). simplify_eq. exists j. split; [|done].
    by apply HF.
  - by apply not_elem_of_nil in Hin.
  - apply list_elem_of_fmap in Hin as (j & ? & Hj). simplify_eq. exists j. split; [|done].
    specialize (HF j Hj). destruct Hr as [_ Hr%batches_le]. lia.
  - destruct Hr as [Hh Hr]. rewrite rest_stores_cons in Hin.
    apply elem_of_cons in Hin as [|[|Hin]%elem_of_cons]; [done|done|].
    destruct (IH h js ltac:(lia) Hr Hin) as (j & Hj & ->). exists j. split; [lia|done].
Qed.

Lemma weak_inv_safe s g : weak_inv s g -> weak_in_bounds s /\ weak_disjoint s.
Proof.
  intros Hinv. pose proof (weak_consumer_facts _ _ Hinv) as (_ & Hn & _).
  destruct Hinv as [Hwf Hh Ht Ho Hp Hb Hd Hbs Hpr Hcb Hc Hpre].
  destruct s as [m pb p ps cb c cs]. unfold weak_in_bounds, weak_disjoint. weak_simpl. subst pb.
  change (user_ring_mask m) with (kllm_ring_mask m).
  pose proof (batches_le _ _ _ _ _ _ Hbs).
  assert (Hmod : forall x, 0 <= x mod slot_count m < len (slots m)).
  { intros x. pose proof (Z.mod_pos_bound x (slot_count m) ltac:(lia)). lia. }
  split; [split_and!|].
  - intros i v Hin. eapply pending_slot in Hin as (j & _ & ->); [|lia|done]. apply Hmod.
  - destruct p; [done|]. rewrite Hpr. apply Hmod.
  - destruct c as [|tl count i out]; [done|]. intros _. rewrite ring_mask_mod by done. apply Hmod.
  - destruct c as [|tl count i out]; [done|]. intros j p' v Hj Hin.
    eapply pending_slot in Hin as (j' & Hj' & ->); [|lia|done].
    destruct Hc as (-> & Hi & Hcnt & _). rewrite ring_mask_mod, Zplus_mod_idemp_l by done.
    intros Heq. assert (len cs + j - g_tail g = j' - g_tail g); [|lia].
    apply (ring_pos_inj (slot_count m) (g_tail g)); [lia..|].
    replace (g_tail g + (len cs + j - g_tail g)) with (len cs + j) by lia.
    by replace (g_tail g + (j' - g_tail g)) with j' by lia.
Qed.

(** In a drained machine the memory holds what is published and not consumed. *)
Lemma weak_inv_drained s g :
  weak_inv s g -> weak_drained s -> w_produced s = w_consumed s ++ ring_contents (w_mem s).
Proof.
  intros Hinv (Hpb & Hcb0 & Hidle). pose proof (weak_consumer_facts _ _ Hinv) as (_ & Hn & Hspan & _ & Hst).
  destruct Hinv as [Hwf Hh Ht Ho Hp Hb Hd Hbs Hpr [Hcb Hts] Hc Hpre].
  destruct s as [m pb p ps cb c cs]. weak_simpl. rewrite Hb in Hpb. rewrite Hcb in Hcb0. subst p.
  destruct g as [hm tm lo pend cur rest ts]. weak_simpl. unfold buffer_stores in Hpb. clear Hb Hcb.
  destruct pend; [done|]. destruct cur; [|done]. destruct rest as [|[h js] rest]; [|done].
  destruct ts as [|t ts]; [|done]. simpl in Hts. destruct Hbs as (_ & _ & Hlo & _).
  assert (hm = len ps) as -> by (rewrite Hlo in Hp; by apply Hp). subst tm.
  destruct Hpre as [q ->]. f_equal. rewrite length_app in *.
  assert (Hused : ring_used m = len q).
  { unfold ring_used. rewrite Hh, Ht, <- Zminus_mod, Z.mod_small; lia. }
  apply list_eq. intros i. unfold ring_contents. rewrite Hused, Nat2Z.id.
  destruct (decide (i < length q)%nat) as [Hi|Hi].
  - rewrite window_lookup by done. rewrite Ht, Zplus_mod_idemp_l.
    pose proof (Hst (len cs + Z.of_nat i) ltac:(lia)) as Hs.
    replace (Z.to_nat (len cs + Z.of_nat i)) with (length cs + i)%nat in Hs by lia.
    rewrite lookup_app_r in Hs by lia. replace (length cs + i - length cs)%nat with i in Hs by lia.
    rewrite <- Hs. apply list_lookup_lookup_total_lt.
    pose proof (Z.mod_pos_bound (len cs + Z.of_nat i) (slot_count m) ltac:(lia)). lia.
  - rewrite !lookup_ge_None_2; [done|rewrite window_length; lia|lia].
Qed.

(** ** Theorems *)

(** C1.  The ring is a FIFO queue also on a machine that delays and reorders
    stores: whatever the batches, the interleaving and the order in which the
    stores reach the memory, the tokens consumed are a prefix of the tokens
    published; no access leaves the slots and no pending store hits a slot that
    the consumer still reads; and when nothing is pending, the tokens published
    are those consumed followed by those in the ring. *)
Theorem weak_ring_fifo (k : Z) (s : weak)
  (Hk : 0 <= k < 32) (Hreach : rtc weak_step (weak_init k) s) :
  w_consumed s `prefix_of` w_produced s /\ weak_in_bounds s /\ weak_disjoint s /\
  (weak_drained s -> w_produced s = w_consumed s ++ ring_contents (w_mem s)).
Proof.
  destruct (weak_reachable k s Hk Hreach) as [g Hinv].
  destruct (weak_inv_safe s g Hinv) as [Hb Hd].
  split; [apply Hinv|]. split; [done|]. split; [done|]. by eapply weak_inv_drained.
Qed.

(** Two tokens in one batch; the second slot and, after the fence, the head reach
    the memory, and one token is consumed while its release is still pending. *)
Lemma weak_ring_fifo_witness :
  exists s, rtc weak_step (weak_init 2) s /\ w_produced s = [5; 6] /\ w_consumed s = [5] /\
    w_cbuf s = [1] /\ w_consumed s `prefix_of` w_produced s.
Proof.
  eexists. assert (rtc weak_step (weak_init 2)
    (Weak (with_head (with_slots (with_slots (ring_empty 2) [0; 6; 0; 0]) [5; 6; 0; 0]) 2)
       [] WIdle [5; 6] [1] CIdle [5])) as Hreach.
  { eapply rtc_l; [apply weak_produce, (p_begin _ _ _ [5; 6])|].
    eapply rtc_l; [by eapply weak_produce, (p_write _ _ _ _ _ _ _ 1)|].
    eapply rtc_l; [by eapply weak_produce, (p_write _ _ _ _ _ _ _ 2)|].
    eapply rtc_l; [apply weak_produce, p_publish|].
    eapply rtc_l; [apply (weak_commit _ (with_slots (ring_empty 2) [0; 6; 0; 0]) [SSlot 0 5]);
      [set_solver|by repeat constructor|done]|].
    eapply rtc_l; [apply (weak_commit _
      (with_slots (with_slots (ring_empty 2) [0; 6; 0; 0]) [5; 6; 0; 0]) []); [set_solver|done|done]|].
    eapply rtc_l; [apply weak_fence|].
    eapply rtc_l; [apply (weak_commit _
      (with_head (with_slots (with_slots (ring_empty 2) [0; 6; 0; 0]) [5; 6; 0; 0]) 2) []);
      [set_solver|done|done]|].
    eapply rtc_l; [by apply weak_consume, (c_load _ _ _ 1 2 1)|].
    eapply rtc_l; [by apply weak_consume, (c_copy _ _ _ _ _ _ _ 5)|].
    eapply rtc_l; [apply weak_consume, (c_release _ _ _ 0 1)|]. apply rtc_refl. }
  split; [exact Hreach|]. split; [done|]. split; [done|]. split; [done|].
  exact (proj1 (weak_ring_fifo 2 _ ltac:(lia) Hreach)).
Defined.

(** ** Two producers

    Nothing in the sources keeps two prompts from being tokenized at the same
    time.  Two producers on one memory, whose stores take effect at once. *)

Fixpoint commit_all (m : ring) (buf : list store) : option ring :=
  match buf with
  | [] => Some m
  | e :: buf' => m' ← commit m e; commit_all m' buf'
  end.

Inductive race_step :
    ring * weak_producer * weak_producer * list Z -> ring * weak_producer * weak_producer * list Z -> Prop :=
| race_first m p q ps buf p' ps' m' :
    producer_step m ([], p, ps) (buf, p', ps') -> commit_all m buf = Some m' ->
    race_step (m, p, q, ps) (m', p', q, ps')
| race_second m p q ps buf q' ps' m' :
    producer_step m ([], q, ps) (buf, q', ps') -> commit_all m buf = Some m' ->
    race_step (m, p, q, ps) (m', p, q', ps').

(** Two prompts of one token each, tokenized at the same time: both publish, and
    the ring holds only one of them. *)
Theorem two_producers_lose :
  exists m, rtc race_step (ring_empty 2, WIdle, WIdle, []) (m, WIdle, WIdle, [5; 6]) /\
    ring_contents m = [6].
Proof.
  exists (with_head (with_slots (with_head (with_slots (ring_empty 2) [5; 0; 0; 0]) 1) [6; 0; 0; 0]) 1).
  split; [|done].
  eapply rtc_l; [eapply race_first; [apply (p_begin _ _ _ [5])|done]|].
  eapply rtc_l; [eapply race_second; [apply (p_begin _ _ _ [6])|done]|].
  eapply rtc_l; [eapply race_first; [by eapply p_write|done]|].
  eapply rtc_l; [eapply race_first; [apply p_publish|done]|].
  eapply rtc_l; [eapply race_second; [by eapply p_write|done]|].
  eapply rtc_l; [eapply race_second; [apply p_publish|done]|]. apply rtc_refl.
Qed.
