(* ===== verification/Chardev.v ===== *)
(** * The character device [/dev/llm_prompt1]

    Models [kernel/chardev/llm_prompt.c]: the per-device state, the response
    ring that carries generated tokens back to readers, the file operations
    and the module's init and exit.

    The state is [kllm_device].  [KernelLib] is the interface to the kernel's
    circular-buffer and rounding macros, with their documented behaviour as
    laws; allocation, user-memory faults and the wait queue are arguments of
    the operations that use them.  A spin-locked section is one step.

    [kllm_read] is given twice: as one operation ([kllm_read]) and as the steps
    between which the source does not hold the lock ([reader_step]), which is what
    the theorems about concurrent readers and writers are about. *)

From Stdlib Require Import ZArith Lia.
From stdpp Require Import base numbers list gmap relations.
From S2P Require Import Prelude TokenRing.

#[local] Open Scope Z_scope.

(** ** The kernel library *)

(** [CIRC_CNT] and [CIRC_SPACE] of <linux/circ_buf.h> for power-of-two sizes,
    and [rounddown_pow_of_two] of <linux/log2.h>. *)
Class KernelLib : Type := {
  CIRC_CNT : Z -> Z -> Z -> Z;
  CIRC_SPACE : Z -> Z -> Z -> Z;
  rounddown_pow_of_two : Z -> Z;
  circ_cnt_law : forall k head tail, 0 <= k < 32 ->
    0 <= head < 2 ^ k -> 0 <= tail < 2 ^ k ->
    CIRC_CNT head tail (2 ^ k) = (head - tail) mod 2 ^ k;
  circ_space_law : forall k head tail, 0 <= k < 32 ->
    0 <= head < 2 ^ k -> 0 <= tail < 2 ^ k ->
    CIRC_SPACE head tail (2 ^ k) = 2 ^ k - 1 - (head - tail) mod 2 ^ k;
  rounddown_law : forall k n, 0 <= k < 32 -> 2 ^ k <= n < 2 ^ (k + 1) ->
    rounddown_pow_of_two n = 2 ^ k;
}.

(** ** Constants *)

Definition EAGAIN : Z := 11.
Definition ENOMEM : Z := 12.
Definition EFAULT : Z := 14.
Definition EINVAL : Z := 22.
Definition ENOTTY : Z := 25.
Definition EFBIG : Z := 27.

Definition KLLM_MAX_PROMPT_SIZE : Z := 64 * 1024.
Definition PAGE_SIZE : Z := 4096.
Definition KLLM_RING_ORDER : Z := 9.
Definition KLLM_RING_BYTES : Z := Z.shiftl PAGE_SIZE KLLM_RING_ORDER.

(** The token the EOS ioctl pushes. *)
Definition EOS_SENTINEL : Z := 0xFFFFFFFF.

Definition EPOLLIN : Z := 0x1.
Definition EPOLLOUT : Z := 0x4.
Definition EPOLLRDNORM : Z := 0x40.
Definition EPOLLWRNORM : Z := 0x100.

Definition VM_WRITE : Z := 0x2.
Definition VM_DONTEXPAND : Z := 0x40000.
Definition VM_DONTDUMP : Z := 0x4000000.

(** ** State *)

(** [struct kllm_emit_cmd]: the array has 256 entries whatever the count. *)
Record kllm_emit_cmd : Type := EmitCmd {
  emit_count : Z;
  emit_tokens : list Z;
}.

(** The commands of [kllm_ioctl]; [None] is an argument that faults. *)
Inductive ioctl_cmd : Type :=
| KLLM_IOC_EMIT_TOKENS (arg : option kllm_emit_cmd)
| KLLM_IOC_EOS
| IOC_other (cmd : Z).

(** [struct kllm_device]; a null pointer is [None]. *)
Record kllm_device : Type := Device {
  token_ring : option ring;
  ring_page : bool;
  resp_ring : option (list Z);
  resp_head : Z;
  resp_tail : Z;
  resp_mask : Z;
}.

(** The part of a [vm_area_struct] that [kllm_mmap] uses. *)
Record vm_area : Type := VmArea {
  vm_start : Z;
  vm_end : Z;
  vm_pgoff : Z;
  vm_flags : Z;
}.

(** Memory and registrations the module holds outside of [kllm_device]. *)
Record kernel_res : Type := Res {
  live_pages : Z;
  live_bufs : Z;
  registered : bool;
}.

Definition kllm_dev0 : kllm_device := Device None false None 0 0 0.

Definition set_resp (d : kllm_device) (l : list Z) (h : Z) : kllm_device :=
  Device (token_ring d) (ring_page d) (Some l) h (resp_tail d) (resp_mask d).

Definition set_resp_tail (d : kllm_device) (t : Z) : kllm_device :=
  Device (token_ring d) (ring_page d) (resp_ring d) (resp_head d) t (resp_mask d).

Section chardev.
Context `{KL : KernelLib}.

(** ** Response ring helpers *)

Definition resp_ring_count (dev : kllm_device) : Z :=
  CIRC_CNT (resp_head dev) (resp_tail dev) (u32 (resp_mask dev + 1)).

Definition resp_ring_space (dev : kllm_device) : Z :=
  CIRC_SPACE (resp_head dev) (resp_tail dev) (u32 (resp_mask dev + 1)).

(** A token that finds no space is dropped. *)
Definition kllm_resp_produce (dev : kllm_device) (token_id : Z)
    : option kllm_device :=
  if 0 <? resp_ring_space dev then
    l ← resp_ring dev;
    l' ← arr_set l (resp_head dev) token_id;
    Some (set_resp dev l' (Z.land (u32 (resp_head dev + 1)) (resp_mask dev)))
  else Some dev.

(** ** File operations *)

(** [kvmalloc] and [copy_from_user] as their outcome; the second component
    counts the buffers that stay allocated. *)
Definition kllm_write (count : Z) (kvmalloc_ok copy_ok : bool) (live : Z)
    : Z * Z :=
  if count =? 0 then (0, live)
  else if KLLM_MAX_PROMPT_SIZE <? count then (- EFBIG, live)
  else if negb kvmalloc_ok then (- ENOMEM, live)
  else
    let live := live + 1 in
    let ret := if negb copy_ok then - EFAULT else count in
    (ret, live - 1).

(** What the first locked section of [kllm_read] decides: how many tokens to
    copy and, when the copy wraps, how many of them come before the end of the
    ring. *)
Record read_plan : Type := Plan {
  to_copy : Z;
  first_part : option Z;
}.

Definition read_align (count : Z) : Z := Z.ldiff count (4 - 1).

Definition read_lock (dev : kllm_device) (count : Z) : read_plan :=
  let avail := resp_ring_count dev in
  let n := Z.min avail (u32 (count / 4)) in
  if u32 (resp_tail dev + n) <=? u32 (resp_mask dev + 1) then Plan n None
  else Plan n (Some (u32 (u32 (resp_mask dev + 1) - resp_tail dev))).

(** The unlocked copy: it reads [dev->resp_tail] again.  [fault] is the outcome
    of [copy_to_user]; a fault is [Some None]. *)
Definition read_copy (dev : kllm_device) (p : read_plan) (fault : bool)
    : option (option (list Z)) :=
  l ← resp_ring dev;
  match first_part p with
  | None =>
      words ← arr_slice l (resp_tail dev) (to_copy p);
      Some (if fault then None else Some words)
  | Some first =>
      let second := u32 (to_copy p - first) in
      w1 ← arr_slice l (resp_tail dev) first;
      w2 ← arr_slice l 0 second;
      Some (if fault then None else Some (w1 ++ w2))
  end.

Definition read_unlock (dev : kllm_device) (p : read_plan) : kllm_device :=
  set_resp_tail dev (Z.land (u32 (resp_tail dev + to_copy p)) (resp_mask dev)).

(** [wait dev] is [wait_event_interruptible]: its result and the device when it
    returns.  The result is the C result, the words written to the user buffer
    and the device. *)
Definition kllm_read (dev : kllm_device) (count : Z) (nonblock : bool)
    (wait : kllm_device -> Z * kllm_device) (fault : bool)
    : option (Z * list Z * kllm_device) :=
  let count := read_align count in
  if count =? 0 then Some (0, [], dev)
  else
    let '(ret, dev) :=
      if resp_ring_count dev =? 0 then
        if nonblock then (- EAGAIN, dev) else wait dev
      else (0, dev) in
    if negb (ret =? 0) then Some (ret, [], dev)
    else
      let p := read_lock dev count in
      copied ← read_copy dev p fault;
      match copied with
      | None => Some (- EFAULT, [], dev)
      | Some words => Some (to_copy p * 4, words, read_unlock dev p)
      end.

Definition kllm_poll (dev : kllm_device) : Z :=
  let mask := 0 in
  let mask := if 0 <? resp_ring_count dev
              then Z.lor mask (Z.lor EPOLLIN EPOLLRDNORM) else mask in
  Z.lor mask (Z.lor EPOLLOUT EPOLLWRNORM).

(** [remap] is the result of [remap_pfn_range] for the mapping asked for. *)
Definition kllm_mmap (dev : kllm_device) (vma : vm_area) (remap : vm_area -> Z)
    : Z * vm_area :=
  let size := u64 (vm_end vma - vm_start vma) in
  if KLLM_RING_BYTES <? size then (- EINVAL, vma)
  else if negb (vm_pgoff vma =? 0) then (- EINVAL, vma)
  else
    let vma' := VmArea (vm_start vma) (vm_end vma) (vm_pgoff vma)
      (Z.lor (vm_flags vma) (Z.lor VM_DONTEXPAND VM_DONTDUMP)) in
    (remap vma', vma').

Definition kllm_ioctl (dev : kllm_device) (cmd : ioctl_cmd)
    : option (Z * kllm_device) :=
  match cmd with
  | KLLM_IOC_EMIT_TOKENS None => Some (- EFAULT, dev)
  | KLLM_IOC_EMIT_TOKENS (Some emit) =>
      if 256 <? emit_count emit then Some (- EINVAL, dev)
      else
        res ← for_range (R := unit) 0 (emit_count emit) (fun i dev =>
          t ← arr_get (emit_tokens emit) i;
          dev' ← kllm_resp_produce dev t;
          Some (Continue dev')) dev;
        match res with inl dev' => Some (0, dev') | inr _ => None end
  | KLLM_IOC_EOS =>
      dev' ← kllm_resp_produce dev EOS_SENTINEL;
      Some (0, dev')
  | IOC_other _ => Some (- ENOTTY, dev)
  end.

(** ** Module init and exit *)

Definition kllm_alloc_token_ring (dev : kllm_device) (res : kernel_res)
    (page_ok : bool) : Z * kllm_device * kernel_res :=
  if negb page_ok then (- ENOMEM, dev, res)
  else
    let words := (KLLM_RING_BYTES - KLLM_RING_HDR_SIZE) / 4 in
    let count := rounddown_pow_of_two (u32 words) in
    let hdr := Ring KLLM_TOKEN_RING_MAGIC KLLM_TOKEN_RING_VERSION count 0 0 0
      (zeroed words) in
    (0, Device (Some hdr) true (resp_ring dev) (resp_head dev) (resp_tail dev)
          (resp_mask dev),
     Res (live_pages res + Z.shiftl 1 KLLM_RING_ORDER) (live_bufs res)
       (registered res)).

Definition kllm_free_token_ring (dev : kllm_device) (res : kernel_res)
    : kllm_device * kernel_res :=
  if ring_page dev then
    (Device None false (resp_ring dev) (resp_head dev) (resp_tail dev)
       (resp_mask dev),
     Res (live_pages res - Z.shiftl 1 KLLM_RING_ORDER) (live_bufs res)
       (registered res))
  else (dev, res).

(** [reg] is the result of [misc_register]. *)
Definition kllm_init (dev : kllm_device) (res : kernel_res)
    (page_ok resp_ok : bool) (reg : Z) : Z * kllm_device * kernel_res :=
  let '(ret, dev, res) := kllm_alloc_token_ring dev res page_ok in
  if negb (ret =? 0) then (ret, dev, res)
  else
    let mask := 4096 - 1 in
    let dev := Device (token_ring dev) (ring_page dev) (resp_ring dev)
      (resp_head dev) (resp_tail dev) mask in
    if negb resp_ok then
      let '(dev, res) := kllm_free_token_ring dev res in
      (- ENOMEM, dev, res)
    else
      let ring0 := zeroed (u32 (mask + 1)) in
      let dev := Device (token_ring dev) (ring_page dev) (Some ring0) 0 0 mask in
      let res := Res (live_pages res) (live_bufs res + 1) (registered res) in
      if negb (reg =? 0) then
        let res := Res (live_pages res) (live_bufs res - 1) (registered res) in
        let '(dev, res) := kllm_free_token_ring dev res in
        (reg, dev, res)
      else (0, dev, Res (live_pages res) (live_bufs res) true).

Definition kllm_exit (dev : kllm_device) (res : kernel_res)
    : kllm_device * kernel_res :=
  let res := Res (live_pages res) (live_bufs res) false in
  let res := Res (live_pages res) (live_bufs res - 1) (registered res) in
  kllm_free_token_ring dev res.

(** ** Well-formedness and abstraction *)

Record resp_wf (dev : kllm_device) : Prop := {
  resp_pow2 : exists k, 0 <= k < 32 /\ resp_mask dev = 2 ^ k - 1;
  resp_head_ok : 0 <= resp_head dev <= resp_mask dev;
  resp_tail_ok : 0 <= resp_tail dev <= resp_mask dev;
  resp_mem : exists l, resp_ring dev = Some l /\ len l = resp_mask dev + 1;
}.

Definition resp_size (dev : kllm_device) : Z := resp_mask dev + 1.

Definition resp_used (dev : kllm_device) : Z :=
  (resp_head dev - resp_tail dev) mod resp_size dev.

(** The generated tokens readers have not consumed, oldest first. *)
Definition resp_contents (dev : kllm_device) : list Z :=
  window (default [] (resp_ring dev)) (resp_size dev) (resp_tail dev)
    (Z.to_nat (resp_used dev)).

(** The specification of the response path: a queue of at most [cap] tokens
    that keeps the oldest. *)
Definition resp_push (cap : Z) (q ts : list Z) : list Z :=
  q ++ take (Z.to_nat (cap - len q)) ts.

(** ** Concurrent readers and writers *)

Inductive reader_pc : Type :=
| RIdle
| RChecked (count : Z)
| RPlanned (p : read_plan)
| RCopied (p : read_plan) (words : list Z).

(** [accepted] are the tokens the response ring took, [delivered] the words
    that finished reads returned, in the order they finished. *)
Record resp_sys : Type := Sys {
  sys_dev : kllm_device;
  readers : list reader_pc;
  accepted : list Z;
  delivered : list Z;
}.

Inductive reader_step : resp_sys -> resp_sys -> Prop :=
| rs_produce dev dev' rs acc del token_id :
    0 < resp_ring_space dev ->
    kllm_resp_produce dev token_id = Some dev' ->
    reader_step (Sys dev rs acc del) (Sys dev' rs (acc ++ [token_id]) del)
| rs_drop dev rs acc del token_id :
    resp_ring_space dev <= 0 ->
    kllm_resp_produce dev token_id = Some dev ->
    reader_step (Sys dev rs acc del) (Sys dev rs acc del)
| rs_check dev rs acc del i count :
    rs !! i = Some RIdle ->
    fits 64 count -> read_align count <> 0 ->
    resp_ring_count dev <> 0 ->
    reader_step (Sys dev rs acc del)
      (Sys dev (<[i := RChecked (read_align count)]> rs) acc del)
| rs_lock dev rs acc del i count :
    rs !! i = Some (RChecked count) ->
    reader_step (Sys dev rs acc del)
      (Sys dev (<[i := RPlanned (read_lock dev count)]> rs) acc del)
| rs_copy dev rs acc del i p words :
    rs !! i = Some (RPlanned p) ->
    read_copy dev p false = Some (Some words) ->
    reader_step (Sys dev rs acc del)
      (Sys dev (<[i := RCopied p words]> rs) acc del)
| rs_finish dev rs acc del i p words :
    rs !! i = Some (RCopied p words) ->
    reader_step (Sys dev rs acc del)
      (Sys (read_unlock dev p) (<[i := RIdle]> rs) acc (del ++ words)).

(** A device whose response ring has [2^k] free slots, with [n] idle readers. *)
Definition resp_dev (k : Z) : kllm_device :=
  Device None false (Some (zeroed (2 ^ k))) 0 0 (2 ^ k - 1).

Definition sys_init (k : Z) (n : nat) : resp_sys :=
  Sys (resp_dev k) (replicate n RIdle) [] [].

Definition reader_inv (dev : kllm_device) (pc : reader_pc) : Prop :=
  match pc with
  | RIdle | RChecked _ => True
  | RPlanned p =>
      0 <= to_copy p <= resp_used dev /\
      first_part p =
        (if resp_tail dev + to_copy p <=? resp_size dev then None
         else Some (resp_size dev - resp_tail dev))
  | RCopied p words =>
      0 <= to_copy p <= resp_used dev /\
      words = take (Z.to_nat (to_copy p)) (resp_contents dev)
  end.

Record sys_inv (s : resp_sys) : Prop := {
  sys_wf : resp_wf (sys_dev s);
  sys_fifo : accepted s = delivered s ++ resp_contents (sys_dev s);
  sys_reader : exists pc, readers s = [pc] /\ reader_inv (sys_dev s) pc;
}.

(** ** Lemmas *)

Section resp_lemmas.
Context (dev : kllm_device) (Hwf : resp_wf dev).

Lemma resp_size_bounds : 1 <= resp_size dev < 2 ^ 32.
Proof.
  destruct (resp_pow2 _ Hwf) as (k & Hk & Heq).
  pose proof (pow2_lt_32 k Hk). unfold resp_size. lia.
Qed.

Lemma resp_size_u32 : wrap 32 (resp_mask dev + 1) = resp_size dev.
Proof. apply wrap_small. pose proof resp_size_bounds. unfold fits, resp_size in *. lia. Qed.

Lemma resp_mask_mod x : Z.land (wrap 32 x) (resp_mask dev) = x mod resp_size dev.
Proof.
  destruct (resp_pow2 _ Hwf) as (k & Hk & Heq). unfold resp_size.
  rewrite Heq, land_mask by lia. replace (2 ^ k - 1 + 1) with (2 ^ k) by lia.
  apply wrap_mod_pow2. lia.
Qed.

Lemma resp_used_bounds : 0 <= resp_used dev < resp_size dev.
Proof. apply Z.mod_pos_bound. pose proof resp_size_bounds. lia. Qed.

Lemma resp_contents_length : len (resp_contents dev) = resp_used dev.
Proof.
  unfold resp_contents. rewrite window_length. pose proof resp_used_bounds. lia.
Qed.

Lemma resp_count_used : resp_ring_count dev = resp_used dev.
Proof.
  unfold resp_ring_count. rewrite resp_size_u32. unfold resp_used, resp_size.
  pose proof (resp_head_ok _ Hwf). pose proof (resp_tail_ok _ Hwf).
  destruct (resp_pow2 _ Hwf) as (k & Hk & Heq). rewrite Heq in *.
  replace (2 ^ k - 1 + 1) with (2 ^ k) by lia.
  apply circ_cnt_law; lia.
Qed.

Lemma resp_space_used : resp_ring_space dev = resp_mask dev - resp_used dev.
Proof.
  unfold resp_ring_space. rewrite resp_size_u32. unfold resp_used, resp_size.
  pose proof (resp_head_ok _ Hwf). pose proof (resp_tail_ok _ Hwf).
  destruct (resp_pow2 _ Hwf) as (k & Hk & Heq). rewrite Heq in *.
  replace (2 ^ k - 1 + 1) with (2 ^ k) by lia.
  by rewrite (circ_space_law k) by lia.
Qed.

Lemma resp_head_pos :
  resp_head dev = (resp_tail dev + resp_used dev) mod resp_size dev.
Proof.
  unfold resp_used. rewrite Zplus_mod_idemp_r.
  replace (resp_tail dev + (resp_head dev - resp_tail dev))
    with (resp_head dev) by lia.
  rewrite Z.mod_small; [done|]. pose proof (resp_head_ok _ Hwf).
  unfold resp_size. lia.
Qed.

(** A token that finds space is appended, another one is dropped. *)
Lemma resp_produce_ok x :
  exists dev', kllm_resp_produce dev x = Some dev' /\ resp_wf dev' /\
    resp_mask dev' = resp_mask dev /\ resp_tail dev' = resp_tail dev /\
    resp_contents dev' = resp_push (resp_mask dev) (resp_contents dev) [x] /\
    (resp_used dev < resp_mask dev ->
       resp_contents dev' = resp_contents dev ++ [x]) /\
    (resp_mask dev <= resp_used dev -> dev' = dev).
Proof.
  unfold kllm_resp_produce, resp_push.
  rewrite resp_space_used, resp_contents_length.
  pose proof resp_used_bounds as Hu. pose proof resp_size_bounds as Hs.
  destruct (resp_mem _ Hwf) as (l & Hl & Hlen).
  pose proof (resp_head_ok _ Hwf) as Hh. unfold resp_size in *.
  case_cond.
  - rewrite Hl. simpl. rewrite arr_set_in by lia. simpl.
    rewrite resp_mask_mod. unfold resp_size. eexists. split; [done|].
    set (dev' := set_resp _ _ _).
    assert (resp_used dev' = resp_used dev + 1) as Hu'.
    { unfold resp_used, dev', resp_size in *. simpl.
      rewrite Zminus_mod_idemp_l.
      pose proof (Z.div_mod (resp_head dev - resp_tail dev) (resp_mask dev + 1)
        ltac:(lia)).
      symmetry. apply (Z.mod_unique_pos _ _
        ((resp_head dev - resp_tail dev) / (resp_mask dev + 1))); lia. }
    assert (resp_contents dev' = resp_contents dev ++ [x]) as Hc.
    { unfold resp_contents. rewrite Hu', Hl. unfold dev', resp_size. simpl.
      replace (Z.to_nat (resp_used dev + 1)) with (S (Z.to_nat (resp_used dev)))
        by lia.
      rewrite <- (window_push _ _ _ _ x) by lia.
      rewrite Z2Nat.id by lia.
      change (resp_mask dev + 1) with (resp_size dev). by rewrite <- resp_head_pos. }
    split_and!; [|done|done| |done|lia].
    + split; simpl.
      * apply Hwf.
      * pose proof (Z.mod_pos_bound (resp_head dev + 1) (resp_mask dev + 1)
          ltac:(lia)). lia.
      * apply Hwf.
      * eexists. split; [done|]. by rewrite length_insert.
    + rewrite Hc, take_ge; [done|simpl; lia].
  - exists dev. split_and!; try done; [|lia].
    replace (Z.to_nat (resp_mask dev - resp_used dev)) with 0%nat by lia.
    by rewrite app_nil_r.
Qed.

(** The locked section of [kllm_read] plans a copy of tokens that are there. *)
Lemma read_lock_inv count :
  reader_inv dev (RPlanned (read_lock dev count)) /\
  to_copy (read_lock dev count) = Z.min (resp_used dev) (wrap 32 (count / 4)).
Proof.
  unfold read_lock. rewrite resp_count_used, resp_size_u32 by done.
  pose proof resp_used_bounds as Hu. pose proof (resp_tail_ok _ Hwf) as Ht.
  pose proof (wrap_bound 32 (count / 4) ltac:(lia)) as Hc.
  destruct (resp_pow2 _ Hwf) as (k & Hk & Heq).
  assert (2 ^ k <= 2 ^ 31) as Hp by (apply Z.pow_le_mono_r; lia).
  unfold resp_size in *. rewrite Heq in *.
  set (n := Z.min (resp_used dev) (wrap 32 (count / 4))) in *.
  rewrite (wrap_small 32 (resp_tail dev + n)) by (unfold fits; lia).
  unfold reader_inv, resp_size. rewrite Heq.
  destruct (resp_tail dev + n <=? 2 ^ k - 1 + 1) eqn:E; simpl; rewrite E;
    split_and!; try lia; try done.
  rewrite (wrap_small 32) by (unfold fits; lia). done.
Qed.

(** The copy returns the oldest tokens, across the end of the ring too. *)
Lemma read_copy_ok p fault :
  reader_inv dev (RPlanned p) ->
  read_copy dev p fault =
    Some (if fault then None
          else Some (take (Z.to_nat (to_copy p)) (resp_contents dev))).
Proof.
  intros [Hn Hf]. unfold read_copy.
  destruct (resp_mem _ Hwf) as (l & Hl & Hlen). rewrite Hl. simpl.
  pose proof resp_used_bounds as Hu. pose proof resp_size_bounds as Hs.
  pose proof (resp_tail_ok _ Hwf) as Ht.
  unfold resp_contents. rewrite Hl. simpl.
  rewrite window_take by lia. rewrite Hf. unfold resp_size in *.
  destruct (Z.leb_spec (resp_tail dev + to_copy p) (resp_mask dev + 1)).
  - rewrite arr_slice_in by lia. simpl.
    by rewrite (window_slice _ (resp_mask dev + 1)) by lia.
  - rewrite (arr_slice_in l (resp_tail dev)) by lia. simpl.
    rewrite (wrap_small 32) by (unfold fits; lia).
    rewrite arr_slice_in by lia. simpl. rewrite drop_0.
    rewrite <- window_slice_wrap by lia.
    by replace (Z.to_nat (to_copy p - (resp_mask dev + 1 - resp_tail dev)))
      with (Z.to_nat (to_copy p) - Z.to_nat (resp_mask dev + 1 - resp_tail dev))%nat
      by lia.
Qed.

Lemma read_unlock_ok p :
  0 <= to_copy p <= resp_used dev ->
  resp_wf (read_unlock dev p) /\
  resp_contents (read_unlock dev p) =
    drop (Z.to_nat (to_copy p)) (resp_contents dev).
Proof.
  intros Hn. unfold read_unlock. rewrite resp_mask_mod.
  pose proof resp_used_bounds as Hu. pose proof resp_size_bounds as Hs.
  pose proof (Z.mod_pos_bound (resp_tail dev + to_copy p) (resp_size dev)
    ltac:(lia)) as Hm.
  split.
  - destruct Hwf. split; simpl; auto. unfold resp_size in *. lia.
  - unfold resp_contents. rewrite window_drop. simpl.
    change (resp_size (set_resp_tail _ _)) with (resp_size dev).
    rewrite window_mod, Z2Nat.id by lia. f_equal.
    cut (resp_used (set_resp_tail dev ((resp_tail dev + to_copy p)
           mod resp_size dev)) = resp_used dev - to_copy p); [lia|].
    unfold resp_used in *. simpl.
    change (resp_size (set_resp_tail _ _)) with (resp_size dev).
    rewrite Zminus_mod_idemp_r.
    pose proof (Z.div_mod (resp_head dev - resp_tail dev) (resp_size dev)
      ltac:(lia)).
    symmetry. apply (Z.mod_unique_pos _ _
      ((resp_head dev - resp_tail dev) / resp_size dev)); lia.
Qed.

End resp_lemmas.

Lemma resp_push_app cap q a b :
  resp_push cap (resp_push cap q a) b = resp_push cap q (a ++ b).
Proof.
  unfold resp_push. rewrite <- app_assoc. f_equal.
  rewrite length_app, length_take, take_app. f_equal. f_equal. lia.
Qed.

Lemma resp_push_nil cap q : resp_push cap q [] = q.
Proof. unfold resp_push. by rewrite take_nil, app_nil_r. Qed.

(** The loop of the emit ioctl. *)
Lemma emit_loop_ok dev ts count :
  resp_wf dev -> 0 <= count <= len ts ->
  exists dev', for_range (R := unit) 0 count (fun i dev =>
      t ← arr_get ts i;
      dev' ← kllm_resp_produce dev t;
      Some (Continue dev')) dev = Some (inl dev') /\
    resp_wf dev' /\ resp_mask dev' = resp_mask dev /\
    resp_contents dev' =
      resp_push (resp_mask dev) (resp_contents dev) (take (Z.to_nat count) ts).
Proof.
  intros Hwf Hc.
  edestruct (for_range_rule (R := unit)
    (fun i d => resp_wf d /\ resp_mask d = resp_mask dev /\ resp_contents d =
       resp_push (resp_mask dev) (resp_contents dev) (take (Z.to_nat i) ts))
    (fun o => exists d, o = inl d /\ resp_wf d /\ resp_mask d = resp_mask dev /\
       resp_contents d =
       resp_push (resp_mask dev) (resp_contents dev) (take (Z.to_nat count) ts)))
    as (o & Ho & d & -> & Hd); [..|by exists d].
  - lia.
  - by rewrite resp_push_nil.
  - intros i d Hi (Hwfd & Hmd & Hcd).
    rewrite arr_get_total by lia. simpl.
    destruct (resp_produce_ok d Hwfd (ts !!! Z.to_nat i))
      as (d' & -> & Hwf' & Hm' & _ & Hc' & _).
    simpl. eexists. split; [done|]. split; [done|]. split; [congruence|].
    rewrite Hc', Hcd, Hmd, resp_push_app. f_equal.
    replace (Z.to_nat (i + 1)) with (S (Z.to_nat i)) by lia.
    symmetry. apply take_S_r. apply list_lookup_lookup_total_lt. lia.
  - intros d Hd. by exists d.
Qed.

Lemma read_align_eq count : 0 <= count -> read_align count = 4 * (count / 4).
Proof.
  intros. unfold read_align. change (4 - 1) with (Z.ones 2).
  rewrite Z.ldiff_ones_r by lia.
  rewrite Z.shiftl_mul_pow2, Z.shiftr_div_pow2 by lia. change (2 ^ 2) with 4. lia.
Qed.

(** *** Lemmas on concurrent readers and writers *)

Lemma reader_inv_produce dev dev' pc x :
  resp_wf dev -> resp_mask dev' = resp_mask dev ->
  resp_tail dev' = resp_tail dev ->
  resp_wf dev' -> resp_contents dev' = resp_contents dev ++ [x] ->
  reader_inv dev pc -> reader_inv dev' pc.
Proof.
  intros Hwf Hm Ht Hwf' Hc.
  pose proof (resp_contents_length dev Hwf) as L.
  pose proof (resp_contents_length dev' Hwf') as L'.
  rewrite Hc, length_app in L'. simpl in L'.
  destruct pc as [| |p|p words]; simpl; [done..| |].
  - unfold resp_size. rewrite Hm, Ht. intros [? ->]. split; [lia|done].
  - intros [? ->]. split; [lia|]. rewrite Hc, take_app_le; [done|lia].
Qed.

Lemma reader_step_inv s s' : sys_inv s -> reader_step s s' -> sys_inv s'.
Proof.
  intros [Hwf Hfifo (pc & Hpc & Hrd)] Hstep. destruct Hstep; simpl in *; subst.
  - destruct (resp_produce_ok dev Hwf token_id)
      as (d & Hd & Hwf' & Hm & Ht & _ & Happ & _).
    rewrite resp_space_used in * by done. simplify_eq.
    specialize (Happ ltac:(lia)).
    split; simpl; [done|by rewrite Happ, <- app_assoc|].
    eexists. split; [done|]. by eapply (reader_inv_produce dev _ _ token_id).
  - split; simpl; eauto.
  - apply list_lookup_singleton_Some in H as [-> ->].
    split; simpl; [done..|]. by exists (RChecked (read_align count)).
  - apply list_lookup_singleton_Some in H as [-> ->].
    split; simpl; [done..|]. eexists. split; [done|]. by apply read_lock_inv.
  - apply list_lookup_singleton_Some in H as [-> ->].
    rewrite read_copy_ok in * by done. simplify_eq.
    split; simpl; [done..|]. eexists. split; [done|].
    destruct Hrd. by split.
  - apply list_lookup_singleton_Some in H as [-> ->]. destruct Hrd as [Hn ->].
    destruct (read_unlock_ok dev Hwf p Hn) as [Hwf' Hc].
    split; simpl; [done| |by exists RIdle].
    by rewrite Hc, <- app_assoc, take_drop.
Qed.

Lemma resp_dev_wf k : 0 <= k < 32 -> resp_wf (resp_dev k).
Proof.
  intros Hk. pose proof (pow2_lt_32 k Hk).
  split; simpl; [eauto|lia..|]. eexists. split; [done|].
  rewrite zeroed_len; lia.
Qed.

Lemma sys_init_inv k : 0 <= k < 32 -> sys_inv (sys_init k 1).
Proof.
  intros Hk. split; simpl.
  - by apply resp_dev_wf.
  - done.
  - by exists RIdle.
Qed.

Lemma reader_step_reach s s' :
  rtc reader_step s s' -> sys_inv s -> sys_inv s'.
Proof. induction 1; eauto using reader_step_inv. Qed.

(** ** Properties *)

(** The ioctl the reactor emits tokens with, on every branch: an argument
    that faults, a count over 256 and an unknown command leave the device alone
    and return their error; otherwise the tokens of the command, respectively
    the end-of-sequence sentinel, are appended to the response ring in order,
    as many of them as fit, and the call returns 0.  No branch leaves the
    ring's memory or the 256-entry command. *)
Theorem ioctl_response_path (dev : kllm_device) (cmd : ioctl_cmd)
  (Hwf : resp_wf dev)
  (Hcmd : forall emit, cmd = KLLM_IOC_EMIT_TOKENS (Some emit) ->
     fits 32 (emit_count emit) /\ len (emit_tokens emit) = 256) :
  exists rc dev', kllm_ioctl dev cmd = Some (rc, dev') /\ resp_wf dev' /\
    match cmd with
    | KLLM_IOC_EMIT_TOKENS None => rc = - EFAULT /\ dev' = dev
    | KLLM_IOC_EMIT_TOKENS (Some emit) =>
        if emit_count emit <=? 256 then
          rc = 0 /\ resp_contents dev' = resp_push (resp_mask dev)
            (resp_contents dev)
            (take (Z.to_nat (emit_count emit)) (emit_tokens emit))
        else rc = - EINVAL /\ dev' = dev
    | KLLM_IOC_EOS =>
        rc = 0 /\ resp_contents dev' =
          resp_push (resp_mask dev) (resp_contents dev) [EOS_SENTINEL]
    | IOC_other _ => rc = - ENOTTY /\ dev' = dev
    end.
Proof.
  destruct cmd as [[emit|]| |c]; simpl.
  - destruct (Hcmd emit eq_refl) as [Hc Hl]. unfold fits in Hc.
    destruct (Z.ltb_spec 256 (emit_count emit)).
    + do 2 eexists. split; [done|]. split; [done|]. by case_cond.
    + destruct (emit_loop_ok dev (emit_tokens emit) (emit_count emit))
        as (d & -> & Hwf' & _ & Hcont); [done|lia|].
      do 2 eexists. split; [done|]. split; [done|]. by case_cond.
  - eauto 10.
  - destruct (resp_produce_ok dev Hwf EOS_SENTINEL)
      as (d & -> & Hwf' & _ & _ & Hcont & _).
    eauto 10.
  - eauto 10.
Qed.

(** [read] on a device that holds tokens, for any byte count below 2^31:
    it returns as many of the oldest tokens as fit in the buffer, at least one
    when the buffer holds one, in the order they were emitted and across the
    end of the ring, and removes exactly those; a fault of the copy returns
    -EFAULT and removes none; a buffer of less than four bytes reads nothing. *)
Theorem read_returns_oldest (dev : kllm_device) (count : Z) (nonblock : bool)
  (wait : kllm_device -> Z * kllm_device) (fault : bool)
  (Hwf : resp_wf dev) (Hcount : fits 31 count) (Hne : resp_contents dev <> []) :
  exists rc words dev',
    kllm_read dev count nonblock wait fault = Some (rc, words, dev') /\
    resp_wf dev' /\
    if (count / 4 =? 0) || fault then
      rc = (if count / 4 =? 0 then 0 else - EFAULT) /\ words = [] /\ dev' = dev
    else
      let n := Z.min (len (resp_contents dev)) (count / 4) in
      rc = 4 * n /\ 0 < n /\
      words = take (Z.to_nat n) (resp_contents dev) /\
      resp_contents dev' = drop (Z.to_nat n) (resp_contents dev).
Proof.
  unfold fits in Hcount. unfold kllm_read. rewrite read_align_eq by lia.
  assert (0 <= count / 4 < 2 ^ 31) as Hq by dlia.
  pose proof (resp_contents_length dev Hwf) as L.
  assert (0 < resp_used dev) as Hu.
  { destruct (resp_contents dev); [done|]. simpl in L. lia. }
  destruct (Z.eqb_spec (count / 4) 0) as [E|E]; simpl.
  { rewrite E. simpl. eauto 10. }
  destruct (Z.eqb_spec (4 * (count / 4)) 0); [lia|].
  rewrite resp_count_used by done.
  destruct (Z.eqb_spec (resp_used dev) 0); [lia|]. simpl.
  destruct (read_lock_inv dev Hwf (4 * (count / 4))) as [Hinv Hn].
  set (p := read_lock dev (4 * (count / 4))) in *.
  rewrite (Z.mul_comm 4), Z.div_mul in Hn by lia.
  rewrite (wrap_small 32) in Hn by (unfold fits; lia).
  rewrite read_copy_ok by done. simpl. destruct fault; [eauto 10|].
  destruct (read_unlock_ok dev Hwf p) as [Hwf' Hc]; [lia|].
  do 3 eexists. split; [done|]. split; [done|]. simpl.
  rewrite L, <- Hn. split_and!; [lia|rewrite Hn; lia|done|done].
Qed.

(** With one reader, the unlocked copy of [read] is safe: however emits
    and the steps of a read interleave, the words delivered so far followed by
    the contents of the response ring are the tokens accepted so far, in
    order. *)
Theorem single_reader_fifo (k : Z) (s : resp_sys)
  (Hk : 0 <= k < 32) (Hreach : rtc reader_step (sys_init k 1) s) :
  accepted s = delivered s ++ resp_contents (sys_dev s) /\
  resp_wf (sys_dev s).
Proof.
  pose proof (reader_step_reach _ _ Hreach (sys_init_inv k Hk)) as [? ? ?]. done.
Qed.

(** With two readers the unlocked copy is not safe: there is a run of the
    device of the module (4096 slots) in which one token is emitted, two reads
    of four bytes both return it, and the ring then counts 4095 tokens that
    were never emitted. *)
Theorem two_readers_duplicate :
  exists s, rtc reader_step (sys_init 12 2) s /\
    accepted s = [42] /\ delivered s = [42; 42] /\
    resp_ring_count (sys_dev s) = 4095.
Proof.
  pose proof (resp_dev_wf 12 ltac:(lia)) as Hwf0.
  set (d0 := resp_dev 12) in *.
  destruct (resp_produce_ok d0 Hwf0 42) as (d1 & Hd1 & Hwf1 & _).
  assert (resp_ring_space d0 = 4095) as Hsp
    by (rewrite resp_space_used by done; by vm_compute).
  assert (d1 = set_resp d0 (<[0%nat := 42]> (zeroed 4096)) 1) as Ed1.
  { apply (inj Some). rewrite <- Hd1. unfold kllm_resp_produce. rewrite Hsp.
    by vm_compute. }
  assert (resp_ring_count d1 = 1) as Hcnt
    by (rewrite resp_count_used by done; rewrite Ed1; by vm_compute).
  assert (read_lock d1 (read_align 4) = Plan 1 None) as Hlk
    by (unfold read_lock; rewrite Hcnt, Ed1; by vm_compute).
  assert (read_copy d1 (Plan 1 None) false = Some (Some [42])) as Hcp
    by (rewrite Ed1; by vm_compute).
  set (d2 := read_unlock d1 (Plan 1 None)).
  assert (resp_wf (read_unlock d2 (Plan 1 None))) as Hwf3.
  { split; subst d2; rewrite Ed1; simpl.
    - exists 12. done.
    - vm_compute. intuition congruence.
    - vm_compute. intuition congruence.
    - eexists. split; [done|]. by vm_compute. }
  exists (Sys (read_unlock d2 (Plan 1 None)) [RIdle; RIdle] [42] [42; 42]).
  split; [|split_and!; [done..|]; simpl; rewrite resp_count_used by done;
           subst d2; rewrite Ed1; by vm_compute].
  unfold sys_init. simpl. fold d0.
  eapply rtc_l; [apply (rs_produce _ d1 _ _ _ 42); [lia|done]|].
  eapply rtc_l; [apply (rs_check _ _ _ _ 0 4); [done|done|done|by rewrite Hcnt]|].
  eapply rtc_l; [apply (rs_check _ _ _ _ 1 4); [done|done|done|by rewrite Hcnt]|].
  eapply rtc_l; [by apply (rs_lock _ _ _ _ 0 (read_align 4))|].
  eapply rtc_l; [by apply (rs_lock _ _ _ _ 1 (read_align 4))|].
  rewrite Hlk.
  eapply rtc_l; [by apply (rs_copy _ _ _ _ 0 (Plan 1 None) [42])|].
  eapply rtc_l; [by apply (rs_copy _ _ _ _ 1 (Plan 1 None) [42])|].
  eapply rtc_l; [by apply (rs_finish _ _ _ _ 0 (Plan 1 None) [42])|].
  eapply rtc_l; [by apply (rs_finish _ _ _ _ 1 (Plan 1 None) [42])|].
  apply rtc_refl.
Qed.

(** The ring [kllm_alloc_token_ring] lays out in a fresh 2 MB page. *)
Lemma token_ring_alloc_ok :
  rounddown_pow_of_two (wrap 32 ((KLLM_RING_BYTES - KLLM_RING_HDR_SIZE) / 4)) = 2 ^ 18
  /\ 2 ^ 18 <= len (zeroed ((KLLM_RING_BYTES - KLLM_RING_HDR_SIZE) / 4)).
Proof.
  change (wrap 32 ((KLLM_RING_BYTES - KLLM_RING_HDR_SIZE) / 4)) with 524224.
  change ((KLLM_RING_BYTES - KLLM_RING_HDR_SIZE) / 4) with 524224.
  split; [apply rounddown_law; lia|]. rewrite zeroed_len; lia.
Qed.

(** C38.  Loading the module is all or nothing, and unloading gives everything
    back: when [kllm_init] fails, for whichever reason, no page and no buffer
    stay allocated and nothing is registered; when it succeeds the token ring is
    a well-formed empty ring of 2^18 slots, the response ring is empty, and
    [kllm_exit] releases the pages, the buffer and the registration. *)
Theorem init_all_or_nothing (res : kernel_res) (page_ok resp_ok : bool) (reg : Z) :
  let '(ret, dev, res') := kllm_init kllm_dev0 res page_ok resp_ok reg in
  (ret <> 0 -> res' = res /\ token_ring dev = None) /\
  (ret = 0 ->
     resp_wf dev /\ resp_contents dev = [] /\
     (exists r, token_ring dev = Some r /\ ring_wf r /\
        slot_count r = 2 ^ 18 /\ ring_contents r = []) /\
     registered res' = true /\
     snd (kllm_exit dev res') = Res (live_pages res) (live_bufs res) false).
Proof.
  destruct token_ring_alloc_ok as [Hr Hl].
  destruct (fresh_ring_ok KLLM_TOKEN_RING_MAGIC KLLM_TOKEN_RING_VERSION 18 0 _
    ltac:(lia) Hl) as [Hwf Hc].
  unfold kllm_init, kllm_alloc_token_ring. rewrite Hr.
  set (mem := zeroed ((KLLM_RING_BYTES - KLLM_RING_HDR_SIZE) / 4)) in *.
  clearbody mem. destruct res as [pages bufs registered].
  destruct page_ok; [|done]. simpl. destruct resp_ok; simpl.
  - destruct (Z.eqb_spec reg 0) as [->|]; simpl.
    + split; [done|]. intros _. split; [|split; [done|split]].
      * split; simpl; [exists 12; done|lia|lia|].
        eexists. split; [done|]. by rewrite zeroed_len.
      * eauto.
      * split; [done|]. f_equal; lia.
    + split; [|done]. intros _. split; [f_equal; lia|done].
  - split; [|done]. intros _. split; [f_equal; lia|done].
Qed.

(** [mmap] of the token ring: a mapping larger than the 2 MB ring or at a
    non-zero offset is refused with -EINVAL and left alone; any other mapping
    is made with [VM_DONTEXPAND] and [VM_DONTDUMP], and keeps the write
    permission it was asked for. *)
Theorem mmap_bounds_and_flags (dev : kllm_device) (vma : vm_area)
  (remap : vm_area -> Z) :
  let size := u64 (vm_end vma - vm_start vma) in
  let '(rc, vma') := kllm_mmap dev vma remap in
  if (2097152 <? size) || negb (vm_pgoff vma =? 0) then
    rc = - EINVAL /\ vma' = vma
  else
    rc = remap vma' /\
    vm_start vma' = vm_start vma /\ vm_end vma' = vm_end vma /\
    Z.testbit (vm_flags vma') 18 = true /\ Z.testbit (vm_flags vma') 26 = true /\
    Z.testbit (vm_flags vma') 1 = Z.testbit (vm_flags vma) 1.
Proof.
  unfold kllm_mmap. change KLLM_RING_BYTES with 2097152.
  destruct (2097152 <? wrap 64 (vm_end vma - vm_start vma)); cbn [orb]; [done|].
  destruct (vm_pgoff vma =? 0); cbn [negb orb]; [|done].
  cbn [vm_flags vm_start vm_end]. rewrite !Z.lor_spec.
  split_and!; try done.
  - by rewrite orb_true_r.
  - by rewrite orb_true_r.
  - by rewrite orb_false_r.
Qed.

End chardev.

(** ** The kernel macros, and the theorems at concrete inputs *)

#[local] Instance linux_kernel_lib : KernelLib.
Proof.
  refine {|
    CIRC_CNT head tail size := Z.land (wrap 32 (head - tail)) (size - 1);
    CIRC_SPACE head tail size := Z.land (wrap 32 (tail - (head + 1))) (size - 1);
    rounddown_pow_of_two n := 2 ^ Z.log2 n;
  |}.
  - intros k hd tl Hk Hh Ht. rewrite land_mask by lia. apply wrap_mod_pow2. lia.
  - intros k hd tl Hk Hh Ht. rewrite land_mask, wrap_mod_pow2 by lia.
    pose proof (Z.div_mod (hd - tl) (2 ^ k) ltac:(lia)).
    pose proof (Z.mod_pos_bound (hd - tl) (2 ^ k) ltac:(lia)).
    symmetry. apply (Z.mod_unique_pos _ _ (- ((hd - tl) / 2 ^ k) - 1)); lia.
  - intros k n Hk Hn. f_equal. apply Z.log2_unique; [lia|].
    by rewrite <- Z.add_1_r.
Defined.

Lemma ioctl_response_path_witness :
  exists rc dev',
    kllm_ioctl (resp_dev 2)
      (KLLM_IOC_EMIT_TOKENS (Some (EmitCmd 5 (replicate 256 9)))) = Some (rc, dev')
    /\ rc = 0 /\ resp_contents dev' = [9; 9; 9].
Proof.
  destruct (ioctl_response_path (resp_dev 2)
    (KLLM_IOC_EMIT_TOKENS (Some (EmitCmd 5 (replicate 256 9))))) as (rc & d & H & _ & Hd).
  - split; simpl; [exists 2; split; [lia|done]|lia|lia|].
    eexists. split; [done|done].
  - intros emit [= <-]. vm_compute. intuition congruence.
  - exists rc, d. split; [exact H|]. destruct Hd as [-> ->]. by vm_compute.
Defined.

(** Three tokens that wrap around the end of a ring of four slots. *)
Definition wrapped_dev : kllm_device :=
  Device None false (Some [30; 0; 10; 20]) 1 2 3.

Lemma wrapped_dev_wf : resp_wf wrapped_dev.
Proof.
  split; simpl; [exists 2; split; [lia|done]|lia|lia|].
  eexists. split; done.
Qed.

Lemma read_returns_oldest_witness :
  exists dev', kllm_read wrapped_dev 11 true (fun d => (0, d)) false =
      Some (8, [10; 20], dev') /\ resp_contents dev' = [30].
Proof.
  destruct (read_returns_oldest wrapped_dev 11 true (fun d => (0, d)) false)
    as (rc & ws & d & H & _ & Hrc & _ & Hw & Hc).
  - apply wrapped_dev_wf.
  - vm_compute. intuition congruence.
  - vm_compute. congruence.
  - exists d. rewrite H, Hrc, Hw, Hc. by vm_compute.
Defined.

(** An emit between the copy and the end of a read. *)
Lemma single_reader_fifo_witness :
  exists s, rtc reader_step (sys_init 2 1) s /\
    accepted s = [42; 43] /\ delivered s = [42] /\
    accepted s = delivered s ++ resp_contents (sys_dev s).
Proof.
  assert (rtc reader_step (sys_init 2 1)
    (Sys (Device None false (Some [42; 43; 0; 0]) 2 1 3) [RIdle] [42; 43] [42]))
    as Hreach.
  { eapply rtc_l; [by apply (rs_produce _ (Device None false
      (Some [42; 0; 0; 0]) 1 0 3) _ _ _ 42)|].
    eapply rtc_l; [by apply (rs_check _ _ _ _ 0 4)|].
    eapply rtc_l; [by apply (rs_lock _ _ _ _ 0 4)|].
    eapply rtc_l; [by apply (rs_copy _ _ _ _ 0 (Plan 1 None) [42])|].
    eapply rtc_l; [by apply (rs_produce _ (Device None false
      (Some [42; 43; 0; 0]) 2 0 3) _ _ _ 43)|].
    eapply rtc_l; [by apply (rs_finish _ _ _ _ 0 (Plan 1 None) [42])|].
    apply rtc_refl. }
  eexists. split; [exact Hreach|]. split; [done|]. split; [done|].
  exact (proj1 (single_reader_fifo 2 _ ltac:(lia) Hreach)).
Defined.

Lemma two_readers_duplicate_witness :
  exists s, rtc reader_step (sys_init 12 2) s /\
    accepted s = [42] /\ delivered s = [42; 42] /\
    resp_ring_count (sys_dev s) = 4095.
Proof. exact two_readers_duplicate. Defined.

Lemma init_all_or_nothing_witness :
  exists dev res', kllm_init kllm_dev0 (Res 0 0 false) true true 0 = (0, dev, res') /\
    resp_wf dev /\ snd (kllm_exit dev res') = Res 0 0 false.
Proof.
  pose proof (init_all_or_nothing (Res 0 0 false) true true 0) as H.
  assert (fst (fst (kllm_init kllm_dev0 (Res 0 0 false) true true 0)) = 0) as Hz
    by (vm_compute; reflexivity).
  destruct (kllm_init kllm_dev0 (Res 0 0 false) true true 0) as [[ret dev] res'].
  simpl in Hz. subst ret. exists dev, res'. split; [reflexivity|].
  destruct (proj2 H eq_refl) as (Hwf & _ & _ & _ & Hex). split; [exact Hwf|exact Hex].
Defined.
