(* ===== verification/FileOps.v ===== *)
(** * The file operations of the device, as its clients call them

    Models the table [kllm_fops] of [kernel/chardev/llm_prompt.c] with
    [kllm_open] and [kllm_release], on the operations of [Chardev]: the kernel
    calls the entry of the table with the [struct file] of an open descriptor,
    whose [private_data] the handlers take the device from.  The file system
    layer answers a call on a descriptor that is not open with [-EBADF], and a
    descriptor is the number of its [open]; nothing else of that layer is used.

    The calls happen one after the other, so that a [read] of an empty ring that
    may block ends only with a signal; [Blocking] models calls at the same time.

    The file proves that every sequence of calls by any number of clients is
    defined and returns what a bounded queue of tokens returns. *)

From Stdlib Require Import ZArith Lia.
From stdpp Require Import base numbers list.
From S2P Require Import Prelude TokenRing Chardev.

#[local] Open Scope Z_scope.

Definition EBADF : Z := 9.
Definition ERESTARTSYS : Z := 512.

(** ** Files *)

(** [struct file]: [O_NONBLOCK] of [f_flags], and whether [private_data] is the
    address of [kllm_dev]. *)
Record file : Type := File {
  f_nonblock : bool;
  private_data : bool;
}.

(** The device and the files opened so far; [None] is a file that was closed. *)
Record world : Type := World {
  w_dev : kllm_device;
  w_files : list (option file);
}.

(** What a call returns: its result, the words it wrote to the buffer of the
    client and the mapping it made. *)
Record reply : Type := Reply {
  rc : Z;
  words : list Z;
  mapping : option vm_area;
}.

Inductive syscall : Type :=
| SysOpen (nonblock : bool)
| SysClose (fd : nat)
| SysWrite (fd : nat) (count : Z) (kvmalloc_ok copy_ok : bool)
| SysRead (fd : nat) (count : Z) (fault : bool)
| SysPoll (fd : nat)
| SysMmap (fd : nat) (vma : vm_area)
| SysIoctl (fd : nat) (cmd : ioctl_cmd).

Definition kllm_open (filp : file) : Z * file := (0, File (f_nonblock filp) true).

Definition kllm_release (filp : file) : Z := 0.

(** ** The calls *)

Section calls.
Context `{KL : KernelLib} (remap : vm_area -> Z).

(** The device of a file: a null [private_data] cannot be dereferenced. *)
Definition dev_of (w : world) (filp : file) : option kllm_device :=
  if private_data filp then Some (w_dev w) else None.

Definition open_file (w : world) (fd : nat) : option file := mjoin (w_files w !! fd).

(** A call on an open descriptor. *)
Definition with_file (w : world) (fd : nat) (f : file -> option (reply * world))
    : option (reply * world) :=
  match open_file w fd with
  | Some filp => f filp
  | None => Some (Reply (- EBADF) [] None, w)
  end.

(** The entry of [kllm_fops] that a call reaches. *)
Definition kllm_fops (w : world) (c : syscall) : option (reply * world) :=
  match c with
  | SysOpen nonblock =>
      let '(ret, filp) := kllm_open (File nonblock false) in
      Some (Reply ret [] None, World (w_dev w) (w_files w ++ [Some filp]))
  | SysClose fd => with_file w fd (fun filp =>
      Some (Reply (kllm_release filp) [] None, World (w_dev w) (<[fd := None]> (w_files w))))
  | SysWrite fd count kvmalloc_ok copy_ok => with_file w fd (fun filp =>
      _ ← dev_of w filp;
      let '(ret, _) := kllm_write count kvmalloc_ok copy_ok 0 in
      Some (Reply ret [] None, w))
  | SysRead fd count fault => with_file w fd (fun filp =>
      dev ← dev_of w filp;
      '(ret, ws, dev') ← kllm_read dev count (f_nonblock filp) (fun d => (- ERESTARTSYS, d)) fault;
      Some (Reply ret ws None, World dev' (w_files w)))
  | SysPoll fd => with_file w fd (fun filp =>
      dev ← dev_of w filp;
      Some (Reply (kllm_poll dev) [] None, w))
  | SysMmap fd vma => with_file w fd (fun filp =>
      dev ← dev_of w filp;
      let '(ret, vma') := kllm_mmap dev vma remap in
      Some (Reply ret [] (Some vma'), w))
  | SysIoctl fd cmd => with_file w fd (fun filp =>
      dev ← dev_of w filp;
      '(ret, dev') ← kllm_ioctl dev cmd;
      Some (Reply ret [] None, World dev' (w_files w)))
  end.

Fixpoint run_calls (w : world) (cs : list syscall) : option (list reply * world) :=
  match cs with
  | [] => Some ([], w)
  | c :: cs =>
      '(r, w) ← kllm_fops w c;
      '(rs, w) ← run_calls w cs;
      Some (r :: rs, w)
  end.

(** ** Specification *)

(** The files that are open, with their blocking mode, and the tokens that wait
    for a reader, at most [cap]. *)
Record queue_state : Type := Queue {
  q_cap : Z;
  q_tokens : list Z;
  q_files : list (option bool);
}.

Definition set_tokens (q : queue_state) (ts : list Z) : queue_state :=
  Queue (q_cap q) ts (q_files q).

(** The tokens that a command emits, or the error that it returns. *)
Definition spec_emit (cmd : ioctl_cmd) : list Z + Z :=
  match cmd with
  | KLLM_IOC_EMIT_TOKENS None => inr (- EFAULT)
  | KLLM_IOC_EMIT_TOKENS (Some emit) =>
      if emit_count emit <=? 256 then inl (take (Z.to_nat (emit_count emit)) (emit_tokens emit))
      else inr (- EINVAL)
  | KLLM_IOC_EOS => inl [EOS_SENTINEL]
  | IOC_other _ => inr (- ENOTTY)
  end.

(** A read takes the oldest tokens that fit. *)
Definition spec_read (q : queue_state) (nonblock : bool) (count : Z) (fault : bool)
    : reply * queue_state :=
  let n := Z.min (len (q_tokens q)) (count / 4) in
  if count / 4 =? 0 then (Reply 0 [] None, q)
  else if len (q_tokens q) =? 0 then
    (Reply (if nonblock then - EAGAIN else - ERESTARTSYS) [] None, q)
  else if fault then (Reply (- EFAULT) [] None, q)
  else (Reply (4 * n) (take (Z.to_nat n) (q_tokens q)) None,
        set_tokens q (drop (Z.to_nat n) (q_tokens q))).

Definition spec_write (count : Z) (kvmalloc_ok copy_ok : bool) : Z :=
  if count =? 0 then 0
  else if 65536 <? count then - EFBIG
  else if kvmalloc_ok then (if copy_ok then count else - EFAULT) else - ENOMEM.

Definition spec_mmap (vma : vm_area) : Z * vm_area :=
  if (2097152 <? u64 (vm_end vma - vm_start vma)) || negb (vm_pgoff vma =? 0)
  then (- EINVAL, vma)
  else
    let vma' := VmArea (vm_start vma) (vm_end vma) (vm_pgoff vma)
      (Z.lor (vm_flags vma) (2 ^ 18 + 2 ^ 26)) in
    (remap vma', vma').

Definition spec_call (q : queue_state) (c : syscall) : reply * queue_state :=
  let on_file fd (f : bool -> reply * queue_state) :=
    match mjoin (q_files q !! fd) with
    | Some nonblock => f nonblock
    | None => (Reply (- EBADF) [] None, q)
    end in
  match c with
  | SysOpen nonblock =>
      (Reply 0 [] None, Queue (q_cap q) (q_tokens q) (q_files q ++ [Some nonblock]))
  | SysClose fd => on_file fd (fun _ =>
      (Reply 0 [] None, Queue (q_cap q) (q_tokens q) (<[fd := None]> (q_files q))))
  | SysWrite fd count kvmalloc_ok copy_ok => on_file fd (fun _ =>
      (Reply (spec_write count kvmalloc_ok copy_ok) [] None, q))
  | SysRead fd count fault => on_file fd (fun nonblock => spec_read q nonblock count fault)
  | SysPoll fd => on_file fd (fun _ =>
      (Reply (if len (q_tokens q) =? 0 then 0x104 else 0x145) [] None, q))
  | SysMmap fd vma => on_file fd (fun _ =>
      let '(ret, vma') := spec_mmap vma in (Reply ret [] (Some vma'), q))
  | SysIoctl fd cmd => on_file fd (fun _ =>
      match spec_emit cmd with
      | inl ts => (Reply 0 [] None, set_tokens q (resp_push (q_cap q) (q_tokens q) ts))
      | inr err => (Reply err [] None, q)
      end)
  end.

Fixpoint spec_calls (q : queue_state) (cs : list syscall) : list reply * queue_state :=
  match cs with
  | [] => ([], q)
  | c :: cs =>
      let '(r, q) := spec_call q c in
      let '(rs, q) := spec_calls q cs in
      (r :: rs, q)
  end.

(** What the types and the file system layer guarantee of a call: a byte count
    is below 2^31, a command is a 32-bit count with an array of 256 tokens. *)
Definition call_ok (c : syscall) : bool :=
  match c with
  | SysRead _ count _ => (0 <=? count) && (count <? 2 ^ 31)
  | SysIoctl _ (KLLM_IOC_EMIT_TOKENS (Some emit)) =>
      (0 <=? emit_count emit) && (emit_count emit <? 2 ^ 32) && (len (emit_tokens emit) =? 256)
  | _ => true
  end.

(** The abstract state of a world. *)
Record world_rel (w : world) (q : queue_state) : Prop := {
  wr_wf : resp_wf (w_dev w);
  wr_cap : q_cap q = resp_mask (w_dev w);
  wr_tokens : q_tokens q = resp_contents (w_dev w);
  wr_files : q_files q = option_map f_nonblock <$> w_files w;
  wr_open : forall fd filp, open_file w fd = Some filp -> private_data filp = true;
}.

(** ** Lemmas *)

(** The entry of the abstract table of files. *)
Lemma rel_lookup w q fd :
  world_rel w q -> mjoin (q_files q !! fd) = option_map f_nonblock (open_file w fd).
Proof.
  intros Hrel. unfold open_file. rewrite (wr_files _ _ Hrel), list_lookup_fmap.
  by destruct (w_files w !! fd).
Qed.

Lemma dev_of_open w q fd filp :
  world_rel w q -> open_file w fd = Some filp -> dev_of w filp = Some (w_dev w).
Proof. intros Hrel Ho. unfold dev_of. by rewrite (wr_open _ _ Hrel fd filp Ho). Qed.

(** A device that holds other tokens. *)
Lemma rel_set_dev w q dev' ts :
  world_rel w q -> resp_wf dev' -> resp_mask dev' = resp_mask (w_dev w) ->
  resp_contents dev' = ts -> world_rel (World dev' (w_files w)) (set_tokens q ts).
Proof. intros [? ? ? ? Hopen] Hwf Hm <-. split; simpl; [done|congruence|done|done|exact Hopen]. Qed.

Lemma ioctl_refines dev cmd fd :
  resp_wf dev -> call_ok (SysIoctl fd cmd) = true ->
  exists ret dev', kllm_ioctl dev cmd = Some (ret, dev') /\
    match spec_emit cmd with
    | inl ts => ret = 0 /\ resp_wf dev' /\ resp_mask dev' = resp_mask dev /\
        resp_contents dev' = resp_push (resp_mask dev) (resp_contents dev) ts
    | inr err => ret = err /\ dev' = dev
    end.
Proof.
  intros Hwf Hok. destruct cmd as [[emit|]| |c]; simpl in *; [|by eauto| |by eauto].
  - apply andb_true_iff in Hok as [[H0 _]%andb_true_iff Hl]. rewrite Z.leb_le in H0.
    rewrite Z.eqb_eq in Hl. rewrite (Z.leb_antisym 256).
    destruct (Z.ltb_spec 256 (emit_count emit)); simpl; [by eauto|].
    destruct (emit_loop_ok dev (emit_tokens emit) (emit_count emit)) as (d & -> & Hd);
      [done|lia|]. by eauto 10.
  - destruct (resp_produce_ok dev Hwf EOS_SENTINEL) as (d & -> & Hwf' & Hm & _ & Hc & _).
    by eauto 10.
Qed.

(** A read of the device, on every branch. *)
Lemma read_refines w q count nonblock fault :
  world_rel w q -> 0 <= count < 2 ^ 31 ->
  exists ret ws dev',
    kllm_read (w_dev w) count nonblock (fun d => (- ERESTARTSYS, d)) fault = Some (ret, ws, dev') /\
    let '(r, q') := spec_read q nonblock count fault in
    r = Reply ret ws None /\ world_rel (World dev' (w_files w)) q'.
Proof.
  intros Hrel Hcount. pose proof Hrel as [Hwf _ Htok _ _]. unfold kllm_read, spec_read.
  rewrite read_align_eq, Htok, resp_contents_length, resp_count_used by (done || lia).
  set (dev := w_dev w) in *. assert (0 <= count / 4 < 2 ^ 31) as Hq by dlia.
  assert (world_rel (World dev (w_files w)) q) as Hsame by (subst dev; by destruct w).
  destruct (Z.eqb_spec (count / 4) 0) as [->|]; simpl.
  { do 3 eexists. split; [done|]. by split. }
  destruct (Z.eqb_spec (4 * (count / 4)) 0); [lia|].
  destruct (Z.eqb_spec (resp_used dev) 0) as [Hu|Hu]; simpl.
  { destruct nonblock; do 3 eexists; (split; [done|]); by split. }
  destruct (read_lock_inv dev Hwf (4 * (count / 4))) as [Hinv Hn].
  set (p := read_lock dev (4 * (count / 4))) in *.
  rewrite (Z.mul_comm 4), Z.div_mul, (wrap_small 32) in Hn by (unfold fits; lia).
  rewrite read_copy_ok by done. simpl. destruct fault; [do 3 eexists; (split; [done|]); by split|].
  pose proof (resp_used_bounds dev Hwf).
  destruct (read_unlock_ok dev Hwf p) as [Hwf' Hc]; [lia|].
  do 3 eexists. split; [done|]. rewrite <- Hn. split; [f_equal; lia|].
  by apply rel_set_dev.
Qed.

Lemma mmap_refines dev vma : kllm_mmap dev vma remap = spec_mmap vma.
Proof.
  unfold kllm_mmap, spec_mmap. change KLLM_RING_BYTES with 2097152.
  change (2 ^ 18 + 2 ^ 26) with (Z.lor VM_DONTEXPAND VM_DONTDUMP).
  by destruct (2097152 <? _), (vm_pgoff vma =? 0).
Qed.

Lemma write_refines count kvmalloc_ok copy_ok :
  fst (kllm_write count kvmalloc_ok copy_ok 0) = spec_write count kvmalloc_ok copy_ok.
Proof.
  unfold kllm_write, spec_write. change KLLM_MAX_PROMPT_SIZE with 65536.
  by destruct (count =? 0), (65536 <? count), kvmalloc_ok, copy_ok.
Qed.

Lemma poll_refines dev :
  resp_wf dev ->
  kllm_poll dev = if len (resp_contents dev) =? 0 then 0x104 else 0x145.
Proof.
  intros Hwf. unfold kllm_poll. rewrite resp_contents_length, resp_count_used by done.
  pose proof (resp_used_bounds dev Hwf).
  destruct (Z.eqb_spec (resp_used dev) 0) as [->|]; [done|].
  by rewrite (proj2 (Z.ltb_lt _ _)) by lia.
Qed.

Lemma call_refines w q c :
  world_rel w q -> call_ok c = true ->
  exists r w' q', kllm_fops w c = Some (r, w') /\ spec_call q c = (r, q') /\ world_rel w' q'.
Proof.
  intros Hrel Hok. pose proof Hrel as [Hwf Hcap Htok Hfiles Hopen].
  destruct c as [nonblock|fd|fd count kv cp|fd count fault|fd|fd vma|fd cmd];
    cbn [kllm_fops spec_call]; unfold with_file; rewrite ?(rel_lookup w q) by done;
    try (destruct (open_file w fd) as [filp|] eqn:Hf; simpl; [|by eauto 10];
         rewrite ?(dev_of_open w q fd filp) by done; simpl).
  - do 3 eexists. split; [done|]. split; [done|]. split; simpl; [done..| |].
    + by rewrite fmap_app, Hfiles.
    + intros fd filp. unfold open_file. simpl. destruct (decide (fd < length (w_files w))%nat).
      * rewrite lookup_app_l by done. apply Hopen.
      * rewrite lookup_app_r by lia. destruct (fd - _)%nat; [by intros [= <-]|done].
  - do 3 eexists. split; [done|]. split; [done|]. split; simpl; [done..| |].
    + by rewrite list_fmap_insert, Hfiles.
    + intros fd' filp'. unfold open_file. simpl. destruct (decide (fd' = fd)) as [->|].
      * rewrite list_lookup_insert_eq; [done|]. unfold open_file in Hf.
        apply (lookup_lt_is_Some_1 (w_files w)). by destruct (w_files w !! fd).
      * rewrite list_lookup_insert_ne by done. apply Hopen.
  - pose proof (write_refines count kv cp) as Hw. destruct (kllm_write count kv cp 0).
    simpl in Hw. subst. by eauto 10.
  - apply andb_true_iff in Hok as [?%Z.leb_le ?%Z.ltb_lt].
    destruct (read_refines w q count (f_nonblock filp) fault) as (ret & ws & d & -> & Hr); [done|lia|].
    destruct (spec_read _ _ _ _) as [r q']. destruct Hr as [-> ?]. simpl. by eauto 10.
  - rewrite poll_refines, Htok by done. by eauto 10.
  - rewrite mmap_refines. destruct (spec_mmap vma). by eauto 10.
  - destruct (ioctl_refines (w_dev w) cmd fd) as (ret & d & -> & Hr); [done..|]. simpl.
    destruct (spec_emit cmd) as [ts|err].
    + destruct Hr as (-> & Hwf' & Hm & Hc). do 3 eexists. split; [done|]. split; [done|].
      rewrite Htok, Hcap. by apply rel_set_dev.
    + destruct Hr as [-> ->]. do 3 eexists. split; [done|]. split; [done|]. by destruct w.
Qed.

Lemma run_calls_refine cs w q :
  world_rel w q -> forallb call_ok cs = true ->
  exists w', run_calls w cs = Some (fst (spec_calls q cs), w') /\
    world_rel w' (snd (spec_calls q cs)).
Proof.
  revert w q. induction cs as [|c cs IH]; intros w q Hrel Hok; simpl in *; [by eauto|].
  apply andb_true_iff in Hok as [Hc Hcs].
  destruct (call_refines w q c) as (r & w1 & q1 & -> & -> & Hrel1); [done..|]. simpl.
  destruct (IH w1 q1) as (w2 & -> & Hrel2); [done..|]. simpl.
  destruct (spec_calls q1 cs) as [rs q2]. simpl in *. by eauto.
Qed.

(** No call reaches the token ring: [kllm_write] drops the prompt. *)
Lemma produce_token_ring dev t dev' :
  kllm_resp_produce dev t = Some dev' -> token_ring dev' = token_ring dev.
Proof.
  unfold kllm_resp_produce. destruct (0 <? _); intros Hp; simplify_option_eq; done.
Qed.

Lemma ioctl_token_ring dev cmd ret dev' :
  kllm_ioctl dev cmd = Some (ret, dev') -> token_ring dev' = token_ring dev.
Proof.
  destruct cmd as [[emit|]| |]; simpl; intros Hi; simplify_eq; [|done| |done].
  - destruct (256 <? _); simplify_eq; [done|].
    destruct (for_range _ _ _ _) as [[d|[]]|] eqn:Hl; simplify_eq/=.
    eapply (for_range_pres (fun d => token_ring d = token_ring dev)); [|done|exact Hl].
    intros i d c Hd Hc. simpl in Hc. simplify_option_eq. by erewrite produce_token_ring.
  - simplify_option_eq. by eapply produce_token_ring.
Qed.

Lemma read_token_ring dev count nonblock wait fault ret ws dev' :
  (forall d, token_ring (snd (wait d)) = token_ring d) ->
  kllm_read dev count nonblock wait fault = Some (ret, ws, dev') ->
  token_ring dev' = token_ring dev.
Proof.
  intros Hw. unfold kllm_read. destruct (_ =? 0); [by intros; simplify_eq|].
  assert (forall r d, (if resp_ring_count dev =? 0
      then if nonblock then (- EAGAIN, dev) else wait dev else (0, dev)) = (r, d) ->
    token_ring d = token_ring dev) as Hd.
  { intros r d. pose proof (Hw dev) as Hwd. destruct (resp_ring_count dev =? 0), nonblock;
      intros He; simplify_eq; try done. by rewrite He in Hwd. }
  destruct (if resp_ring_count dev =? 0 then _ else _) as [r d]. specialize (Hd r d eq_refl).
  destruct (negb _); [by intros; simplify_eq|].
  destruct (read_copy d _ fault) as [[ws'|]|]; intros; simplify_eq/=; done.
Qed.

Lemma call_token_ring w c r w' :
  kllm_fops w c = Some (r, w') -> token_ring (w_dev w') = token_ring (w_dev w).
Proof.
  destruct c as [nonblock|fd|fd count kv cp|fd count fault|fd|fd vma|fd cmd];
    cbn [kllm_fops]; unfold with_file, dev_of;
    try (destruct (open_file w fd) as [filp|]; [|by intros; simplify_eq];
         try destruct (private_data filp); try done); simpl; intros Hc; simplify_eq/=; try done.
  - destruct (kllm_write _ _ _ _). by simplify_eq.
  - destruct (kllm_read _ _ _ _ _) as [[[ret ws] d]|] eqn:Hr; simplify_eq/=.
    by eapply read_token_ring in Hr.
  - destruct (kllm_mmap _ _ _). by simplify_eq.
  - destruct (kllm_ioctl _ _) as [[ret d]|] eqn:Hi; simplify_eq/=. by eapply ioctl_token_ring.
Qed.

Lemma run_token_ring cs w rs w' :
  run_calls w cs = Some (rs, w') -> token_ring (w_dev w') = token_ring (w_dev w).
Proof.
  revert w rs. induction cs as [|c cs IH]; intros w rs Hr; simpl in Hr; [by simplify_eq|].
  destruct (kllm_fops w c) as [[r w1]|] eqn:Hc; simpl in Hr; [|done].
  destruct (run_calls w1 cs) as [[rs1 w2]|] eqn:Hr1; simpl in Hr; [|done]. simplify_eq.
  by erewrite IH, call_token_ring.
Qed.

(** The device after a successful load of the module. *)
Lemma loaded_device res :
  exists dev res', kllm_init kllm_dev0 res true true 0 = (0, dev, res') /\
    world_rel (World dev []) (Queue 4095 [] []) /\
    exists r, token_ring dev = Some r /\ ring_wf r /\ slot_count r = 2 ^ 18 /\
      ring_contents r = [] /\ magic r = KLLM_TOKEN_RING_MAGIC.
Proof.
  destruct token_ring_alloc_ok as [Hr Hl].
  destruct (fresh_ring_ok KLLM_TOKEN_RING_MAGIC KLLM_TOKEN_RING_VERSION 18 0 _
    ltac:(lia) Hl) as [Hwf Hc].
  unfold kllm_init, kllm_alloc_token_ring. rewrite Hr.
  set (mem := zeroed ((KLLM_RING_BYTES - KLLM_RING_HDR_SIZE) / 4)) in *. clearbody mem.
  simpl. do 2 eexists. split; [done|]. split; [|by eauto 10].
  split; simpl; [|done..]. split; simpl; [exists 12; done|lia|lia|].
  eexists. split; [done|]. by rewrite zeroed_len.
Qed.

End calls.

(** ** Theorem *)

(** C12. Every sequence of calls on the device, by any number of clients, on open
    and closed descriptors, blocking or not, is free of undefined behaviour and
    returns what a queue of at most 4095 tokens returns: emitted tokens join the
    queue in order while there is room, a read takes the oldest ones that fit its
    buffer, [poll] reports a non-empty queue, each error is the one of its cause
    and changes nothing.  No call changes the token ring: a prompt that is
    written reaches no consumer. *)
Theorem device_refines_queue `{KL : KernelLib} (remap : vm_area -> Z) (res : kernel_res)
  (cs : list syscall) :
  forallb call_ok cs = true ->
  let '(ret, dev, _) := kllm_init kllm_dev0 res true true 0 in
  let '(replies, q) := spec_calls remap (Queue 4095 [] []) cs in
  ret = 0 /\
  exists w, run_calls remap (World dev []) cs = Some (replies, w) /\
    resp_contents (w_dev w) = q_tokens q /\ resp_wf (w_dev w) /\
    token_ring (w_dev w) = token_ring dev.
Proof.
  intros Hok. destruct (loaded_device res) as (dev & res' & -> & Hrel & _).
  destruct (run_calls_refine remap cs _ _ Hrel Hok) as (w & Hrun & Hrel').
  destruct (spec_calls _ _ _) as [replies q]. simpl in *. split; [done|].
  exists w. split; [done|]. destruct Hrel'. split; [done|]. split; [done|].
  by apply run_token_ring in Hrun.
Qed.

(** ** Witness *)

#[local] Existing Instance linux_kernel_lib.

(** Two clients: one emits three tokens and the end of the sequence, the other
    one reads, waits in vain and closes its file. *)
Definition demo_calls : list syscall :=
  [SysOpen false; SysOpen true; SysWrite 0 11 true true;
   SysIoctl 1 (KLLM_IOC_EMIT_TOKENS (Some (EmitCmd 3 (replicate 256 7)))); SysIoctl 1 KLLM_IOC_EOS;
   SysRead 0 8 false; SysPoll 0; SysRead 0 64 false; SysRead 0 64 false; SysRead 1 64 false;
   SysClose 0; SysRead 0 64 false].

Lemma device_refines_queue_witness :
  let '(_, dev, _) := kllm_init kllm_dev0 (Res 0 0 false) true true 0 in
  exists replies w, run_calls (fun _ => 0) (World dev []) demo_calls = Some (replies, w) /\
    rc <$> replies = [0; 0; 11; 0; 0; 8; 0x145; 8; - ERESTARTSYS; - EAGAIN; 0; - EBADF] /\
    words <$> replies = [[]; []; []; []; []; [7; 7]; []; [7; EOS_SENTINEL]; []; []; []; []].
Proof.
  pose proof (device_refines_queue (fun _ => 0) (Res 0 0 false) demo_calls eq_refl) as H.
  destruct (kllm_init _ _ _ _ _) as [[ret dev] res]. cbv beta iota zeta in H.
  destruct (spec_calls _ _ _) as [replies q] eqn:E. destruct H as [_ [w [H _]]].
  exists replies, w. split; [exact H|]. vm_compute in E. injection E as <- _. split; reflexivity.
Defined.
