(* ===== verification/Blocking.v ===== *)
(** * Blocking reads and wake-ups

    Models [kllm_read], [kllm_ioctl] and [kllm_resp_produce] of
    [kernel/chardev/llm_prompt.c] as threads that run at the same time: a thread
    is cut where it holds no lock, and the wait queue [read_wq] is between them.
    A locked section, an evaluation of the wait condition and a wake-up are one
    step each.

    Of the wait queue the code relies on what its documentation says:
    [wait_event_interruptible] sleeps until the condition holds or a signal
    arrives, and evaluates the condition before it sleeps and each time the queue
    is woken up; [wake_up_interruptible] wakes every reader that sleeps on it.

    The file proves, for one reader and any number of emitters, that no wake-up is
    lost, that a read which may block returns tokens or an error and never
    nothing, and that a reader whose tokens are there gets them; and that with two
    readers a blocking read can return 0, which a client takes for the end of the
    stream. *)

From Stdlib Require Import ZArith Lia.
From stdpp Require Import base numbers list relations.
From S2P Require Import Prelude TokenRing Chardev FileOps.

#[local] Open Scope Z_scope.

(** ** Threads *)

(** Where a reader is in [kllm_read]. *)
Inductive client_pc : Type :=
| BIdle
| BEntry (count : Z) (nonblock : bool)
| BWait (count : Z)
| BAsleep (count : Z)
| BRun (pc : reader_pc).

(** Where an emitter is in the loop of [kllm_ioctl]: before the locked section of
    the next token, or between that section and its wake-up. *)
Inductive emitter : Type :=
| EIdle
| EPush (ts : list Z)
| EWake (ts : list Z).

(** The device, the threads, the tokens that the ring took, and the result and
    the words of the reads that are finished. *)
Record bsys : Type := BSys {
  b_dev : kllm_device;
  b_readers : list client_pc;
  b_emitters : list emitter;
  b_accepted : list Z;
  b_log : list (Z * list Z);
}.

(** What a thread does next. *)
Inductive outcome : Type :=
| ONext (dev : kllm_device) (pc : client_pc) (ret : option (Z * list Z))
| OBlocked
| OUndef.

Section threads.
Context `{KL : KernelLib}.

(** A step of [kllm_read]; [signal] tells whether a signal is pending, [fault]
    whether the copy to the user faults. *)
Definition reader_next (dev : kllm_device) (signal fault : bool) (pc : client_pc) : outcome :=
  match pc with
  | BIdle | BRun RIdle => OBlocked
  | BEntry count nonblock =>
      if resp_ring_count dev =? 0 then
        if nonblock then ONext dev BIdle (Some (- EAGAIN, [])) else ONext dev (BWait count) None
      else ONext dev (BRun (RChecked count)) None
  | BWait count =>
      if 0 <? resp_ring_count dev then ONext dev (BRun (RChecked count)) None
      else if signal then ONext dev BIdle (Some (- ERESTARTSYS, []))
      else ONext dev (BAsleep count) None
  | BAsleep count => if signal then ONext dev (BWait count) None else OBlocked
  | BRun (RChecked count) => ONext dev (BRun (RPlanned (read_lock dev count))) None
  | BRun (RPlanned p) =>
      match read_copy dev p fault with
      | None => OUndef
      | Some None => ONext dev BIdle (Some (- EFAULT, []))
      | Some (Some ws) => ONext dev (BRun (RCopied p ws)) None
      end
  | BRun (RCopied p ws) => ONext (read_unlock dev p) BIdle (Some (to_copy p * 4, ws))
  end.

(** The tokens that a command of [kllm_ioctl] hands to [kllm_resp_produce]. *)
Definition ioctl_tokens (cmd : ioctl_cmd) : option (list Z) :=
  match cmd with
  | KLLM_IOC_EMIT_TOKENS (Some emit) =>
      if 256 <? emit_count emit then None
      else Some (take (Z.to_nat (emit_count emit)) (emit_tokens emit))
  | KLLM_IOC_EOS => Some [EOS_SENTINEL]
  | _ => None
  end.

(** [wake_up_interruptible(&dev->read_wq)] *)
Definition wake_up (rs : list client_pc) : list client_pc :=
  (fun pc => match pc with BAsleep count => BWait count | _ => pc end) <$> rs.

Inductive bstep : bsys -> bsys -> Prop :=
| bs_read dev rs es acc log i count nonblock :
    rs !! i = Some BIdle -> fits 31 count -> read_align count <> 0 ->
    bstep (BSys dev rs es acc log)
      (BSys dev (<[i := BEntry (read_align count) nonblock]> rs) es acc log)
| bs_reader dev rs es acc log i pc signal fault dev' pc' ret :
    rs !! i = Some pc -> reader_next dev signal fault pc = ONext dev' pc' ret ->
    bstep (BSys dev rs es acc log)
      (BSys dev' (<[i := pc']> rs) es acc (log ++ option_list ret))
| bs_ioctl dev rs es acc log j cmd ts :
    es !! j = Some EIdle -> ioctl_tokens cmd = Some ts ->
    bstep (BSys dev rs es acc log) (BSys dev rs (<[j := EPush ts]> es) acc log)
| bs_push dev rs es acc log j t ts dev' :
    es !! j = Some (EPush (t :: ts)) -> kllm_resp_produce dev t = Some dev' ->
    bstep (BSys dev rs es acc log)
      (BSys dev' rs (<[j := EWake ts]> es)
         (acc ++ if 0 <? resp_ring_space dev then [t] else []) log)
| bs_wake dev rs es acc log j ts :
    es !! j = Some (EWake ts) ->
    bstep (BSys dev rs es acc log) (BSys dev (wake_up rs) (<[j := EPush ts]> es) acc log)
| bs_return dev rs es acc log j :
    es !! j = Some (EPush []) ->
    bstep (BSys dev rs es acc log) (BSys dev rs (<[j := EIdle]> es) acc log).

(** The machine as a function of the thread that runs and of what it meets. *)
Inductive choice : Type :=
| CRead (i : nat) (count : Z) (nonblock : bool)
| CReader (i : nat) (signal fault : bool)
| CIoctl (j : nat) (cmd : ioctl_cmd)
| CEmitter (j : nat).

Definition bexec (s : bsys) (c : choice) : option bsys :=
  let '(BSys dev rs es acc log) := s in
  match c with
  | CRead i count nonblock =>
      match rs !! i with
      | Some BIdle =>
          if (0 <=? count) && (count <? 2 ^ 31) && negb (read_align count =? 0)
          then Some (BSys dev (<[i := BEntry (read_align count) nonblock]> rs) es acc log) else None
      | _ => None
      end
  | CReader i signal fault =>
      pc ← rs !! i;
      match reader_next dev signal fault pc with
      | ONext dev' pc' ret =>
          Some (BSys dev' (<[i := pc']> rs) es acc (log ++ option_list ret))
      | _ => None
      end
  | CIoctl j cmd =>
      match es !! j with
      | Some EIdle => ts ← ioctl_tokens cmd; Some (BSys dev rs (<[j := EPush ts]> es) acc log)
      | _ => None
      end
  | CEmitter j =>
      match es !! j with
      | Some (EPush (t :: ts)) =>
          dev' ← kllm_resp_produce dev t;
          Some (BSys dev' rs (<[j := EWake ts]> es)
            (acc ++ if 0 <? resp_ring_space dev then [t] else []) log)
      | Some (EPush []) => Some (BSys dev rs (<[j := EIdle]> es) acc log)
      | Some (EWake ts) => Some (BSys dev (wake_up rs) (<[j := EPush ts]> es) acc log)
      | _ => None
      end
  end.

Fixpoint brun (s : bsys) (cs : list choice) : option bsys :=
  match cs with
  | [] => Some s
  | c :: cs => s' ← bexec s c; brun s' cs
  end.

(** A ring of [2^k] slots, [n] readers and [m] emitters. *)
Definition bsys_init (k : Z) (n m : nat) : bsys :=
  BSys (resp_dev k) (replicate n BIdle) (replicate m EIdle) [] [].

(** The reader [i] on its own, without signals and faults. *)
Fixpoint run_reader (fuel : nat) (i : nat) (s : bsys) : option bsys :=
  match fuel with
  | O => Some s
  | S fuel =>
      pc ← b_readers s !! i;
      match reader_next (b_dev s) false false pc with
      | ONext dev pc' ret =>
          run_reader fuel i (BSys dev (<[i := pc']> (b_readers s)) (b_emitters s) (b_accepted s)
            (b_log s ++ option_list ret))
      | OBlocked => Some s
      | OUndef => None
      end
  end.

(** ** The threads and the operations of [Chardev] *)

(** [kllm_ioctl] is its emitter, one token after the other. *)
Fixpoint push_all (dev : kllm_device) (ts : list Z) : option kllm_device :=
  match ts with
  | [] => Some dev
  | t :: ts => dev' ← kllm_resp_produce dev t; push_all dev' ts
  end.

(** ** Invariant *)

Definition waking (e : emitter) : Prop := match e with EWake _ => True | _ => False end.

Definition client_ok (dev : kllm_device) (es : list emitter) (pc : client_pc) : Prop :=
  match pc with
  | BIdle => True
  | BEntry count _ | BWait count => 4 <= count < 2 ^ 31
  | BAsleep count => 4 <= count < 2 ^ 31 /\ (resp_contents dev = [] \/ Exists waking es)
  | BRun RIdle => False
  | BRun (RChecked count) => 4 <= count < 2 ^ 31 /\ 0 < resp_used dev
  | BRun (RPlanned p) => 0 < to_copy p /\ reader_inv dev (RPlanned p)
  | BRun (RCopied p ws) => 0 < to_copy p /\ reader_inv dev (RCopied p ws)
  end.

(** A finished read returned tokens, or an error and nothing. *)
Definition result_ok (r : Z * list Z) : Prop :=
  let '(ret, ws) := r in
  (ws <> [] /\ ret = 4 * len ws) \/
  (ws = [] /\ (ret = - EAGAIN \/ ret = - ERESTARTSYS \/ ret = - EFAULT)).

Record bsys_inv (s : bsys) : Prop := {
  bi_wf : resp_wf (b_dev s);
  bi_fifo : b_accepted s = concat (snd <$> b_log s) ++ resp_contents (b_dev s);
  bi_reader : exists pc, b_readers s = [pc] /\ client_ok (b_dev s) (b_emitters s) pc;
  bi_log : Forall result_ok (b_log s);
}.

(** ** Lemmas *)

(** The loop of [kllm_ioctl] pushes the tokens of its command in order. *)
Lemma push_loop (ts : list Z) n i dev :
  (i + n <= length ts)%nat ->
  for_loop (R := unit) n (Z.of_nat i) (fun i dev =>
    t ← arr_get ts i; dev' ← kllm_resp_produce dev t; Some (Continue dev')) dev =
  (d ← push_all dev (take n (drop i ts)); Some (inl d)).
Proof.
  revert i dev. induction n as [|n IH]; intros i dev Hn; [by rewrite take_0|].
  destruct (lookup_lt_is_Some_2 ts i ltac:(lia)) as [t Ht].
  rewrite (drop_S ts t) by done. cbn [for_loop take push_all].
  rewrite arr_get_lookup, Nat2Z.id, Ht by lia. cbn [mbind option_bind].
  destruct (kllm_resp_produce dev t) as [d|]; [|done]. cbn [mbind option_bind].
  replace (Z.of_nat i + 1) with (Z.of_nat (S i)) by lia. apply IH. lia.
Qed.

Lemma ioctl_as_pushes dev cmd fd ts :
  call_ok (SysIoctl fd cmd) = true -> ioctl_tokens cmd = Some ts ->
  kllm_ioctl dev cmd = (d ← push_all dev ts; Some (0, d)).
Proof.
  intros Hok Hts. destruct cmd as [[emit|]| |]; simpl in *; simplify_eq.
  - apply andb_true_iff in Hok as [[H0 _]%andb_true_iff Hl].
    rewrite Z.leb_le in H0. rewrite Z.eqb_eq in Hl.
    destruct (Z.ltb_spec 256 (emit_count emit)); simplify_eq. unfold for_range.
    rewrite Z.sub_0_r. pose proof (push_loop (emit_tokens emit) (Z.to_nat (emit_count emit)) 0 dev) as Hp.
    change (Z.of_nat 0) with 0 in Hp. rewrite Hp, drop_0 by lia.
    by destruct (push_all _ _).
  - simpl. by destruct (kllm_resp_produce dev EOS_SENTINEL).
Qed.

Lemma bexec_sound s c s' : bexec s c = Some s' -> bstep s s'.
Proof.
  destruct s as [dev rs es acc log], c as [i count nb|i sg ft|j cmd|j]; simpl; intros He.
  - destruct (rs !! i) as [[]|] eqn:Hi; simplify_eq.
    destruct (_ && _ && _) eqn:Hc; simplify_eq.
    apply andb_true_iff in Hc as [[H0%Z.leb_le H1%Z.ltb_lt]%andb_true_iff Ha%negb_true_iff%Z.eqb_neq].
    by apply bs_read.
  - destruct (rs !! i) as [pc|] eqn:Hi; simplify_eq/=.
    destruct (reader_next _ _ _ _) eqn:Hn; simplify_eq. by eapply bs_reader.
  - destruct (es !! j) as [[]|] eqn:Hj; simplify_eq.
    destruct (ioctl_tokens cmd) as [ts|] eqn:Ht; simplify_eq/=. by eapply bs_ioctl.
  - destruct (es !! j) as [[|[|t ts]|ts]|] eqn:Hj; simplify_eq.
    + by apply bs_return.
    + destruct (kllm_resp_produce dev t) as [d|] eqn:Hp; simplify_eq/=. by apply bs_push.
    + by apply bs_wake.
Qed.

Lemma brun_sound s cs s' : brun s cs = Some s' -> rtc bstep s s'.
Proof.
  revert s. induction cs as [|c cs IH]; intros s; simpl; [by intros [= ->]|].
  destruct (bexec s c) as [s1|] eqn:Hs; [|done]. intros Hr.
  eapply rtc_l; [by eapply bexec_sound|by apply IH].
Qed.

(** The locked section of a token. *)
Lemma push_effect dev t dev' :
  resp_wf dev -> kllm_resp_produce dev t = Some dev' ->
  resp_wf dev' /\
  resp_contents dev' = resp_contents dev ++ (if 0 <? resp_ring_space dev then [t] else []) /\
  forall pc, reader_inv dev pc -> reader_inv dev' pc.
Proof.
  intros Hwf Hp. destruct (resp_produce_ok dev Hwf t) as (d & Hd & Hwf' & Hm & Ht & _ & Happ & Hdrop).
  simplify_eq. rewrite resp_space_used by done.
  destruct (Z.ltb_spec 0 (resp_mask dev - resp_used dev)).
  - specialize (Happ ltac:(lia)). split; [done|]. split; [done|]. intros pc.
    by eapply (reader_inv_produce dev dev' pc t).
  - rewrite (Hdrop ltac:(lia)), app_nil_r. done.
Qed.

Lemma push_used dev t dev' :
  resp_wf dev -> kllm_resp_produce dev t = Some dev' -> resp_used dev <= resp_used dev'.
Proof.
  intros Hwf Hp. destruct (push_effect dev t dev' Hwf Hp) as (Hwf' & Hc & _).
  rewrite <- !resp_contents_length by done. rewrite Hc, length_app. lia.
Qed.

Lemma contents_nil dev : resp_wf dev -> resp_contents dev = [] <-> resp_used dev = 0.
Proof.
  intros Hwf. pose proof (resp_contents_length dev Hwf) as L.
  destruct (resp_contents dev); simpl in L; split; intros; done || lia.
Qed.

(** The reader when an emitter has pushed a token, and when it wakes the queue. *)
Lemma client_ok_push dev t dev' es j ts pc :
  resp_wf dev -> kllm_resp_produce dev t = Some dev' -> (j < length es)%nat ->
  client_ok dev es pc -> client_ok dev' (<[j := EWake ts]> es) pc.
Proof.
  intros Hwf Hp Hj. pose proof (push_used dev t dev' Hwf Hp).
  destruct (push_effect dev t dev' Hwf Hp) as (_ & _ & Hinv).
  destruct pc as [| | | |[| |p|p ws]]; simpl; try done.
  - intros [? _]. split; [done|]. right. apply Exists_exists. exists (EWake ts).
    split; [|done]. apply list_elem_of_lookup. exists j. by apply list_lookup_insert_eq.
  - lia.
  - intros [? Hr]. split; [done|]. by apply (Hinv (RPlanned p)).
  - intros [? Hr]. split; [done|]. by apply (Hinv (RCopied p ws)).
Qed.

Lemma client_ok_wake dev es es' pc :
  client_ok dev es pc ->
  client_ok dev es' (match pc with BAsleep count => BWait count | _ => pc end).
Proof. destruct pc as [| | | |[]]; simpl; naive_solver. Qed.

(** A step of an emitter that wakes nobody leaves the wake-ups of the others. *)
Lemma client_ok_emitters dev es j e e' pc :
  es !! j = Some e -> ~ waking e -> client_ok dev es pc -> client_ok dev (<[j := e']> es) pc.
Proof.
  intros Hj Hn. destruct pc as [| | | |[]]; simpl; try done. intros [? [?|He]]; split; eauto.
  right. apply Exists_exists in He as (x & Hx & Hw). apply Exists_exists. exists x. split; [|done].
  apply list_elem_of_lookup in Hx as [i Hi]. apply list_elem_of_lookup. exists i.
  rewrite list_lookup_insert_ne; [done|]. intros ->. congruence.
Qed.

Lemma error_result ret :
  ret = - EAGAIN \/ ret = - ERESTARTSYS \/ ret = - EFAULT -> Forall result_ok [(ret, [])].
Proof. intros Hr. constructor; [by right|done]. Qed.

(** A step of the reader. *)
Lemma reader_next_ok dev es signal fault pc :
  resp_wf dev -> client_ok dev es pc ->
  match reader_next dev signal fault pc with
  | OUndef => False
  | OBlocked => pc = BIdle \/ exists count, pc = BAsleep count
  | ONext dev' pc' ret =>
      resp_wf dev' /\ client_ok dev' es pc' /\ Forall result_ok (option_list ret) /\
      resp_contents dev = concat (snd <$> option_list ret) ++ resp_contents dev'
  end.
Proof.
  intros Hwf Hok. pose proof (resp_used_bounds dev Hwf).
  destruct pc as [|count nb|count|count|[|count|p|p ws]]; simpl in *;
    rewrite ?resp_count_used by done; [by left| | | |done| | |].
  - destruct (Z.eqb_spec (resp_used dev) 0); [destruct nb|]; simpl;
      split_and!; try done; try lia. apply error_result; eauto.
  - destruct (Z.ltb_spec 0 (resp_used dev)); [|destruct signal]; simpl;
      split_and!; try done; try lia.
    + apply error_result; eauto.
    + left. apply contents_nil; [done|lia].
  - destruct signal; simpl; [|by eauto]. split_and!; try done; lia.
  - destruct (read_lock_inv dev Hwf count) as [Hinv Hn]. split_and!; try done; try lia.
    + rewrite Hn, wrap_small by (unfold fits; dlia). dlia.
    + apply Hinv.
    + apply Hinv.
  - destruct Hok as [Hp Hinv]. rewrite read_copy_ok by done. destruct fault; simpl.
    + split_and!; try done. apply error_result; eauto.
    + destruct Hinv as [Hn _]. split_and!; try done; lia.
  - destruct Hok as (Hp & Hn & ->). destruct (read_unlock_ok dev Hwf p Hn) as [Hwf' Hc].
    simpl. rewrite Hc, app_nil_r, take_drop. split_and!; try done.
    pose proof (resp_contents_length dev Hwf) as L.
    constructor; [|done]. left. rewrite length_take. split; [|lia].
    intros He%(f_equal length). rewrite length_take in He. simpl in He. lia.
Qed.

Lemma bstep_inv s s' : bsys_inv s -> bstep s s' -> bsys_inv s'.
Proof.
  intros [Hwf Hfifo (pc & Hpc & Hcl) Hlog] Hstep.
  destruct Hstep as [dev rs es acc log i count nb Hi Hc Hal|dev rs es acc log i pc0 sg ft dev' pc' ret Hi Hn
    |dev rs es acc log j cmd ts Hj Hts|dev rs es acc log j t ts dev' Hj Hp|dev rs es acc log j ts Hj
    |dev rs es acc log j Hj]; simpl in *; subst rs.
  - apply list_lookup_singleton_Some in Hi as [-> ->]. split; simpl; [done..| |done].
    eexists. split; [done|]. simpl. unfold fits in Hc. rewrite read_align_eq in * by lia. dlia.
  - apply list_lookup_singleton_Some in Hi as [-> ->].
    pose proof (reader_next_ok dev es sg ft pc0 Hwf Hcl) as Hr. rewrite Hn in Hr.
    destruct Hr as (Hwf' & Hcl' & Hres & Hcont). split; simpl; [done| |by eauto|by apply Forall_app].
    by rewrite Hfifo, fmap_app, concat_app, <- app_assoc, <- Hcont.
  - split; simpl; [done..| |done]. exists pc. split; [done|].
    by eapply client_ok_emitters; [done|intros []|].
  - destruct (push_effect dev t dev' Hwf Hp) as (Hwf' & Hcont & _).
    split; simpl; [done|by rewrite Hfifo, Hcont, app_assoc| |done].
    exists pc. split; [done|]. apply lookup_lt_Some in Hj. by apply (client_ok_push dev t).
  - split; simpl; [done..| |done]. eexists. split; [done|]. by eapply client_ok_wake.
  - split; simpl; [done..| |done]. exists pc. split; [done|].
    by eapply client_ok_emitters; [done|intros []|].
Qed.

Lemma bsys_init_inv k m : 0 <= k < 32 -> bsys_inv (bsys_init k 1 m).
Proof.
  intros Hk. split; simpl; [by apply resp_dev_wf|done| |done]. by exists BIdle.
Qed.

Lemma bstep_reach s s' : rtc bstep s s' -> bsys_inv s -> bsys_inv s'.
Proof. induction 1; eauto using bstep_inv. Qed.

(** The steps that a reader which is not asleep is away from its return when
    there are tokens. *)
Definition steps_left (pc : client_pc) : nat :=
  match pc with
  | BIdle | BAsleep _ | BRun RIdle => 0
  | BEntry _ _ | BWait _ => 4
  | BRun (RChecked _) => 3
  | BRun (RPlanned _) => 2
  | BRun (RCopied _ _) => 1
  end.

Local Ltac advance :=
  do 3 eexists; split; [done|]; split; [done|]; case_decide; [lia|done].

Lemma reader_advances dev es pc n :
  resp_wf dev -> client_ok dev es pc -> resp_contents dev <> [] -> steps_left pc = S n ->
  exists dev' pc' ret, reader_next dev false false pc = ONext dev' pc' ret /\ steps_left pc' = n /\
    if decide (n = 0%nat)
    then pc' = BIdle /\ exists ws, ret = Some (4 * len ws, ws) /\ ws <> []
    else dev' = dev /\ ret = None.
Proof.
  intros Hwf Hok Hne Hn. pose proof (reader_next_ok dev es false false pc Hwf Hok) as Hnext.
  assert (0 < resp_used dev) as Hu.
  { pose proof (resp_used_bounds dev Hwf). rewrite contents_nil in Hne by done. lia. }
  destruct pc as [|count nb|count|count|[|count|p|p ws]]; simpl in *; simplify_eq;
    rewrite ?resp_count_used in * by done.
  - rewrite (proj2 (Z.eqb_neq _ _)) by lia. advance.
  - rewrite (proj2 (Z.ltb_lt _ _)) by lia. advance.
  - advance.
  - destruct (read_copy dev p false) as [[ws|]|] eqn:Hc; [advance| |done].
    destruct Hok as [_ Hinv]. by rewrite read_copy_ok in Hc.
  - destruct Hnext as (_ & _ & Hres & _). apply Forall_cons in Hres as [[[Hw Hr]|[-> Hr]] _].
    + do 3 eexists. split; [done|]. split; [done|]. split; [done|]. rewrite Hr. by eauto.
    + unfold EAGAIN, ERESTARTSYS, EFAULT in Hr. destruct Hok as [? _]. lia.
Qed.

Lemma run_reader_served n s pc :
  bsys_inv s -> b_readers s = [pc] -> resp_contents (b_dev s) <> [] -> steps_left pc = S n ->
  exists s' ws, run_reader (S n) 0 s = Some s' /\ b_readers s' = [BIdle] /\
    b_log s' = b_log s ++ [(4 * len ws, ws)] /\ ws <> [] /\
    resp_contents (b_dev s) = ws ++ resp_contents (b_dev s').
Proof.
  revert s pc. induction n as [n IH] using lt_wf_ind. intros s pc Hinv Hpc Hne Hn.
  pose proof Hinv as [Hwf _ (pc0 & Hpc0 & Hok) _]. rewrite Hpc in Hpc0. simplify_eq.
  destruct (reader_advances _ _ _ n Hwf Hok Hne Hn) as (dev' & pc' & ret & Hnext & Hleft & Hlast).
  pose proof (reader_next_ok _ _ false false _ Hwf Hok) as Hgood. rewrite Hnext in Hgood.
  cbn [run_reader]. rewrite Hpc. simpl. rewrite Hnext. case_decide as Hn0.
  - destruct Hlast as (-> & ws & -> & Hw). subst n. simpl.
    destruct Hgood as (_ & _ & _ & Hc). simpl in Hc. rewrite app_nil_r in Hc.
    do 2 eexists. split; [done|]. by eauto.
  - destruct Hlast as [-> ->]. destruct n as [|n]; [done|]. cbn [option_list]. rewrite app_nil_r.
    apply (IH n ltac:(lia) (BSys (b_dev s) [pc'] (b_emitters s) (b_accepted s) (b_log s)) pc');
      [|done..]. eapply bstep_inv; [exact Hinv|].
    destruct s as [dev rs es acc log]. simpl in *. subst rs.
    pose proof (bs_reader dev [pc0] es acc log 0 pc0 false false _ _ _ eq_refl Hnext) as Hs.
    simpl in Hs. by rewrite app_nil_r in Hs.
Qed.

End threads.

(** ** Theorems *)

(** C13. With one reader and any number of emitters, however the locked sections,
    the unlocked copies, the wake-ups, signals and faults interleave: the tokens
    that the ring took are the words that reads returned, in order, followed by
    the contents of the ring; a read with room for a token returns tokens or an
    error, never nothing; a reader sleeps on a ring that holds tokens only while
    an emitter is about to wake it; and no step of the reader is undefined. *)
Theorem no_lost_wakeup `{KL : KernelLib} (k : Z) (m : nat) (s : bsys)
  (Hk : 0 <= k < 32) (Hreach : rtc bstep (bsys_init k 1 m) s) :
  b_accepted s = concat (snd <$> b_log s) ++ resp_contents (b_dev s) /\
  Forall result_ok (b_log s) /\
  exists pc, b_readers s = [pc] /\
    (forall count, pc = BAsleep count ->
       resp_contents (b_dev s) = [] \/ Exists waking (b_emitters s)) /\
    forall signal fault, reader_next (b_dev s) signal fault pc <> OUndef.
Proof.
  destruct (bstep_reach _ _ Hreach (bsys_init_inv k m Hk)) as [Hwf Hfifo (pc & Hpc & Hok) Hlog].
  split; [done|]. split; [done|]. exists pc. split; [done|]. split.
  - intros count ->. apply Hok.
  - intros signal fault Hu. pose proof (reader_next_ok _ _ signal fault pc Hwf Hok) as Hr.
    by rewrite Hu in Hr.
Qed.

(** C19. A reader gets the tokens that are there: in every state that one reader
    and any number of emitters reach, when the ring holds tokens, no wake-up is
    outstanding and the reader is inside of a read, its next four steps return
    the oldest tokens, at least one of them. *)
Theorem reader_is_served `{KL : KernelLib} (k : Z) (m : nat) (s : bsys)
  (Hk : 0 <= k < 32) (Hreach : rtc bstep (bsys_init k 1 m) s)
  (Htok : resp_contents (b_dev s) <> []) (Hquiet : Forall (fun e => ~ waking e) (b_emitters s))
  (Hbusy : b_readers s <> [BIdle]) :
  exists s' ws, run_reader 4 0 s = Some s' /\ b_readers s' = [BIdle] /\
    b_log s' = b_log s ++ [(4 * len ws, ws)] /\ ws <> [] /\
    resp_contents (b_dev s) = ws ++ resp_contents (b_dev s').
Proof.
  pose proof (bstep_reach _ _ Hreach (bsys_init_inv k m Hk)) as Hinv.
  pose proof Hinv as [Hwf _ (pc & Hpc & Hok) _].
  assert (exists n, steps_left pc = S n /\ (n <= 3)%nat) as (n & Hn & Hle).
  { destruct pc as [| | |count|[]]; simpl in *; try done; try by eauto with lia.
    destruct Hok as [_ [?|He]]; [done|]. exfalso.
    apply Exists_exists in He as (e & Hin & Hw). by eapply Forall_forall in Hquiet. }
  destruct (run_reader_served n s pc Hinv Hpc Htok Hn) as (s' & ws & Hrun & Hidle & Hrest).
  exists s', ws. split; [|done].
  assert (forall a b t t', run_reader a 0 t = Some t' -> b_readers t' = [BIdle] ->
    run_reader (a + b) 0 t = Some t') as Hmore.
  { clear. intros a b. induction a as [|a IH]; intros t t' Hrun Hidle; simpl in *.
    - simplify_eq. destruct b; simpl; [done|]. by rewrite Hidle.
    - destruct (b_readers t !! 0%nat) as [pc|]; simpl in *; [|done].
      destruct (reader_next _ _ _ _); [by apply IH|done..]. }
  replace 4%nat with (S n + (3 - n))%nat by lia. by apply Hmore.
Qed.

(** ** Concrete runs *)

#[local] Existing Instance linux_kernel_lib.

Definition emit_one (t : Z) : ioctl_cmd := KLLM_IOC_EMIT_TOKENS (Some (EmitCmd 1 (replicate 256 t))).

(** With two readers a blocking read can return 0: both see the only token before
    one of them takes it. *)
Definition eof_run : list choice :=
  [CIoctl 0 (emit_one 42); CEmitter 0; CEmitter 0; CRead 0 4 false; CRead 1 4 false;
   CReader 0 false false; CReader 1 false false] ++
  replicate 3 (CReader 0 false false) ++ replicate 3 (CReader 1 false false).

Theorem two_readers_eof :
  exists s, rtc bstep (bsys_init 2 2 1) s /\ b_accepted s = [42] /\
    b_log s = [(4, [42]); (0, [])].
Proof.
  destruct (brun (bsys_init 2 2 1) eof_run) as [s|] eqn:Hs; [|by vm_compute in Hs].
  exists s. split; [by eapply brun_sound|]. vm_compute in Hs. by injection Hs as <-.
Qed.

(** A reader falls asleep and is woken between the two tokens of an emitter. *)
Definition sleep_run : list choice :=
  [CRead 0 8 false; CReader 0 false false; CReader 0 false false;
   CIoctl 0 (KLLM_IOC_EMIT_TOKENS (Some (EmitCmd 2 (replicate 256 7)))); CEmitter 0; CEmitter 0].

Lemma no_lost_wakeup_witness :
  exists s, brun (bsys_init 2 1 1) (take 5 sleep_run) = Some s /\ b_readers s = [BAsleep 8] /\
    (resp_contents (b_dev s) = [] \/ Exists waking (b_emitters s)).
Proof.
  destruct (brun (bsys_init 2 1 1) (take 5 sleep_run)) as [s|] eqn:Hs; [|by vm_compute in Hs].
  exists s. split; [reflexivity|].
  destruct (no_lost_wakeup 2 1 s ltac:(lia) (brun_sound _ _ _ Hs))
    as (_ & _ & pc & Hpc & Hw & _).
  assert (b_readers s = [BAsleep 8]) as Hr by (vm_compute in Hs; by injection Hs as <-).
  split; [exact Hr|]. rewrite Hr in Hpc. injection Hpc as <-. exact (Hw 8 eq_refl).
Defined.

Lemma reader_is_served_witness :
  exists s s' ws, brun (bsys_init 2 1 1) sleep_run = Some s /\ run_reader 4 0 s = Some s' /\
    b_log s' = [(4 * len ws, ws)] /\ ws <> [].
Proof.
  destruct (brun (bsys_init 2 1 1) sleep_run) as [s|] eqn:Hs; [|by vm_compute in Hs].
  destruct (reader_is_served 2 1 s ltac:(lia) (brun_sound _ _ _ Hs)) as (s' & ws & Hrun & _ & Hl & Hw & _).
  - vm_compute in Hs. injection Hs as <-. vm_compute. congruence.
  - vm_compute in Hs. injection Hs as <-. repeat constructor. intros [].
  - vm_compute in Hs. injection Hs as <-. discriminate.
  - exists s, s', ws. split; [reflexivity|]. split; [exact Hrun|]. split; [|exact Hw].
    rewrite Hl. vm_compute in Hs. by injection Hs as <-.
Defined.
