(* ===== verification/Tokenizer.v ===== *)
(** * The eBPF byte-pair-encoding tokenizer

    Models [bpf/tokenizer.bpf.c]: the scratch token sequence, one merge pass
    ([do_merge_pass]), the bounded iteration of it ([bpf_loop]) and the
    [kllm_tokenize] program that writes the token ids to the token ring.

    The BPF maps are their contents: the merge table a finite map from token
    pairs to the merged id and its rank, the byte table an array of 256 entries,
    the scratch map one [token_seq] with a fixed array of 2048 tokens.

    A merge pass is proved equal to the definition of a BPE merge
    ([best_merge]: the lowest rank, leftmost), and the program to at most 128 of
    them ([bpe_run]) followed by an append to the ring of the tokens that fit. *)

From Stdlib Require Import ZArith Lia.
From stdpp Require Import base numbers list gmap.
From S2P Require Import Prelude TokenRing.

#[local] Open Scope Z_scope.

(** ** Data *)

Definition MAX_PROMPT_LEN : Z := 4096.
Definition MAX_MERGE_PASSES : Z := 128.
Definition MAX_SEQ_LEN : Z := 2048.

Record merge_key : Type := MergeKey {
  mk_left : Z;
  mk_right : Z;
}.

Record merge_val : Type := MergeVal {
  mv_merged_id : Z;
  mv_priority : Z;
}.

#[export] Instance merge_key_eq_dec : EqDecision merge_key.
Proof. solve_decision. Defined.

#[export] Instance merge_key_countable : Countable merge_key.
Proof.
  refine (inj_countable' (fun k => (mk_left k, mk_right k)) (fun '(l, r) => MergeKey l r) _).
  by intros [].
Defined.

(** The contents of the hash map of the merges. *)
Definition merge_table : Type := gmap merge_key merge_val.

Record token_seq : Type := TokenSeq {
  tokens : list Z;
  seq_len : Z;
}.

Record merge_state : Type := MergeState {
  ms_seq : token_seq;
  merged_any : Z;
}.

(** The variables of the scan for the best pair. *)
Record scan : Type := Scan {
  best_pos : Z;
  best_priority : Z;
  best_merged : Z;
  found : bool;
}.

(** ** Operations *)

(** The first loop of [do_merge_pass]. *)
Definition scan_pairs (mt : merge_table) (seq : token_seq) : option (scan + unit) :=
  for_range 0 (Z.min (u32 (seq_len seq - 1)) (MAX_SEQ_LEN - 1)) (fun i st =>
    left ← arr_get (tokens seq) i;
    right ← arr_get (tokens seq) (i + 1);
    match (mt : gmap merge_key merge_val) !! MergeKey left right with
    | Some (MergeVal merged_id priority) =>
        if priority <? best_priority st
        then Some (Continue (Scan i priority merged_id true))
        else Some (Continue st)
    | None => Some (Continue st)
    end) (Scan 0 UINT32_MAX 0 false).

(** The second loop: shift the tokens after the merged pair left by one. *)
Definition shift_left (ts : list Z) (n pos : Z) : option (list Z + unit) :=
  for_range (pos + 1) (Z.min (u32 (n - 1)) (MAX_SEQ_LEN - 1)) (fun i ts =>
    x ← arr_get ts (i + 1);
    ts' ← arr_set ts i x;
    Some (Continue ts')) ts.

(** Returns 1 to stop the loop and 0 to go on, and the state. *)
Definition do_merge_pass (mt : merge_table) (index : Z) (state : merge_state)
    : option (Z * merge_state) :=
  let seq := ms_seq state in
  if seq_len seq <? 2 then Some (1, state)
  else
    res ← scan_pairs mt seq;
    match res with
    | inr _ => None
    | inl st =>
        if negb (found st) then Some (1, state)
        else
          ts1 ← arr_set (tokens seq) (best_pos st) (best_merged st);
          res ← shift_left ts1 (seq_len seq) (best_pos st);
          match res with
          | inr _ => None
          | inl ts2 =>
              Some (0, MergeState (TokenSeq ts2 (u32 (seq_len seq - 1))) 1)
          end
    end.

(** The BPF helper: call [f] at most [n] times, until it returns nonzero. *)
Fixpoint bpf_loop {S} (n : nat) (i : Z) (f : Z -> S -> option (Z * S)) (s : S)
    : option S :=
  match n with
  | O => Some s
  | Datatypes.S n' =>
      '(rc, s') ← f i s;
      if rc =? 0 then bpf_loop n' (i + 1) f s' else Some s'
  end.

(** Phase 1: bytes to initial tokens; [Return] is the error exit. *)
Definition bytes_to_tokens (byte_to_token buf : list Z) (n : Z)
    (seq : token_seq) : option (token_seq + token_seq) :=
  for_range 0 (Z.min n MAX_PROMPT_LEN) (fun i seq =>
    byte ← arr_get buf i;
    match arr_get byte_to_token (u8 byte) with
    | None => Some (Return seq)
    | Some tok =>
        if MAX_SEQ_LEN <=? seq_len seq then Some (Break seq)
        else
          ts ← arr_set (tokens seq) (seq_len seq) tok;
          Some (Continue (TokenSeq ts (u32 (seq_len seq + 1))))
    end) (TokenSeq (tokens seq) 0).

(** Phase 3: the ring write; the state is the local head and the slots. *)
Definition write_ring (r : ring) (seq : token_seq) : option ((Z * list Z) + unit) :=
  let ring_mask := u32 (slot_count r - 1) in
  for_range 0 (Z.min (seq_len seq) MAX_SEQ_LEN) (fun i '(hd, sl) =>
    let next := Z.land (u32 (hd + 1)) ring_mask in
    if next =? tail r then Some (Break (hd, sl))
    else
      x ← arr_get (tokens seq) i;
      sl' ← arr_set sl hd x;
      Some (Continue (next, sl'))) (head r, slots r).

(** Returns the C result, the ring and the scratch entry ([None] when the
    lookup of the scratch map fails).  The ring's tail is constant during the
    call; [TokenRing.spsc_step] has the interleavings with a consumer. *)
Definition kllm_tokenize (mt : merge_table) (byte_to_token buf : list Z) (n : Z)
    (ring_hdr : option ring) (scratch : option token_seq)
    : option (Z * option ring * option token_seq) :=
  if (n =? 0) || (MAX_PROMPT_LEN <? n) then Some (-1, ring_hdr, scratch)
  else match scratch with
  | None => Some (-1, ring_hdr, None)
  | Some sc =>
    res ← bytes_to_tokens byte_to_token buf n sc;
    match res with
    | inr seq => Some (-1, ring_hdr, Some seq)
    | inl seq =>
        state ← bpf_loop (Z.to_nat MAX_MERGE_PASSES) 0 (do_merge_pass mt)
                  (MergeState seq 0);
        let seq := ms_seq state in
        match ring_hdr with
        | None => Some (seq_len seq, None, Some seq)
        | Some r =>
            if slot_count r =? 0 then Some (-1, Some r, Some seq)
            else
              res ← write_ring r seq;
              match res with
              | inr _ => None
              | inl (hd, sl) =>
                  let r' := with_head (with_slots r sl) hd in
                  let r'' := with_seq_id r' (u32 (seq_id r + 1)) in
                  Some (seq_len seq, Some r'', Some seq)
              end
        end
    end
  end.

(** ** Specification *)

(** The tokens of a sequence. *)
Definition live (s : token_seq) : list Z := take (Z.to_nat (seq_len s)) (tokens s).

Record seq_wf (s : token_seq) : Prop := {
  seq_mem : len (tokens s) = MAX_SEQ_LEN;
  seq_bound : 0 <= seq_len s <= MAX_SEQ_LEN;
}.

(** The pair at position [j] is in the table, with a rank below the largest
    one, which the code uses as "none". *)
Definition mergeable (mt : merge_table) (l : list Z) (j : nat) (m p : Z) : Prop :=
  exists a b, l !! j = Some a /\ l !! S j = Some b /\
    (mt : gmap merge_key merge_val) !! MergeKey a b = Some (MergeVal m p) /\ p < UINT32_MAX.

(** Among the pairs that start before [n], the one at [i] has the lowest rank,
    and is the leftmost of that rank. *)
Definition best_upto (mt : merge_table) (l : list Z) (n i : nat) (m p : Z) : Prop :=
  (i < n)%nat /\ mergeable mt l i m p /\
  forall j m' p', (j < n)%nat -> mergeable mt l j m' p' ->
    p < p' \/ (p = p' /\ (i <= j)%nat).

Definition best_merge (mt : merge_table) (l : list Z) (i : nat) (m : Z) : Prop :=
  exists p, best_upto mt l (length l) i m p.

Definition no_merge (mt : merge_table) (l : list Z) : Prop :=
  forall j m p, ~ mergeable mt l j m p.

(** Replace the pair at [i] by [m]. *)
Definition merge_at (l : list Z) (i : nat) (m : Z) : list Z :=
  take i l ++ m :: drop (i + 2) l.

(** At most [n] merges, each of the best pair; fewer only if none is left. *)
Inductive bpe_run (mt : merge_table) : nat -> list Z -> list Z -> Prop :=
| bpe_cap l : bpe_run mt 0 l l
| bpe_done n l : no_merge mt l -> bpe_run mt (S n) l l
| bpe_merge n l i m l' :
    best_merge mt l i m -> bpe_run mt n (merge_at l i m) l' ->
    bpe_run mt (S n) l l'.

(** The initial tokens of a prompt: the sequence holds 2048 of them. *)
Definition initial_tokens (byte_to_token buf : list Z) (n : Z) : list Z :=
  (fun b => byte_to_token !!! Z.to_nat (u8 b)) <$>
    take (Z.to_nat (Z.min n MAX_SEQ_LEN)) buf.

(** ** Lemmas *)

Lemma live_lookup s j :
  Z.of_nat j < seq_len s -> live s !! j = tokens s !! j.
Proof. intros. unfold live. apply lookup_take_lt. lia. Qed.

Lemma live_length s : seq_wf s -> len (live s) = seq_len s.
Proof. intros []. unfold live. rewrite length_take. unfold MAX_SEQ_LEN in *. lia. Qed.

Lemma scan_bound s :
  seq_wf s -> 2 <= seq_len s ->
  Z.min (wrap 32 (seq_len s - 1)) (MAX_SEQ_LEN - 1) = seq_len s - 1.
Proof.
  intros [] ?. unfold MAX_SEQ_LEN in *.
  rewrite wrap_small by (unfold fits; lia). lia.
Qed.

(** The best pair before position [n + 1], given the best one before [n]. *)
Lemma best_upto_keep mt l n i m p :
  best_upto mt l n i m p ->
  (forall m' p', mergeable mt l n m' p' -> p <= p') ->
  best_upto mt l (S n) i m p.
Proof.
  intros (Hi & Hm & Hbest) Hn. split; [lia|]. split; [done|].
  intros j m' p' Hj Hj'. destruct (decide (j = n)) as [->|].
  - specialize (Hn _ _ Hj'). destruct (Z.eq_dec p p'); [right|left]; lia.
  - apply (Hbest j m' p'); [lia|done].
Qed.

Lemma mergeable_fun mt l j m p m' p' :
  mergeable mt l j m p -> mergeable mt l j m' p' -> m = m' /\ p = p'.
Proof. intros (?&?&?&?&?&?) (?&?&?&?&?&?). by simplify_eq. Qed.

(** The state of the scan after the pairs before [n]. *)
Definition scan_inv (mt : merge_table) (l : list Z) (n : nat) (st : scan) : Prop :=
  if found st then
    exists i, best_pos st = Z.of_nat i /\
      best_upto mt l n i (best_merged st) (best_priority st)
  else best_priority st = UINT32_MAX /\
    forall j m p, (j < n)%nat -> ~ mergeable mt l j m p.

(** A pair of a lower rank than the best so far becomes the best. *)
Lemma scan_inv_take mt l n st m p :
  scan_inv mt l n st -> mergeable mt l n m p -> p < best_priority st ->
  scan_inv mt l (S n) (Scan (Z.of_nat n) p m true).
Proof.
  intros Hinv Hm Hlt. exists n. split; [done|]. simpl.
  split; [lia|]. split; [done|]. intros j m' p' Hj Hj'.
  destruct (decide (j = n)) as [->|].
  - destruct (mergeable_fun _ _ _ _ _ _ _ Hm Hj') as [_ ->]. auto.
  - left. unfold scan_inv in Hinv. destruct (found st).
    + destruct Hinv as (i & _ & _ & _ & Hbest).
      destruct (Hbest j m' p'); [lia|done|lia..].
    + destruct Hinv as [_ Hno]. exfalso. apply (Hno j m' p'); [lia|done].
Qed.

(** Any other pair leaves the best so far. *)
Lemma scan_inv_skip mt l n st :
  scan_inv mt l n st ->
  (forall m p, mergeable mt l n m p -> best_priority st <= p) ->
  scan_inv mt l (S n) st.
Proof.
  unfold scan_inv. intros Hinv Hn. destruct (found st).
  - destruct Hinv as (i & Hi & Hb). exists i. split; [done|].
    by apply best_upto_keep.
  - destruct Hinv as [Hp Hno]. split; [done|]. intros j m p Hj Hm.
    destruct (decide (j = n)) as [->|].
    + pose proof (Hn _ _ Hm). destruct Hm as (?&?&?&?&?&?). lia.
    + apply (Hno j m p); [lia|done].
Qed.

Lemma scan_pairs_ok mt s :
  seq_wf s -> 2 <= seq_len s ->
  exists st, scan_pairs mt s = Some (inl st) /\
    scan_inv mt (live s) (Z.to_nat (seq_len s - 1)) st.
Proof.
  intros Hwf H2. unfold scan_pairs. rewrite scan_bound by done.
  edestruct (for_range_rule (R := unit)
    (fun i st => scan_inv mt (live s) (Z.to_nat i) st)
    (fun o => exists st, o = inl st /\
       scan_inv mt (live s) (Z.to_nat (seq_len s - 1)) st))
    as (o & Ho & st & -> & Hst); [..|by exists st].
  - lia.
  - split; [done|]. intros. lia.
  - intros i st Hi Hinv. cbv beta. pose proof (seq_mem _ Hwf). pose proof (seq_bound _ Hwf).
    rewrite !arr_get_total by (unfold MAX_SEQ_LEN in *; lia). simpl.
    replace (Z.to_nat (i + 1)) with (S (Z.to_nat i)) by lia.
    set (a := tokens s !!! Z.to_nat i). set (b := tokens s !!! S (Z.to_nat i)).
    assert (live s !! Z.to_nat i = Some a) as Ha.
    { rewrite live_lookup by lia. apply list_lookup_lookup_total_lt. lia. }
    assert (live s !! S (Z.to_nat i) = Some b) as Hb.
    { rewrite live_lookup by lia. apply list_lookup_lookup_total_lt. lia. }
    assert (best_priority st <= UINT32_MAX) as Hp.
    { unfold scan_inv in Hinv. destruct (found st).
      - destruct Hinv as (? & _ & _ & (?&?&?&?&?&?) & _). lia.
      - destruct Hinv as [-> _]. done. }
    destruct ((mt : gmap merge_key merge_val) !! MergeKey a b) as [[m p]|] eqn:Hmt.
    + case_cond; (eexists; split; [done|]); cbv beta iota.
      * replace (Scan i p m true) with (Scan (Z.of_nat (Z.to_nat i)) p m true)
          by (f_equal; lia).
        eapply scan_inv_take; [done| |done].
        exists a, b. split_and!; try done. lia.
      * apply scan_inv_skip; [done|].
        intros m' p' (?&?&?&?&?&?). simplify_eq. lia.
    + eexists. split; [done|]. cbv beta iota. apply scan_inv_skip; [done|].
      intros m' p' (?&?&?&?&?&?). by simplify_eq.
  - intros st Hst. eauto.
Qed.

Lemma shift_left_ok ts n pos :
  len ts = MAX_SEQ_LEN -> 2 <= n <= MAX_SEQ_LEN -> 0 <= pos < n - 1 ->
  exists ts', shift_left ts n pos = Some (inl ts') /\ length ts' = length ts /\
    forall j, ts' !! j =
      if decide (pos < Z.of_nat j < n - 1) then ts !! S j else ts !! j.
Proof.
  intros Hl Hn Hpos. unfold shift_left. unfold MAX_SEQ_LEN in *.
  rewrite wrap_small by (unfold fits; lia). rewrite Z.min_l by lia.
  edestruct (for_range_rule (R := unit)
    (fun i c => length c = length ts /\ forall j, c !! j =
       if decide (pos < Z.of_nat j < i) then ts !! S j else ts !! j)
    (fun o => exists c, o = inl c /\ length c = length ts /\ forall j, c !! j =
       if decide (pos < Z.of_nat j < n - 1) then ts !! S j else ts !! j))
    as (o & Ho & c & -> & Hc); [..|by exists c].
  - lia.
  - split; [done|]. intros j. by rewrite decide_False by lia.
  - intros i c Hi [Hlc Hc]. cbv beta.
    destruct (lookup_lt_is_Some_2 ts (Z.to_nat (i + 1))) as [x Hx]; [lia|].
    rewrite arr_get_lookup, Hc, decide_False, Hx by lia. simpl.
    rewrite arr_set_in by lia. simpl. eexists. split; [done|].
    split; [by rewrite length_insert|]. intros j.
    rewrite list_lookup_insert. repeat case_decide; try lia; try apply Hc.
    + rewrite <- Hx. f_equal. lia.
    + rewrite Hc. by rewrite decide_True by lia.
    + rewrite Hc. by rewrite decide_False by lia.
  - intros c Hc. eauto.
Qed.

Lemma merge_at_lookup l i m j :
  (S i < length l)%nat ->
  merge_at l i m !! j =
    if decide (j < i)%nat then l !! j
    else if decide (j = i) then Some m else l !! S j.
Proof.
  intros Hi. unfold merge_at.
  assert (length (take i l) = i) as Ht by (rewrite length_take; lia).
  repeat case_decide.
  - rewrite lookup_app_l by lia. by apply lookup_take_lt.
  - subst. rewrite lookup_app_r by lia. by rewrite Ht, Nat.sub_diag.
  - rewrite lookup_app_r by lia. rewrite Ht.
    destruct (j - i)%nat as [|d] eqn:E; [lia|]. simpl.
    rewrite lookup_drop. f_equal. lia.
Qed.

Lemma merge_at_length l i m :
  (S i < length l)%nat -> length (merge_at l i m) = (length l - 1)%nat.
Proof.
  intros. unfold merge_at. rewrite length_app. simpl.
  rewrite length_take, length_drop. lia.
Qed.

(** One merge pass merges the best pair, or stops when there is none. *)
Lemma do_merge_pass_ok mt ix s a :
  seq_wf s ->
  exists rc st, do_merge_pass mt ix (MergeState s a) = Some (rc, st) /\
    ((rc = 1 /\ st = MergeState s a /\ no_merge mt (live s)) \/
     (rc = 0 /\ seq_wf (ms_seq st) /\ merged_any st = 1 /\
        exists i m, best_merge mt (live s) i m /\
          live (ms_seq st) = merge_at (live s) i m)).
Proof.
  intros Hwf. pose proof (live_length s Hwf) as Hlen.
  pose proof (seq_mem _ Hwf) as Hmem. pose proof (seq_bound _ Hwf) as Hb.
  unfold do_merge_pass. simpl. destruct (Z.ltb_spec (seq_len s) 2).
  { do 2 eexists. split; [done|]. left. split_and!; [done..|].
    intros j m p (?&?&Hj&HSj&_). apply lookup_lt_Some in HSj. lia. }
  destruct (scan_pairs_ok mt s Hwf) as (st & -> & Hst); [done|]. simpl.
  unfold scan_inv in Hst. destruct (found st); simpl.
  2:{ destruct Hst as [_ Hno]. do 2 eexists. split; [done|]. left.
      split_and!; [done..|]. intros j m p Hm. apply (Hno j m p); [|done].
      destruct Hm as (?&?&_&HSj&_). apply lookup_lt_Some in HSj. lia. }
  destruct Hst as (i & Hi & Hbest).
  assert (Z.of_nat i < seq_len s - 1) as Hib by (destruct Hbest; lia).
  rewrite Hi, arr_set_in by (unfold MAX_SEQ_LEN in *; lia). simpl.
  rewrite Nat2Z.id.
  destruct (shift_left_ok (<[i:=best_merged st]> (tokens s)) (seq_len s) (Z.of_nat i))
    as (ts & -> & Hlts & Hts); [by rewrite length_insert|lia|lia|]. simpl.
  rewrite length_insert in Hlts.
  rewrite (wrap_small 32) by (unfold fits, MAX_SEQ_LEN in *; lia).
  do 2 eexists. split; [done|]. right. simpl. split_and!; [done| |done|].
  { split; simpl; lia. }
  exists i, (best_merged st). split.
  - exists (best_priority st). destruct Hbest as (Hi' & Hm & Hbest).
    split; [lia|]. split; [done|]. intros j m' p' _ Hm'.
    apply (Hbest j m' p'); [|done].
    destruct Hm' as (?&?&_&HSj&_). apply lookup_lt_Some in HSj. lia.
  - apply list_eq. intros j. rewrite merge_at_lookup by lia.
    destruct (decide (Z.of_nat j < seq_len s - 1)).
    + rewrite live_lookup by (simpl; lia). simpl. rewrite Hts.
      rewrite !list_lookup_insert.
      repeat case_decide; try lia; try done; rewrite live_lookup by lia; done.
    + rewrite (lookup_ge_None_2 (live _)).
      2:{ unfold live. simpl. rewrite length_take. lia. }
      rewrite decide_False, decide_False by lia. symmetry.
      apply lookup_ge_None_2. lia.
Qed.

(** The bounded iteration of merge passes. *)
Lemma merge_loop_ok mt n i s a :
  seq_wf s ->
  exists st, bpf_loop n i (do_merge_pass mt) (MergeState s a) = Some st /\
    seq_wf (ms_seq st) /\ bpe_run mt n (live s) (live (ms_seq st)).
Proof.
  revert i s a. induction n as [|n IH]; intros i s a Hwf; simpl.
  - eexists. split; [done|]. split; [done|]. apply bpe_cap.
  - destruct (do_merge_pass_ok mt i s a Hwf)
      as (rc & st & -> & [(-> & -> & Hno)|(-> & Hwf' & _ & j & m & Hbest & Hl)]).
    + eexists. split; [done|]. split; [done|]. by apply bpe_done.
    + simpl. destruct st as [s' a']. simpl in *.
      destruct (IH (i + 1) s' a' Hwf') as (st & -> & Hwf'' & Hrun).
      eexists. split; [done|]. split; [done|].
      apply (bpe_merge _ _ _ j m); [done|]. by rewrite <- Hl.
Qed.

Lemma bpe_run_length mt n l l' :
  bpe_run mt n l l' -> (length l' <= length l)%nat /\ (length l <= length l' + n)%nat.
Proof.
  induction 1 as [l|n l Hno|n l i m l' (p & Hi & (?&?&_&HSj&_) & _) _ IH]; [lia|lia|].
  apply lookup_lt_Some in HSj. rewrite merge_at_length in IH by done. lia.
Qed.

(** Phase 1 gives the initial tokens. *)
Lemma bytes_to_tokens_ok bt buf n sc :
  len bt = 256 -> 0 <= n <= MAX_PROMPT_LEN -> n <= len buf ->
  len (tokens sc) = MAX_SEQ_LEN ->
  exists s, bytes_to_tokens bt buf n sc = Some (inl s) /\
    seq_wf s /\ live s = initial_tokens bt buf n.
Proof.
  intros Hbt Hn Hbuf Hsc. unfold bytes_to_tokens. rewrite Z.min_l by lia.
  edestruct (for_range_rule (R := token_seq)
    (fun i s => seq_wf s /\ seq_len s = Z.min i MAX_SEQ_LEN /\
       live s = initial_tokens bt buf i)
    (fun o => exists s, o = inl s /\ seq_wf s /\ live s = initial_tokens bt buf n))
    as (o & Ho & s & -> & Hs); [..|by exists s].
  - lia.
  - split_and!; [|done..]. by split.
  - intros i s Hi (Hwf & Hl & Hlive). cbv beta.
    pose proof (seq_mem _ Hwf). pose proof (wrap_bound 8 (buf !!! Z.to_nat i) ltac:(lia)).
    rewrite (arr_get_total buf) by lia. cbn [mbind option_bind].
    rewrite arr_get_total by lia.
    destruct (Z.leb_spec MAX_SEQ_LEN (seq_len s)).
    + eexists. split; [done|]. cbv beta iota. eexists. split_and!; [done..|].
      rewrite Hlive. unfold initial_tokens. do 3 f_equal. lia.
    + unfold MAX_SEQ_LEN in *. rewrite arr_set_in by lia.
      eexists. split; [done|]. cbv beta iota.
      rewrite (wrap_small 32) by (unfold fits; lia).
      split_and!; [split; simpl; rewrite ?length_insert; unfold MAX_SEQ_LEN; lia|simpl; lia|].
      replace (initial_tokens bt buf (i + 1)) with (initial_tokens bt buf i ++
        [bt !!! Z.to_nat (wrap 8 (buf !!! Z.to_nat i))]).
      * rewrite <- Hlive. unfold live. simpl.
        replace (Z.to_nat (seq_len s + 1)) with (S (Z.to_nat (seq_len s))) by lia.
        erewrite take_S_r by (apply list_lookup_insert_eq; lia).
        by rewrite take_insert_ge by lia.
      * unfold initial_tokens, MAX_SEQ_LEN. rewrite !Z.min_l by lia.
        replace (Z.to_nat (i + 1)) with (S (Z.to_nat i)) by lia.
        erewrite (take_S_r buf) by (apply list_lookup_lookup_total_lt; lia).
        by rewrite fmap_app.
  - intros s (Hwf & _ & Hlive). eauto.
Qed.

(** Phase 3 appends the tokens that fit to the ring. *)
Lemma write_ring_ok r s :
  ring_wf r -> seq_wf s ->
  exists hd sl, write_ring r s = Some (inl (hd, sl)) /\
    ring_wf (with_head (with_slots r sl) hd) /\
    ring_contents (with_head (with_slots r sl) hd) =
      ring_contents r ++ take (Z.to_nat (kllm_ring_free r)) (live s).
Proof.
  intros Hwf Hs. pose proof (live_length s Hs) as Hll.
  pose proof (seq_mem _ Hs). pose proof (seq_bound _ Hs).
  unfold write_ring. rewrite Z.min_l by lia. rewrite ring_free_spec by done.
  set (free := ring_capacity r - len (ring_contents r)).
  edestruct (for_range_rule (R := unit)
    (fun i '(hd, sl) => ring_wf (with_head (with_slots r sl) hd) /\
    ring_contents (with_head (with_slots r sl) hd) =
       ring_contents r ++ take (Z.to_nat i) (live s))
    (fun o => exists hd sl, o = inl (hd, sl) /\
    ring_wf (with_head (with_slots r sl) hd) /\
    ring_contents (with_head (with_slots r sl) hd) =
       ring_contents r ++ take (Z.to_nat free) (live s)))
    as (o & Ho & hd & sl & -> & Hr); [..|by exists hd, sl].
  - lia.
  - rewrite take_0, app_nil_r. by destruct r.
  - intros i [hd sl] Hi [Hwf' Hc]. cbv beta iota.
    set (r' := with_head (with_slots r sl) hd) in *.
    rewrite (arr_get_total (tokens s)) by lia.
    set (x := tokens s !!! Z.to_nat i).
    assert (live s !! Z.to_nat i = Some x) as Hx.
    { rewrite live_lookup by lia. apply list_lookup_lookup_total_lt. lia. }
    destruct (ring_produce_ok r' x Hwf') as (r'' & Hp & Hwf'' & _ & Hc'').
    unfold kllm_ring_produce, queue_push in Hp.
    change (kllm_ring_mask r') with (wrap 32 (slot_count r - 1)) in Hp.
    change (head r') with hd in Hp. change (tail r') with (tail r) in Hp.
    change (slots r') with sl in Hp. unfold queue_push in Hc''.
    destruct (Z.land _ _ =? tail r).
    + eexists. split; [done|]. cbv beta iota. exists hd, sl. split_and!; [done..|].
      fold r'. rewrite Hc. do 2 f_equal.
      destruct (Z.ltb_spec (len (ring_contents r')) (ring_capacity r')); [done|].
      pose proof (ring_contents_length r' Hwf') as Hl'.
      pose proof (ring_used_bounds r' Hwf'). unfold ring_capacity in *.
      change (slot_count r') with (slot_count r) in *.
      rewrite Hc, length_app, length_take in *. lia.
    + cbn [mbind option_bind].
      destruct (arr_set sl hd x) as [sl'|]; [|done]. simpl in Hp. injection Hp as Hrc Hr''.
      eexists. split; [done|]. cbv beta iota.
      match type of Hr'' with ?a = _ => change a with
        (with_head (with_slots r sl') (Z.land (wrap 32 (hd + 1)) (wrap 32 (slot_count r - 1)))) in Hr'' end.
      rewrite Hr''. split; [done|]. rewrite Hc''.
      destruct (Z.ltb _ _); [|done]. simpl. rewrite Hc, <- app_assoc. f_equal.
      replace (Z.to_nat (i + 1)) with (S (Z.to_nat i)) by lia.
      symmetry. by apply take_S_r.
  - intros [hd sl] [Hwf' Hc]. exists hd, sl. split_and!; [done..|].
    rewrite Hc. f_equal.
    pose proof (ring_contents_length _ Hwf') as Hl'.
    pose proof (ring_used_bounds _ Hwf'). simpl in *.
    rewrite Hc, length_app, length_take in Hl'. unfold free, ring_capacity.
    rewrite !take_ge by lia. done.
Qed.

(** A successful run, with what the next run relies on. *)
Lemma tokenize_run mt bt buf n r sc :
  len bt = 256 -> 1 <= n <= MAX_PROMPT_LEN -> n <= len buf ->
  ring_wf r -> len (tokens sc) = MAX_SEQ_LEN ->
  exists ts r' sc',
    kllm_tokenize mt bt buf n (Some r) (Some sc) = Some (len ts, Some r', Some sc') /\
    bpe_run mt 128 (initial_tokens bt buf n) ts /\
    ring_wf r' /\
    ring_contents r' =
      ring_contents r ++ take (Z.to_nat (kllm_ring_free r)) ts /\
    seq_id r' = u32 (seq_id r + 1) /\ ring_capacity r' = ring_capacity r /\
    len (tokens sc') = MAX_SEQ_LEN.
Proof.
  intros Hbt Hn Hbuf Hwf Hsc. unfold kllm_tokenize.
  destruct (Z.eqb_spec n 0); [lia|]. destruct (Z.ltb_spec MAX_PROMPT_LEN n); [lia|].
  cbn [orb].
  destruct (bytes_to_tokens_ok bt buf n sc) as (s & -> & Hs & Hl); [done|lia|done..|].
  cbn [mbind option_bind].
  destruct (merge_loop_ok mt (Z.to_nat MAX_MERGE_PASSES) 0 s 0 Hs)
    as (st & -> & Hst & Hrun).
  cbn [mbind option_bind]. pose proof (slot_count_bounds r Hwf).
  destruct (Z.eqb_spec (slot_count r) 0); [lia|].
  destruct (write_ring_ok r (ms_seq st) Hwf Hst) as (hd & sl & -> & Hwf' & Hc).
  cbn [mbind option_bind].
  exists (live (ms_seq st)). do 2 eexists. split_and!.
  - by rewrite live_length.
  - by rewrite <- Hl.
  - by destruct Hwf'; split.
  - exact Hc.
  - done.
  - done.
  - by apply seq_mem.
Qed.

(** ** Theorems *)

(** C5. For every prompt of 1 to 4096 bytes and every well-formed ring,
    [kllm_tokenize] stays in bounds and terminates; its tokens are the result
    of at most 128 byte-pair merges, each of the pair of lowest rank (leftmost
    first), applied to the byte tokens of the first 2048 bytes, with fewer than
    128 merges only when no pair is left to merge; the tokens that fit are
    appended to the ring in order, the sequence id is bumped, and the result is
    the number of tokens. *)
Theorem tokenize_correct mt bt buf n r sc :
  len bt = 256 -> 1 <= n <= MAX_PROMPT_LEN -> n <= len buf ->
  ring_wf r -> len (tokens sc) = MAX_SEQ_LEN ->
  exists ts r' sc',
    kllm_tokenize mt bt buf n (Some r) (Some sc) = Some (len ts, Some r', Some sc') /\
    bpe_run mt 128 (initial_tokens bt buf n) ts /\
    ring_wf r' /\
    ring_contents r' =
      ring_contents r ++ take (Z.to_nat (kllm_ring_free r)) ts /\
    seq_id r' = u32 (seq_id r + 1).
Proof.
  intros Hbt Hn Hbuf Hwf Hsc.
  destruct (tokenize_run mt bt buf n r sc Hbt Hn Hbuf Hwf Hsc)
    as (ts & r' & sc' & H1 & H2 & H3 & H4 & H5 & _).
  by exists ts, r', sc'.
Qed.

Lemma tokenize_correct_witness :
  exists ts r' sc',
    kllm_tokenize {[ MergeKey 97 97 := MergeVal 300 0 ]} (Z.of_nat <$> seq 0 256) [97; 97; 98] 3
      (Some (ring_empty 2)) (Some (TokenSeq (zeroed 2048) 0))
      = Some (len ts, Some r', Some sc') /\
    bpe_run {[ MergeKey 97 97 := MergeVal 300 0 ]} 128 (initial_tokens (Z.of_nat <$> seq 0 256) [97; 97; 98] 3) ts /\
    ring_wf r' /\
    ring_contents r' = ring_contents (ring_empty 2) ++
      take (Z.to_nat (kllm_ring_free (ring_empty 2))) ts /\
    seq_id r' = u32 (seq_id (ring_empty 2) + 1).
Proof.
  apply (tokenize_correct _ _ _ 3 (ring_empty 2) (TokenSeq (zeroed 2048) 0)).
  - reflexivity.
  - unfold MAX_PROMPT_LEN. lia.
  - simpl. lia.
  - apply fresh_ring_ok; [lia|]. vm_compute. discriminate.
  - reflexivity.
Defined.

(** [kllm_tokenize] on every other branch: an empty or too long prompt and a
    missing scratch entry are errors that leave the ring alone; without a ring
    the tokens stay in the scratch sequence; a ring without slots is an
    error. *)
Theorem tokenize_errors mt bt buf n ring_hdr sc :
  (n = 0 \/ MAX_PROMPT_LEN < n ->
     kllm_tokenize mt bt buf n ring_hdr sc = Some (-1, ring_hdr, sc)) /\
  kllm_tokenize mt bt buf n ring_hdr None = Some (-1, ring_hdr, None) /\
  (forall seq, len bt = 256 -> 1 <= n <= MAX_PROMPT_LEN -> n <= len buf ->
     sc = Some seq -> len (tokens seq) = MAX_SEQ_LEN ->
     exists seq', bpe_run mt 128 (initial_tokens bt buf n) (live seq') /\
       kllm_tokenize mt bt buf n None sc = Some (len (live seq'), None, Some seq') /\
       forall r, slot_count r = 0 ->
         kllm_tokenize mt bt buf n (Some r) sc = Some (-1, Some r, Some seq')).
Proof.
  unfold kllm_tokenize. split_and!.
  - intros Hn. destruct (Z.eqb_spec n 0); [done|].
    destruct (Z.ltb_spec MAX_PROMPT_LEN n); [done|lia].
  - by destruct (_ || _).
  - intros seq Hbt Hn Hbuf -> Hsc.
    destruct (Z.eqb_spec n 0); [lia|]. destruct (Z.ltb_spec MAX_PROMPT_LEN n); [lia|].
    cbn [orb].
    destruct (bytes_to_tokens_ok bt buf n seq) as (s & -> & Hs & Hl); [done|lia|done..|].
    cbn [mbind option_bind].
    destruct (merge_loop_ok mt (Z.to_nat MAX_MERGE_PASSES) 0 s 0 Hs)
      as (st & -> & Hst & Hrun). cbn [mbind option_bind].
    exists (ms_seq st). rewrite live_length by done. split_and!; [by rewrite <- Hl|done|].
    by intros r ->.
Qed.

(** The cap on the merge passes is visible: a prompt of 200 equal bytes with
    one merge rule for the byte is cut off after 128 merges, and the 72 tokens
    it yields still hold a pair the rule merges. *)
Theorem merge_cap_leaves_pairs :
  exists s, kllm_tokenize {[ MergeKey 0 0 := MergeVal 0 5 ]} (zeroed 256) (replicate 200 97) 200
      None (Some (TokenSeq (zeroed 2048) 0)) = Some (72, None, Some s) /\
    mergeable {[ MergeKey 0 0 := MergeVal 0 5 ]} (live s) 0 0 5.
Proof.
  eexists. split; [vm_compute; reflexivity|].
  exists 0, 0. by vm_compute.
Qed.
