(* ===== verification/RefTokenizer.v ===== *)
(** * The reference tokenizer

    Models the userspace tokenizer of [tests/bench_tokenizer.c], the reference
    that the benchmark compares the BPF program with: it goes through the list of
    merges once and for each of them replaces the pair everywhere, from left to
    right, in place.

    The file proves that it computes the same tokens as [kllm_tokenize] whenever
    the merges are listed by rank, no merge yields a token that a merge of the
    same or a better rank starts from, and the prompt needs at most the 128
    merges that the BPF program performs. *)

From Stdlib Require Import ZArith Lia.
From stdpp Require Import base numbers list gmap.
From S2P Require Import Prelude TokenRing Tokenizer.

#[local] Open Scope Z_scope.

(** ** Data *)

Record bpe_merge : Type := BpeMerge {
  bm_left : Z;
  bm_right : Z;
  bm_result : Z;
  bm_priority : Z;
}.

Record userspace_tokenizer : Type := UserspaceTokenizer {
  ut_byte_to_token : list Z;
  ut_merges : list bpe_merge;
  ut_num_merges : Z;
}.

(** ** Operations *)

(** The allocations are of the tokenizer, the byte table and the merges. *)
Definition create_synthetic_tokenizer (calloc_tok calloc_bytes calloc_merges : bool)
    : option userspace_tokenizer :=
  if negb calloc_tok then None
  else if negb calloc_bytes then None
  else if negb calloc_merges then None
  else Some (UserspaceTokenizer (seqZ 0 256)
    [BpeMerge 72 101 256 0; BpeMerge 108 108 257 1; BpeMerge 108 111 258 2] 3).

(** The inner loop of the second phase; a merged pair moves [i] by two.  [None]
    also without fuel. *)
Fixpoint merge_loop (fuel : nat) (mg : bpe_merge) (buf : list Z) (tok_len i write_pos : Z)
    : option (list Z * Z) :=
  match fuel with
  | O => None
  | S fuel' =>
      if negb (i <? tok_len) then Some (buf, write_pos)
      else
        a ← arr_get buf i;
        hit ← (if u32 (i + 1) <? tok_len
               then b ← arr_get buf (i + 1); Some ((a =? bm_left mg) && (b =? bm_right mg))
               else Some false);
        if hit : bool then
          buf' ← arr_set buf write_pos (bm_result mg);
          merge_loop fuel' mg buf' tok_len (u32 (i + 2)) (u32 (write_pos + 1))
        else
          buf' ← arr_set buf write_pos a;
          merge_loop fuel' mg buf' tok_len (u32 (i + 1)) (u32 (write_pos + 1))
  end.

(** Phase 1: the tokens of the bytes. *)
Definition byte_phase (tok : userspace_tokenizer) (text : list Z) (n max_tokens : Z)
    : option ((list Z * Z) + unit) :=
  for_range 0 n (fun i '(buf, tok_len) =>
    if negb (tok_len <? max_tokens) then Some (Break (buf, tok_len))
    else
      byte ← arr_get text i;
      t ← arr_get (ut_byte_to_token tok) (u8 byte);
      buf' ← arr_set buf tok_len t;
      Some (Continue (buf', u32 (tok_len + 1)))) (zeroed n, 0).

(** Phase 2: one merge after the other. *)
Definition merge_phase (tok : userspace_tokenizer) (buf : list Z) (tok_len : Z)
    : option ((list Z * Z) + unit) :=
  for_range 0 (ut_num_merges tok) (fun m '(buf, tok_len) =>
    mg ← arr_get (ut_merges tok) m;
    '(buf, tok_len) ← merge_loop (S (Z.to_nat tok_len)) mg buf tok_len 0 0;
    Some (Continue (buf, tok_len))) (buf, tok_len).

(** Returns the number of tokens and the output array. *)
Definition userspace_tokenize (calloc_ok : bool) (tok : userspace_tokenizer) (text : list Z) (n : Z)
    (out_tokens : list Z) (max_tokens : Z) : option (Z * list Z) :=
  if negb calloc_ok then Some (0, out_tokens)
  else
    res ← byte_phase tok text n max_tokens;
    match res with
    | inr _ => None
    | inl (buf, tok_len) =>
        res ← merge_phase tok buf tok_len;
        match res with
        | inr _ => None
        | inl (buf, tok_len) =>
            let copy_len := if tok_len <? max_tokens then tok_len else max_tokens in
            part ← arr_slice buf 0 copy_len;
            if len out_tokens <? copy_len then None
            else Some (copy_len, part ++ drop (Z.to_nat copy_len) out_tokens)
        end
    end.

(** ** Specification *)

(** One merge everywhere, from left to right. *)
Fixpoint pass (mg : bpe_merge) (l : list Z) : list Z :=
  match l with
  | a :: ((b :: t) as t') =>
      if (a =? bm_left mg) && (b =? bm_right mg) then bm_result mg :: pass mg t else a :: pass mg t'
  | _ => l
  end.

Definition reference (merges : list bpe_merge) (l : list Z) : list Z :=
  foldl (fun l mg => pass mg l) l merges.

Definition rule_key (mg : bpe_merge) : merge_key := MergeKey (bm_left mg) (bm_right mg).
Definition rule_val (mg : bpe_merge) : merge_val := MergeVal (bm_result mg) (bm_priority mg).

(** The contents of the map of the BPF program for a list of merges. *)
Definition table_of (merges : list bpe_merge) : merge_table :=
  list_to_map ((fun mg => (rule_key mg, rule_val mg)) <$> merges).

(** The merges are listed by rank, each pair once, and the result of a merge is
    not part of a merge of the same or a better rank. *)
Record ranked (merges : list bpe_merge) : Prop := {
  rk_keys : NoDup (rule_key <$> merges);
  rk_order : forall i j x y, merges !! i = Some x -> merges !! j = Some y -> (i < j)%nat ->
    bm_priority x < bm_priority y;
  rk_bound : Forall (fun mg => bm_priority mg < UINT32_MAX) merges;
  rk_results : forall i j x y, merges !! i = Some x -> merges !! j = Some y -> (j <= i)%nat ->
    bm_result x <> bm_left y /\ bm_result x <> bm_right y;
}.

(** ** The loops compute the specification *)

Lemma list_pair_ind {A} (P : list A -> Prop) :
  P [] -> (forall a, P [a]) -> (forall a b t, P t -> P (b :: t) -> P (a :: b :: t)) -> forall l, P l.
Proof.
  intros H0 H1 H2 l. assert (P l /\ forall a, P (a :: l)) as [Hl _]; [|done].
  induction l as [|b l [IH1 IH2]]; [by split|]. split; [done|]. intros a. by apply H2.
Qed.

Lemma pass_length mg l : (length (pass mg l) <= length l)%nat.
Proof.
  induction l as [|a|a b t IH1 IH2] using list_pair_ind; [done|done|].
  change (pass mg (a :: b :: t)) with (if (a =? bm_left mg) && (b =? bm_right mg)
    then bm_result mg :: pass mg t else a :: pass mg (b :: t)).
  case_match; cbn [length] in *; lia.
Qed.

Lemma drop_cons_lookup {A} (l : list A) i x t :
  drop i l = x :: t -> l !! i = Some x /\ drop (S i) l = t.
Proof.
  intros Hd. split.
  - rewrite <- (Nat.add_0_r i), <- lookup_drop, Hd. done.
  - rewrite <- Nat.add_1_r, <- drop_drop, Hd. done.
Qed.

(** The inner loop, with [l] the part it has not read. *)
Lemma reference_loop_ok fuel mg buf n i w l :
  0 <= w <= i -> i <= n -> n <= len buf -> n < 2 ^ 31 ->
  drop (Z.to_nat i) (take (Z.to_nat n) buf) = l -> (length l < fuel)%nat ->
  exists buf', merge_loop fuel mg buf n i w = Some (buf', w + len (pass mg l)) /\
    len buf' = len buf /\
    take (Z.to_nat (w + len (pass mg l))) buf' = take (Z.to_nat w) buf ++ pass mg l.
Proof.
  revert buf i w l. induction fuel as [|fuel IH]; intros buf i w l Hw Hi Hn Hb Hl Hf; [lia|].
  assert (len l = n - i) as Hlen by (rewrite <- Hl, length_drop, length_take; lia).
  cbn [merge_loop]. destruct l as [|a t].
  { destruct (Z.ltb_spec i n); cbn [length] in Hlen; [lia|]. cbn [negb]. exists buf.
    cbn [pass length]. rewrite Z.add_0_r, app_nil_r. done. }
  destruct (Z.ltb_spec i n); cbn [length] in Hlen; [|lia]. cbn [negb].
  apply drop_cons_lookup in Hl as [Ha Ht]. rewrite lookup_take_lt in Ha by lia.
  rewrite (arr_get_lookup buf i), Ha by lia. cbn [mbind option_bind].
  rewrite (wrap_small 32 (i + 1)), (wrap_small 32 (w + 1)) by (unfold fits; lia).
  assert (forall x j r, i < j <= n -> drop (Z.to_nat j) (take (Z.to_nat n) buf) = r ->
    (length r < fuel)%nat ->
    exists buf', arr_set buf w x ≫= (fun buf' => merge_loop fuel mg buf' n j (w + 1)) =
        Some (buf', w + len (x :: pass mg r)) /\ len buf' = len buf /\
      take (Z.to_nat (w + len (x :: pass mg r))) buf' = take (Z.to_nat w) buf ++ x :: pass mg r) as Hgo.
  { intros x j r Hj Hr Hrf. rewrite arr_set_in by lia. cbn [mbind option_bind].
    destruct (IH (<[Z.to_nat w := x]> buf) j (w + 1) r) as (buf' & -> & Hbl & Hbt);
      rewrite ?length_insert; [lia..| |done|].
    { rewrite <- Hr. rewrite !skipn_firstn_comm, drop_insert_lt by lia. done. }
    exists buf'. rewrite length_insert in Hbl. cbn [length].
    replace (w + Z.of_nat (S (length (pass mg r)))) with (w + 1 + len (pass mg r)) by lia.
    split; [done|]. split; [done|]. rewrite Hbt.
    replace (Z.to_nat (w + 1)) with (S (Z.to_nat w)) by lia.
    rewrite (take_S_r _ _ x) by (apply list_lookup_insert_eq; lia).
    rewrite take_insert_ge by lia. by rewrite <- app_assoc. }
  destruct t as [|b t]; cbn [length] in *.
  - destruct (Z.ltb_spec (i + 1) n); [lia|]. cbn [mbind option_bind]. cbn match.
    destruct (Hgo a (i + 1) []) as (buf' & Hrun & Hr1 & Hr2);
      [lia|rewrite <- Ht; f_equal; lia|cbn; lia|]. by exists buf'.
  - destruct (Z.ltb_spec (i + 1) n); [|lia].
    apply drop_cons_lookup in Ht as [Hbv Ht]. rewrite lookup_take_lt in Hbv by lia.
    rewrite (arr_get_lookup buf (i + 1)) by lia. replace (Z.to_nat (i + 1)) with (S (Z.to_nat i)) by lia.
    rewrite Hbv. cbn [mbind option_bind pass].
    destruct ((a =? bm_left mg) && (b =? bm_right mg)).
    + rewrite (wrap_small 32 (i + 2)) by (unfold fits; lia).
      apply Hgo; [lia|rewrite <- Ht; f_equal; lia|lia].
    + destruct (Hgo a (i + 1) (b :: t)) as (buf' & Hrun & Hr); [lia| |cbn [length]; lia|by exists buf'].
      replace (Z.to_nat (i + 1)) with (S (Z.to_nat i)) by lia.
      rewrite (drop_S _ b), Ht; [done|]. by rewrite lookup_take_lt by lia.
Qed.

Lemma reference_length merges l : (length (reference merges l) <= length l)%nat.
Proof.
  revert l. induction merges as [|mg merges IH]; intros l; cbn; [done|].
  etransitivity; [apply IH|apply pass_length].
Qed.

(** The tokens of the first [n] bytes. *)
Definition byte_tokens (tok : userspace_tokenizer) (text : list Z) (n : Z) : list Z :=
  (fun b => ut_byte_to_token tok !!! Z.to_nat (u8 b)) <$> take (Z.to_nat n) text.

Lemma byte_phase_ok tok text n max_tokens :
  len (ut_byte_to_token tok) = 256 -> 0 <= n <= len text -> n <= max_tokens -> n < 2 ^ 31 ->
  byte_phase tok text n max_tokens = Some (inl (byte_tokens tok text n, n)).
Proof.
  intros Hbt Hn Hmax Hb. set (l := byte_tokens tok text n).
  assert (len l = n) as Hl by (unfold l, byte_tokens; rewrite length_fmap, length_take; lia).
  unfold byte_phase. edestruct (for_range_rule (R := unit)
    (fun i (st : list Z * Z) => len (fst st) = n /\ snd st = i /\
       take (Z.to_nat i) (fst st) = take (Z.to_nat i) l)
    (fun o => o = inl (l, n))) as (o & -> & ->); [lia| | | |done].
  - split; [apply zeroed_len; lia|]. by split.
  - intros i [buf tl] Hi (Hbl & Htl & Ht). cbn [fst snd] in *. subst tl.
    destruct (Z.ltb_spec i max_tokens); [|lia]. cbn [negb].
    pose proof (wrap_bound 8 (text !!! Z.to_nat i) ltac:(lia)).
    rewrite (arr_get_total text) by lia. cbn [mbind option_bind].
    rewrite (arr_get_total (ut_byte_to_token tok)) by lia. cbn [mbind option_bind].
    rewrite arr_set_in by lia. cbn [mbind option_bind]. eexists. split; [done|]. cbn [fst snd].
    rewrite length_insert, wrap_small by (unfold fits; lia). split; [done|]. split; [done|].
    replace (Z.to_nat (i + 1)) with (S (Z.to_nat i)) by lia.
    rewrite (take_S_r (<[_ := _]> _) _ _) by (apply list_lookup_insert_eq; lia).
    rewrite take_insert_ge, Ht by lia. symmetry. apply take_S_r. unfold l, byte_tokens.
    rewrite list_lookup_fmap, lookup_take_lt by lia.
    by rewrite (list_lookup_lookup_total_lt text) by lia.
  - intros [buf tl] (Hbl & Htl & Ht). cbn [fst snd] in *. subst tl.
    rewrite !take_ge in Ht by lia. by rewrite Ht.
Qed.

Lemma merge_phase_ok tok l :
  len (ut_merges tok) = ut_num_merges tok -> len l < 2 ^ 31 ->
  let r := reference (ut_merges tok) l in
  exists buf, merge_phase tok l (len l) = Some (inl (buf, len r)) /\ len buf = len l /\
    take (length r) buf = r.
Proof.
  intros Hm Hb r. unfold merge_phase. edestruct (for_range_rule (R := unit)
    (fun i (st : list Z * Z) => len (fst st) = len l /\
       let q := reference (take (Z.to_nat i) (ut_merges tok)) l in
       snd st = len q /\ take (length q) (fst st) = q)
    (fun o => exists buf, o = inl (buf, len r) /\ len buf = len l /\ take (length r) buf = r))
    as (o & -> & buf & -> & Hbr); [lia| | | |by exists buf].
  - cbn [fst snd]. rewrite take_0. cbn [reference foldl]. by rewrite firstn_all.
  - intros i [buf tl] Hi (Hl & Hq & Hqt). cbn [fst snd] in *.
    set (q := reference (take (Z.to_nat i) (ut_merges tok)) l) in *.
    assert (length q <= length l)%nat as Hql by apply reference_length.
    destruct (lookup_lt_is_Some_2 (ut_merges tok) (Z.to_nat i)) as [mg Hmg]; [lia|].
    rewrite arr_get_lookup, Hmg by lia. cbn [mbind option_bind].
    destruct (reference_loop_ok (S (Z.to_nat tl)) mg buf tl 0 0 q) as (buf' & -> & Hbl & Hbt);
      [lia|lia|lia|lia|rewrite drop_0, Hq, Nat2Z.id; done|lia|].
    cbn [mbind option_bind]. eexists. split; [done|]. cbn [fst snd].
    replace (Z.to_nat (i + 1)) with (S (Z.to_nat i)) by lia.
    rewrite (take_S_r _ _ mg) by done. unfold reference. rewrite foldl_app. cbn [foldl].
    fold (reference (take (Z.to_nat i) (ut_merges tok)) l). fold q.
    rewrite Z.add_0_l in *. rewrite Nat2Z.id in Hbt. split; [lia|]. split; [done|exact Hbt].
  - intros [buf tl] (Hl & Hq & Hqt). cbn [fst snd] in *.
    rewrite take_ge in Hq, Hqt by lia. fold r in Hq, Hqt. exists buf. by rewrite Hq.
Qed.

(** The whole function, when the output has room for a token per byte. *)
Lemma userspace_tokenize_ok tok text n out max_tokens :
  len (ut_byte_to_token tok) = 256 -> len (ut_merges tok) = ut_num_merges tok ->
  0 <= n <= len text -> n <= max_tokens -> n < 2 ^ 31 -> n <= len out ->
  let r := reference (ut_merges tok) (byte_tokens tok text n) in
  userspace_tokenize true tok text n out max_tokens = Some (len r, r ++ drop (length r) out).
Proof.
  intros Hbt Hm Hn Hmax Hb Hout r. unfold userspace_tokenize. cbn [negb].
  rewrite byte_phase_ok by done. cbn [mbind option_bind].
  assert (len (byte_tokens tok text n) = n) as Hl
    by (unfold byte_tokens; rewrite length_fmap, length_take; lia).
  destruct (merge_phase_ok tok (byte_tokens tok text n) Hm) as (buf & Hrun & Hbl & Hbr); [lia|].
  rewrite Hl in Hrun. rewrite Hrun. cbn [mbind option_bind]. fold r in Hbr |- *.
  pose proof (reference_length (ut_merges tok) (byte_tokens tok text n)) as Hrl. fold r in Hrl.
  replace (if len r <? max_tokens then len r else max_tokens) with (len r) by (case_cond; lia).
  rewrite arr_slice_in by lia. cbn [mbind option_bind]. rewrite drop_0, Nat2Z.id, Hbr.
  by rewrite (proj2 (Z.ltb_ge _ _)) by lia.
Qed.

(** ** The reference is byte-pair encoding *)

(** The neighbours in a list. *)
Definition adj (l : list Z) : list (Z * Z) := zip l (tl l).

Lemma adj_cons a b t : adj (a :: b :: t) = (a, b) :: adj (b :: t).
Proof. done. Qed.

Lemma adj_app l a t : adj (l ++ a :: t) = adj (l ++ [a]) ++ adj (a :: t).
Proof.
  induction l as [|x [|y l] IH]; [done|done|]. cbn [app] in *. rewrite !adj_cons, IH. done.
Qed.

Lemma adj_length l : length (adj l) = pred (length l).
Proof. unfold adj. rewrite length_zip_with. destruct l as [|x l]; [done|]. cbn [tl length]. lia. Qed.

Lemma adj_lookup l j a b :
  adj l !! j = Some (a, b) <-> l !! j = Some a /\ l !! S j = Some b.
Proof.
  unfold adj. rewrite lookup_zip_with_Some. destruct l as [|x l]; cbn [tl].
  - split; [by intros (? & ? & _ & Hx & _)|by intros [Hx _]].
  - change ((x :: l) !! S j) with (l !! j). split; [|intros [? ?]; by exists a, b].
    intros (x' & y & ? & Hx & Hy). by simplify_eq.
Qed.

(** Exactly [n] merges, each of the best pair. *)
Inductive bpe_steps (mt : merge_table) : nat -> list Z -> list Z -> Prop :=
| steps_nil l : bpe_steps mt 0 l l
| steps_cons n l i m l' :
    best_merge mt l i m -> bpe_steps mt n (merge_at l i m) l' -> bpe_steps mt (S n) l l'.

Lemma bpe_steps_trans mt n k l1 l2 l3 :
  bpe_steps mt n l1 l2 -> bpe_steps mt k l2 l3 -> bpe_steps mt (n + k) l1 l3.
Proof. induction 1 as [|n l i m l' Hb _ IH]; intros Hk; [done|]. cbn. by eapply steps_cons, IH. Qed.

Lemma bpe_steps_run mt k n l l' :
  bpe_steps mt k l l' -> no_merge mt l' -> (k <= n)%nat -> bpe_run mt n l l'.
Proof.
  intros Hs. revert n. induction Hs as [l|k l i m l' Hb _ IH]; intros n Hno Hle.
  - destruct n; [apply bpe_cap|by apply bpe_done].
  - destruct n as [|n]; [lia|]. apply (Tokenizer.bpe_merge mt n l i m); [done|]. apply IH; [done|lia].
Qed.

Lemma best_merge_unique mt l i m i' m' : best_merge mt l i m -> best_merge mt l i' m' -> i = i' /\ m = m'.
Proof.
  intros (p & Hi & Hm & Hb) (p' & Hi' & Hm' & Hb').
  pose proof (Hb i' m' p' Hi' Hm'). pose proof (Hb' i m p Hi Hm).
  assert (i = i') as -> by lia. split; [done|]. by destruct (mergeable_fun _ _ _ _ _ _ _ Hm Hm').
Qed.

Lemma bpe_run_det mt n l l1 l2 : bpe_run mt n l l1 -> bpe_run mt n l l2 -> l1 = l2.
Proof.
  intros H1. revert l2. induction H1 as [l|n l Hno|n l i m l' Hb _ IH]; intros l2 H2; inversion H2; subst.
  - done.
  - done.
  - destruct H0 as (p & _ & Hm & _). by apply Hno in Hm.
  - destruct Hb as (p & _ & Hm & _). by apply H0 in Hm.
  - destruct (best_merge_unique _ _ _ _ _ _ Hb H0) as [<- <-]. by apply IH.
Qed.

Section ranked.
Context (merges : list bpe_merge) (Hr : ranked merges).

Lemma table_lookup a b m p :
  (table_of merges : gmap merge_key merge_val) !! MergeKey a b = Some (MergeVal m p) <->
  exists k, merges !! k = Some (BpeMerge a b m p).
Proof.
  unfold table_of. rewrite <- elem_of_list_to_map.
  - rewrite list_elem_of_fmap. split.
    + intros ([a' b' m' p'] & Heq & Hin). unfold rule_key, rule_val in Heq. cbn in Heq. simplify_eq.
      by apply list_elem_of_lookup in Hin.
    + intros [k Hk]. exists (BpeMerge a b m p). split; [done|]. by eapply list_elem_of_lookup_2.
  - rewrite <- list_fmap_compose. apply (rk_keys _ Hr).
Qed.

(** No pair of one of the first [k] merges. *)
Definition clear (k : nat) (ab : Z * Z) : Prop :=
  forall i m p, (i < k)%nat -> merges !! i <> Some (BpeMerge (fst ab) (snd ab) m p).

Definition clean (k : nat) (l : list Z) : Prop := Forall (clear k) (adj l).

Lemma clean_app k l a t : clean k (l ++ a :: t) <-> clean k (l ++ [a]) /\ clean k (a :: t).
Proof. unfold clean. rewrite adj_app. apply Forall_app. Qed.

Lemma clean_cons k a b t : clean k (a :: b :: t) <-> clear k (a, b) /\ clean k (b :: t).
Proof. unfold clean. rewrite adj_cons. apply Forall_cons. Qed.

(** The result of a merge takes part in no pair of a merge up to it. *)
Lemma result_clear k mg x :
  merges !! k = Some mg -> clear (S k) (bm_result mg, x) /\ clear (S k) (x, bm_result mg).
Proof.
  intros Hk. split; intros i m p Hi Hm; cbn in Hm;
    destruct (rk_results _ Hr k i _ _ Hk Hm) as [H1 H2]; cbn in *; (lia || done).
Qed.

Lemma clear_mono k ab : clear (S k) ab -> clear k ab.
Proof. intros H i m p Hi. apply H. lia. Qed.

Lemma clear_other k mg a b :
  merges !! k = Some mg -> clear k (a, b) -> ~ (a = bm_left mg /\ b = bm_right mg) -> clear (S k) (a, b).
Proof.
  intros Hk Hc Hne i m p Hi Hm. destruct (decide (i = k)) as [->|Hik].
  - rewrite Hk in Hm. simplify_eq. by apply Hne.
  - apply (Hc i m p); [lia|done].
Qed.

(** A list that ends in [x] stays clean when [x] is replaced by a result. *)
Lemma clean_snoc_result k mg l x :
  merges !! k = Some mg -> clean (S k) (l ++ [x]) -> clean (S k) (l ++ [bm_result mg]).
Proof.
  intros Hk. induction l as [|a [|b l] IH]; intros Hc; cbn [app] in *.
  - by constructor.
  - rewrite clean_cons. split; [by apply result_clear|constructor].
  - rewrite clean_cons in *. destruct Hc as [Ha Hc]. split; [done|]. by apply IH.
Qed.

Lemma clean_weaken k l : clean (S k) l -> clean k l.
Proof. intros H. eapply Forall_impl; [exact H|]. apply clear_mono. Qed.

(** The pair at the end of a clean prefix is the best one. *)
Lemma pair_is_best k mg pre t :
  merges !! k = Some mg ->
  clean k (pre ++ bm_left mg :: bm_right mg :: t) -> clean (S k) (pre ++ [bm_left mg]) ->
  best_merge (table_of merges) (pre ++ bm_left mg :: bm_right mg :: t) (length pre) (bm_result mg).
Proof.
  intros Hk Hc Hpre. exists (bm_priority mg). split; [rewrite length_app; cbn; lia|]. split.
  { exists (bm_left mg), (bm_right mg). rewrite !lookup_app_r, Nat.sub_diag by lia.
    replace (S (length pre) - length pre)%nat with 1%nat by lia. split; [done|]. split; [done|].
    split; [apply table_lookup; exists k; by destruct mg|].
    by apply (proj1 (Forall_lookup _ _) (rk_bound _ Hr) _ _ Hk). }
  intros j m p Hj (a & b & Ha & Hb & Hm & _). apply table_lookup in Hm as [i Hi].
  assert (adj (pre ++ bm_left mg :: bm_right mg :: t) !! j = Some (a, b)) as Hab by (by apply adj_lookup).
  destruct (decide (i < k)%nat) as [Hlt|Hge].
  { pose proof (proj1 (Forall_lookup _ _) Hc _ _ Hab i m p Hlt). done. }
  destruct (decide (i = k)) as [->|Hne].
  - right. rewrite Hk in Hi. simplify_eq. cbn. split; [done|].
    destruct (decide (length pre <= j)%nat) as [|Hlt]; [done|]. exfalso.
    rewrite adj_app, lookup_app_l in Hab
      by (rewrite adj_length, length_app; cbn; lia).
    by apply (proj1 (Forall_lookup _ _) Hpre _ _ Hab k m p); [lia|].
  - left. apply (rk_order _ Hr k i _ _ Hk Hi). lia.
Qed.

Lemma merge_at_app pre a b t m : merge_at (pre ++ a :: b :: t) (length pre) m = pre ++ m :: t.
Proof.
  unfold merge_at. rewrite take_app_length. f_equal. f_equal.
  rewrite drop_app_ge by lia. by replace (length pre + 2 - length pre)%nat with 2%nat by lia.
Qed.

(** One pass is the merges of its rank, from left to right. *)
Lemma pass_steps k mg l : merges !! k = Some mg -> forall pre,
  clean k (pre ++ l) -> clean (S k) (pre ++ take 1 l) ->
  bpe_steps (table_of merges) (length l - length (pass mg l)) (pre ++ l) (pre ++ pass mg l) /\
  clean (S k) (pre ++ pass mg l).
Proof.
  intros Hk. induction l as [|a|a b t IH1 IH2] using list_pair_ind; intros pre Hc Hp.
  - split; [constructor|done].
  - cbn [pass length]. split; [apply steps_nil|done].
  - cbn [take] in Hp. change (pass mg (a :: b :: t)) with (if (a =? bm_left mg) && (b =? bm_right mg)
      then bm_result mg :: pass mg t else a :: pass mg (b :: t)).
    destruct ((a =? bm_left mg) && (b =? bm_right mg)) eqn:Hab.
    + apply andb_true_iff in Hab as [->%Z.eqb_eq ->%Z.eqb_eq].
      pose proof (pair_is_best k mg pre t Hk Hc Hp) as Hbest.
      assert (clean (S k) (pre ++ [bm_result mg])) as Hres by (by eapply clean_snoc_result).
      destruct (IH1 (pre ++ [bm_result mg])) as [Hs Hcl]; rewrite <- ?app_assoc; cbn [app].
      * rewrite clean_app. split; [by apply clean_weaken|].
        destruct t as [|x t]; [constructor|]. rewrite clean_cons. split; [by apply clear_mono, result_clear|].
        rewrite (clean_app k pre), !clean_cons in Hc. tauto.
      * destruct t as [|x t]; cbn [take]; [done|]. rewrite clean_app, clean_cons. split; [done|].
        split; [by apply result_clear|constructor].
      * rewrite <- app_assoc in Hs. rewrite <- app_assoc in Hcl. cbn [app] in Hs, Hcl. split; [|done].
        pose proof (pass_length mg t). cbn [length].
        replace (S (S (length t)) - S (length (pass mg t)))%nat with (S (length t - length (pass mg t)))
          by lia.
        eapply steps_cons; [exact Hbest|]. rewrite merge_at_app. by rewrite <- app_assoc in Hs.
    + assert (~ (a = bm_left mg /\ b = bm_right mg)) as Hne
        by (intros [-> ->]; by rewrite !Z.eqb_refl in Hab).
      destruct (IH2 (pre ++ [a])) as [Hs Hcl]; rewrite <- ?app_assoc; cbn [app take].
      * done.
      * rewrite clean_app, clean_cons. split; [done|]. split; [|constructor].
        rewrite clean_app, clean_cons in Hc. eapply clear_other; [done|apply Hc|done].
      * rewrite <- !app_assoc in Hs. rewrite <- app_assoc in Hcl. split; [|done]. exact Hs.
Qed.

(** All passes. *)
Lemma reference_steps before todo l :
  merges = before ++ todo -> clean (length before) l ->
  bpe_steps (table_of merges) (length l - length (reference todo l)) l (reference todo l) /\
  clean (length merges) (reference todo l).
Proof.
  revert before l. induction todo as [|mg todo IH]; intros before l Heq Hc.
  { cbn. rewrite Nat.sub_diag. split; [constructor|]. rewrite Heq, app_nil_r. done. }
  assert (merges !! length before = Some mg) as Hk
    by (rewrite Heq, lookup_app_r, Nat.sub_diag by lia; done).
  destruct (pass_steps (length before) mg l Hk [] Hc) as [Hs Hc1]; [by destruct l; constructor|].
  destruct (IH (before ++ [mg]) (pass mg l)) as [Hs2 Hc2].
  { by rewrite <- app_assoc. }
  { rewrite length_app. cbn [length]. by rewrite Nat.add_1_r. }
  split; [|exact Hc2]. pose proof (pass_length mg l). pose proof (reference_length todo (pass mg l)).
  change (reference (mg :: todo) l) with (reference todo (pass mg l)).
  replace (length l - length (reference todo (pass mg l)))%nat with
    (length l - length (pass mg l) + (length (pass mg l) - length (reference todo (pass mg l))))%nat by lia.
  by eapply bpe_steps_trans.
Qed.

Lemma clean_no_merge l : clean (length merges) l -> no_merge (table_of merges) l.
Proof.
  intros Hc j m p (a & b & Ha & Hb & Hm & _). apply table_lookup in Hm as [i Hi].
  assert (adj l !! j = Some (a, b)) as Hab by (by apply adj_lookup).
  by apply (proj1 (Forall_lookup _ _) Hc _ _ Hab i m p (lookup_lt_Some _ _ _ Hi)).
Qed.

(** The reference is what any number of merges gives that is large enough. *)
Lemma reference_run n l ts :
  bpe_run (table_of merges) n l ts ->
  (ts = reference merges l <-> (length l - length (reference merges l) <= n)%nat).
Proof.
  intros Hrun. destruct (reference_steps [] merges l eq_refl) as [Hs Hc].
  { apply Forall_forall. intros ab _ i m p Hi. cbn in Hi. lia. }
  split.
  - intros ->. apply bpe_run_length in Hrun. lia.
  - intros Hle. eapply bpe_run_det; [exact Hrun|]. eapply bpe_steps_run; [exact Hs| |done].
    by apply clean_no_merge.
Qed.

End ranked.

(** ** Main theorem *)

(** C15. When the two tokenizers agree.  Let the merges be listed by rank, no
    merge yield a token that a merge of the same or a better rank starts from
    ([ranked]), and let the prompt have at most 2048 bytes, which is where the
    BPF program cuts.  Then the tokens of the BPF program are those of the
    reference exactly when the prompt needs at most 128 merges; the reference is
    defined and total on every prompt that its output has room for.  (Outside
    these conditions nothing is claimed: the reference applies each merge once,
    and takes all bytes of a longer prompt.) *)
Theorem tokenizers_agree tok buf n out max_tokens r sc :
  ranked (ut_merges tok) -> len (ut_merges tok) = ut_num_merges tok ->
  len (ut_byte_to_token tok) = 256 -> 1 <= n <= MAX_SEQ_LEN -> n <= len buf ->
  n <= max_tokens -> n <= len out -> ring_wf r -> len (tokens sc) = MAX_SEQ_LEN ->
  exists ts us r' sc',
    kllm_tokenize (table_of (ut_merges tok)) (ut_byte_to_token tok) buf n (Some r) (Some sc) =
      Some (len ts, Some r', Some sc') /\
    userspace_tokenize true tok buf n out max_tokens = Some (len us, us ++ drop (length us) out) /\
    (ts = us <-> n - len us <= MAX_MERGE_PASSES) /\
    ring_contents r' = ring_contents r ++ take (Z.to_nat (kllm_ring_free r)) ts.
Proof.
  intros Hr Hm Hbt Hn Hbuf Hmax Hout Hwf Hsc. unfold MAX_SEQ_LEN in Hn.
  destruct (tokenize_run (table_of (ut_merges tok)) (ut_byte_to_token tok) buf n r sc)
    as (ts & r' & sc' & Hrun & Hbpe & _ & Hc & _); [done|unfold MAX_PROMPT_LEN; lia|done..|].
  pose proof (userspace_tokenize_ok tok buf n out max_tokens Hbt Hm) as Hus. cbn zeta in Hus.
  apply (reference_run _ Hr) in Hbpe. unfold initial_tokens in Hbpe.
  rewrite Z.min_l in Hbpe by (unfold MAX_SEQ_LEN; lia).
  fold (byte_tokens tok buf n) in Hbpe. set (l := byte_tokens tok buf n) in *.
  assert (len l = n) as Hl by (unfold l, byte_tokens; rewrite length_fmap, length_take; lia).
  pose proof (reference_length (ut_merges tok) l).
  exists ts, (reference (ut_merges tok) l), r', sc'. split; [done|]. split; [apply Hus; lia|].
  split; [|done]. rewrite Hbpe. unfold MAX_MERGE_PASSES. lia.
Qed.

Definition synthetic : userspace_tokenizer :=
  UserspaceTokenizer (seqZ 0 256)
    [BpeMerge 72 101 256 0; BpeMerge 108 108 257 1; BpeMerge 108 111 258 2] 3.

Lemma synthetic_ranked : ranked (ut_merges synthetic).
Proof.
  split.
  - apply (bool_decide_unpack _). by vm_compute.
  - intros [|[|[|i]]] [|[|[|j]]] x y Hx Hy Hij; cbn in Hx, Hy; simplify_eq; cbn; lia.
  - repeat constructor; unfold UINT32_MAX; cbn; lia.
  - intros [|[|[|i]]] [|[|[|j]]] x y Hx Hy Hij; cbn in Hx, Hy; simplify_eq; cbn; lia.
Qed.

(** "Hello" is He, ll, o to both. *)
Lemma tokenizers_agree_witness :
  create_synthetic_tokenizer true true true = Some synthetic /\
  exists ts us r' sc',
    kllm_tokenize (table_of (ut_merges synthetic)) (ut_byte_to_token synthetic) [72; 101; 108; 108; 111] 5
      (Some (ring_empty 3)) (Some (TokenSeq (zeroed 2048) 0)) = Some (len ts, Some r', Some sc') /\
    userspace_tokenize true synthetic [72; 101; 108; 108; 111] 5 (zeroed 8) 8 =
      Some (len us, us ++ drop (length us) (zeroed 8)) /\
    (ts = us <-> 5 - len us <= 128).
Proof.
  split; [reflexivity|].
  destruct (tokenizers_agree synthetic [72; 101; 108; 108; 111] 5 (zeroed 8) 8 (ring_empty 3)
    (TokenSeq (zeroed 2048) 0)) as (ts & us & r' & sc' & H1 & H2 & H3 & _).
  - exact synthetic_ranked.
  - reflexivity.
  - reflexivity.
  - unfold MAX_SEQ_LEN. lia.
  - simpl. lia.
  - lia.
  - vm_compute. discriminate.
  - apply fresh_ring_ok; [lia|]. vm_compute. discriminate.
  - reflexivity.
  - exists ts, us, r', sc'. exact (conj H1 (conj H2 H3)).
Defined.

(** The tokens of "Hello". *)
Example hello_tokens :
  userspace_tokenize true synthetic [72; 101; 108; 108; 111] 5 (zeroed 5) 5 = Some (3, [256; 257; 111; 0; 0]).
Proof. by vm_compute. Qed.
