(* ===== verification/BlockFormat.v ===== *)
(** * The layout of a KV cache block

    Models [userspace/kvcache/block_format.h]: the model dimensions, the block
    header and its size, the size computations and the accessors of the key
    and value tensors.  Addresses are integers; the 64-bit arithmetic of the
    size computations wraps.

    The file proves that for dimensions whose block size a 64-bit integer holds
    the tensors of the layers tile the bytes between the header and the scales:
    they are in order, adjacent, and none overlaps another or leaves the
    block. *)

From Stdlib Require Import ZArith Lia.
From stdpp Require Import base numbers list.
From S2P Require Import Prelude.

#[local] Open Scope Z_scope.

(** ** Data *)

Definition KLLM_BLOCK_MAGIC : Z := 0x4B56424C.
Definition KLLM_BLOCK_VERSION : Z := 1.
Definition KLLM_SEQ_HASH_BYTES : Z := 32.

Record kllm_model_config : Type := ModelConfig {
  num_layers : Z;
  num_kv_heads : Z;
  head_dim : Z;
  tokens_per_block : Z;
}.

Record kllm_block_hdr : Type := BlockHdr {
  bh_magic : Z;
  bh_version : Z;
  block_size_bytes : Z;
  bh_tokens_per_block : Z;
  seq_hash : list Z;
  bh_num_layers : Z;
  bh_num_kv_heads : Z;
  bh_head_dim : Z;
  bh_last_access_ns : Z;
  refcount : Z;
  bh_flags : Z;
  scale_offset : Z;
  scale_count : Z;
}.

(** magic, version, block_size_bytes, tokens_per_block, seq_hash, num_layers,
    num_kv_heads, head_dim, _pad0, last_access_ns, refcount, flags,
    scale_offset, scale_count, _reserved; the struct is aligned to 64 bytes. *)
Definition block_hdr_layout : list Z * Z :=
  layout_from false 0 64 [m_u32; m_u32; m_u32; m_u32; m_bytes KLLM_SEQ_HASH_BYTES;
    m_u32; m_u32; m_u32; m_u32; m_u64; m_u32; m_u32; m_u32; m_u32; m_bytes 32].

Definition sizeof_block_hdr : Z := snd block_hdr_layout.

Definition KLLM_BLOCK_F_VALID : Z := Z.shiftl 1 0.
Definition KLLM_BLOCK_F_DIRTY : Z := Z.shiftl 1 1.
Definition KLLM_BLOCK_F_PINNED : Z := Z.shiftl 1 2.

(** ** Operations *)

(** The product the source writes out four times, in 64 bits. *)
Definition elems_per_layer (cfg : kllm_model_config) : Z :=
  u64 (u64 (tokens_per_block cfg * num_kv_heads cfg) * head_dim cfg).

Definition kllm_block_kv_bytes (cfg : kllm_model_config) : Z :=
  u64 (u64 (u64 (num_layers cfg * elems_per_layer cfg) * 2) * 2).

Definition kllm_block_scale_bytes (cfg : kllm_model_config) : Z :=
  let total_elems :=
    u64 (u64 (u64 (u64 (num_layers cfg * tokens_per_block cfg)
      * num_kv_heads cfg) * head_dim cfg) * 2) in
  u64 (total_elems + 7) / 8.

Definition kllm_block_total_bytes (cfg : kllm_model_config) : Z :=
  u64 (u64 (sizeof_block_hdr + kllm_block_kv_bytes cfg) + kllm_block_scale_bytes cfg).

Definition kllm_block_key (block : Z) (cfg : kllm_model_config) (layer : Z) : Z :=
  let data := block + sizeof_block_hdr in
  let layer_stride := u64 (u64 (elems_per_layer cfg * 2) * 2) in
  data + u64 (layer * layer_stride).

Definition kllm_block_value (block : Z) (cfg : kllm_model_config) (layer : Z) : Z :=
  let data := block + sizeof_block_hdr in
  let layer_stride := u64 (u64 (elems_per_layer cfg * 2) * 2) in
  let k_size := u64 (elems_per_layer cfg * 2) in
  data + u64 (layer * layer_stride) + k_size.

Definition kllm_block_scales (block : Z) (hdr : kllm_block_hdr) : Z :=
  block + scale_offset hdr.

(** ** Specification *)

(** The exact number of elements of the keys of one layer. *)
Definition tensor_elems (cfg : kllm_model_config) : Z :=
  tokens_per_block cfg * num_kv_heads cfg * head_dim cfg.

(** The dimensions are 32-bit values and the block size does not overflow:
    K and V in BF16, one scale byte per 8 elements. *)
Record model_wf (cfg : kllm_model_config) : Prop := {
  model_layers : fits 32 (num_layers cfg);
  model_heads : fits 32 (num_kv_heads cfg);
  model_dim : fits 32 (head_dim cfg);
  model_tokens : fits 32 (tokens_per_block cfg);
  model_elems : 1 <= tensor_elems cfg;
  model_size : 136 + 5 * num_layers cfg * tensor_elems cfg < 2 ^ 64;
  model_layer_size : 4 * tensor_elems cfg < 2 ^ 64;
}.

(** ** Lemmas *)

Section sizes.
Context (cfg : kllm_model_config) (Hwf : model_wf cfg).

Lemma elems_per_layer_exact : elems_per_layer cfg = tensor_elems cfg.
Proof.
  destruct Hwf as [Hl Hh Hd Ht He Hs Hs']. unfold elems_per_layer, tensor_elems, fits in *.
  rewrite (wrap_small 64 (tokens_per_block cfg * _)) by (unfold fits; nia).
  apply wrap_small. unfold fits. nia.
Qed.

Lemma kv_bytes_exact :
  kllm_block_kv_bytes cfg = num_layers cfg * (4 * tensor_elems cfg).
Proof.
  destruct Hwf as [Hl Hh Hd Ht He Hs Hs']. unfold kllm_block_kv_bytes, fits in *.
  rewrite elems_per_layer_exact. set (e := tensor_elems cfg) in *.
  set (l := num_layers cfg) in *. assert (0 <= l * e) by nia.
  assert (5 * l * e = 5 * (l * e)) as E5 by ring.
  rewrite (wrap_small 64 (l * e)) by (unfold fits; lia).
  rewrite (wrap_small 64 (l * e * 2)) by (unfold fits; lia).
  rewrite wrap_small by (unfold fits; lia). ring.
Qed.

Lemma scale_bytes_exact :
  kllm_block_scale_bytes cfg = (2 * num_layers cfg * tensor_elems cfg + 7) / 8.
Proof.
  destruct Hwf as [Hl Hh Hd Ht He Hs Hs'].
  unfold kllm_block_scale_bytes, tensor_elems, fits in *.
  set (l := num_layers cfg) in *. set (t := tokens_per_block cfg) in *.
  set (h := num_kv_heads cfg) in *. set (d := head_dim cfg) in *.
  assert (0 <= l * t < 2 ^ 64) by nia.
  assert (0 < h /\ 0 < d) as [Hh0 Hd0] by nia.
  assert (l * (t * h * d) = l * t * h * d) as Ea by ring.
  assert (0 <= l * t * h <= l * t * h * d) by nia.
  assert (5 * l * (t * h * d) = 5 * (l * t * h * d)) as Eb by ring.
  rewrite (wrap_small 64 (l * t)) by done.
  rewrite (wrap_small 64 (l * t * h)) by (unfold fits; lia).
  rewrite (wrap_small 64 (l * t * h * d)) by (unfold fits; lia).
  rewrite (wrap_small 64 (l * t * h * d * 2)) by (unfold fits; lia).
  rewrite wrap_small by (unfold fits; lia).
  f_equal. ring.
Qed.

Lemma layer_stride_exact :
  wrap 64 (wrap 64 (elems_per_layer cfg * 2) * 2) = 4 * tensor_elems cfg.
Proof.
  destruct Hwf as [Hl Hh Hd Ht He Hs Hs']. rewrite elems_per_layer_exact.
  rewrite (wrap_small 64 (tensor_elems cfg * 2)) by (unfold fits; lia).
  rewrite wrap_small by (unfold fits; lia). lia.
Qed.

Lemma block_key_exact block layer :
  0 <= layer < num_layers cfg ->
  kllm_block_key block cfg layer = block + 128 + layer * (4 * tensor_elems cfg).
Proof.
  intros Hl. unfold kllm_block_key. rewrite layer_stride_exact.
  destruct Hwf as [_ _ _ _ He Hs Hs']. rewrite wrap_small by (unfold fits; nia).
  reflexivity.
Qed.

Lemma block_value_exact block layer :
  0 <= layer < num_layers cfg ->
  kllm_block_value block cfg layer =
    kllm_block_key block cfg layer + 2 * tensor_elems cfg.
Proof.
  intros Hl. rewrite block_key_exact by done. unfold kllm_block_value.
  rewrite layer_stride_exact, elems_per_layer_exact.
  destruct Hwf as [_ _ _ _ He Hs Hs'].
  rewrite (wrap_small 64 (layer * _)) by (unfold fits; nia).
  rewrite (wrap_small 64 (tensor_elems cfg * 2)) by (unfold fits; lia).
  change sizeof_block_hdr with 128. lia.
Qed.

Lemma total_bytes_exact :
  kllm_block_total_bytes cfg =
    128 + num_layers cfg * (4 * tensor_elems cfg)
      + (2 * num_layers cfg * tensor_elems cfg + 7) / 8.
Proof.
  unfold kllm_block_total_bytes. rewrite kv_bytes_exact, scale_bytes_exact.
  change sizeof_block_hdr with 128. destruct Hwf as [Hl _ _ _ He Hs Hs'].
  unfold fits in Hl. set (e := tensor_elems cfg) in *. set (l := num_layers cfg) in *.
  assert (0 <= l * e) by nia. assert (5 * l * e = 5 * (l * e)) as E5 by ring.
  assert (2 * l * e = 2 * (l * e)) as -> by ring.
  assert (l * (4 * e) = 4 * (l * e)) as -> by ring.
  assert (0 <= (2 * (l * e) + 7) / 8 <= l * e + 7) by dlia.
  rewrite (wrap_small 64 (128 + _)) by (unfold fits; lia).
  apply wrap_small. unfold fits. lia.
Qed.

End sizes.

(** ** Theorems *)

(** C36. For every model whose block size fits 64 bits, the computed sizes are
    the exact ones (no wrap-around), the key and value tensors follow the
    128-byte header in the order K0 V0 K1 V1 ..., adjacent and without overlap,
    and the last one ends where the scales begin, inside the block. *)
Theorem block_tensors_tile block cfg :
  model_wf cfg ->
  sizeof_block_hdr = 128 /\
  kllm_block_total_bytes cfg =
    128 + kllm_block_kv_bytes cfg + kllm_block_scale_bytes cfg /\
  kllm_block_scale_bytes cfg = (kllm_block_kv_bytes cfg / 2 + 7) / 8 /\
  (0 < num_layers cfg -> kllm_block_key block cfg 0 = block + sizeof_block_hdr) /\
  forall layer, 0 <= layer < num_layers cfg ->
    kllm_block_value block cfg layer =
      kllm_block_key block cfg layer + 2 * tensor_elems cfg /\
    kllm_block_value block cfg layer + 2 * tensor_elems cfg =
      (if layer =? num_layers cfg - 1
       then block + 128 + kllm_block_kv_bytes cfg
       else kllm_block_key block cfg (layer + 1)).
Proof.
  intros Hwf. pose proof (total_bytes_exact _ Hwf) as Ht.
  pose proof (kv_bytes_exact _ Hwf) as Hk. pose proof (scale_bytes_exact _ Hwf) as Hs.
  split_and!; [reflexivity|lia| | |].
  - rewrite Hs, Hk. replace (num_layers cfg * (4 * tensor_elems cfg))
      with (2 * num_layers cfg * tensor_elems cfg * 2) by ring.
    by rewrite Z.div_mul by lia.
  - intros. rewrite block_key_exact by (assumption || lia). change sizeof_block_hdr with 128. lia.
  - intros layer Hl. split; [by apply block_value_exact|].
    rewrite block_value_exact, block_key_exact, Hk by done.
    destruct (Z.eqb_spec layer (num_layers cfg - 1)) as [->|].
    + ring.
    + rewrite block_key_exact by (assumption || lia). ring.
Qed.

(** The dimensions of an 8-billion parameter model. *)
Definition llama8b : kllm_model_config := ModelConfig 32 8 128 16.

Lemma block_tensors_tile_witness :
  model_wf llama8b /\
  kllm_block_total_bytes llama8b =
    128 + kllm_block_kv_bytes llama8b + kllm_block_scale_bytes llama8b.
Proof.
  assert (model_wf llama8b) as Hwf by (split; done).
  split; [exact Hwf|]. exact (proj1 (proj2 (block_tensors_tile 0 llama8b Hwf))).
Defined.
