(* ===== verification/Arena.v ===== *)
(** * The KV block arena

    Models [userspace/kvcache/arena_alloc.c]: the slab allocator that carves a
    mapped region into fixed-size slots and tracks the free ones in a bitmap
    (bit set: slot free).  [kllm_arena] is the state, addresses are integers,
    the [mmap] and [calloc] calls of [kllm_arena_create] are the record [os].

    The allocator is proved to implement the set of allocated slots
    ([allocated], with [set_call] as its specification): an allocation takes the
    lowest free slot and fails only when there is none, a free returns exactly
    the slot of its pointer, and the statistics count the allocated slots.  The
    invariant [arena_wf] contains that no word below the hint has a free bit,
    so the wrap-around scan of [kllm_arena_alloc] never finds anything. *)

From Stdlib Require Import ZArith Lia.
From stdpp Require Import base numbers list gmap.
From S2P Require Import Prelude BlockFormat.

#[local] Open Scope Z_scope.

(** ** Data *)

Definition KLLM_ARENA_MAGIC : Z := 0x41524E41.

Record kllm_arena_config : Type := ArenaConfig {
  cfg_total_bytes : Z;
  hugepage_size_mb : Z;
  cfg_numa_node : Z;
  cfg_model : kllm_model_config;
}.

Record kllm_arena_stats : Type := ArenaStats {
  st_total_slots : Z;
  used_slots : Z;
  alloc_count : Z;
  free_count : Z;
  eviction_count : Z;
}.

Record kllm_arena : Type := Arena {
  a_magic : Z;
  base : Z;
  region_bytes : Z;
  slot_size : Z;
  total_slots : Z;
  numa_node : Z;
  bitmap : list Z;
  bitmap_words : Z;
  hint : Z;
  a_stats : kllm_arena_stats;
  a_model : kllm_model_config;
}.

(** The three fields an operation changes. *)
Definition with_bitmap (a : kllm_arena) (b : list Z) (h : Z) (s : kllm_arena_stats)
    : kllm_arena :=
  Arena (a_magic a) (base a) (region_bytes a) (slot_size a) (total_slots a)
    (numa_node a) b (bitmap_words a) h s (a_model a).

(** What the process holds: the arena object, the mapped region and the
    bitmap.  [release] is [free] or [munmap]. *)
Inductive resource : Type := RArena | RRegion | RBitmap.

#[export] Instance resource_eq_dec : EqDecision resource.
Proof. solve_decision. Defined.

(** [None] when it is not held. *)
Definition release (x : resource) (h : list resource) : option (list resource) :=
  if bool_decide (x ∈ h) then Some (filter (fun y => y <> x) h) else None.

(** The results of the system calls: [os_mmap] maps a length and flags to an
    address, or fails. *)
Record os : Type := Os {
  os_calloc_arena : bool;
  os_mmap : Z -> Z -> option Z;
  os_calloc_bitmap : bool;
}.

Definition MAP_PRIVATE : Z := 0x2.
Definition MAP_ANONYMOUS : Z := 0x20.
Definition MAP_POPULATE : Z := 0x8000.
Definition MAP_HUGETLB : Z := 0x40000.
Definition MAP_HUGE_SHIFT : Z := 26.

(** ** Operations *)

Definition align_up (val align : Z) : Z :=
  Z.land (u64 (val + align - 1)) (u64 (Z.lnot (align - 1))).

(** [__builtin_ctzll]: the position of the lowest set bit. *)
Fixpoint pos_ctz (p : positive) : Z :=
  match p with
  | xO p' => 1 + pos_ctz p'
  | _ => 0
  end.

Definition ctz (x : Z) : Z :=
  match x with
  | Zpos p => pos_ctz p
  | _ => 0
  end.

(** The first loop over the bitmap in [kllm_arena_create] and the cut of the
    last word. *)
Definition init_bitmap (b : list Z) (words total : Z) : option (list Z) :=
  res ← for_range (R := unit) 0 words (fun i b =>
    b' ← arr_set b i UINT64_MAX; Some (Continue b')) b;
  match res with
  | inr _ => None
  | inl b1 =>
      let remainder := total mod 64 in
      if 0 <? remainder
      then arr_set b1 (words - 1) (u64 (Z.shiftl 1 remainder - 1))
      else Some b1
  end.

Definition mmap_flags (hugepage_mb : Z) : Z :=
  let flags := Z.lor (Z.lor MAP_PRIVATE MAP_ANONYMOUS) MAP_POPULATE in
  if hugepage_mb =? 1024
  then Z.lor flags (Z.lor MAP_HUGETLB (Z.shiftl 30 MAP_HUGE_SHIFT))
  else if hugepage_mb =? 2
  then Z.lor flags (Z.lor MAP_HUGETLB (Z.shiftl 21 MAP_HUGE_SHIFT))
  else flags.

(** Returns the arena ([None] for a null pointer) and what is left allocated.
    [mbind] has no effect on the state; its node mask shifts by the node. *)
Definition kllm_arena_create (o : os) (cfg : kllm_arena_config)
    : option (option kllm_arena * list resource) :=
  if negb (os_calloc_arena o) then Some (None, [])
  else
    let held := [RArena] in
    let slot_size := align_up (kllm_block_total_bytes (cfg_model cfg)) 4096 in
    if slot_size =? 0 then None
    else
      let total := cfg_total_bytes cfg / slot_size in
      if total =? 0 then held ← release RArena held; Some (None, held)
      else
        let mapped :=
          match os_mmap o (cfg_total_bytes cfg) (mmap_flags (hugepage_size_mb cfg)) with
          | Some p => Some p
          | None => os_mmap o (cfg_total_bytes cfg)
                      (Z.lor (Z.lor MAP_PRIVATE MAP_ANONYMOUS) MAP_POPULATE)
          end in
        match mapped with
        | None => held ← release RArena held; Some (None, held)
        | Some p =>
            let held := RRegion :: held in
            if (0 <=? cfg_numa_node cfg) && (64 <=? cfg_numa_node cfg) then None
            else
              let bitmap_bytes := align_up ((u64 (total + 63)) / 64 * 8) 64 in
              if negb (os_calloc_bitmap o)
              then held ← release RRegion held; held ← release RArena held; Some (None, held)
              else
                let held := RBitmap :: held in
                let words := u64 (total + 63) / 64 in
                b ← init_bitmap (zeroed (bitmap_bytes / 8)) words total;
                Some (Some (Arena KLLM_ARENA_MAGIC p (cfg_total_bytes cfg) slot_size
                              total (cfg_numa_node cfg) b words 0
                              (ArenaStats total 0 0 0 0) (cfg_model cfg)), held)
        end.

Definition kllm_arena_destroy (arena : option kllm_arena) (held : list resource)
    : option (list resource) :=
  match arena with
  | None => Some held
  | Some a =>
      held ← (if base a =? 0 then Some held else release RRegion held);
      held ← release RBitmap held;
      release RArena held
  end.

(** The update of both scan loops when a word with a free bit is found. *)
Definition mark_allocated (a : kllm_arena) (w : Z) (bit : Z) : option kllm_arena :=
  x ← arr_get (bitmap a) w;
  b ← arr_set (bitmap a) w (Z.land x (u64 (Z.lnot (Z.shiftl 1 bit))));
  let s := a_stats a in
  Some (with_bitmap a b w (ArenaStats (st_total_slots s) (u64 (used_slots s + 1))
          (u64 (alloc_count s + 1)) (free_count s) (eviction_count s))).

(** The scan loop of [kllm_arena_alloc], which the source writes twice. *)
Definition arena_scan (a : kllm_arena) (lo hi : Z)
    : option (unit + option Z * kllm_arena) :=
  for_range lo hi (fun w _ =>
    x ← arr_get (bitmap a) w;
    if x =? 0 then Some (Continue tt)
    else
      let bit := ctz x in
      let slot := u64 (u64 (w * 64) + bit) in
      if total_slots a <=? slot then Some (Return (None, a))
      else
        a' ← mark_allocated a w bit;
        Some (Return (Some (base a + u64 (slot * slot_size a)), a'))) tt.

Definition kllm_arena_alloc (a : kllm_arena) : option (option Z * kllm_arena) :=
  r1 ← arena_scan a (hint a) (bitmap_words a);
  match r1 with
  | inr res => Some res
  | inl _ =>
      r2 ← arena_scan a 0 (hint a);
      match r2 with
      | inr res => Some res
      | inl _ => Some (None, a)
      end
  end.

Definition kllm_arena_free (a : kllm_arena) (block : Z) : option kllm_arena :=
  let offset := u64 (block - base a) in
  if slot_size a =? 0 then None
  else
    let slot := offset / slot_size a in
    let w := slot / 64 in
    let bit := slot mod 64 in
    x ← arr_get (bitmap a) w;
    b ← arr_set (bitmap a) w (Z.lor x (Z.shiftl 1 bit));
    let s := a_stats a in
    Some (with_bitmap a b (if w <? hint a then w else hint a)
      (ArenaStats (st_total_slots s) (u64 (used_slots s - 1)) (alloc_count s)
         (u64 (free_count s + 1)) (eviction_count s))).

Definition kllm_arena_slot_index (a : kllm_arena) (block : Z) : option Z :=
  if slot_size a =? 0 then None
  else Some (u32 (u64 (block - base a) / slot_size a)).

Definition kllm_arena_slot_ptr (a : kllm_arena) (index : Z) : option Z :=
  if total_slots a <=? index then None
  else Some (base a + u64 (index * slot_size a)).

Definition kllm_arena_get_stats (a : kllm_arena) : kllm_arena_stats := a_stats a.

(** A stub in the source. *)
Definition kllm_arena_phys_addr (a : kllm_arena) (block : Z) : Z := 0.

(** ** Specification *)

Definition word (a : kllm_arena) (w : Z) : Z := bitmap a !!! Z.to_nat w.

Definition slot_free (a : kllm_arena) (s : Z) : bool :=
  Z.testbit (word a (s / 64)) (s mod 64).

(** The slots in use. *)
Definition allocated (a : kllm_arena) : gset Z :=
  list_to_set (filter (fun s => slot_free a s = false) (seqZ 0 (total_slots a))).

Definition slot_addr (a : kllm_arena) (s : Z) : Z := base a + s * slot_size a.

Record arena_wf (a : kllm_arena) : Prop := {
  aw_total : 1 <= total_slots a;
  aw_words : bitmap_words a = (total_slots a + 63) / 64;
  aw_mem : bitmap_words a <= len (bitmap a);
  aw_fits : forall w, 0 <= w < bitmap_words a -> fits 64 (word a w);
  aw_tail : forall s, total_slots a <= s < 64 * bitmap_words a -> slot_free a s = false;
  aw_hint : 0 <= hint a < bitmap_words a;
  aw_below : forall w, 0 <= w < hint a -> word a w = 0;
  aw_base : 0 < base a;
  aw_slot : 0 < slot_size a;
  aw_region : total_slots a * slot_size a <= region_bytes a;
  aw_addr : base a + region_bytes a <= 2 ^ 64;
  aw_used : used_slots (a_stats a) = Z.of_nat (size (allocated a));
}.

(** The lowest slot that is not in use. *)
Definition set_alloc (total : Z) (used : gset Z) : option Z :=
  head (filter (fun s => s ∉ used) (seqZ 0 total)).

Inductive arena_op : Type :=
| AAlloc
| AFree (slot : Z).

(** A client frees the pointers it got from the allocator. *)
Definition arena_call (a : kllm_arena) (op : arena_op)
    : option (option Z * kllm_arena) :=
  match op with
  | AAlloc => kllm_arena_alloc a
  | AFree s => a' ← kllm_arena_free a (slot_addr a s); Some (None, a')
  end.

Fixpoint arena_run (a : kllm_arena) (ops : list arena_op)
    : option (list (option Z) * kllm_arena) :=
  match ops with
  | [] => Some ([], a)
  | op :: ops' =>
      '(o, a1) ← arena_call a op;
      '(os, a2) ← arena_run a1 ops';
      Some (o :: os, a2)
  end.

(** The specification on the set of slots in use; [None] when a client frees a
    slot that is not allocated. *)
Definition set_call (total : Z) (used : gset Z) (op : arena_op)
    : option (option Z * gset Z) :=
  match op with
  | AAlloc =>
      match set_alloc total used with
      | Some s => Some (Some s, {[s]} ∪ used)
      | None => Some (None, used)
      end
  | AFree s => if decide (s ∈ used) then Some (None, used ∖ {[s]}) else None
  end.

Fixpoint set_run (total : Z) (used : gset Z) (ops : list arena_op)
    : option (list (option Z) * gset Z) :=
  match ops with
  | [] => Some ([], used)
  | op :: ops' =>
      '(o, u1) ← set_call total used op;
      '(os, u2) ← set_run total u1 ops';
      Some (o :: os, u2)
  end.

(** ** Lemmas *)

Lemma ctz_spec x :
  0 < x ->
  0 <= ctz x /\ Z.testbit x (ctz x) = true /\
  forall j, 0 <= j < ctz x -> Z.testbit x j = false.
Proof.
  destruct x as [|p|p]; [lia| |lia]. intros _. cbn [ctz].
  induction p as [p IH|p IH|]; cbn [pos_ctz].
  - split_and!; [lia|done|lia].
  - destruct IH as (Hn & Ht & Hlow). split_and!; [lia| |].
    + rewrite (Pos2Z.inj_xO p), Z.add_1_l, Z.double_bits_succ. done.
    + intros j Hj. rewrite (Pos2Z.inj_xO p). destruct (decide (j = 0)) as [->|].
      * apply Z.testbit_even_0.
      * replace j with (Z.succ (j - 1)) by lia. rewrite Z.double_bits_succ.
        apply Hlow. lia.
  - split_and!; [lia|done|lia].
Qed.

Lemma ctz_bound x : fits 64 x -> x <> 0 -> 0 <= ctz x < 64.
Proof.
  intros [Hx0 Hx] Hne. destruct (ctz_spec x) as (Hn & Ht & _); [lia|].
  split; [done|]. destruct (Z.lt_ge_cases (ctz x) 64) as [|Hge]; [done|].
  rewrite (Z.bits_above_log2 x) in Ht; [done|lia|].
  apply Z.log2_lt_pow2; [lia|]. apply (Z.lt_le_trans _ (2 ^ 64)); [done|].
  apply Z.pow_le_mono_r; lia.
Qed.

(** Rounding up to a power of two. *)
Lemma align_up_pow2 v k :
  0 <= k < 64 -> 0 <= v -> v + 2 ^ k - 1 < 2 ^ 64 ->
  align_up v (2 ^ k) = (v + 2 ^ k - 1) / 2 ^ k * 2 ^ k.
Proof.
  intros Hk Hv Hlt. pose proof (pow2_pos k ltac:(lia)). unfold align_up.
  rewrite (wrap_small 64 (v + 2 ^ k - 1)) by (unfold fits; lia).
  set (x := v + 2 ^ k - 1) in *.
  rewrite <- (Z.shiftl_mul_pow2 _ k), <- (Z.shiftr_div_pow2 _ k) by lia.
  apply Z.bits_inj'. intros j Hj.
  rewrite Z.land_spec, wrap_testbit, Z.lnot_spec by lia.
  replace (2 ^ k - 1) with (Z.ones k) by (rewrite Z.ones_equiv; lia).
  rewrite Z.shiftl_spec by lia. destruct (Z.lt_ge_cases j k).
  - rewrite Z.ones_spec_low by lia. rewrite (Z.testbit_neg_r _ (j - k)) by lia.
    simpl. by rewrite !andb_false_r.
  - rewrite Z.ones_spec_high by lia. rewrite Z.shiftr_spec by lia.
    replace (j - k + k) with j by lia. simpl. rewrite andb_true_r.
    destruct (Z.ltb_spec j 64); [by rewrite andb_true_r|].
    rewrite andb_false_r. symmetry. rewrite <- (Z.mod_small x (2 ^ 64)) by lia.
    by apply Z.mod_pow2_bits_high.
Qed.

Lemma slot_decomp s : s = 64 * (s / 64) + s mod 64 /\ 0 <= s mod 64 < 64.
Proof. split; [apply Z.div_mod; lia|apply Z.mod_pos_bound; lia]. Qed.

Lemma slot_compose w b : 0 <= b < 64 -> (w * 64 + b) / 64 = w /\ (w * 64 + b) mod 64 = b.
Proof.
  intros. split.
  - symmetry. apply (Z.div_unique_pos _ _ _ b); lia.
  - symmetry. apply (Z.mod_unique_pos _ _ w); lia.
Qed.

Lemma elem_allocated a s :
  s ∈ allocated a <-> 0 <= s < total_slots a /\ slot_free a s = false.
Proof.
  unfold allocated. rewrite elem_of_list_to_set, list_elem_of_filter, elem_of_seqZ.
  intuition lia.
Qed.

Lemma allocated_size a : 0 <= total_slots a -> Z.of_nat (size (allocated a)) <= total_slots a.
Proof.
  intros Ht. unfold allocated.
  rewrite size_list_to_set by (apply NoDup_filter, NoDup_seqZ).
  pose proof (length_filter (fun s => slot_free a s = false) (seqZ 0 (total_slots a))).
  rewrite length_seqZ in *. lia.
Qed.

(** The state of a slot after the word of a slot [s] was rewritten so that only
    the bit of [s] changed. *)
Lemma slot_free_set a s x h st (v : bool) t :
  0 <= s -> s / 64 < len (bitmap a) -> 0 <= t ->
  (forall j, 0 <= j < 64 -> Z.testbit x j =
     if j =? s mod 64 then v else Z.testbit (word a (s / 64)) j) ->
  slot_free (with_bitmap a (<[Z.to_nat (s / 64) := x]> (bitmap a)) h st) t =
  if t =? s then v else slot_free a t.
Proof.
  intros Hs Hm Ht Hx. unfold slot_free, word. simpl.
  pose proof (slot_decomp s). pose proof (slot_decomp t).
  destruct (decide (t / 64 = s / 64)) as [E|E].
  - rewrite E. rewrite list_lookup_total_insert_eq by lia. rewrite Hx by lia.
    destruct (Z.eqb_spec t s), (Z.eqb_spec (t mod 64) (s mod 64)); congruence || lia || done.
  - rewrite list_lookup_total_insert_ne by lia.
    destruct (Z.eqb_spec t s); [congruence|done].
Qed.

Lemma testbit_clear x b j :
  0 <= b < 64 -> 0 <= j < 64 ->
  Z.testbit (Z.land x (wrap 64 (Z.lnot (Z.shiftl 1 b)))) j =
  if j =? b then false else Z.testbit x j.
Proof.
  intros. rewrite Z.land_spec, wrap_testbit, Z.lnot_spec, Z.shiftl_1_l by lia.
  rewrite Z.pow2_bits_eqb by lia. rewrite Z.eqb_sym.
  destruct (Z.ltb_spec j 64); [|lia]. destruct (j =? b); simpl.
  - by rewrite andb_false_r.
  - by rewrite andb_true_r.
Qed.

Lemma testbit_set x b j :
  0 <= b < 64 -> 0 <= j < 64 ->
  Z.testbit (Z.lor x (Z.shiftl 1 b)) j = if j =? b then true else Z.testbit x j.
Proof.
  intros. rewrite Z.lor_spec, Z.shiftl_1_l, Z.pow2_bits_eqb, Z.eqb_sym by lia.
  destruct (j =? b); [apply orb_true_r|apply orb_false_r].
Qed.

(** A word of a well-formed bitmap stays one after a bit changes. *)
Lemma word_fits x : (forall j, 64 <= j -> Z.testbit x j = false) -> fits 64 x.
Proof.
  intros Hx. replace x with (x mod 2 ^ 64); [apply Z.mod_pos_bound; lia|].
  apply Z.bits_inj'. intros j Hj. destruct (Z.lt_ge_cases j 64).
  - by rewrite Z.mod_pow2_bits_low by lia.
  - rewrite Z.mod_pow2_bits_high by lia. by rewrite Hx.
Qed.

Lemma fits_testbit x j : fits 64 x -> 64 <= j -> Z.testbit x j = false.
Proof.
  intros Hx Hj. rewrite <- (Z.mod_small x (2 ^ 64)) by done.
  apply Z.mod_pow2_bits_high. lia.
Qed.

Lemma slot_in_words a s :
  arena_wf a -> 0 <= s < total_slots a -> 0 <= s / 64 < bitmap_words a.
Proof. intros [] Hs. rewrite aw_words0. dlia. Qed.

Lemma total_slots_fits a : arena_wf a -> total_slots a < 2 ^ 64.
Proof.
  intros []. assert (total_slots a * 1 <= total_slots a * slot_size a) by nia. lia.
Qed.

Lemma slot_offset_fits a s :
  arena_wf a -> 0 <= s < total_slots a ->
  0 <= s * slot_size a /\ s * slot_size a + slot_size a <= region_bytes a /\
  fits 64 (s * slot_size a).
Proof. intros [] Hs. unfold fits. split_and!; nia. Qed.

Lemma slot_addr_offset a s :
  arena_wf a -> 0 <= s < total_slots a ->
  wrap 64 (slot_addr a s - base a) = s * slot_size a.
Proof.
  intros Hwf Hs. unfold slot_addr.
  replace (base a + s * slot_size a - base a) with (s * slot_size a) by lia.
  apply wrap_small. by apply slot_offset_fits.
Qed.

Lemma slot_ptr_addr a s :
  arena_wf a -> 0 <= s < total_slots a -> kllm_arena_slot_ptr a s = Some (slot_addr a s).
Proof.
  intros Hwf Hs. unfold kllm_arena_slot_ptr. destruct (Z.leb_spec (total_slots a) s); [lia|].
  rewrite wrap_small; [done|]. by apply slot_offset_fits.
Qed.

(** The invariant after the bit of one slot changed. *)
Lemma set_slot_wf a s x h st (v : bool) :
  arena_wf a -> 0 <= s < total_slots a -> fits 64 x ->
  (forall j, 0 <= j < 64 -> Z.testbit x j =
     if j =? s mod 64 then v else Z.testbit (word a (s / 64)) j) ->
  0 <= h < bitmap_words a ->
  (forall w, 0 <= w < h -> w <> s / 64 /\ word a w = 0) ->
  let a' := with_bitmap a (<[Z.to_nat (s / 64) := x]> (bitmap a)) h st in
  used_slots st = Z.of_nat (size (allocated a')) ->
  arena_wf a'.
Proof.
  intros Hwf Hs Hx Hbits Hh Hlow a' Hst. pose proof (slot_in_words a s Hwf Hs).
  pose proof (aw_mem a Hwf). pose proof (aw_total a Hwf).
  assert (forall w, 0 <= w -> w <> s / 64 -> word a' w = word a w) as Hother.
  { intros w Hw Hne. unfold word, a'. simpl. apply list_lookup_total_insert_ne. lia. }
  split; try apply Hwf; try done.
  - unfold a'. simpl. rewrite length_insert. done.
  - intros w Hw. destruct (decide (w = s / 64)) as [->|].
    + unfold word, a'. simpl. by rewrite list_lookup_total_insert_eq by lia.
    + rewrite Hother by (done || lia). by apply Hwf.
  - intros t Ht. unfold a'. rewrite (slot_free_set _ _ _ _ _ v) by (done || (simpl in Ht; lia)).
    simpl in Ht. destruct (Z.eqb_spec t s); [lia|]. by apply Hwf.
  - intros w Hw. destruct (Hlow w Hw) as [Hne Hz]. rewrite Hother by lia. done.
Qed.

Lemma mark_allocated_ok a s :
  arena_wf a -> 0 <= s < total_slots a -> slot_free a s = true ->
  (forall w, 0 <= w < s / 64 -> word a w = 0) ->
  exists a', mark_allocated a (s / 64) (s mod 64) = Some a' /\ arena_wf a' /\
    allocated a' = {[s]} ∪ allocated a /\
    base a' = base a /\ slot_size a' = slot_size a /\ total_slots a' = total_slots a.
Proof.
  intros Hwf Hs Hfree Hlow. pose proof (slot_in_words a s Hwf Hs) as Hw.
  pose proof (aw_mem a Hwf). pose proof (slot_decomp s) as [_ Hb].
  unfold mark_allocated. rewrite arr_get_total by lia. cbn [mbind option_bind].
  fold (word a (s / 64)). rewrite arr_set_in by lia. cbn [mbind option_bind].
  set (x := Z.land _ _).
  assert (forall j, 0 <= j < 64 -> Z.testbit x j =
     if j =? s mod 64 then false else Z.testbit (word a (s / 64)) j) as Hx.
  { intros. by apply testbit_clear. }
  assert (forall h st, allocated (with_bitmap a (<[Z.to_nat (s / 64) := x]> (bitmap a)) h st)
     = {[s]} ∪ allocated a) as Hall.
  { intros h st. apply set_eq. intros t.
    rewrite elem_of_union, elem_of_singleton, !elem_allocated.
    change (total_slots (with_bitmap _ _ _ _)) with (total_slots a).
    destruct (decide (0 <= t < total_slots a)); [|intuition lia].
    rewrite (slot_free_set _ _ _ _ _ false) by (done || lia).
    destruct (Z.eqb_spec t s); naive_solver. }
  eexists. split; [done|]. split_and!; [|apply Hall|done..].
  apply (set_slot_wf _ _ _ _ _ false); try done.
  - apply word_fits. intros j Hj. subst x. rewrite Z.land_spec.
    by rewrite (fits_testbit (word a _)) by (done || by apply Hwf).
  - intros w Hw'. split; [lia|]. by apply Hlow.
  - match goal with |- context [size (allocated ?b)] =>
      pose proof (allocated_size b) as Hsz end.
    rewrite Hall in *. simpl in *. rewrite (aw_used a Hwf).
    pose proof (aw_total a Hwf). pose proof (total_slots_fits a Hwf).
    rewrite size_union, size_singleton in *.
    2-3: apply disjoint_singleton_l; rewrite elem_allocated, Hfree; naive_solver.
    rewrite wrap_small by (unfold fits; lia). lia.
Qed.

(** Releasing an allocated slot. *)
Lemma arena_free_ok a s :
  arena_wf a -> s ∈ allocated a ->
  exists a', kllm_arena_free a (slot_addr a s) = Some a' /\ arena_wf a' /\
    allocated a' = allocated a ∖ {[s]} /\
    base a' = base a /\ slot_size a' = slot_size a /\ total_slots a' = total_slots a.
Proof.
  intros Hwf Hin. pose proof Hin as [Hs Hfree]%elem_allocated.
  pose proof (slot_in_words a s Hwf Hs) as Hw. pose proof (aw_hint a Hwf).
  pose proof (aw_mem a Hwf). pose proof (slot_decomp s) as [_ Hb].
  unfold kllm_arena_free. pose proof (aw_slot a Hwf).
  destruct (Z.eqb_spec (slot_size a) 0); [lia|].
  rewrite slot_addr_offset by done. rewrite Z.div_mul by lia.
  rewrite arr_get_total by lia. cbn [mbind option_bind].
  fold (word a (s / 64)). rewrite arr_set_in by lia. cbn [mbind option_bind].
  set (x := Z.lor _ _).
  assert (forall j, 0 <= j < 64 -> Z.testbit x j =
     if j =? s mod 64 then true else Z.testbit (word a (s / 64)) j) as Hx.
  { intros. by apply testbit_set. }
  assert (forall h st, allocated (with_bitmap a (<[Z.to_nat (s / 64) := x]> (bitmap a)) h st)
     = allocated a ∖ {[s]}) as Hall.
  { intros h st. apply set_eq. intros t.
    rewrite elem_of_difference, elem_of_singleton, !elem_allocated.
    change (total_slots (with_bitmap _ _ _ _)) with (total_slots a).
    destruct (decide (0 <= t < total_slots a)); [|intuition lia].
    rewrite (slot_free_set _ _ _ _ _ true) by (done || lia).
    destruct (Z.eqb_spec t s); naive_solver. }
  eexists. split; [done|]. split_and!; [|apply Hall|done..].
  apply (set_slot_wf _ _ _ _ _ true); try done.
  - apply word_fits. intros j Hj. subst x. rewrite Z.lor_spec.
    rewrite (fits_testbit (word a _)) by (done || by apply Hwf).
    rewrite Z.shiftl_1_l, Z.pow2_bits_false by lia. done.
  - case_cond; lia.
  - intros w Hw'. split; [|apply Hwf]; revert Hw'; case_cond; lia.
  - rewrite Hall. simpl. rewrite (aw_used a Hwf).
    rewrite size_difference, size_singleton by set_solver.
    assert (size (allocated a) <> 0)%nat by (apply size_non_empty_iff; set_solver).
    pose proof (allocated_size a). pose proof (aw_total a Hwf).
    pose proof (total_slots_fits a Hwf).
    rewrite wrap_small by (unfold fits; lia). lia.
Qed.

(** A scan either finds no free bit or takes the lowest one of its words. *)
Lemma arena_scan_ok a lo hi :
  arena_wf a -> 0 <= lo <= hi -> hi <= bitmap_words a ->
  (forall w, 0 <= w < lo -> word a w = 0) ->
  exists o, arena_scan a lo hi = Some o /\
    match o with
    | inl _ => forall w, 0 <= w < hi -> word a w = 0
    | inr (p, a') => exists s, 0 <= s < total_slots a /\ slot_free a s = true /\
        (forall t, 0 <= t < s -> slot_free a t = false) /\
        p = Some (slot_addr a s) /\ arena_wf a' /\
        allocated a' = {[s]} ∪ allocated a /\ base a' = base a /\
        slot_size a' = slot_size a /\ total_slots a' = total_slots a
    end.
Proof.
  intros Hwf Hlo Hhi Hlow. unfold arena_scan.
  apply (for_range_rule (fun w _ => forall w', 0 <= w' < w -> word a w' = 0));
    [lia|done| |done].
  intros w [] Hw Hz. cbv beta. pose proof (aw_mem a Hwf).
  rewrite arr_get_total by lia. cbn [mbind option_bind]. fold (word a w).
  destruct (Z.eqb_spec (word a w) 0) as [E|E].
  { eexists. split; [done|]. cbv beta iota. intros w' Hw'.
    destruct (decide (w' = w)) as [->|]; [done|]. apply Hz. lia. }
  pose proof (aw_fits a Hwf w ltac:(lia)) as Hf.
  pose proof (ctz_bound _ Hf E) as Hb.
  destruct (ctz_spec (word a w)) as (_ & Hset & Hclear); [unfold fits in Hf; lia|].
  set (s := w * 64 + ctz (word a w)).
  destruct (slot_compose w (ctz (word a w)) Hb) as [Hsd Hsm]. fold s in Hsd, Hsm.
  pose proof (total_slots_fits a Hwf). pose proof (aw_words a Hwf) as Hwords.
  assert (slot_free a s = true) as Hfree by (unfold slot_free; by rewrite Hsd, Hsm).
  assert (0 <= s < total_slots a) as Hs.
  { split; [unfold s; lia|]. destruct (Z.lt_ge_cases s (total_slots a)); [done|].
    rewrite (aw_tail a Hwf) in Hfree; [done|unfold s in *; lia]. }
  rewrite (wrap_small 64 (w * 64)) by (unfold fits, s in *; lia). fold s.
  rewrite (wrap_small 64 s) by (unfold fits; lia).
  destruct (Z.leb_spec (total_slots a) s); [lia|].
  rewrite (wrap_small 64) by (by apply slot_offset_fits).
  destruct (mark_allocated_ok a s Hwf Hs Hfree) as (a' & Ha' & Hrest).
  { intros w' Hw'. apply Hz. lia. }
  rewrite Hsd, Hsm in Ha'. rewrite Ha'.
  eexists. split; [done|]. cbv beta iota. exists s. split_and!; try (done || lia || apply Hrest).
  intros t Ht. pose proof (slot_decomp t). unfold slot_free.
  destruct (decide (t / 64 = w)) as [Et|].
  - rewrite Et. apply Hclear. unfold s in *. lia.
  - rewrite Hz by (unfold s in *; dlia). apply Z.testbit_0_l.
Qed.

Lemma seqZ_split s total :
  0 <= s <= total -> seqZ 0 total = seqZ 0 s ++ seqZ s (total - s).
Proof.
  intros. replace total with (s + (total - s)) at 1 by lia.
  by rewrite seqZ_app by lia.
Qed.

(** The specification's lowest slot, characterised. *)
Lemma set_alloc_Some total used s :
  set_alloc total used = Some s <->
  0 <= s < total /\ (s ∉ used) /\ (forall t, 0 <= t < s -> t ∈ used).
Proof.
  unfold set_alloc. rewrite head_lookup. split.
  - intros Hl. pose proof Hl as Hin. apply list_elem_of_lookup_2 in Hin.
    apply list_elem_of_filter in Hin as [Hn Hs%elem_of_seqZ]. split_and!; [lia..|done|].
    intros t Ht. destruct (decide (t ∈ used)) as [|Hnt]; [done|].
    rewrite (seqZ_split s total), filter_app in Hl by lia.
    destruct (filter (fun s => s ∉ used) (seqZ 0 s)) as [|y l] eqn:E.
    + assert (t ∈ filter (fun s => s ∉ used) (seqZ 0 s)) as Hin.
      { apply list_elem_of_filter. split; [done|]. apply elem_of_seqZ. lia. }
      rewrite E in Hin. by apply elem_of_nil in Hin.
    + simpl in Hl. injection Hl as ->.
      assert (s ∈ filter (fun s => s ∉ used) (seqZ 0 s)) as Hin by (rewrite E; left).
      apply list_elem_of_filter in Hin as [_ Hin%elem_of_seqZ]. lia.
  - intros (Hs & Hn & Hlow).
    rewrite (seqZ_split s total), filter_app by lia.
    replace (filter (fun s => s ∉ used) (seqZ 0 s)) with (@nil Z).
    + rewrite (seqZ_cons s) by lia. by rewrite filter_cons_True.
    + symmetry. apply elem_of_nil_inv. intros x [Hx' Hx%elem_of_seqZ]%list_elem_of_filter.
      apply Hx', Hlow. lia.
Qed.

Lemma set_alloc_None total used :
  (forall t, 0 <= t < total -> t ∈ used) -> set_alloc total used = None.
Proof.
  intros H. destruct (set_alloc total used) as [s|] eqn:E; [|done].
  apply set_alloc_Some in E as (Hs & Hn & _). by destruct Hn; apply H.
Qed.

Lemma arena_alloc_ok a :
  arena_wf a ->
  exists p a', kllm_arena_alloc a = Some (p, a') /\ arena_wf a' /\
    base a' = base a /\ slot_size a' = slot_size a /\ total_slots a' = total_slots a /\
    match set_alloc (total_slots a) (allocated a) with
    | Some s => p = Some (slot_addr a s) /\ allocated a' = {[s]} ∪ allocated a
    | None => p = None /\ a' = a
    end.
Proof.
  intros Hwf. unfold kllm_arena_alloc. pose proof (aw_hint a Hwf).
  destruct (arena_scan_ok a (hint a) (bitmap_words a) Hwf)
    as (o & -> & Ho); [lia..|apply Hwf|].
  cbn [mbind option_bind]. destruct o as [[]|[p a']].
  - destruct (arena_scan_ok a 0 (hint a) Hwf) as (o & -> & Ho'); [lia..|].
    cbn [mbind option_bind].
    assert (forall t, 0 <= t < total_slots a -> slot_free a t = false) as Hfull.
    { intros t Ht. unfold slot_free. rewrite Ho; [apply Z.testbit_0_l|].
      by apply slot_in_words. }
    destruct o as [[]|[p a']].
    + exists None, a. rewrite set_alloc_None; [done|].
      intros t Ht. apply elem_allocated. auto.
    + destruct Ho' as (s & Hs & Hf & _). by rewrite Hfull in Hf.
  - destruct Ho as (s & Hs & Hf & Hlow & -> & Hwf' & Hall & Hb & Hss & Ht).
    exists (Some (slot_addr a s)), a'. split_and!; [done..|].
    replace (set_alloc (total_slots a) (allocated a)) with (Some s); [done|].
    symmetry. apply set_alloc_Some. split_and!; [lia..| |].
    + rewrite elem_allocated, Hf. by intros [_ ?].
    + intros t Ht'. apply elem_allocated. split; [lia|]. auto.
Qed.

Lemma arena_call_refines a op o u :
  arena_wf a -> set_call (total_slots a) (allocated a) op = Some (o, u) ->
  exists a', arena_call a op = Some (slot_addr a <$> o, a') /\ arena_wf a' /\
    allocated a' = u /\ base a' = base a /\ slot_size a' = slot_size a /\
    total_slots a' = total_slots a.
Proof.
  intros Hwf Hcall. destruct op as [|s]; simpl in *.
  - destruct (arena_alloc_ok a Hwf) as (p & a' & -> & Hwf' & Hb & Hs & Ht & Hres).
    destruct (set_alloc _ _) as [s|]; simplify_eq; destruct Hres as [-> ?]; subst; eauto 10.
  - case_decide as Hin; simplify_eq.
    destruct (arena_free_ok a s Hwf Hin) as (a' & -> & Hrest). exists a'.
    split; [done|]. tauto.
Qed.

(** *** The counters *)

(** A call that returned [p] counts one allocation if it succeeded. *)
Definition alloc_counted (a : kllm_arena) (r : option Z * kllm_arena) : Prop :=
  let s := a_stats a in
  let s' := a_stats (snd r) in
  st_total_slots s' = st_total_slots s /\ free_count s' = free_count s /\
  eviction_count s' = eviction_count s /\
  alloc_count s' = match fst r with Some _ => u64 (alloc_count s + 1) | None => alloc_count s end.

Lemma arena_scan_counts a lo hi r : arena_scan a lo hi = Some (inr r) -> alloc_counted a r.
Proof.
  apply for_range_returns. intros w [] x Hb. cbv beta in Hb.
  destruct (arr_get (bitmap a) w) as [y|] eqn:Hy; simplify_eq/=.
  destruct (y =? 0); [done|]. destruct (total_slots a <=? _); [by simplify_eq|].
  unfold mark_allocated in Hb. rewrite Hy in Hb. simpl in Hb.
  destruct (arr_set _ _ _); simplify_eq/=. done.
Qed.

Lemma arena_alloc_counts a r : kllm_arena_alloc a = Some r -> alloc_counted a r.
Proof.
  unfold kllm_arena_alloc. destruct (arena_scan a (hint a) _) as [[[]|x]|] eqn:H1; simpl; [| |done].
  - destruct (arena_scan a 0 (hint a)) as [[[]|x]|] eqn:H2; simpl; intros; simplify_eq; [done|].
    by eapply arena_scan_counts.
  - intros; simplify_eq. by eapply arena_scan_counts.
Qed.

Lemma arena_free_counts a p a' :
  kllm_arena_free a p = Some a' ->
  let s := a_stats a in
  let s' := a_stats a' in
  st_total_slots s' = st_total_slots s /\ alloc_count s' = alloc_count s /\
  eviction_count s' = eviction_count s /\ free_count s' = u64 (free_count s + 1).
Proof.
  unfold kllm_arena_free. destruct (slot_size a =? 0); [done|].
  destruct (arr_get _ _) as [x|]; [|done]. simpl. destruct (arr_set _ _ _); intros; by simplify_eq/=.
Qed.

(** What a sequence of calls adds to the counters: the allocations that returned
    a slot, and the frees. *)
Definition allocs_of (obs : list (option Z)) : Z := len (omap id obs).

Definition frees_of (ops : list arena_op) : Z :=
  len (omap (fun op => match op with AFree s => Some s | AAlloc => None end) ops).

Definition stats_after (s : kllm_arena_stats) (used allocs frees : Z) : kllm_arena_stats :=
  ArenaStats (st_total_slots s) used (u64 (alloc_count s + allocs)) (u64 (free_count s + frees))
    (eviction_count s).

Lemma arena_call_stats a op o a' :
  arena_call a op = Some (o, a') ->
  let s := a_stats a in
  let s' := a_stats a' in
  st_total_slots s' = st_total_slots s /\ eviction_count s' = eviction_count s /\
  u64 (alloc_count s') = u64 (alloc_count s + allocs_of [o]) /\
  u64 (free_count s') = u64 (free_count s + frees_of [op]).
Proof.
  unfold wrap. destruct op as [|x]; simpl.
  - intros (H1 & H2 & H3 & H4)%arena_alloc_counts. simpl in *. rewrite H1, H2, H3, H4.
    change (frees_of [AAlloc]) with 0. rewrite Z.add_0_r. destruct o; simpl; unfold wrap; rewrite ?Z.add_0_r, ?Zmod_mod; done.
  - destruct (kllm_arena_free a _) as [a1|] eqn:Hf; simpl; [|done]. intros; simplify_eq.
    destruct (arena_free_counts _ _ _ Hf) as (H1 & H2 & H3 & H4). simpl in *. rewrite H1, H2, H3, H4.
    change (frees_of [AFree x]) with 1. change (allocs_of [None]) with 0. rewrite Z.add_0_r. unfold wrap.
    by rewrite Zmod_mod.
Qed.

(** The words of a fresh bitmap. *)
Lemma init_bitmap_ok b total :
  let words := (total + 63) / 64 in
  1 <= total -> words <= len b ->
  exists b', init_bitmap b words total = Some b' /\ length b' = length b /\
    forall w, 0 <= w < words -> b' !!! Z.to_nat w =
      if (w =? words - 1) && (0 <? total mod 64) then 2 ^ (total mod 64) - 1 else UINT64_MAX.
Proof.
  intros words Ht Hb. unfold init_bitmap.
  assert (1 <= words) as Hw by (unfold words; dlia).
  edestruct (for_range_rule (R := unit)
    (fun i c => length c = length b /\ forall w, 0 <= w < i -> c !!! Z.to_nat w = UINT64_MAX)
    (fun o => exists c, o = inl c /\ length c = length b /\
       forall w, 0 <= w < words -> c !!! Z.to_nat w = UINT64_MAX))
    as (o & -> & c & -> & Hlen & Hc).
  - lia.
  - split; [done|lia].
  - intros i c Hi [Hl Hc]. cbv beta. rewrite arr_set_in by lia.
    eexists. split; [done|]. cbv beta iota. split; [by rewrite length_insert|].
    intros w Hw'. destruct (decide (w = i)) as [->|].
    + by rewrite list_lookup_total_insert_eq by lia.
    + rewrite list_lookup_total_insert_ne by lia. apply Hc. lia.
  - intros c [Hl Hc]. eauto.
  - cbn [mbind option_bind]. pose proof (Z.mod_pos_bound total 64 ltac:(lia)).
    destruct (Z.ltb_spec 0 (total mod 64)).
    + rewrite arr_set_in by lia. eexists. split; [done|].
      split; [by rewrite length_insert|]. intros w Hw'.
      destruct (Z.eqb_spec w (words - 1)) as [->|]; simpl.
      * rewrite list_lookup_total_insert_eq by lia. rewrite Z.shiftl_1_l.
        apply wrap_small. pose proof (pow2_pos (total mod 64)).
        assert (2 ^ (total mod 64) < 2 ^ 64) by (apply Z.pow_lt_mono_r; lia).
        unfold fits. lia.
      * rewrite list_lookup_total_insert_ne by lia. by apply Hc.
    + eexists. split; [done|]. split; [done|]. intros w Hw'.
      rewrite andb_false_r. by apply Hc.
Qed.

(** In a fresh bitmap exactly the slots below [total] are free. *)
Lemma fresh_slot_free a :
  let words := (total_slots a + 63) / 64 in
  1 <= total_slots a ->
  (forall w, 0 <= w < words -> word a w =
      if (w =? words - 1) && (0 <? total_slots a mod 64)
      then 2 ^ (total_slots a mod 64) - 1 else UINT64_MAX) ->
  forall s, 0 <= s < 64 * words -> slot_free a s = (s <? total_slots a).
Proof.
  intros words Ht Hw s Hs. unfold slot_free. pose proof (slot_decomp s) as [Hs' Hm].
  pose proof (slot_decomp (total_slots a)) as [Ht' Htm].
  rewrite Hw by (split; [apply Z.div_pos; lia|apply Z.div_lt_upper_bound; lia]).
  change UINT64_MAX with (Z.ones 64).
  destruct (Z.eqb_spec (s / 64) (words - 1)) as [E|E]; cbn [andb].
  - destruct (Z.ltb_spec 0 (total_slots a mod 64)).
    + assert (words - 1 = total_slots a / 64) by (unfold words; dlia).
      replace (2 ^ (total_slots a mod 64) - 1) with (Z.ones (total_slots a mod 64))
        by (rewrite Z.ones_equiv; lia).
      destruct (Z.ltb_spec s (total_slots a)).
      * apply Z.ones_spec_low. lia.
      * apply Z.ones_spec_high. lia.
    + rewrite Z.ones_spec_low by lia. symmetry. apply Z.ltb_lt. unfold words in *. dlia.
  - rewrite Z.ones_spec_low by lia. symmetry. apply Z.ltb_lt. unfold words in *. dlia.
Qed.

(** ** Theorems *)

(** The counters are of 64 bits. *)
Lemma arena_run_fits ops a obs a' :
  arena_run a ops = Some (obs, a') ->
  fits 64 (alloc_count (a_stats a)) -> fits 64 (free_count (a_stats a)) ->
  fits 64 (alloc_count (a_stats a')) /\ fits 64 (free_count (a_stats a')).
Proof.
  revert a obs. induction ops as [|op ops IH]; intros a obs Hrun Ha Hf; simpl in Hrun; [by simplify_eq|].
  destruct (arena_call a op) as [[o a1]|] eqn:Hc; [|done]. simpl in Hrun.
  destruct (arena_run a1 ops) as [[os a2]|] eqn:Hr; [|done]. simplify_eq/=.
  apply (IH a1 os Hr); destruct op as [|x]; simpl in Hc.
  - apply arena_alloc_counts in Hc as (_ & _ & _ & Hn). simpl in Hn. rewrite Hn.
    destruct o; [by apply wrap_fits|done].
  - destruct (kllm_arena_free a _) as [a3|] eqn:Hfr; simplify_eq/=.
    by destruct (arena_free_counts _ _ _ Hfr) as (_ & -> & _).
  - apply arena_alloc_counts in Hc as (_ & Hfc & _). simpl in Hfc. by rewrite Hfc.
  - destruct (kllm_arena_free a _) as [a3|] eqn:Hfr; simplify_eq/=.
    destruct (arena_free_counts _ _ _ Hfr) as (_ & _ & _ & ->). by apply wrap_fits.
Qed.

Lemma arena_run_ok ops a obs u :
  arena_wf a ->
  set_run (total_slots a) (allocated a) ops = Some (obs, u) ->
  exists a', arena_run a ops = Some ((fun o : option Z => slot_addr a <$> o) <$> obs, a') /\
    arena_wf a' /\ allocated a' = u /\
    st_total_slots (a_stats a') = st_total_slots (a_stats a) /\
    eviction_count (a_stats a') = eviction_count (a_stats a) /\
    u64 (alloc_count (a_stats a')) = u64 (alloc_count (a_stats a) + allocs_of obs) /\
    u64 (free_count (a_stats a')) = u64 (free_count (a_stats a) + frees_of ops).
Proof.
  revert a obs. induction ops as [|op ops IH]; intros a obs Hwf Hrun; simpl in *.
  - simplify_eq. exists a. split_and!; try done; f_equal; by rewrite Z.add_0_r.
  - destruct (set_call _ _ op) as [[o u1]|] eqn:Hcall; [|done]. simpl in Hrun.
    destruct (set_run _ u1 ops) as [[os u2]|] eqn:Hr; [|done]. simplify_eq/=.
    destruct (arena_call_refines a op o u1 Hwf Hcall)
      as (a1 & Hc & Hwf1 & Hall & Hb & Hs & Ht). rewrite Hc. simpl.
    rewrite <- Hall, <- Ht in Hr.
    destruct (IH a1 os Hwf1 Hr) as (a2 & -> & Hwf2 & Hall2 & Hst & Hev & Hac & Hfc).
    destruct (arena_call_stats _ _ _ _ Hc) as (Hst1 & Hev1 & Hac1 & Hfc1).
    exists a2. split.
    { simpl. do 3 f_equal. apply list_fmap_ext. intros i x _. unfold slot_addr. by rewrite Hb, Hs. }
    split_and!; [done|done|congruence|congruence| |]; unfold wrap in *.
    + rewrite Hac, <- Zplus_mod_idemp_l, Hac1, Zplus_mod_idemp_l. f_equal. unfold allocs_of.
      destruct o; cbn; lia.
    + rewrite Hfc, <- Zplus_mod_idemp_l, Hfc1, Zplus_mod_idemp_l. f_equal. unfold frees_of.
      destruct op; cbn; lia.
Qed.

(** C4. Any sequence of allocations and frees in which clients free only slots
    they hold runs in bounds on the arena and returns what the allocator of the
    lowest free slot returns: an allocation succeeds while a slot is free, never
    returns a slot in use, and fails otherwise.  Afterwards the invariant holds,
    the set of slots in use is the one of that allocator, and the statistics are
    exact: its size, the allocations that succeeded and the frees, each counted
    from the value at the start in 64 bits, and nothing else has changed. *)
Theorem arena_refines_set a ops obs u :
  arena_wf a -> fits 64 (alloc_count (a_stats a)) -> fits 64 (free_count (a_stats a)) ->
  set_run (total_slots a) (allocated a) ops = Some (obs, u) ->
  exists a', arena_run a ops = Some ((fun o : option Z => slot_addr a <$> o) <$> obs, a') /\
    arena_wf a' /\ allocated a' = u /\
    kllm_arena_get_stats a' =
      stats_after (kllm_arena_get_stats a) (Z.of_nat (size u)) (allocs_of obs) (frees_of ops).
Proof.
  intros Hwf Hac Hfc Hrun.
  destruct (arena_run_ok ops a obs u Hwf Hrun) as (a' & Hr & Hwf' & Hall & Hst & Hev & Ha & Hf).
  exists a'. split; [done|]. split; [done|]. split; [done|].
  destruct (arena_run_fits ops a _ a' Hr Hac Hfc) as [Hac' Hfc'].
  unfold kllm_arena_get_stats, stats_after. rewrite <- Hst, <- Hev, <- Ha, <- Hf, !wrap_small by done.
  rewrite <- Hall, <- (aw_used a' Hwf'). by destruct (a_stats a').
Qed.

(** The addresses of two different slots of a well-formed arena are a
    slot size apart and each slot lies in the mapped region; the pointer of a
    slot and the slot of a pointer are inverse to each other as long as the
    slot numbers fit the 32 bits they are returned in. *)
Theorem slot_ptr_roundtrip a s t :
  arena_wf a -> total_slots a <= 2 ^ 32 ->
  0 <= s < total_slots a -> 0 <= t < total_slots a ->
  kllm_arena_slot_ptr a s = Some (slot_addr a s) /\
  kllm_arena_slot_index a (slot_addr a s) = Some s /\
  base a <= slot_addr a s /\ slot_addr a s + slot_size a <= base a + region_bytes a /\
  (s < t -> slot_addr a s + slot_size a <= slot_addr a t).
Proof.
  intros Hwf H32 Hs Ht. pose proof (aw_slot a Hwf).
  destruct (slot_offset_fits a s Hwf Hs) as (H0 & Hr & Hf).
  unfold kllm_arena_slot_ptr, kllm_arena_slot_index.
  rewrite slot_addr_offset by done. rewrite Z.div_mul by lia.
  rewrite (wrap_small 32) by (unfold fits; lia). rewrite wrap_small by done.
  destruct (Z.leb_spec (total_slots a) s); [lia|].
  destruct (Z.eqb_spec (slot_size a) 0); [lia|].
  unfold slot_addr. split_and!; [done|done|lia|lia|]. nia.
Qed.

(** The law of the [mmap] call: a mapping is above page zero and inside the
    64-bit address space. *)
Definition mmap_law (o : os) : Prop :=
  forall n flags p, os_mmap o n flags = Some p -> 0 < p /\ p + n <= 2 ^ 64.

(** The fresh arena is well formed and empty. *)
Lemma fresh_arena_ok cfg p ss b :
  let total := cfg_total_bytes cfg / ss in
  let words := (total + 63) / 64 in
  let a := Arena KLLM_ARENA_MAGIC p (cfg_total_bytes cfg) ss total
    (cfg_numa_node cfg) b words 0 (ArenaStats total 0 0 0 0) (cfg_model cfg) in
  0 < p -> p + cfg_total_bytes cfg <= 2 ^ 64 -> 0 < ss -> 1 <= total ->
  words <= len b ->
  (forall w, 0 <= w < words -> b !!! Z.to_nat w =
      if (w =? words - 1) && (0 <? total mod 64) then 2 ^ (total mod 64) - 1 else UINT64_MAX) ->
  arena_wf a /\ allocated a = ∅.
Proof.
  intros total words a Hp Hpb Hss Ht Hb Hw.
  assert (forall s, 0 <= s < 64 * words -> slot_free a s = (s <? total)) as Hfree.
  { by apply (fresh_slot_free a). }
  assert (total <= 64 * words) as Htw by (unfold words; dlia).
  assert (allocated a = ∅) as Hall.
  { apply set_eq. intros s. rewrite elem_allocated. split; [|set_solver].
    simpl. intros [Hs Hf]. rewrite Hfree in Hf by lia. apply Z.ltb_ge in Hf. lia. }
  split; [|done]. split; try done; simpl; try lia.
  - intros w Hw'. change (word a w) with (b !!! Z.to_nat w). rewrite Hw by done.
    pose proof (Z.mod_pos_bound total 64 ltac:(lia)).
    pose proof (pow2_pos (total mod 64) ltac:(lia)).
    assert (2 ^ (total mod 64) < 2 ^ 64) by (apply Z.pow_lt_mono_r; lia).
    case_cond; unfold fits, UINT64_MAX; lia.
  - intros s Hs. rewrite Hfree by lia. apply Z.ltb_ge. lia.
  - rewrite Z.mul_comm. by apply Z.mul_div_le.
  - by rewrite Hall.
Qed.

(** The memory of the bitmap holds its words. *)
Lemma bitmap_mem total :
  1 <= total -> total * 4096 < 2 ^ 64 ->
  (total + 63) / 64 <= len (zeroed (align_up ((total + 63) / 64 * 8) 64 / 8)).
Proof.
  intros H1 H2. assert (0 <= (total + 63) / 64 <= total) as Hw by dlia.
  change 64 with (2 ^ 6) at 3. rewrite align_up_pow2 by lia. change (2 ^ 6) with 64.
  set (w := (total + 63) / 64) in *. rewrite zeroed_len by dlia. dlia.
Qed.

(** What a call of [kllm_arena_create] leaves. *)
Definition arena_created (o : os) (cfg : kllm_arena_config) (r : option kllm_arena)
    (held : list resource) : Prop :=
  match r with
  | None => held = [] /\
      (os_calloc_arena o = false \/ os_calloc_bitmap o = false \/
       os_mmap o (cfg_total_bytes cfg) (mmap_flags 4) = None \/
       cfg_total_bytes cfg < align_up (kllm_block_total_bytes (cfg_model cfg)) 4096)
  | Some a => arena_wf a /\ allocated a = ∅ /\
      slot_size a mod 4096 = 0 /\
      kllm_block_total_bytes (cfg_model cfg) <= slot_size a /\
      total_slots a = cfg_total_bytes cfg / slot_size a
  end.

Lemma arena_create_run o cfg :
  mmap_law o ->
  fits 64 (cfg_total_bytes cfg) -> cfg_numa_node cfg < 64 ->
  1 <= kllm_block_total_bytes (cfg_model cfg) <= 2 ^ 64 - 4096 ->
  exists r held, kllm_arena_create o cfg = Some (r, held) /\
    kllm_arena_destroy r held = Some [] /\ arena_created o cfg r held.
Proof.
  intros Hmmap Hfit Hnode Hblk. unfold kllm_arena_create, arena_created. unfold fits in Hfit.
  destruct (os_calloc_arena o) eqn:Hca; cbn [negb].
  2:{ exists None, []. auto. }
  assert (exists ss, align_up (kllm_block_total_bytes (cfg_model cfg)) 4096 = ss /\
    kllm_block_total_bytes (cfg_model cfg) <= ss /\ ss mod 4096 = 0)
    as (ss & -> & Hss & Hal).
  { change 4096 with (2 ^ 12). rewrite align_up_pow2 by lia.
    eexists. split; [done|]. split; [dlia|]. by apply Z_mod_mult. }
  destruct (Z.eqb_spec ss 0); [lia|].
  destruct (Z.eqb_spec (cfg_total_bytes cfg / ss) 0) as [E|E].
  { exists None, []. split_and!; [done..|]. right; right; right.
    apply Z.div_small_iff in E; lia. }
  change (mmap_flags 4) with (Z.lor (Z.lor MAP_PRIVATE MAP_ANONYMOUS) MAP_POPULATE).
  destruct (match os_mmap o _ _ with Some p => Some p | None => _ end) as [p|] eqn:Hm.
  2:{ exists None, []. split_and!; [done..|]. right; right; left.
      by destruct (os_mmap o _ (mmap_flags _)). }
  assert (0 < p /\ p + cfg_total_bytes cfg <= 2 ^ 64) as [Hp Hpb].
  { destruct (os_mmap o _ (mmap_flags _)) eqn:Hm'; simplify_eq; by eapply Hmmap. }
  replace ((0 <=? cfg_numa_node cfg) && (64 <=? cfg_numa_node cfg)) with false
    by (symmetry; apply andb_false_iff; right; apply Z.leb_gt; lia).
  destruct (os_calloc_bitmap o) eqn:Hcb; cbn [negb].
  2:{ exists None, []. split_and!; [done..|]. auto. }
  assert (1 <= cfg_total_bytes cfg / ss) as Ht.
  { assert (0 <= cfg_total_bytes cfg / ss) by (apply Z.div_pos; lia). lia. }
  assert (cfg_total_bytes cfg / ss * 4096 < 2 ^ 64) as Ht'.
  { assert (4096 <= ss) by dlia. pose proof (Z.mul_div_le (cfg_total_bytes cfg) ss). nia. }
  rewrite wrap_small by (unfold fits; lia).
  destruct (init_bitmap_ok (zeroed (align_up ((cfg_total_bytes cfg / ss + 63) / 64 * 8) 64 / 8))
    (cfg_total_bytes cfg / ss)) as (b & -> & Hlen & Hb); [done|by apply bitmap_mem|].
  cbn [mbind option_bind]. do 2 eexists. split; [done|]. unfold kllm_arena_destroy.
  cbn [base]. destruct (Z.eqb_spec p 0); [lia|]. split; [done|].
  destruct (fresh_arena_ok cfg p ss b) as [Hwf Hall]; try done; [lia|].
  rewrite Hlen. by apply bitmap_mem.
Qed.


Definition demo_os : os :=
  Os true (fun n _ => if n <=? 2 ^ 40 then Some 4096 else None) true.
Definition demo_cfg : kllm_arena_config := ArenaConfig (2 ^ 21) 2 0 (ModelConfig 1 1 8 16).


(** An arena of 70 slots, none in use. *)
Definition demo_arena : kllm_arena :=
  Arena KLLM_ARENA_MAGIC 8192 (70 * 4096) 4096 70 0 [UINT64_MAX; 2 ^ 6 - 1] 2 0
    (ArenaStats 70 0 0 0 0) (ModelConfig 1 1 8 16).

Lemma demo_arena_wf : arena_wf demo_arena /\ allocated demo_arena = ∅.
Proof.
  apply (fresh_arena_ok (ArenaConfig (70 * 4096) 2 0 (ModelConfig 1 1 8 16)) 8192 4096);
    try (vm_compute; congruence).
  intros w Hw. change (0 <= w < 2) in Hw.
  assert (w = 0 \/ w = 1) as [-> | ->] by lia; done.
Qed.

Lemma arena_refines_set_witness :
  exists a', arena_run demo_arena [AAlloc; AAlloc; AFree 0; AAlloc] =
      Some ((fun o : option Z => slot_addr demo_arena <$> o) <$>
              [Some 0; Some 1; None; Some 0], a') /\
    arena_wf a' /\ allocated a' = ({[0; 1]} : gset Z) /\
    kllm_arena_get_stats a' = ArenaStats 70 2 3 1 0.
Proof.
  destruct (arena_refines_set demo_arena [AAlloc; AAlloc; AFree 0; AAlloc]
    [Some 0; Some 1; None; Some 0] {[0; 1]}) as (a' & Hr & Hwf & Hall & Hst).
  - apply demo_arena_wf.
  - unfold fits. simpl. lia.
  - unfold fits. simpl. lia.
  - vm_compute. reflexivity.
  - exists a'. split; [exact Hr|]. split; [exact Hwf|]. split; [exact Hall|].
    rewrite Hst. vm_compute. reflexivity.
Defined.

Lemma slot_ptr_roundtrip_witness :
  kllm_arena_slot_ptr demo_arena 3 = Some (slot_addr demo_arena 3) /\
  kllm_arena_slot_index demo_arena (slot_addr demo_arena 3) = Some 3.
Proof.
  destruct (slot_ptr_roundtrip demo_arena 3 4) as (Hp & Hi & _);
    [apply demo_arena_wf|vm_compute; congruence|simpl; lia..|].
  split; [exact Hp|exact Hi].
Defined.
