(* ===== verification/Floats.v ===== *)
(** * IEEE 754 arithmetic at the two widths of the code

    The operations on [float] and [double] the sources use, as instances of the
    standard library's specification of floating-point arithmetic (round to
    nearest, ties to even), which is executable and needs no axiom. *)

From Stdlib Require Import ZArith Lia SpecFloat.
From stdpp Require Import base numbers list.
From S2P Require Import Prelude.

#[local] Open Scope Z_scope.

Definition f32_of_Z (n : Z) : spec_float := binary_normalize 24 128 n 0 false.
Definition f32_add : spec_float -> spec_float -> spec_float := SFadd 24 128.
Definition f32_sub : spec_float -> spec_float -> spec_float := SFsub 24 128.
Definition f32_mul : spec_float -> spec_float -> spec_float := SFmul 24 128.
Definition f32_div : spec_float -> spec_float -> spec_float := SFdiv 24 128.

Definition f64_of_Z (n : Z) : spec_float := binary_normalize 53 1024 n 0 false.
Definition f64_div : spec_float -> spec_float -> spec_float := SFdiv 53 1024.
Definition f64_mul : spec_float -> spec_float -> spec_float := SFmul 53 1024.

(** The comparisons of C: false when an operand is a NaN. *)
Definition float_lt (x y : spec_float) : bool := SFltb x y.
Definition float_le (x y : spec_float) : bool := SFleb x y.
Definition float_gt (x y : spec_float) : bool := SFltb y x.
Definition float_ge (x y : spec_float) : bool := SFleb y x.
Definition float_eq (x y : spec_float) : bool := SFeqb x y.

Definition f32_zero : spec_float := S754_zero false.
Definition f32_one : spec_float := f32_of_Z 1.

(** A decimal literal [n * 10^-d] rounded to a double. *)
Definition f64_literal (n d : Z) : spec_float :=
  f64_div (f64_of_Z n) (f64_of_Z (10 ^ d)).

Definition f32_neg_infinity : spec_float := S754_infinity true.
Definition f32_sqrt : spec_float -> spec_float := SFsqrt 24 128.

(** ** Bit patterns of floats

    [nan_bits] is the pattern of the NaN an operation returns, which the
    standard leaves open. *)

Definition f32_of_bits (bits : Z) : spec_float :=
  let sign := Z.testbit bits 31 in
  let ex := Z.land (Z.shiftr bits 23) 0xFF in
  let m := Z.land bits 0x7FFFFF in
  if ex =? 0xFF then (if m =? 0 then S754_infinity sign else S754_nan)
  else if ex =? 0 then
    match m with
    | Zpos p => S754_finite sign p (-149)
    | _ => S754_zero sign
    end
  else
    match m + 0x800000 with
    | Zpos p => S754_finite sign p (ex - 150)
    | _ => S754_nan
    end.

Definition bits_of_f32 (nan_bits : Z) (x : spec_float) : Z :=
  let sign (s : bool) := if s then 0x80000000 else 0 in
  match x with
  | S754_zero s => sign s
  | S754_infinity s => sign s + 0x7F800000
  | S754_nan => nan_bits
  | S754_finite s m e =>
      if Zpos m <? 0x800000 then sign s + Zpos m
      else sign s + (e + 150) * 0x800000 + (Zpos m - 0x800000)
  end.

(** ** The largest entry of an array

    The loop the sampler and both inference paths use: the first entry that is
    larger than all before it, starting from minus infinity. *)

Definition argmax_step (logits : list spec_float) (i : Z) (st : spec_float * Z)
    : option (ctl (spec_float * Z) unit) :=
  x ← arr_get logits i;
  if float_gt x (fst st) then Some (Continue (x, i)) else Some (Continue st).

Definition argmax (logits : list spec_float) (n : Z) : option Z :=
  res ← for_range 0 n (argmax_step logits) (f32_neg_infinity, 0);
  match res with
  | inl (_, idx) => Some idx
  | inr _ => None
  end.

(** ** Lemmas *)

#[export] Instance spec_float_eq_dec : EqDecision spec_float.
Proof. solve_decision. Defined.

#[export] Instance spec_float_inhabited : Inhabited spec_float := populate f32_zero.

(** The order of the floats: a lexicographic one on sign and size class,
    exponent and mantissa. *)
Definition float_key (x : spec_float) : Z * Z * Z :=
  match x with
  | S754_zero _ => (0, 0, 0)
  | S754_infinity s => (if s then -2 else 2, 0, 0)
  | S754_nan => (0, 0, 0)
  | S754_finite s m e => if s then (-1, - e, - Zpos m) else (1, e, Zpos m)
  end.

Definition lex_lt (a b : Z * Z * Z) : Prop :=
  let '(a1, a2, a3) := a in
  let '(b1, b2, b3) := b in
  a1 < b1 \/ (a1 = b1 /\ (a2 < b2 \/ (a2 = b2 /\ a3 < b3))).

Lemma float_gt_spec x y :
  float_gt x y = true <-> x <> S754_nan /\ y <> S754_nan /\ lex_lt (float_key y) (float_key x).
Proof.
  unfold float_gt, SFltb, SFcompare.
  destruct x as [sx|sx| |sx mx ex], y as [sy|sy| |sy my ey]; try destruct sx; try destruct sy;
    simpl; try (split; [intros; split_and!; (done || lia)|intros (? & ? & ?); done || lia]).
  - destruct (Z.compare_spec ey ex) as [->| |]; simpl.
    + change (Pos.compare_cont Eq my mx) with (Pos.compare my mx).
      destruct (Pos.compare_spec my mx); simpl;
        (split; [intros; split_and!; (done || lia)|intros (? & ? & ?); done || lia]).
    + split; [done|intros (_ & _ & ?); lia].
    + split; [intros; split_and!; (done || lia)|done].
  - destruct (Z.compare_spec ey ex) as [->| |]; simpl.
    + change (Pos.compare_cont Eq my mx) with (Pos.compare my mx).
      destruct (Pos.compare_spec my mx); simpl;
        (split; [intros; split_and!; (done || lia)|intros (? & ? & ?); done || lia]).
    + split; [intros; split_and!; (done || lia)|done].
    + split; [done|intros (_ & _ & ?); lia].
Qed.

Lemma lex_lt_trans a b c : lex_lt a b -> lex_lt b c -> lex_lt a c.
Proof. destruct a as [[]], b as [[]], c as [[]]. simpl. lia. Qed.

Lemma float_gt_trans x y z :
  float_gt x y = true -> float_gt y z = true -> float_gt x z = true.
Proof.
  rewrite !float_gt_spec. intros (? & ? & ?) (? & ? & ?).
  split_and!; [done..|]. by eapply lex_lt_trans.
Qed.

Lemma float_gt_irrefl x : float_gt x x = false.
Proof.
  destruct (float_gt x x) eqn:E; [|done]. apply float_gt_spec in E as (_ & _ & Hl).
  destruct (float_key x) as [[]]. simpl in Hl. lia.
Qed.

(** What the loop knows after the entries before [i]. *)
Definition argmax_inv (logits : list spec_float) (i : Z) (st : spec_float * Z) : Prop :=
  (forall j x, Z.of_nat j < i -> logits !! j = Some x -> float_gt x (fst st) = false) /\
  ((st = (f32_neg_infinity, 0)) \/
   (0 <= snd st < i /\ logits !! Z.to_nat (snd st) = Some (fst st) /\
    float_gt (fst st) f32_neg_infinity = true /\
    forall j x, Z.of_nat j < snd st -> logits !! j = Some x -> float_gt x f32_neg_infinity = true ->
      float_gt (fst st) x = true)).

(** An entry that is not larger than one that is not a NaN, or is a NaN. *)
Lemma float_not_gt x y :
  y <> S754_nan -> float_gt x y = false ->
  x = S754_nan \/ float_key x = float_key y \/ float_gt y x = true.
Proof.
  intros Hy Hn. destruct (decide (x = S754_nan)) as [|Hx]; [by left|right].
  destruct (decide (float_key x = float_key y)) as [|Hk]; [by left|right].
  apply float_gt_spec. split_and!; [done..|].
  assert (~ lex_lt (float_key y) (float_key x)) as Hnl.
  { intros Hl. assert (float_gt x y = true) by (by apply float_gt_spec). congruence. }
  destruct (float_key x) as [[a b] c], (float_key y) as [[a' b'] c']. simpl in *.
  assert (~ (a = a' /\ b = b' /\ c = c')) by (intros (-> & -> & ->); done). lia.
Qed.

Lemma argmax_step_ok logits i st :
  0 <= i < len logits -> argmax_inv logits i st ->
  exists st', argmax_step logits i st = Some (Continue st') /\ argmax_inv logits (i + 1) st'.
Proof.
  intros Hi [Hall Hst]. unfold argmax_step.
  destruct (lookup_lt_is_Some_2 logits (Z.to_nat i)) as [x Hx]; [lia|].
  rewrite arr_get_lookup, Hx by lia. cbn [mbind option_bind].
  assert (forall j y, Z.of_nat j < i + 1 -> logits !! j = Some y ->
    Z.of_nat j < i \/ y = x) as Hcase.
  { intros j y Hj Hy. destruct (decide (Z.of_nat j = i)); [|lia].
    right. replace (Z.to_nat i) with j in Hx by lia. congruence. }
  destruct (float_gt x (fst st)) eqn:Hgt; eexists; (split; [done|]); split; cbn [fst snd].
  - intros j y Hj Hy. destruct (Hcase j y Hj Hy) as [Hlt| ->]; [|apply float_gt_irrefl].
    destruct (float_gt y x) eqn:Hyx; [|done].
    rewrite <- (Hall j y Hlt Hy). symmetry. by eapply float_gt_trans.
  - right. split; [lia|]. split; [done|]. split.
    + destruct Hst as [->|(_ & _ & Hinf & _)]; [done|]. by eapply float_gt_trans.
    + intros j y Hj Hy Hinf. pose proof (Hall j y Hj Hy) as Hn.
      pose proof Hgt as (_ & Hm & _)%float_gt_spec.
      pose proof Hinf as (Hny & _ & _)%float_gt_spec.
      apply float_not_gt in Hn as [->|[Hk|Hn]]; [done| |by eapply float_gt_trans|done].
      apply float_gt_spec in Hgt as (? & ? & ?). apply float_gt_spec. by rewrite Hk.
  - intros j y Hj Hy. destruct (Hcase j y Hj Hy) as [Hlt| ->]; [by apply (Hall j)|done].
  - destruct Hst as [->|(Hr & Hrest)]; [by left|right]. split; [lia|done].
Qed.

Lemma argmax_ok logits n :
  0 <= n <= len logits ->
  exists m r, argmax logits n = Some r /\ argmax_inv logits n (m, r).
Proof.
  intros Hn. unfold argmax.
  edestruct (for_range_rule (R := unit) (argmax_inv logits)
    (fun o => exists m r, o = inl (m, r) /\ argmax_inv logits n (m, r)))
    as (o & -> & m & r & -> & Hinv); [..|by exists m, r].
  - lia.
  - split; [intros; lia|by left].
  - intros i st Hi Hinv. destruct (argmax_step_ok logits i st) as (st' & Hs & Hinv'); [lia|done|].
    eauto.
  - intros [m r] Hinv. eauto.
Qed.

(** ** Lemmas on bit patterns *)

(** The fields of a pattern as quotients and remainders. *)
Lemma f32_fields bits :
  fits 32 bits ->
  Z.testbit bits 31 = (2 ^ 31 <=? bits) /\
  Z.land (Z.shiftr bits 23) 0xFF = bits / 2 ^ 23 mod 2 ^ 8 /\
  Z.land bits 0x7FFFFF = bits mod 2 ^ 23.
Proof.
  intros Hb. unfold fits in Hb. split_and!.
  - rewrite Z.testbit_eqb by lia. destruct (Z.leb_spec (2 ^ 31) bits).
    + apply Z.eqb_eq. dlia.
    + apply Z.eqb_neq. dlia.
  - rewrite Z.shiftr_div_pow2 by lia. apply (land_mask 8). lia.
  - apply (land_mask 23). lia.
Qed.

(** A pattern that is not a NaN is the pattern of its value. *)
Lemma bits_roundtrip nan bits :
  fits 32 bits ->
  ~ (Z.land (Z.shiftr bits 23) 0xFF = 0xFF /\ Z.land bits 0x7FFFFF <> 0) ->
  bits_of_f32 nan (f32_of_bits bits) = bits.
Proof.
  intros Hb. destruct (f32_fields bits Hb) as (Hs & He & Hm).
  unfold f32_of_bits. rewrite Hs, He, Hm. unfold fits in Hb. intros Hn.
  assert (bits = (if 2 ^ 31 <=? bits then 0x80000000 else 0)
    + (bits / 2 ^ 23 mod 2 ^ 8) * 0x800000 + bits mod 2 ^ 23) as Heq
    by (destruct (Z.leb_spec (2 ^ 31) bits); dlia).
  assert (0 <= bits mod 2 ^ 23 < 2 ^ 23) by dlia.
  set (m := bits mod 2 ^ 23) in *. set (ex := bits / 2 ^ 23 mod 2 ^ 8) in *.
  set (s := 2 ^ 31 <=? bits) in *. clearbody s ex m.
  destruct (Z.eqb_spec ex 0xFF).
  - destruct (Z.eqb_spec m 0); [simpl; lia|lia].
  - destruct (Z.eqb_spec ex 0).
    + destruct m as [|q|q]; simpl in *; [lia| |lia].
      destruct (Z.ltb_spec (Zpos q) 0x800000); lia.
    + destruct (m + 0x800000) as [|q|q] eqn:Eq; [lia| |lia]. cbn [bits_of_f32].
      destruct (Z.ltb_spec (Zpos q) 0x800000); lia.
Qed.
