(* ===== verification/CacheIndex.v ===== *)
(** * The content-addressed KV cache index

    Models [userspace/kvcache/cache_index.c]: an open-addressing hash table
    with linear probing that maps the SHA-256 of a token prefix to an arena
    slot.  The table is generic in the allocator it is given: the class
    [BlockAllocator] states what it relies on, the theorems are proved from the
    class, and [arena_allocator] shows that the arena of [Arena.v] has it.

    The file proves that no operation frees a slot twice, touches memory out of
    bounds or loses count ([index_wf]), that a block just inserted is found,
    that without removals a lookup finds every block ([chained]), and that a
    removal breaks this: it empties an entry in the middle of a probe sequence,
    after which the entries behind it are no longer found. *)

From Stdlib Require Import ZArith Lia SpecFloat.
From stdpp Require Import base numbers list gmap.
From S2P Require Import Prelude Floats BlockFormat Arena.

#[local] Open Scope Z_scope.

(** ** The allocator a table is given *)

Class BlockAllocator (A : Type) := {
  ba_alloc : A -> option (option Z * A);
  ba_free : A -> Z -> option A;
  ba_slot_index : A -> Z -> option Z;
  ba_slot_ptr : A -> Z -> option Z;

  ba_wf : A -> Prop;
  ba_used : A -> gset Z;

  (** A slot in use has a pointer, and is a number other than the marker of an
      empty entry. *)
  ba_used_slot a s : ba_wf a -> s ∈ ba_used a ->
    0 <= s < UINT32_MAX /\ is_Some (ba_slot_ptr a s);

  (** An allocation returns the pointer of a slot that was not in use, or
      nothing and changes nothing. *)
  ba_alloc_ok a : ba_wf a -> exists p a', ba_alloc a = Some (p, a') /\ ba_wf a' /\
    (forall s, ba_slot_ptr a' s = ba_slot_ptr a s) /\
    match p with
    | None => a' = a
    | Some b => exists s, (s ∉ ba_used a) /\ ba_used a' = {[s]} ∪ ba_used a /\
        ba_slot_ptr a s = Some b /\ ba_slot_index a' b = Some s
    end;

  (** Freeing the pointer of a slot in use gives back that slot. *)
  ba_free_ok a s p : ba_wf a -> s ∈ ba_used a -> ba_slot_ptr a s = Some p ->
    exists a', ba_free a p = Some a' /\ ba_wf a' /\ ba_used a' = ba_used a ∖ {[s]} /\
      (forall t, ba_slot_ptr a' t = ba_slot_ptr a t);
}.

(** ** Data *)

Definition KLLM_INDEX_HASH_BYTES : Z := 32.
Definition EMPTY_SLOT : Z := UINT32_MAX.

(** 0.85 as a double: the closest multiple of [2^-53]. *)
Definition LOAD_FACTOR_MAX : spec_float := S754_finite false 7656119366529843 (-53).

Lemma LOAD_FACTOR_MAX_literal : LOAD_FACTOR_MAX = f64_literal 85 2.
Proof. vm_compute. reflexivity. Qed.

Record kllm_cache_entry : Type := CacheEntry {
  e_hash : list Z;
  slot_index : Z;
  e_flags : Z;
  last_access_ns : Z;
}.

Record kllm_index_stats : Type := IndexStats {
  hits : Z;
  misses : Z;
  evictions : Z;
  insertions : Z;
  is_occupied : Z;
  is_capacity : Z;
}.

Record kllm_cache_index (A : Type) : Type := CacheIndex {
  entries : list kllm_cache_entry;
  capacity : Z;
  mask : Z;
  occupied : Z;
  arena : A;
  ix_stats : kllm_index_stats;
}.

Arguments CacheIndex {A}.
Arguments entries {A}.
Arguments capacity {A}.
Arguments mask {A}.
Arguments occupied {A}.
Arguments arena {A}.
Arguments ix_stats {A}.

(** ** Operations *)

(** [clock_gettime] gives seconds and nanoseconds; the operations take the result
    as [now]. *)
Definition now_ns (tv_sec tv_nsec : Z) : Z := u64 (u64 (u64 tv_sec * 1000000000) + u64 tv_nsec).

Section operations.
Context {A : Type} {BA : BlockAllocator A}.
Implicit Types (idx : kllm_cache_index A).
Abbreviation index := (kllm_cache_index A).

Definition with_entries (idx : index) (es : list kllm_cache_entry) : index :=
  CacheIndex es (capacity idx) (mask idx) (occupied idx) (arena idx) (ix_stats idx).

Definition with_arena (idx : index) (a : A) : index :=
  CacheIndex (entries idx) (capacity idx) (mask idx) (occupied idx) a (ix_stats idx).

Definition with_occupied (idx : index) (n : Z) : index :=
  CacheIndex (entries idx) (capacity idx) (mask idx) n (arena idx) (ix_stats idx).

Definition with_stats (idx : index) (s : kllm_index_stats) : index :=
  CacheIndex (entries idx) (capacity idx) (mask idx) (occupied idx) (arena idx) s.

Definition count_hit (idx : index) : index :=
  let s := ix_stats idx in
  with_stats idx (IndexStats (u64 (hits s + 1)) (misses s) (evictions s)
    (insertions s) (is_occupied s) (is_capacity s)).

Definition count_miss (idx : index) : index :=
  let s := ix_stats idx in
  with_stats idx (IndexStats (hits s) (u64 (misses s + 1)) (evictions s)
    (insertions s) (is_occupied s) (is_capacity s)).

Definition count_eviction (idx : index) : index :=
  let s := ix_stats idx in
  with_stats idx (IndexStats (hits s) (misses s) (u64 (evictions s + 1))
    (insertions s) (is_occupied s) (is_capacity s)).

Definition count_insertion (idx : index) : index :=
  let s := ix_stats idx in
  with_stats idx (IndexStats (hits s) (misses s) (evictions s)
    (u64 (insertions s + 1)) (is_occupied s) (is_capacity s)).

(** The first four bytes as a little-endian number. *)
Definition hash_word (hash : list Z) : Z :=
  foldr (fun b acc => b + 256 * acc) 0 (take 4 hash).

Definition hash_to_bucket (hash : list Z) (mask : Z) : Z :=
  Z.land (hash_word hash) mask.

(** [memcmp] of 32 bytes. *)
Definition hash_eq (a b : list Z) : bool :=
  bool_decide (take (Z.to_nat KLLM_INDEX_HASH_BYTES) a =
               take (Z.to_nat KLLM_INDEX_HASH_BYTES) b).

(** [calloc_idx] and [calloc_entries] tell whether the allocations succeed. *)
Definition kllm_index_create (calloc_idx calloc_entries : bool) (cfg_capacity : Z)
    (cfg_arena : A) : option (option index) :=
  if negb (Z.land cfg_capacity (u32 (cfg_capacity - 1)) =? 0) then Some None
  else if negb calloc_idx then Some None
  else if negb calloc_entries then Some None
  else
    let es := replicate (Z.to_nat cfg_capacity)
      (CacheEntry (zeroed KLLM_INDEX_HASH_BYTES) 0 0 0) in
    res ← for_range (R := unit) 0 cfg_capacity (fun i es =>
      e ← arr_get es i;
      es' ← arr_set es i (CacheEntry (e_hash e) EMPTY_SLOT (e_flags e) (last_access_ns e));
      Some (Continue es')) es;
    match res with
    | inr _ => None
    | inl es' =>
        Some (Some (CacheIndex es' cfg_capacity (u32 (cfg_capacity - 1)) 0 cfg_arena
          (IndexStats 0 0 0 0 0 cfg_capacity)))
    end.

(** [now] is the result of [now_ns]; returns the block pointer or null. *)
Definition kllm_index_lookup (idx : index) (hash : list Z) (now : Z)
    : option (option Z * index) :=
  let bucket := hash_to_bucket hash (mask idx) in
  res ← for_range 0 (capacity idx) (fun i _ =>
    let pos := Z.land (u32 (bucket + i)) (mask idx) in
    e ← arr_get (entries idx) pos;
    if slot_index e =? EMPTY_SLOT then Some (Return (None, count_miss idx))
    else if hash_eq (e_hash e) hash then
      es ← arr_set (entries idx) pos (CacheEntry (e_hash e) (slot_index e) (e_flags e) now);
      let idx' := count_hit (with_entries idx es) in
      Some (Return (ba_slot_ptr (arena idx) (slot_index e), idx'))
    else Some (Continue tt)) tt;
  match res with
  | inr r => Some r
  | inl _ => Some (None, count_miss idx)
  end.

(** The state is [oldest] and [victim]. *)
Definition find_lru_entry (idx : index) : option Z :=
  res ← for_range (R := unit) 0 (capacity idx) (fun i '(oldest, victim) =>
    e ← arr_get (entries idx) i;
    if slot_index e =? EMPTY_SLOT then Some (Continue (oldest, victim))
    else if last_access_ns e <? oldest then Some (Continue (last_access_ns e, i))
    else Some (Continue (oldest, victim))) (UINT64_MAX, 0);
  match res with
  | inl (_, victim) => Some victim
  | inr _ => None
  end.

(** The removal of the entry at [pos], as [kllm_index_insert] and
    [kllm_index_evict] both write it. *)
Definition evict_at (idx : index) (pos : Z) : option index :=
  e ← arr_get (entries idx) pos;
  p ← ba_slot_ptr (arena idx) (slot_index e);
  a ← ba_free (arena idx) p;
  es ← arr_set (entries idx) pos (CacheEntry (e_hash e) EMPTY_SLOT (e_flags e) (last_access_ns e));
  Some (count_eviction (with_occupied (with_arena (with_entries idx es) a)
    (u32 (occupied idx - 1)))).

(** [(double)occupied / capacity >= LOAD_FACTOR_MAX] *)
Definition over_load (idx : index) : bool :=
  float_ge (f64_div (f64_of_Z (occupied idx)) (f64_of_Z (capacity idx))) LOAD_FACTOR_MAX.

(** The probe of [kllm_index_insert] for the first empty entry. *)
Definition insert_probe (idx : index) (hash : list Z) (slot now : Z)
    : option (unit + index) :=
  let bucket := hash_to_bucket hash (mask idx) in
  for_range 0 (capacity idx) (fun i _ =>
    let pos := Z.land (u32 (bucket + i)) (mask idx) in
    e ← arr_get (entries idx) pos;
    if slot_index e =? EMPTY_SLOT then
      es ← arr_set (entries idx) pos (CacheEntry hash slot 0 now);
      Some (Return (count_insertion (with_occupied (with_entries idx es)
        (u32 (occupied idx + 1)))))
    else Some (Continue tt)) tt.

(** The eviction at the start of [kllm_index_insert]. *)
Definition make_room (idx : index) : option index :=
  if over_load idx
  then victim ← find_lru_entry idx; evict_at idx victim
  else Some idx.

Definition kllm_index_insert (idx : index) (hash : list Z) (now : Z)
    : option (option Z * index) :=
  idx ← make_room idx;
  '(block, a) ← ba_alloc (arena idx);
  let idx := with_arena idx a in
  match block with
  | None => Some (None, idx)
  | Some b =>
      slot ← ba_slot_index (arena idx) b;
      res ← insert_probe idx hash slot now;
      match res with
      | inr idx' => Some (Some b, idx')
      | inl _ =>
          a ← ba_free (arena idx) b;
          Some (None, with_arena idx a)
      end
  end.

Definition kllm_index_evict (idx : index) (hash : list Z) : option (bool * index) :=
  let bucket := hash_to_bucket hash (mask idx) in
  res ← for_range 0 (capacity idx) (fun i _ =>
    let pos := Z.land (u32 (bucket + i)) (mask idx) in
    e ← arr_get (entries idx) pos;
    if slot_index e =? EMPTY_SLOT then Some (Return (false, idx))
    else if hash_eq (e_hash e) hash then
      idx' ← evict_at idx pos; Some (Return (true, idx'))
    else Some (Continue tt)) tt;
  match res with
  | inr r => Some r
  | inl _ => Some (false, idx)
  end.

Definition kllm_index_get_stats (idx : index) : kllm_index_stats :=
  let s := ix_stats idx in
  IndexStats (hits s) (misses s) (evictions s) (insertions s) (occupied idx) (is_capacity s).

(** ** Specification *)

Definition is_live (e : kllm_cache_entry) : Prop := slot_index e <> EMPTY_SLOT.

#[export] Instance is_live_dec e : Decision (is_live e).
Proof. unfold is_live. apply _. Defined.

(** The slots of the entries in use. *)
Definition slots_of (es : list kllm_cache_entry) : list Z :=
  slot_index <$> filter is_live es.

(** The [i]-th entry of the probe sequence of a hash. *)
Definition probe (idx : index) (hash : list Z) (i : Z) : nat :=
  Z.to_nat ((hash_word hash + i) mod capacity idx).

Record index_wf (idx : index) : Prop := {
  ix_pow2 : exists k, 0 <= k < 32 /\ capacity idx = 2 ^ k;
  ix_mask : mask idx = capacity idx - 1;
  ix_mem : len (entries idx) = capacity idx;
  ix_arena : ba_wf (arena idx);
  ix_occupied : occupied idx = len (slots_of (entries idx));
  ix_nodup : NoDup (slots_of (entries idx));
  ix_used : Forall (fun s => s ∈ ba_used (arena idx)) (slots_of (entries idx));
  ix_hash : Forall (fun e => len (e_hash e) = KLLM_INDEX_HASH_BYTES) (entries idx);
  ix_time : Forall (fun e => is_live e -> last_access_ns e < UINT64_MAX) (entries idx);
}.

(** The table is the only client of its arena: the slots in use are those of
    its entries. *)
Definition owned (idx : index) : Prop :=
  forall s, s ∈ ba_used (arena idx) <-> s ∈ slots_of (entries idx).

(** A live entry with this hash. *)
Definition holds (idx : index) (hash : list Z) (pos : nat) (e : kllm_cache_entry) : Prop :=
  entries idx !! pos = Some e /\ is_live e /\ e_hash e = hash.

(** No empty entry between the bucket of an entry and the entry. *)
Definition chained (idx : index) : Prop :=
  forall i e, 0 <= i < capacity idx -> holds idx (e_hash e) (probe idx (e_hash e) i) e ->
  forall j e', 0 <= j < i -> entries idx !! probe idx (e_hash e) j = Some e' -> is_live e'.


(** ** Lemmas *)

(** For five centuries after the start of the clock its readings are exact, in
    order, and below the [UINT64_MAX] with which the search for the oldest entry
    starts. *)
Lemma now_ns_exact sec nsec :
  0 <= sec < 2 ^ 34 -> 0 <= nsec < 1000000000 ->
  now_ns sec nsec = sec * 1000000000 + nsec /\ 0 <= now_ns sec nsec < UINT64_MAX.
Proof.
  intros Hs Hn. unfold now_ns, UINT64_MAX. rewrite (wrap_small 64 sec), (wrap_small 64 nsec) by (unfold fits; lia).
  rewrite (wrap_small 64 (sec * 1000000000)), wrap_small by (unfold fits; lia). lia.
Qed.

Section lemmas.
Context (idx : index) (Hwf : index_wf idx).

Lemma capacity_bounds : 1 <= capacity idx < 2 ^ 32.
Proof. destruct (ix_pow2 _ Hwf) as (k & Hk & ->). by apply pow2_lt_32. Qed.

(** The positions of the code's loops are those of [probe]. *)
Lemma probe_pos hash i :
  Z.land (wrap 32 (hash_to_bucket hash (mask idx) + i)) (mask idx) =
    (hash_word hash + i) mod capacity idx /\
  0 <= (hash_word hash + i) mod capacity idx < capacity idx.
Proof.
  pose proof capacity_bounds. split; [|apply Z.mod_pos_bound; lia].
  destruct (ix_pow2 _ Hwf) as (k & Hk & Hc).
  unfold hash_to_bucket. rewrite (ix_mask _ Hwf), Hc, !land_mask by lia.
  rewrite wrap_mod_pow2 by lia. by rewrite Zplus_mod_idemp_l.
Qed.

(** Every entry is in the probe sequence of every hash. *)
Lemma probe_surj hash p :
  0 <= p < capacity idx ->
  exists i, 0 <= i < capacity idx /\ probe idx hash i = Z.to_nat p.
Proof.
  intros Hp. exists ((p - hash_word hash) mod capacity idx).
  split; [apply Z.mod_pos_bound; lia|]. unfold probe.
  rewrite Zplus_mod_idemp_r. replace (hash_word hash + (p - hash_word hash)) with p by lia.
  by rewrite Z.mod_small by lia.
Qed.

Lemma probe_inj hash i j :
  0 <= i < capacity idx -> 0 <= j < capacity idx ->
  probe idx hash i = probe idx hash j -> i = j.
Proof.
  intros Hi Hj Heq. unfold probe in Heq.
  apply Z2Nat.inj in Heq; [|apply Z.mod_pos_bound; lia..].
  apply ring_pos_inj in Heq; lia.
Qed.

Lemma probe_lookup hash i : is_Some (entries idx !! probe idx hash i).
Proof.
  apply lookup_lt_is_Some_2. unfold probe. pose proof capacity_bounds.
  pose proof (Z.mod_pos_bound (hash_word hash + i) (capacity idx) ltac:(lia)).
  pose proof (ix_mem _ Hwf). lia.
Qed.

(** A loop along a probe sequence that returns at the first entry with a
    property. *)
Lemma probe_loop {R} hash (stop : kllm_cache_entry -> bool)
    (ret : Z -> kllm_cache_entry -> option R) (I : R -> Prop)
    (body : Z -> unit -> option (ctl unit R)) :
  (forall i e, 0 <= i < capacity idx -> entries idx !! probe idx hash i = Some e ->
     body i tt = if stop e then Return <$> ret (Z.of_nat (probe idx hash i)) e
                 else Some (Continue tt)) ->
  (forall i e, 0 <= i < capacity idx -> entries idx !! probe idx hash i = Some e ->
     stop e = true ->
     (forall j e', 0 <= j < i -> entries idx !! probe idx hash j = Some e' -> stop e' = false) ->
     exists r, ret (Z.of_nat (probe idx hash i)) e = Some r /\ I r) ->
  exists o, for_range 0 (capacity idx) body tt = Some o /\
    match o with
    | inl _ => forall i e, 0 <= i < capacity idx ->
        entries idx !! probe idx hash i = Some e -> stop e = false
    | inr r => I r
    end.
Proof.
  intros Hbody Hret. pose proof capacity_bounds.
  apply (for_range_rule (fun i _ => forall j e, 0 <= j < i ->
    entries idx !! probe idx hash j = Some e -> stop e = false)); [lia|lia| |auto].
  intros i [] Hi Hpre. destruct (probe_lookup hash i) as [e He].
  rewrite (Hbody i e) by done. destruct (stop e) eqn:Hs.
  - destruct (Hret i e) as (r & -> & Hr); eauto.
  - eexists. split; [done|]. intros j e' Hj He'.
    destruct (decide (j = i)) as [->|]; [congruence|]. apply (Hpre j); [lia|done].
Qed.

End lemmas.

Lemma slots_of_app es es' : slots_of (es ++ es') = slots_of es ++ slots_of es'.
Proof. unfold slots_of. by rewrite filter_app, fmap_app. Qed.

Lemma slots_of_one e : slots_of [e] = if decide (is_live e) then [slot_index e] else [].
Proof. unfold slots_of. rewrite filter_cons, filter_nil. by case_decide. Qed.

(** Replacing one entry, as a permutation of the slots in use. *)
Lemma slots_of_set es pos e e' :
  es !! pos = Some e ->
  exists rest, slots_of es ≡ₚ slots_of [e] ++ rest /\
    slots_of (<[pos := e']> es) ≡ₚ slots_of [e'] ++ rest.
Proof.
  intros He. exists (slots_of (take pos es) ++ slots_of (drop (S pos) es)).
  pose proof (lookup_lt_Some _ _ _ He). split.
  - rewrite <- (take_drop_middle es pos e He) at 1.
    replace (e :: drop (S pos) es) with ([e] ++ drop (S pos) es) by done.
    rewrite !slots_of_app. rewrite !app_assoc. apply Permutation_app_tail, Permutation_app_comm.
  - rewrite insert_take_drop by done.
    replace (e' :: drop (S pos) es) with ([e'] ++ drop (S pos) es) by done.
    rewrite !slots_of_app. rewrite !app_assoc. apply Permutation_app_tail, Permutation_app_comm.
Qed.

Lemma slots_of_length es : len (slots_of es) <= len es.
Proof.
  unfold slots_of. rewrite length_fmap. pose proof (length_filter is_live es). lia.
Qed.

(** A table none of whose entries is empty is full. *)
Lemma slots_of_full es : Forall is_live es -> len (slots_of es) = len es.
Proof.
  intros Hall. unfold slots_of. rewrite length_fmap.
  induction Hall as [|e es He _ IH]; [done|].
  rewrite filter_cons_True by done. simpl. lia.
Qed.

Lemma holds_slot idx hash pos e :
  holds idx hash pos e -> slot_index e ∈ slots_of (entries idx).
Proof.
  intros (He & Hl & _). unfold slots_of. apply list_elem_of_fmap. exists e.
  split; [done|]. apply list_elem_of_filter. split; [done|].
  by apply list_elem_of_lookup_2 in He.
Qed.

(** The invariant after one entry was replaced. *)
Lemma index_wf_set idx pos e e' a n st :
  index_wf idx -> entries idx !! pos = Some e -> ba_wf a ->
  len (e_hash e') = KLLM_INDEX_HASH_BYTES ->
  (is_live e' -> last_access_ns e' < UINT64_MAX) ->
  (forall rest, slots_of (entries idx) ≡ₚ slots_of [e] ++ rest ->
     NoDup (slots_of [e] ++ rest) ->
     Forall (fun s => s ∈ ba_used (arena idx)) (slots_of [e] ++ rest) ->
     occupied idx = len (slots_of [e] ++ rest) ->
     NoDup (slots_of [e'] ++ rest) /\
     Forall (fun s => s ∈ ba_used a) (slots_of [e'] ++ rest) /\
     n = len (slots_of [e'] ++ rest)) ->
  index_wf (CacheIndex (<[pos := e']> (entries idx)) (capacity idx) (mask idx) n a st).
Proof.
  intros Hwf He Ha Hh Ht Hrest.
  destruct (slots_of_set (entries idx) pos e e' He) as (rest & Hp & Hp').
  destruct (Hrest rest) as (Hnd & Hu & Hn).
  - done.
  - rewrite <- Hp. apply Hwf.
  - rewrite <- Hp. apply Hwf.
  - rewrite <- Hp. apply Hwf.
  - split; simpl; try apply Hwf; try done.
    + rewrite length_insert. apply Hwf.
    + by rewrite Hp'.
    + by rewrite Hp'.
    + by rewrite Hp'.
    + apply Forall_insert; [apply Hwf|done].
    + apply Forall_insert; [apply Hwf|done].
Qed.

Lemma slots_of_live e : is_live e -> slots_of [e] = [slot_index e].
Proof. intros. rewrite slots_of_one. by rewrite decide_True by done. Qed.

Lemma slots_of_empty e : ~ is_live e -> slots_of [e] = [].
Proof. intros. rewrite slots_of_one. by rewrite decide_False by done. Qed.

Lemma occupied_bound idx : index_wf idx -> 0 <= occupied idx <= capacity idx.
Proof.
  intros Hwf. rewrite (ix_occupied _ Hwf), <- (ix_mem _ Hwf).
  pose proof (slots_of_length (entries idx)). lia.
Qed.

Definition emptied (e : kllm_cache_entry) : kllm_cache_entry :=
  CacheEntry (e_hash e) EMPTY_SLOT (e_flags e) (last_access_ns e).

Lemma emptied_dead e : ~ is_live (emptied e).
Proof. unfold is_live. simpl. lia. Qed.

(** A slot in use is not the marker of an empty entry. *)
Lemma used_live idx slot e :
  index_wf idx -> slot ∈ ba_used (arena idx) -> slot_index e = slot -> is_live e.
Proof.
  intros Hwf Hu <-. destruct (ba_used_slot _ _ (ix_arena _ Hwf) Hu) as [Hs _].
  unfold is_live, EMPTY_SLOT. lia.
Qed.

Lemma entry_at_Z idx pos e :
  entries idx !! pos = Some e -> arr_get (entries idx) (Z.of_nat pos) = Some e.
Proof. intros. rewrite arr_get_lookup by lia. by rewrite Nat2Z.id. Qed.

Lemma entry_set_Z idx pos e e' :
  entries idx !! pos = Some e ->
  arr_set (entries idx) (Z.of_nat pos) e' = Some (<[pos := e']> (entries idx)).
Proof.
  intros He%lookup_lt_Some. rewrite arr_set_in by lia. by rewrite Nat2Z.id.
Qed.

(** Removing a live entry frees exactly its slot. *)
Lemma evict_at_ok idx pos e :
  index_wf idx -> entries idx !! pos = Some e -> is_live e ->
  exists idx', evict_at idx (Z.of_nat pos) = Some idx' /\ index_wf idx' /\
    entries idx' = <[pos := emptied e]> (entries idx) /\
    capacity idx' = capacity idx /\ occupied idx' = occupied idx - 1 /\
    ba_used (arena idx') = ba_used (arena idx) ∖ {[slot_index e]} /\
    (forall s, ba_slot_ptr (arena idx') s = ba_slot_ptr (arena idx) s).
Proof.
  intros Hwf He Hl. unfold evict_at. rewrite (entry_at_Z _ _ _ He).
  cbn [mbind option_bind].
  assert (slot_index e ∈ ba_used (arena idx)) as Hu.
  { pose proof (ix_used _ Hwf) as Hall. rewrite Forall_forall in Hall. apply Hall.
    by apply (holds_slot idx (e_hash e) pos). }
  destruct (ba_used_slot (arena idx) (slot_index e) (ix_arena _ Hwf) Hu) as [_ [p Hp]].
  rewrite Hp. cbn [mbind option_bind].
  destruct (ba_free_ok _ _ _ (ix_arena _ Hwf) Hu Hp) as (a & -> & Ha & Hua & Hptr).
  cbn [mbind option_bind]. rewrite (entry_set_Z _ _ _ _ He). cbn [mbind option_bind].
  fold (emptied e). pose proof (occupied_bound idx Hwf). pose proof (capacity_bounds idx Hwf).
  assert (1 <= occupied idx) as Ho.
  { rewrite (ix_occupied _ Hwf). pose proof (holds_slot idx (e_hash e) pos e) as Hin.
    destruct (slots_of (entries idx)); [|simpl; lia].
    exfalso. eapply not_elem_of_nil, Hin. by split_and!. }
  pose proof (emptied_dead e) as Hne.
  eexists. split; [done|]. split_and!; try done.
  2:{ simpl. rewrite wrap_small by (unfold fits; lia). done. }
  apply (index_wf_set idx pos e (emptied e) a _ _ Hwf He Ha); [|done|].
  - pose proof (ix_hash _ Hwf) as Hh. by apply (Forall_lookup_1 _ _ _ _ Hh) in He.
  - intros rest _. rewrite slots_of_live, slots_of_empty by done. simpl.
    rewrite NoDup_cons, Forall_cons. intros [Hni Hnd] [_ Hall] Hn.
    split_and!; [done| |rewrite wrap_small by (unfold fits; lia); lia].
    eapply Forall_impl; [apply Forall_and; split; [exact Hall|]|].
    { apply Forall_forall. intros s Hs. exact (fun E => Hni (eq_ind _ (.∈ rest) Hs _ E)). }
    simpl. intros s [Hs Hne']. rewrite Hua. set_solver.
Qed.

Lemma empty_iff e : (slot_index e =? EMPTY_SLOT) = negb (bool_decide (is_live e)).
Proof.
  unfold is_live. destruct (Z.eqb_spec (slot_index e) EMPTY_SLOT); simpl.
  - by rewrite bool_decide_eq_false_2 by auto.
  - by rewrite bool_decide_eq_true_2.
Qed.

Lemma hash_eq_iff idx pos e hash :
  index_wf idx -> entries idx !! pos = Some e -> len hash = KLLM_INDEX_HASH_BYTES ->
  hash_eq (e_hash e) hash = bool_decide (e_hash e = hash).
Proof.
  intros Hwf He Hh. pose proof (ix_hash _ Hwf) as Hall.
  apply (Forall_lookup_1 _ _ _ _ Hall) in He. unfold hash_eq, KLLM_INDEX_HASH_BYTES in *.
  rewrite !take_ge by lia. done.
Qed.

(** The test at which a lookup or an eviction stops: empty or found. *)
Definition probe_stop (hash : list Z) (e : kllm_cache_entry) : bool :=
  bool_decide (~ is_live e \/ e_hash e = hash).

(** The probe of a hash up to the first empty or matching entry. *)
Definition first_stop idx (hash : list Z) (i : Z) (e : kllm_cache_entry) : Prop :=
  0 <= i < capacity idx /\ entries idx !! probe idx hash i = Some e /\
  (~ is_live e \/ e_hash e = hash) /\
  forall j e', 0 <= j < i -> entries idx !! probe idx hash j = Some e' ->
    is_live e' /\ e_hash e' <> hash.

Lemma probe_goes_on hash e : probe_stop hash e = false -> is_live e /\ e_hash e <> hash.
Proof.
  unfold probe_stop. intros Hs%bool_decide_eq_false.
  destruct (decide (is_live e)); naive_solver.
Qed.

Lemma first_stop_intro idx hash i e :
  0 <= i < capacity idx -> entries idx !! probe idx hash i = Some e ->
  probe_stop hash e = true ->
  (forall j e', 0 <= j < i -> entries idx !! probe idx hash j = Some e' ->
     probe_stop hash e' = false) ->
  first_stop idx hash i e.
Proof.
  intros Hi He Hs%bool_decide_eq_true Hpre. split_and!; [lia..|done|done|].
  intros j e' Hj He'. by apply probe_goes_on, (Hpre j).
Qed.

Definition refreshed (e : kllm_cache_entry) (now : Z) : kllm_cache_entry :=
  CacheEntry (e_hash e) (slot_index e) (e_flags e) now.

(** The result of a lookup: what the first empty or matching entry says. *)
Lemma lookup_ok idx hash now :
  index_wf idx -> len hash = KLLM_INDEX_HASH_BYTES -> now < UINT64_MAX ->
  exists p idx', kllm_index_lookup idx hash now = Some (p, idx') /\ index_wf idx' /\
    ((p = None /\ idx' = count_miss idx /\
       ((exists i e, first_stop idx hash i e /\ ~ is_live e) \/
        (forall i e, 0 <= i < capacity idx -> entries idx !! probe idx hash i = Some e ->
           is_live e /\ e_hash e <> hash))) \/
     (exists i e, first_stop idx hash i e /\ is_live e /\ is_Some p /\
        p = ba_slot_ptr (arena idx) (slot_index e) /\
        idx' = count_hit (with_entries idx
          (<[probe idx hash i := refreshed e now]> (entries idx))))).
Proof.
  intros Hwf Hh Hnow. unfold kllm_index_lookup.
  edestruct (probe_loop idx Hwf hash (probe_stop hash)
    (fun pos e => if decide (is_live e)
       then Some (ba_slot_ptr (arena idx) (slot_index e), count_hit (with_entries idx
              (<[Z.to_nat pos := refreshed e now]> (entries idx))))
       else Some (None, count_miss idx))
    (fun r => exists i e, first_stop idx hash i e /\
       r = if decide (is_live e)
           then (ba_slot_ptr (arena idx) (slot_index e), count_hit (with_entries idx
              (<[probe idx hash i := refreshed e now]> (entries idx))))
           else (None, count_miss idx))) as (o & -> & Ho).
  - intros i e Hi He. cbv beta zeta.
    destruct (probe_pos idx Hwf hash i) as [-> Hb]. rewrite arr_get_lookup by lia.
    fold (probe idx hash i). rewrite He. cbn [mbind option_bind].
    rewrite empty_iff, (hash_eq_iff idx _ e hash Hwf He Hh). unfold probe_stop.
    rewrite arr_set_in by (rewrite (ix_mem _ Hwf); lia). rewrite Nat2Z.id.
    fold (probe idx hash i). destruct (decide (is_live e)) as [Hl|Hl].
    + rewrite (bool_decide_eq_true_2 (is_live e)) by done. simpl.
      repeat case_bool_decide; (done || naive_solver).
    + rewrite (bool_decide_eq_false_2 (is_live e)) by done.
      by rewrite (bool_decide_eq_true_2 (~ is_live e \/ _)) by auto.
  - intros i e Hi He Hs Hpre. rewrite Nat2Z.id.
    pose proof (first_stop_intro idx hash i e Hi He Hs Hpre).
    case_decide; eexists; (split; [done|]); exists i, e; (split; [done|]);
      case_decide; done.
  - cbn [mbind option_bind]. destruct o as [[]|r].
    + do 2 eexists. split; [done|]. split; [by destruct Hwf; split|]. left.
      split_and!; [done..|]. right. intros i e Hi He. by apply probe_goes_on, (Ho i e Hi).
    + destruct Ho as (i & e & Hf & ->). case_decide as Hl.
      * pose proof Hf as (Hi & He & _). do 2 eexists. split; [done|]. split.
        { apply (index_wf_set idx _ e _ _ _ _ Hwf He (ix_arena _ Hwf)).
          - apply (Forall_lookup_1 _ _ _ _ (ix_hash _ Hwf) He).
          - done.
          - assert (slots_of [refreshed e now] = slots_of [e]) as ->; [|by intros rest _].
            by rewrite !slots_of_live. }
        right. exists i, e. split_and!; try done.
        apply ba_used_slot; [apply Hwf|].
        pose proof (ix_used _ Hwf) as Hu. rewrite Forall_forall in Hu. apply Hu.
        by apply (holds_slot idx (e_hash e) (probe idx hash i)).
      * do 2 eexists. split; [done|]. split; [by destruct Hwf; split|]. left. eauto 10.
Qed.

(** A lookup of the hash returns the block. *)
Definition hit idx (hash : list Z) (block : Z) : Prop :=
  exists i e, first_stop idx hash i e /\ is_live e /\
    ba_slot_ptr (arena idx) (slot_index e) = Some block.

Lemma first_stop_unique idx hash i e i' e' :
  first_stop idx hash i e -> first_stop idx hash i' e' -> i = i' /\ e = e'.
Proof.
  intros (Hi & He & Hs & Hpre) (Hi' & He' & Hs' & Hpre').
  destruct (Z.lt_trichotomy i i') as [Hlt|[->|Hgt]].
  - destruct (Hpre' i e ltac:(lia) He) as [? ?]. naive_solver.
  - by simplify_eq.
  - destruct (Hpre i' e' ltac:(lia) He') as [? ?]. naive_solver.
Qed.

(** Looking up a block that is there, again and again. *)
Lemma lookup_hit idx hash now block :
  index_wf idx -> len hash = KLLM_INDEX_HASH_BYTES -> now < UINT64_MAX ->
  hit idx hash block ->
  exists idx', kllm_index_lookup idx hash now = Some (Some block, idx') /\ index_wf idx' /\
    hit idx' hash block /\ arena idx' = arena idx.
Proof.
  intros Hwf Hh Hnow (i & e & Hf & Hl & Hp).
  destruct (lookup_ok idx hash now Hwf Hh Hnow) as (p & idx' & -> & Hwf' & Hres).
  destruct Hres as [(_ & _ & [(i' & e' & Hf' & Hd)|Hall])|(i' & e' & Hf' & Hl' & _ & -> & ->)].
  - by destruct (first_stop_unique _ _ _ _ _ _ Hf Hf') as [_ ->].
  - destruct Hf as (Hi & He & [?|?] & _); destruct (Hall i e Hi He); done.
  - destruct (first_stop_unique _ _ _ _ _ _ Hf Hf') as [<- <-]. rewrite Hp.
    eexists. split; [done|]. split; [done|]. split; [|done]. exists i, (refreshed e now).
    destruct Hf as (Hi & He & Hs & Hpre). pose proof (lookup_lt_Some _ _ _ He).
    split_and!; [|done..]. split; [exact Hi|]. unfold probe in *. cbn [entries capacity count_hit
      with_stats with_entries] in *. split; [by apply list_lookup_insert_eq|].
    split; [destruct Hs; [done|by right]|]. intros j x Hj Hx.
    rewrite list_lookup_insert_ne in Hx; [by apply (Hpre j)|].
    intros Heq%Z2Nat.inj; [|apply Z.mod_pos_bound; lia..]. apply ring_pos_inj in Heq; lia.
Qed.

(** The least recently used entry: live, with the smallest time stamp. *)
Definition is_lru idx (pos : nat) (e : kllm_cache_entry) : Prop :=
  entries idx !! pos = Some e /\ is_live e /\
  forall pos' e', entries idx !! pos' = Some e' -> is_live e' ->
    last_access_ns e <= last_access_ns e'.

(** What the scan knows after the entries before [i]. *)
Definition lru_inv idx (i : Z) (st : Z * Z) : Prop :=
  (fst st = UINT64_MAX /\ forall pos e, Z.of_nat pos < i -> entries idx !! pos = Some e -> ~ is_live e) \/
  (exists e, 0 <= snd st /\ entries idx !! Z.to_nat (snd st) = Some e /\ is_live e /\
     fst st = last_access_ns e /\
     forall pos e', Z.of_nat pos < i -> entries idx !! pos = Some e' -> is_live e' ->
       last_access_ns e <= last_access_ns e').

Lemma lru_inv_step idx i e oldest victim :
  0 <= i -> entries idx !! Z.to_nat i = Some e ->
  (is_live e -> last_access_ns e < UINT64_MAX) ->
  lru_inv idx i (oldest, victim) ->
  lru_inv idx (i + 1) (if bool_decide (is_live e) && (last_access_ns e <? oldest)
                       then (last_access_ns e, i) else (oldest, victim)).
Proof.
  intros Hi He Ht Hinv.
  assert (forall pos e', Z.of_nat pos < i + 1 -> entries idx !! pos = Some e' ->
    Z.of_nat pos < i \/ e' = e) as Hcase.
  { intros pos e' Hpos He'. destruct (decide (Z.of_nat pos = i)); [|lia].
    right. replace (Z.to_nat i) with pos in He by lia. congruence. }
  case_bool_decide as Hl; simpl.
  + destruct (Z.ltb_spec (last_access_ns e) oldest).
    * right. exists e. simpl. split_and!; [lia|done..|].
      intros pos e' Hpos He' Hl'. destruct (Hcase pos e' Hpos He') as [Hlt| ->]; [|lia].
      destruct Hinv as [[_ Hno]|(e0 & _ & _ & _ & Heq & Hmin)]; simpl in *.
      -- exfalso. by apply (Hno pos e').
      -- pose proof (Hmin pos e' Hlt He' Hl'). lia.
    * destruct Hinv as [[Heq Hno]|(e0 & Hv & He0 & Hl0 & Heq & Hmin)]; simpl in *.
      { specialize (Ht Hl). lia. }
      right. exists e0. split_and!; [done..|]. intros pos e' Hpos He' Hl'.
      destruct (Hcase pos e' Hpos He') as [Hlt| ->]; [by apply (Hmin pos)|lia].
  + destruct Hinv as [[Heq Hno]|(e0 & Hv & He0 & Hl0 & Heq & Hmin)]; [left|right].
    * split; [done|]. intros pos e' Hpos He'.
      destruct (Hcase pos e' Hpos He') as [Hlt| ->]; [by apply (Hno pos)|done].
    * exists e0. split_and!; [done..|]. intros pos e' Hpos He' Hl'.
      destruct (Hcase pos e' Hpos He') as [Hlt| ->]; [by apply (Hmin pos)|done].
Qed.

Lemma find_lru_ok idx :
  index_wf idx -> 0 < occupied idx ->
  exists pos e, find_lru_entry idx = Some (Z.of_nat pos) /\ is_lru idx pos e.
Proof.
  intros Hwf Hocc. pose proof (capacity_bounds idx Hwf). unfold find_lru_entry.
  edestruct (for_range_rule (R := unit) (lru_inv idx)
    (fun o => exists st, o = inl st /\ lru_inv idx (capacity idx) st))
    as (o & -> & [oldest victim] & -> & Hst).
  - lia.
  - left. split; [done|]. intros. lia.
  - intros i [oldest victim] Hi Hinv. pose proof (ix_mem _ Hwf).
    destruct (lookup_lt_is_Some_2 (entries idx) (Z.to_nat i)) as [e He]; [lia|].
    cbv beta iota. rewrite arr_get_lookup, He by lia. cbn [mbind option_bind].
    rewrite empty_iff.
    exists (Continue (if bool_decide (is_live e) && (last_access_ns e <? oldest)
                      then (last_access_ns e, i) else (oldest, victim))).
    split; [by destruct (bool_decide _), (_ <? _)|].
    apply lru_inv_step; [lia|done| |done].
    apply (Forall_lookup_1 _ _ _ _ (ix_time _ Hwf) He).
  - intros st Hst. eauto.
  - cbn [mbind option_bind]. destruct Hst as [[_ Hno]|(e & Hv & He & Hl & _ & Hmin)]; simpl in *.
    + exfalso. rewrite (ix_occupied _ Hwf) in Hocc.
      destruct (slots_of (entries idx)) as [|s l] eqn:E; [simpl in Hocc; lia|].
      assert (s ∈ slots_of (entries idx)) as Hs by (rewrite E; left).
      unfold slots_of in Hs. apply list_elem_of_fmap in Hs as (e & _ & Hin).
      apply list_elem_of_filter in Hin as [Hl [pos Hpos]%list_elem_of_lookup_1].
      apply (Hno pos e); [|done..]. apply lookup_lt_Some in Hpos.
      pose proof (ix_mem _ Hwf). lia.
    + exists (Z.to_nat victim), e. rewrite Z2Nat.id by lia. split; [done|].
      split_and!; [done..|]. intros pos e' He'. apply (Hmin pos); [|done].
      apply lookup_lt_Some in He'. pose proof (ix_mem _ Hwf). lia.
Qed.

(** The load test at its two ends, for every capacity a table can have: an
    empty table is never over the load, a full one always is. *)
Lemma over_load_ends idx :
  index_wf idx ->
  (occupied idx = 0 -> over_load idx = false) /\
  (occupied idx = capacity idx -> over_load idx = true).
Proof.
  intros Hwf. destruct (ix_pow2 _ Hwf) as (k & Hk & Hc). unfold over_load. rewrite Hc.
  assert (forallb (fun k =>
    negb (float_ge (f64_div (f64_of_Z 0) (f64_of_Z (2 ^ k))) LOAD_FACTOR_MAX) &&
    float_ge (f64_div (f64_of_Z (2 ^ k)) (f64_of_Z (2 ^ k))) LOAD_FACTOR_MAX)
    (seqZ 0 32) = true) as Hall by (vm_compute; reflexivity).
  rewrite forallb_forall in Hall.
  specialize (Hall k). rewrite <- list_elem_of_In, elem_of_seqZ in Hall.
  specialize (Hall ltac:(lia)). unbool. by split; intros ->.
Qed.

#[local] Opaque over_load.

(** The first empty entry of a probe sequence. *)
Definition first_empty idx (hash : list Z) (i : Z) : Prop :=
  0 <= i < capacity idx /\
  (exists e, entries idx !! probe idx hash i = Some e /\ ~ is_live e) /\
  forall j e, 0 <= j < i -> entries idx !! probe idx hash j = Some e -> is_live e.

(** A table that is not full has an empty entry, and the probe takes it. *)
Lemma insert_probe_ok idx hash slot now :
  index_wf idx -> occupied idx < capacity idx ->
  len hash = KLLM_INDEX_HASH_BYTES -> now < UINT64_MAX ->
  slot ∈ ba_used (arena idx) -> (slot ∉ slots_of (entries idx)) ->
  exists i idx', insert_probe idx hash slot now = Some (inr idx') /\ index_wf idx' /\
    first_empty idx hash i /\ arena idx' = arena idx /\ capacity idx' = capacity idx /\
    entries idx' = <[probe idx hash i := CacheEntry hash slot 0 now]> (entries idx).
Proof.
  intros Hwf Hocc Hh Hnow Hslot Hfresh. pose proof (occupied_bound idx Hwf).
  pose proof (capacity_bounds idx Hwf).
  pose proof (ba_used_slot _ _ (ix_arena _ Hwf) Hslot) as [Hs _].
  assert (is_live (CacheEntry hash slot 0 now)) as Hlive by (unfold is_live, EMPTY_SLOT; simpl; lia).
  unfold insert_probe.
  edestruct (probe_loop idx Hwf hash (fun e => negb (bool_decide (is_live e)))
    (fun pos e => Some (count_insertion (with_occupied (with_entries idx
       (<[Z.to_nat pos := CacheEntry hash slot 0 now]> (entries idx))) (wrap 32 (occupied idx + 1)))))
    (fun r => exists i, first_empty idx hash i /\
       r = count_insertion (with_occupied (with_entries idx
       (<[probe idx hash i := CacheEntry hash slot 0 now]> (entries idx)))
         (wrap 32 (occupied idx + 1))))) as (o & -> & Ho).
  - intros i e Hi He. cbv beta zeta.
    destruct (probe_pos idx Hwf hash i) as [-> Hb]. rewrite arr_get_lookup by lia.
    fold (probe idx hash i). rewrite He. cbn [mbind option_bind].
    rewrite empty_iff. rewrite arr_set_in by (rewrite (ix_mem _ Hwf); lia).
    rewrite Nat2Z.id. fold (probe idx hash i). by destruct (bool_decide _).
  - intros i e Hi He Hs' Hpre. rewrite Nat2Z.id. eexists. split; [done|].
    exists i. split; [|done]. apply negb_true_iff, bool_decide_eq_false in Hs'.
    split_and!; [lia..|eauto|]. intros j e' Hj He'. apply (Hpre j e' Hj) in He'.
    by apply negb_false_iff, bool_decide_eq_true in He'.
  - destruct o as [[]|r].
    + exfalso. assert (len (slots_of (entries idx)) = len (entries idx)).
      { apply slots_of_full. apply Forall_lookup_2. intros pos e He.
        destruct (probe_surj idx hash (Z.of_nat pos)) as (i & Hi & Hpi).
        { apply lookup_lt_Some in He. pose proof (ix_mem _ Hwf). lia. }
        rewrite Nat2Z.id in Hpi. rewrite <- Hpi in He. apply (Ho i e Hi) in He.
        by apply negb_false_iff, bool_decide_eq_true in He. }
      pose proof (ix_occupied _ Hwf). pose proof (ix_mem _ Hwf). lia.
    + destruct Ho as (i & Hf & ->). exists i. eexists. split; [done|].
      pose proof Hf as (_ & (e & He & Hl) & _). split_and!; try done.
      apply (index_wf_set idx _ e _ _ _ _ Hwf He (ix_arena _ Hwf)); [done..|].
      intros rest Hp. revert Hp. rewrite (slots_of_empty e), slots_of_live by done. simpl.
      intros Hp Hnd Hall Hn. rewrite NoDup_cons, Forall_cons. split_and!; try done.
      * by rewrite <- Hp.
      * rewrite wrap_small by (unfold fits; lia). lia.
Qed.

Lemma make_room_ok idx :
  index_wf idx ->
  exists idx1, make_room idx = Some idx1 /\ index_wf idx1 /\
    occupied idx1 < capacity idx1 /\ capacity idx1 = capacity idx /\
    ((over_load idx = false /\ idx1 = idx) \/
     (over_load idx = true /\ exists pos e, is_lru idx pos e /\
        entries idx1 = <[pos := emptied e]> (entries idx) /\
        ba_used (arena idx1) = ba_used (arena idx) ∖ {[slot_index e]})).
Proof.
  intros Hwf. pose proof (over_load_ends idx Hwf) as [Hzero Hfull].
  pose proof (occupied_bound idx Hwf). unfold make_room.
  destruct (over_load idx) eqn:Hol.
  - assert (0 < occupied idx).
    { destruct (decide (occupied idx = 0)) as [E|]; [by apply Hzero in E|lia]. }
    destruct (find_lru_ok idx Hwf) as (pos & e & -> & Hlru); [done|].
    cbn [mbind option_bind]. pose proof Hlru as (He & Hl & _).
    destruct (evict_at_ok idx pos e Hwf He Hl) as (idx1 & -> & Hwf1 & Hes & Hc & Ho & Hu & _).
    exists idx1. split_and!; [done..|lia|done|]. right. eauto 10.
  - exists idx. split_and!; [done..| |done|by left].
    destruct (decide (occupied idx = capacity idx)) as [E|]; [by apply Hfull in E|lia].
Qed.

(** An insertion fails only when the allocator does; otherwise the new entry
    is at the first empty place of its probe sequence, with a fresh slot. *)
Lemma insert_ok idx hash now :
  index_wf idx -> owned idx -> len hash = KLLM_INDEX_HASH_BYTES -> now < UINT64_MAX ->
  exists idx1 p idx', make_room idx = Some idx1 /\
    kllm_index_insert idx hash now = Some (p, idx') /\ index_wf idx' /\
    capacity idx' = capacity idx1 /\
    match p with
    | None => idx' = idx1 /\ ba_alloc (arena idx1) = Some (None, arena idx1)
    | Some b => exists i slot, first_empty idx1 hash i /\
        (slot ∉ ba_used (arena idx1)) /\
        entries idx' = <[probe idx1 hash i := CacheEntry hash slot 0 now]> (entries idx1) /\
        ba_used (arena idx') = {[slot]} ∪ ba_used (arena idx1) /\
        ba_slot_ptr (arena idx') slot = Some b
    end.
Proof.
  intros Hwf Hown Hh Hnow. unfold kllm_index_insert.
  destruct (make_room_ok idx Hwf) as (idx1 & -> & Hwf1 & Hocc & Hc & _).
  cbn [mbind option_bind].
  destruct (ba_alloc_ok _ (ix_arena _ Hwf1)) as (p & a & Halloc & Ha & Hptr & Hres).
  rewrite Halloc. cbn [mbind option_bind]. destruct p as [b|].
  - destruct Hres as (slot & Hfresh & Hu & Hp & Hs). cbn [arena with_arena]. rewrite Hs.
    cbn [mbind option_bind].
    assert (index_wf (with_arena idx1 a)) as Hwf1a.
    { destruct Hwf1; split; try done. simpl.
      eapply Forall_impl; [done|]. simpl. intros s Hs'. rewrite Hu. set_solver. }
    destruct (insert_probe_ok (with_arena idx1 a) hash slot now Hwf1a)
      as (i & idx' & -> & Hwf' & Hf & Har & Hcap & Hes); [done..| | |].
    { simpl. rewrite Hu. set_solver. }
    { simpl. intros Hin. apply Hfresh.
      pose proof (ix_used _ Hwf1) as Hall. rewrite Forall_forall in Hall. by apply Hall. }
    cbn [mbind option_bind]. exists idx1, (Some b), idx'. split_and!; try done.
    exists i, slot. rewrite Har. simpl. split_and!; try done. by rewrite Hptr.
  - subst a. exists idx1, None, idx1. split_and!; try done. by destruct idx1.
Qed.

Lemma evict_ok idx hash :
  index_wf idx -> len hash = KLLM_INDEX_HASH_BYTES ->
  exists found idx', kllm_index_evict idx hash = Some (found, idx') /\ index_wf idx' /\
    if found : bool
    then exists pos e, holds idx hash pos e /\
      entries idx' = <[pos := emptied e]> (entries idx) /\
      ba_used (arena idx') = ba_used (arena idx) ∖ {[slot_index e]}
    else idx' = idx.
Proof.
  intros Hwf Hh. unfold kllm_index_evict.
  edestruct (probe_loop idx Hwf hash (probe_stop hash)
    (fun pos e => if decide (is_live e)
       then idx' ← evict_at idx pos; Some (true, idx') else Some (false, idx))
    (fun r => index_wf (snd r) /\ if fst r : bool
       then exists pos e, holds idx hash pos e /\
         entries (snd r) = <[pos := emptied e]> (entries idx) /\
         ba_used (arena (snd r)) = ba_used (arena idx) ∖ {[slot_index e]}
       else snd r = idx)) as (o & -> & Ho).
  - intros i e Hi He. cbv beta zeta.
    destruct (probe_pos idx Hwf hash i) as [-> Hb]. rewrite arr_get_lookup by lia.
    fold (probe idx hash i). rewrite He. cbn [mbind option_bind].
    rewrite empty_iff, (hash_eq_iff idx _ e hash Hwf He Hh). unfold probe_stop, probe.
    rewrite Z2Nat.id by lia. destruct (decide (is_live e)) as [Hl|Hl].
    + rewrite (bool_decide_eq_true_2 (is_live e)) by done. simpl.
      repeat case_bool_decide; try naive_solver. by destruct (evict_at idx _).
    + rewrite (bool_decide_eq_false_2 (is_live e)) by done.
      by rewrite (bool_decide_eq_true_2 (~ is_live e \/ _)) by auto.
  - intros i e Hi He Hs _. case_decide as Hl; [|by exists (false, idx)].
    destruct (evict_at_ok idx _ e Hwf He Hl) as (idx' & -> & Hwf' & Hes & _ & _ & Hu & _).
    eexists. split; [done|]. split; [done|]. exists (probe idx hash i), e.
    split_and!; try done. apply bool_decide_eq_true in Hs. by destruct Hs.
  - cbn [mbind option_bind]. destruct o as [[]|[found idx']].
    + exists false, idx. done.
    + exists found, idx'. done.
Qed.

(** The slots in use after an entry was replaced. *)
Lemma slots_elem_set idx pos e e' s :
  index_wf idx -> entries idx !! pos = Some e ->
  s ∈ slots_of (<[pos := e']> (entries idx)) <->
  s ∈ slots_of [e'] \/ (s ∈ slots_of (entries idx) /\ s ∉ slots_of [e]).
Proof.
  intros Hwf He. destruct (slots_of_set (entries idx) pos e e' He) as (rest & Hp & Hp').
  pose proof (ix_nodup _ Hwf) as Hnd. rewrite Hp in Hnd. rewrite Hp, Hp', !elem_of_app.
  apply NoDup_app in Hnd as (_ & Hdis & _). naive_solver.
Qed.

(** ** Sequences of calls *)

Inductive index_op : Type :=
| ILookup (hash : list Z) (now : Z)
| IInsert (hash : list Z) (now : Z)
| IEvict (hash : list Z).

Inductive index_obs : Type :=
| OBlock (p : option Z)
| OFound (found : bool).

Definition index_call (idx : index) (op : index_op) : option (index_obs * index) :=
  match op with
  | ILookup h now => '(p, idx') ← kllm_index_lookup idx h now; Some (OBlock p, idx')
  | IInsert h now => '(p, idx') ← kllm_index_insert idx h now; Some (OBlock p, idx')
  | IEvict h => '(f, idx') ← kllm_index_evict idx h; Some (OFound f, idx')
  end.

Fixpoint index_run (idx : index) (ops : list index_op)
    : option (list index_obs * index) :=
  match ops with
  | [] => Some ([], idx)
  | op :: ops' =>
      '(o, idx1) ← index_call idx op;
      '(os, idx2) ← index_run idx1 ops';
      Some (o :: os, idx2)
  end.

(** Hashes have 32 bytes, and the clock is short of its last value. *)
Definition index_op_ok (op : index_op) : Prop :=
  match op with
  | ILookup h now | IInsert h now => len h = KLLM_INDEX_HASH_BYTES /\ now < UINT64_MAX
  | IEvict h => len h = KLLM_INDEX_HASH_BYTES
  end.

Lemma owned_evicted idx idx' pos e :
  index_wf idx -> owned idx -> entries idx !! pos = Some e -> is_live e ->
  entries idx' = <[pos := emptied e]> (entries idx) ->
  ba_used (arena idx') = ba_used (arena idx) ∖ {[slot_index e]} ->
  owned idx'.
Proof.
  intros Hwf Hown He Hl Hes Hu s. rewrite Hes, Hu, (slots_elem_set _ _ _ _ _ Hwf He).
  rewrite (slots_of_live e), (slots_of_empty (emptied e)) by auto using emptied_dead.
  specialize (Hown s). set_solver.
Qed.

Lemma make_room_owned idx idx1 :
  index_wf idx -> owned idx -> make_room idx = Some idx1 -> owned idx1.
Proof.
  intros Hwf Hown Hm. destruct (make_room_ok idx Hwf)
    as (idx1' & Hm' & _ & _ & _ & [[_ ->]|(_ & pos & e & (He & Hl & _) & Hes & Hu)]);
    simplify_eq; [done|]. by apply (owned_evicted idx idx1 pos e).
Qed.

Lemma insert_owned idx hash now p idx' :
  index_wf idx -> owned idx -> len hash = KLLM_INDEX_HASH_BYTES -> now < UINT64_MAX ->
  kllm_index_insert idx hash now = Some (p, idx') -> owned idx'.
Proof.
  intros Hwf Hown Hh Hnow Hins.
  destruct (insert_ok idx hash now Hwf Hown Hh Hnow)
    as (idx1 & p' & idx'' & Hm & Hins' & Hwf' & _ & Hp). simplify_eq.
  pose proof (make_room_owned _ _ Hwf Hown Hm) as Hown1.
  destruct (make_room_ok idx Hwf) as (idx1' & Hm' & Hwf1 & _). simplify_eq.
  destruct p as [b|]; [|by destruct Hp as [-> _]].
  destruct Hp as (i & slot & (_ & (e & He & Hne) & _) & Hfresh & Hes & Hu & Hptr). intros s.
  rewrite Hes, Hu, (slots_elem_set _ _ _ _ _ Hwf1 He), (slots_of_empty e) by done.
  assert (is_live (CacheEntry hash slot 0 now)) as Hl.
  { apply (used_live idx' slot _ Hwf'); [|done]. rewrite Hu. set_solver. }
  rewrite slots_of_live by done. specialize (Hown1 s). set_solver.
Qed.

Lemma index_call_safe idx op :
  index_wf idx -> owned idx -> index_op_ok op ->
  exists o idx', index_call idx op = Some (o, idx') /\ index_wf idx' /\ owned idx'.
Proof.
  intros Hwf Hown Hop. destruct op as [h now|h now|h]; simpl in *.
  - destruct Hop as [Hh Hnow].
    destruct (lookup_ok idx h now Hwf Hh Hnow) as (p & idx' & -> & Hwf' & Hres).
    do 2 eexists. split_and!; [done..|].
    destruct Hres as [(_ & -> & _)|(i & e & (_ & He & _) & Hl & _ & _ & ->)]; [done|].
    intros s. simpl. rewrite (slots_elem_set _ _ _ _ _ Hwf He), !slots_of_live by done.
    specialize (Hown s). simpl. pose proof (holds_slot idx (e_hash e) (probe idx h i) e).
    rewrite !list_elem_of_singleton, Hown. destruct (decide (s = slot_index e)) as [->|]; [|tauto].
    split; intros _; [by left|]. by apply (holds_slot idx (e_hash e) (probe idx h i)).
  - destruct Hop as [Hh Hnow].
    destruct (insert_ok idx h now Hwf Hown Hh Hnow)
      as (idx1 & p & idx' & _ & Hins & Hwf' & _). rewrite Hins.
    do 2 eexists. split_and!; [done..|]. exact (insert_owned idx h now p idx' Hwf Hown Hh Hnow Hins).
  - destruct (evict_ok idx h Hwf Hop) as (f & idx' & -> & Hwf' & Hres).
    do 2 eexists. split_and!; [done..|]. destruct f; [|by subst].
    destruct Hres as (pos & e & (He & Hl & _) & Hes & Hu). by apply (owned_evicted idx idx' pos e).
Qed.

(** ** Theorems *)

(** C3. Every sequence of lookups, insertions and evictions on a well-formed
    table runs without undefined behaviour (no access out of bounds, no free
    of a slot that is not in use) and keeps the invariants: the occupancy counts
    the live entries, no two entries share a slot, and the slots in use in the
    arena are exactly those of the live entries, so none is leaked. *)
Theorem index_calls_safe idx ops :
  index_wf idx -> owned idx -> Forall index_op_ok ops ->
  exists obs idx', index_run idx ops = Some (obs, idx') /\ index_wf idx' /\ owned idx'.
Proof.
  intros Hwf Hown Hops. revert idx Hwf Hown. induction Hops as [|op ops Hop _ IH];
    intros idx Hwf Hown; simpl; [by eauto|].
  destruct (index_call_safe idx op Hwf Hown Hop) as (o & idx1 & -> & Hwf1 & Hown1). simpl.
  destruct (IH idx1 Hwf1 Hown1) as (obs & idx' & -> & Hrest). simpl. eauto.
Qed.

(** The insertion of a hash the table does not hold. *)
Lemma holds_after_room idx idx1 hash pos e :
  index_wf idx -> make_room idx = Some idx1 -> holds idx1 hash pos e -> holds idx hash pos e.
Proof.
  intros Hwf Hm (He & Hl & Hh). destruct (make_room_ok idx Hwf)
    as (idx1' & Hm' & _ & _ & _ & [[_ ->]|(_ & pos' & e' & _ & Hes & _)]); simplify_eq; [done|].
  rewrite Hes in He. apply list_lookup_insert_Some in He as [(-> & <- & _)|[_ He]]; [|done].
  by destruct Hl.
Qed.

(** The entry that an insertion writes is the one that a lookup finds. *)
Lemma insert_hit idx hash now b idx' :
  index_wf idx -> owned idx -> len hash = KLLM_INDEX_HASH_BYTES -> now < UINT64_MAX ->
  (forall pos e, ~ holds idx hash pos e) ->
  kllm_index_insert idx hash now = Some (Some b, idx') ->
  index_wf idx' /\ hit idx' hash b.
Proof.
  intros Hwf Hown Hh Hnow Hnone Hins.
  destruct (insert_ok idx hash now Hwf Hown Hh Hnow)
    as (idx1 & p & idx2 & Hm & Hins' & Hwf' & Hcap & Hp). simplify_eq.
  destruct Hp as (i & slot & (Hi & (e0 & He0 & _) & Hpre) & _ & Hes & Hu & Hptr).
  assert (forall j, probe idx' hash j = probe idx1 hash j) as Hpr
    by (intros j; unfold probe; by rewrite Hcap).
  assert (entries idx' !! probe idx' hash i = Some (CacheEntry hash slot 0 now)) as Hnew.
  { rewrite Hes, Hpr. apply list_lookup_insert_eq. by apply lookup_lt_Some in He0. }
  assert (forall j e, 0 <= j < i -> entries idx' !! probe idx' hash j = Some e ->
    is_live e /\ e_hash e <> hash) as Hbefore.
  { intros j e Hj He. rewrite Hes, Hpr, list_lookup_insert_ne in He.
    - pose proof (Hpre j e Hj He) as Hl. split; [done|]. intros Heq.
      by eapply (Hnone (probe idx1 hash j) e), holds_after_room.
    - intros Heq%probe_inj; lia. }
  split; [done|]. exists i, (CacheEntry hash slot 0 now). split; [|split; [|done]].
  - split; [by rewrite Hcap|]. split; [done|]. split; [by right|done].
  - apply (used_live idx' slot _ Hwf'); [|done]. rewrite Hu. set_solver.
Qed.

(** C24. A block that was just inserted under a hash the table did not hold is
    what a lookup of the hash returns, whatever was evicted to make room and
    whatever the state of the probe sequences. *)
Theorem insert_then_lookup idx hash now now' b idx' :
  index_wf idx -> owned idx -> len hash = KLLM_INDEX_HASH_BYTES ->
  now < UINT64_MAX -> now' < UINT64_MAX ->
  (forall pos e, ~ holds idx hash pos e) ->
  kllm_index_insert idx hash now = Some (Some b, idx') ->
  exists idx'', kllm_index_lookup idx' hash now' = Some (Some b, idx'').
Proof.
  intros Hwf Hown Hh Hnow Hnow' Hnone Hins.
  destruct (insert_hit idx hash now b idx') as [Hwf' Hhit]; [done..|].
  destruct (lookup_hit idx' hash now' b Hwf' Hh Hnow' Hhit) as (idx'' & Hl & _). eauto.
Qed.

(** Filling the first empty entry of its probe sequence keeps the chains. *)
Lemma chained_step idx idx' hash i e' :
  chained idx -> first_empty idx hash i -> e_hash e' = hash -> is_live e' ->
  capacity idx' = capacity idx ->
  entries idx' = <[probe idx hash i := e']> (entries idx) -> chained idx'.
Proof.
  intros Hch (Hi & _ & Hpre) <- Hl' Hc Hes k x Hk (Hx & Hlx & _) j y Hj Hy.
  assert (forall h n, probe idx' h n = probe idx h n) as Hpr
    by (intros; unfold probe; by rewrite Hc).
  rewrite Hpr, Hes in *. rewrite Hc in Hk.
  apply list_lookup_insert_Some in Hy as [(_ & <- & _)|[_ Hy]]; [done|].
  apply list_lookup_insert_Some in Hx as [(Hp & <- & _)|[_ Hx]].
  - apply probe_inj in Hp; [|lia..]. subst k. by apply (Hpre j).
  - by apply (Hch k x Hk ltac:(by split_and!) j y Hj).
Qed.

(** The chains depend on the hashes and the liveness of the entries only. *)
Lemma chained_ext idx idx' :
  chained idx -> capacity idx' = capacity idx ->
  (forall pos e', entries idx' !! pos = Some e' ->
     exists e, entries idx !! pos = Some e /\ e_hash e = e_hash e' /\ (is_live e <-> is_live e')) ->
  chained idx'.
Proof.
  intros Hch Hc Hes k x Hk (Hx & Hlx & _) j y Hj Hy.
  assert (forall h n, probe idx' h n = probe idx h n) as Hpr
    by (intros; unfold probe; by rewrite Hc).
  rewrite Hpr in *. rewrite Hc in Hk.
  destruct (Hes _ _ Hx) as (x0 & Hx0 & Hhx & Hlx0). destruct (Hes _ _ Hy) as (y0 & Hy0 & _ & <-).
  rewrite <- Hhx in *. apply (Hch k x0 Hk) with j; [|done..]. split_and!; [done| |done].
  by apply Hlx0.
Qed.

(** C23. As long as nothing was removed from the table ([chained]), lookups are
    complete: a lookup returns the block of a live entry with the hash if there
    is one, and misses only if there is none; it keeps the table chained, and
    so does every insertion that does not have to evict. *)
Theorem lookup_complete idx hash now :
  index_wf idx -> owned idx -> chained idx ->
  len hash = KLLM_INDEX_HASH_BYTES -> now < UINT64_MAX ->
  (exists p idx', kllm_index_lookup idx hash now = Some (p, idx') /\ chained idx' /\
    match p with
    | Some b => exists pos e, holds idx hash pos e /\
        ba_slot_ptr (arena idx) (slot_index e) = Some b
    | None => forall pos e, ~ holds idx hash pos e
    end) /\
  (over_load idx = false ->
     exists p idx', kllm_index_insert idx hash now = Some (p, idx') /\ chained idx' /\
       forall h pos e, holds idx h pos e -> holds idx' h pos e).
Proof.
  intros Hwf Hown Hch Hh Hnow. split.
  - destruct (lookup_ok idx hash now Hwf Hh Hnow) as (p & idx' & -> & _ & Hres).
    do 2 eexists. split; [done|].
    destruct Hres as [(-> & -> & Hmiss)|(i & e & (Hi & He & Hse & _) & Hl & [b Hb] & Hp & ->)].
    + split; [done|]. intros pos e Hpos.
      destruct (probe_surj idx hash (Z.of_nat pos)) as (k & Hk & Hpk).
      { destruct Hpos as (He%lookup_lt_Some & _). pose proof (ix_mem _ Hwf). lia. }
      rewrite Nat2Z.id in Hpk. subst pos. pose proof Hpos as (He & Hl & <-).
      destruct Hmiss as [(i & e0 & (Hi & He0 & _ & Hpre) & Hd)|Hall].
      * destruct (Z.lt_trichotomy k i) as [Hlt|[->|Hgt]].
        -- by destruct (Hpre k e ltac:(lia) He) as [_ []].
        -- by simplify_eq.
        -- apply Hd. by apply (Hch k e Hk Hpos i e0 ltac:(lia)).
      * by destruct (Hall k e Hk He) as [_ []].
    + split.
      * apply (chained_ext idx); [done..|]. intros pos x Hx. simpl in Hx.
        apply list_lookup_insert_Some in Hx as [(<- & <- & _)|[_ Hx]]; [|by exists x].
        by exists e.
      * rewrite Hb in *. exists (probe idx hash i), e. split; [|done].
        split_and!; [done..|]. by destruct Hse.
  - intros Hol. destruct (insert_ok idx hash now Hwf Hown Hh Hnow)
      as (idx1 & p & idx' & Hm & -> & Hwf' & Hc & Hp).
    unfold make_room in Hm. rewrite Hol in Hm. simplify_eq.
    do 2 eexists. split; [done|]. destruct p as [b|]; [|by destruct Hp as [-> _]].
    destruct Hp as (i & slot & Hf & Hfresh & Hes & Hu & _). split.
    + apply (chained_step idx1 idx' hash i (CacheEntry hash slot 0 now)); try done.
      apply (used_live idx' slot _ Hwf'); [|done]. rewrite Hu. set_solver.
    + intros h pos e (He & Hl & Hhe). split_and!; [|done..]. rewrite Hes.
      rewrite list_lookup_insert_ne; [done|]. intros <-.
      destruct Hf as (_ & (e0 & He0 & Hd) & _). by simplify_eq.
Qed.

(** The test of [kllm_index_create] accepts zero and the powers of two. *)
Lemma pow2_test c :
  fits 32 c -> Z.land c (wrap 32 (c - 1)) = 0 ->
  c = 0 \/ exists k, 0 <= k < 32 /\ c = 2 ^ k.
Proof.
  intros Hc Hland. unfold fits in Hc. destruct (decide (c = 0)) as [|Hne]; [by left|].
  right. exists (Z.log2 c). rewrite wrap_small in Hland by (unfold fits; lia).
  pose proof (Z.log2_spec c ltac:(lia)) as [Hlo Hhi]. pose proof (Z.log2_nonneg c).
  split.
  - split; [done|]. apply Z.log2_lt_pow2; lia.
  - destruct (decide (c = 2 ^ Z.log2 c)) as [|Hneq]; [done|]. exfalso.
    assert (Z.testbit (Z.land c (c - 1)) (Z.log2 c) = true) as Hbit.
    { rewrite Z.land_spec, Z.bit_log2 by lia.
      replace (Z.log2 c) with (Z.log2 (c - 1)) at 1; [by rewrite Z.bit_log2 by lia|].
      apply Z.log2_unique; lia. }
    by rewrite Hland, Z.testbit_0_l in Hbit.
Qed.

Lemma slots_of_dead es : Forall (fun e => ~ is_live e) es -> slots_of es = [].
Proof.
  intros Hall. unfold slots_of. induction Hall as [|e es He _ IH]; [done|].
  by rewrite filter_cons_False.
Qed.

(** The loop of [kllm_index_create] empties every entry. *)
Lemma create_loop_ok n :
  0 <= n ->
  exists es, for_range (R := unit) 0 n (fun i es =>
      e ← arr_get es i;
      es' ← arr_set es i (CacheEntry (e_hash e) EMPTY_SLOT (e_flags e) (last_access_ns e));
      Some (Continue es'))
      (replicate (Z.to_nat n) (CacheEntry (zeroed KLLM_INDEX_HASH_BYTES) 0 0 0))
    = Some (inl es) /\ len es = n /\
    Forall (fun e => ~ is_live e) es /\
    Forall (fun e => len (e_hash e) = KLLM_INDEX_HASH_BYTES) es.
Proof.
  intros Hn.
  edestruct (for_range_rule (R := unit)
    (fun i es => len es = n /\
       Forall (fun e => len (e_hash e) = KLLM_INDEX_HASH_BYTES) es /\
       forall j e, Z.of_nat j < i -> es !! j = Some e -> ~ is_live e)
    (fun o => exists es, o = inl es /\ len es = n /\
       Forall (fun e => ~ is_live e) es /\
       Forall (fun e => len (e_hash e) = KLLM_INDEX_HASH_BYTES) es))
    as (o & -> & es & -> & Hes); [..|by exists es].
  - lia.
  - split_and!; [rewrite length_replicate; lia| |lia].
    apply Forall_replicate. cbn [e_hash]. by rewrite zeroed_len.
  - intros i es Hi (Hl & Hh & Hd). cbv beta.
    destruct (lookup_lt_is_Some_2 es (Z.to_nat i)) as [e He]; [lia|].
    rewrite arr_get_lookup, He by lia. cbn [mbind option_bind].
    rewrite arr_set_in by lia. cbn [mbind option_bind].
    eexists. split; [done|]. cbv beta iota. split_and!.
    + by rewrite length_insert.
    + apply Forall_insert; [done|]. by apply (Forall_lookup_1 _ _ _ _ Hh He).
    + intros j x Hj Hx. apply list_lookup_insert_Some in Hx as [(_ & <- & _)|[Hne Hx]].
      * apply (emptied_dead e).
      * apply (Hd j x); [lia|done].
  - intros es (Hl & Hh & Hd). exists es. split_and!; [done..| |done].
    apply Forall_lookup_2. intros j x Hx. apply (Hd j x); [|done].
    apply lookup_lt_Some in Hx. lia.
Qed.

(** Creating a table fails exactly when an allocation fails or the capacity
    is neither zero nor a power of two; the table is then empty and well
    formed, and its probe sequences are chained.  The exception is a capacity
    of zero, which the test also accepts. *)
Theorem index_create_ok c1 c2 cap a :
  fits 32 cap -> ba_wf a ->
  exists r, kllm_index_create c1 c2 cap a = Some r /\
    match r with
    | None => c1 = false \/ c2 = false \/ Z.land cap (u32 (cap - 1)) <> 0
    | Some idx => c1 = true /\ c2 = true /\ occupied idx = 0 /\ arena idx = a /\
        (cap = 0 \/ (exists k, cap = 2 ^ k) /\ index_wf idx /\ chained idx /\
                    slots_of (entries idx) = [])
    end.
Proof.
  intros Hcap Ha. unfold kllm_index_create.
  destruct (Z.eqb_spec (Z.land cap (wrap 32 (cap - 1))) 0) as [Hland|]; cbn [negb].
  2:{ exists None. auto. }
  destruct c1; cbn [negb]; [|by exists None; auto].
  destruct c2; cbn [negb]; [|by exists None; auto].
  destruct (create_loop_ok cap) as (es & -> & Hl & Hd & Hh); [unfold fits in *; lia|].
  cbn [mbind option_bind]. eexists. split; [done|]. split_and!; [done..|].
  apply pow2_test in Hland as [|(k & Hk & Heq)]; [by left| |done]. right.
  pose proof (pow2_lt_32 k Hk). pose proof (slots_of_dead es Hd) as Hs.
  split_and!; [by eauto| | |done].
  - split; simpl; rewrite ?Hs; eauto; try done.
    + rewrite wrap_small; [done|]. unfold fits in *. lia.
    + constructor.
    + eapply Forall_impl; [exact Hd|]. simpl. tauto.
  - intros i e _ (He & Hlive & _). simpl in He.
    by apply (Forall_lookup_1 _ _ _ _ Hd) in He.
Qed.
End operations.

(** ** The arena as the allocator *)

#[export] Program Instance arena_allocator : BlockAllocator kllm_arena := {|
  ba_alloc := kllm_arena_alloc;
  ba_free := kllm_arena_free;
  ba_slot_index := kllm_arena_slot_index;
  ba_slot_ptr := kllm_arena_slot_ptr;
  ba_wf a := arena_wf a /\ total_slots a <= UINT32_MAX;
  ba_used := allocated;
|}.
Next Obligation.
  intros a s [Hwf Ht] [Hs _]%elem_allocated. split; [lia|].
  unfold kllm_arena_slot_ptr. destruct (Z.leb_spec (total_slots a) s); [lia|]. by eexists.
Qed.
Next Obligation.
  intros a [Hwf Ht]. destruct (arena_alloc_ok a Hwf) as (p & a' & Hal & Hwf' & Hb & Hs & Htot & Hres).
  exists p, a'. split_and!; [done..|lia| |].
  { intros s. unfold kllm_arena_slot_ptr. by rewrite Hb, Hs, Htot. }
  destruct (set_alloc (total_slots a) (allocated a)) as [s|] eqn:E; [|by destruct Hres as [-> ->]].
  destruct Hres as [-> Hall]. apply set_alloc_Some in E as (Hsr & Hn & _).
  exists s. split_and!; try done.
  - apply slot_ptr_addr; done.
  - rewrite <- Htot in Hsr. unfold kllm_arena_slot_index.
    replace (slot_addr a s) with (slot_addr a' s) by (unfold slot_addr; by rewrite Hb, Hs).
    rewrite slot_addr_offset by done. pose proof (aw_slot a' Hwf').
    destruct (Z.eqb_spec (slot_size a') 0); [lia|]. rewrite Z.div_mul by lia.
    unfold UINT32_MAX in *. by rewrite wrap_small by (unfold fits; lia).
Qed.
Next Obligation.
  intros a s p [Hwf Ht] Hin Hp. pose proof Hin as [Hs _]%elem_allocated.
  rewrite slot_ptr_addr in Hp by done. simplify_eq.
  destruct (arena_free_ok a s Hwf Hin) as (a' & Hf & Hwf' & Hall & Hb & Hss & Htot).
  exists a'. split_and!; [done..|lia|done|].
  intros t. unfold kllm_arena_slot_ptr. by rewrite Hb, Hss, Htot.
Qed.

(** ** A table on the arena *)

(** Hashes that share their first four bytes. *)
Definition hash_of (n : Z) : list Z := [0; 0; 0; 0; n] ++ zeroed 27.

Definition demo_index : kllm_cache_index kllm_arena :=
  CacheIndex (replicate 8 (CacheEntry (zeroed KLLM_INDEX_HASH_BYTES) EMPTY_SLOT 0 0)) 8 7 0
    demo_arena (IndexStats 0 0 0 0 0 8).

Lemma demo_index_ok :
  kllm_index_create true true 8 demo_arena = Some (Some demo_index) /\
  index_wf demo_index /\ owned demo_index /\ chained demo_index.
Proof.
  assert (kllm_index_create true true 8 demo_arena = Some (Some demo_index)) as Hc by done.
  assert (Forall (fun e => ~ is_live e) (entries demo_index)) as Hd.
  { apply Forall_replicate. unfold is_live. simpl. lia. }
  split_and!; [done| | |].
  - split; try done.
    + by exists 3.
    + split; [apply demo_arena_wf|done].
    + constructor.
    + by apply Forall_replicate.
    + eapply Forall_impl; [exact Hd|]. intros e Hne Hl. by destruct Hne.
  - intros s. simpl. destruct demo_arena_wf as [_ ->]. set_solver.
  - intros i e _ (He & Hl & _). by apply (Forall_lookup_1 _ _ _ _ Hd) in He.
Qed.

(** An eviction hides entries: after two insertions whose hashes share a
    bucket and the eviction of the first one, a lookup of the second hash
    misses although its entry is live and its slot is still allocated. *)
Theorem evict_hides_entry :
  exists idx p1 p2,
    index_run demo_index [IInsert (hash_of 1) 1; IInsert (hash_of 2) 2;
        ILookup (hash_of 2) 3; IEvict (hash_of 1); ILookup (hash_of 2) 4]
      = Some ([OBlock (Some p1); OBlock (Some p2); OBlock (Some p2); OFound true;
               OBlock None], idx) /\
    holds idx (hash_of 2) 1 (CacheEntry (hash_of 2) 1 0 3) /\
    1 ∈ allocated (arena idx) /\ ~ chained idx.
Proof.
  do 3 eexists. split; [vm_compute; reflexivity|].
  assert (forall idx, entries idx = [CacheEntry (hash_of 1) EMPTY_SLOT 0 1; CacheEntry (hash_of 2) 1 0 3]
     ++ replicate 6 (CacheEntry (zeroed 32) EMPTY_SLOT 0 0) ->
     capacity idx = 8 -> ~ chained (A := kllm_arena) idx) as Hnot.
  { intros idx Hes Hc Hch.
    apply (Hch 1 (CacheEntry (hash_of 2) 1 0 3)) with 0 (CacheEntry (hash_of 1) EMPTY_SLOT 0 1);
      rewrite ?Hc; unfold holds, probe; rewrite ?Hc, ?Hes; done || lia. }
  split_and!; [done..|by apply elem_allocated|by apply Hnot].
Qed.

Lemma index_calls_safe_witness :
  exists obs idx', index_run demo_index [IInsert (hash_of 1) 1; IEvict (hash_of 1)]
    = Some (obs, idx') /\ index_wf idx' /\ owned idx'.
Proof.
  destruct demo_index_ok as (_ & Hwf & Hown & _).
  apply (index_calls_safe demo_index _ Hwf Hown).
  repeat constructor.
Defined.

Lemma insert_then_lookup_witness :
  exists idx', kllm_index_insert demo_index (hash_of 1) 1 = Some (Some 8192, idx') /\
    exists idx'', kllm_index_lookup idx' (hash_of 1) 2 = Some (Some 8192, idx'').
Proof.
  destruct demo_index_ok as (_ & Hwf & Hown & _).
  eexists. split; [vm_compute; reflexivity|].
  apply (insert_then_lookup demo_index (hash_of 1) 1 2 8192 _ Hwf Hown); try done.
  intros pos e (He & Hl & _). apply lookup_replicate in He as [-> _]. by apply Hl.
Defined.

Lemma lookup_complete_witness :
  exists p idx', kllm_index_lookup demo_index (hash_of 1) 1 = Some (p, idx') /\
    chained idx'.
Proof.
  destruct demo_index_ok as (_ & Hwf & Hown & Hch).
  destruct (lookup_complete demo_index (hash_of 1) 1 Hwf Hown Hch)
    as [(p & idx' & Hlk & Hch' & _) _]; [done..|].
  exists p, idx'. split; [exact Hlk|exact Hch'].
Defined.

Lemma index_create_ok_witness :
  exists r, kllm_index_create true true 8 demo_arena = Some r.
Proof.
  destruct (index_create_ok true true 8 demo_arena) as (r & Hr & _).
  - done.
  - split; [apply demo_arena_wf|done].
  - exists r. exact Hr.
Defined.
