(* ===== verification/Dispatch.v ===== *)
(** * The CPU/GPU dispatch policy

    Models [userspace/compute/dispatch_policy.c]: the configuration with its
    defaults, the counters, and the decision where a request runs.  The file
    proves the decision equal to its one-line specification, the counters
    consistent over every sequence of calls, and the bound on the GPU queue
    that the overflow rule is there for. *)

From Stdlib Require Import ZArith Lia SpecFloat.
From stdpp Require Import base numbers list.
From S2P Require Import Prelude Floats.

#[local] Open Scope Z_scope.

(** ** Data *)

Inductive kllm_dispatch_target : Type := KLLM_TARGET_CPU | KLLM_TARGET_GPU.

#[export] Instance target_eq_dec : EqDecision kllm_dispatch_target.
Proof. solve_decision. Defined.

Record kllm_dispatch_config : Type := DispatchConfig {
  cpu_seq_threshold : Z;
  cache_hit_threshold : spec_float;
  gpu_queue_max : Z;
}.

Record kllm_dispatch_state : Type := DispatchState {
  total_requests : Z;
  cpu_dispatches : Z;
  gpu_dispatches : Z;
  cache_hits : Z;
  cache_misses : Z;
  gpu_queue_depth : Z;
}.

Record kllm_dispatch_ctx : Type := DispatchCtx {
  d_cfg : kllm_dispatch_config;
  d_state : kllm_dispatch_state;
}.

(** ** Operations *)

(** 0.8 as a float: the closest multiple of [2^-24]. *)
Definition f32_0_8 : spec_float := S754_finite false 13421773 (-24).

Definition kllm_dispatch_create (calloc_ok : bool) (cfg : kllm_dispatch_config)
    : option kllm_dispatch_ctx :=
  if negb calloc_ok then None
  else
    let thr := if cpu_seq_threshold cfg =? 0 then 512 else cpu_seq_threshold cfg in
    let hit := if float_eq (cache_hit_threshold cfg) f32_zero then f32_0_8
               else cache_hit_threshold cfg in
    let q := if gpu_queue_max cfg =? 0 then 64 else gpu_queue_max cfg in
    Some (DispatchCtx (DispatchConfig thr hit q) (DispatchState 0 0 0 0 0 0)).

Definition kllm_dispatch_decide (ctx : kllm_dispatch_ctx) (seq_len : Z) (cache_hit : bool)
    : kllm_dispatch_target * kllm_dispatch_ctx :=
  let s := d_state ctx in
  let cfg := d_cfg ctx in
  let total := u64 (total_requests s + 1) in
  let '(hits, misses) :=
    if cache_hit then (u64 (cache_hits s + 1), cache_misses s)
    else (cache_hits s, u64 (cache_misses s + 1)) in
  let target :=
    if (seq_len <=? cpu_seq_threshold cfg) && cache_hit then KLLM_TARGET_CPU
    else if cpu_seq_threshold cfg <? seq_len then KLLM_TARGET_GPU
    else if negb cache_hit then KLLM_TARGET_GPU
    else KLLM_TARGET_GPU in
  let target :=
    if bool_decide (target = KLLM_TARGET_GPU) &&
       (gpu_queue_max cfg <=? gpu_queue_depth s) &&
       (seq_len <=? cpu_seq_threshold cfg)
    then KLLM_TARGET_CPU else target in
  match target with
  | KLLM_TARGET_CPU =>
      (target, DispatchCtx cfg (DispatchState total (u64 (cpu_dispatches s + 1))
         (gpu_dispatches s) hits misses (gpu_queue_depth s)))
  | KLLM_TARGET_GPU =>
      (target, DispatchCtx cfg (DispatchState total (cpu_dispatches s)
         (u64 (gpu_dispatches s + 1)) hits misses (u32 (gpu_queue_depth s + 1))))
  end.

Definition kllm_dispatch_gpu_complete (ctx : kllm_dispatch_ctx) : kllm_dispatch_ctx :=
  let s := d_state ctx in
  if 0 <? gpu_queue_depth s
  then DispatchCtx (d_cfg ctx) (DispatchState (total_requests s) (cpu_dispatches s)
         (gpu_dispatches s) (cache_hits s) (cache_misses s) (u32 (gpu_queue_depth s - 1)))
  else ctx.

Definition kllm_dispatch_get_state (ctx : kllm_dispatch_ctx) : kllm_dispatch_state :=
  d_state ctx.

(** ** Specification *)

(** Short sequences run on the CPU on a cache hit or when the GPU is busy. *)
Definition cpu_eligible (ctx : kllm_dispatch_ctx) (seq_len : Z) (cache_hit : bool) : bool :=
  (seq_len <=? cpu_seq_threshold (d_cfg ctx)) &&
  (cache_hit || (gpu_queue_max (d_cfg ctx) <=? gpu_queue_depth (d_state ctx))).

Inductive dispatch_op : Type :=
| DDecide (seq_len : Z) (cache_hit : bool)
| DComplete.

Definition dispatch_call (ctx : kllm_dispatch_ctx) (op : dispatch_op) : kllm_dispatch_ctx :=
  match op with
  | DDecide n hit => snd (kllm_dispatch_decide ctx n hit)
  | DComplete => kllm_dispatch_gpu_complete ctx
  end.

Definition dispatch_run (ctx : kllm_dispatch_ctx) (ops : list dispatch_op) : kllm_dispatch_ctx :=
  foldl dispatch_call ctx ops.

(** The counters after [n] calls, [d] of them decisions. *)
Record dispatch_inv (ctx : kllm_dispatch_ctx) (d : Z) : Prop := {
  di_total : total_requests (d_state ctx) = d;
  di_targets : cpu_dispatches (d_state ctx) + gpu_dispatches (d_state ctx) = d;
  di_hits : cache_hits (d_state ctx) + cache_misses (d_state ctx) = d;
  di_cpu : 0 <= cpu_dispatches (d_state ctx);
  di_queue : 0 <= gpu_queue_depth (d_state ctx) <= gpu_dispatches (d_state ctx);
  di_hit : 0 <= cache_hits (d_state ctx);
  di_miss : 0 <= cache_misses (d_state ctx);
}.

Definition is_decide (op : dispatch_op) : bool :=
  match op with DDecide _ _ => true | DComplete => false end.

Definition decides (ops : list dispatch_op) : Z :=
  len (filter (fun op => is_decide op = true) ops).

Definition short_op (thr : Z) (op : dispatch_op) : Prop :=
  match op with DDecide n _ => n <= thr | DComplete => True end.

(** ** Lemmas *)

Lemma dispatch_decide_spec ctx n hit :
  fst (kllm_dispatch_decide ctx n hit) =
    (if cpu_eligible ctx n hit then KLLM_TARGET_CPU else KLLM_TARGET_GPU) /\
  d_cfg (snd (kllm_dispatch_decide ctx n hit)) = d_cfg ctx.
Proof.
  unfold kllm_dispatch_decide, cpu_eligible.
  destruct hit; simpl; rewrite ?andb_true_r, ?andb_false_r;
    destruct (Z.leb_spec n (cpu_seq_threshold (d_cfg ctx))),
             (Z.ltb_spec (cpu_seq_threshold (d_cfg ctx)) n); try lia; simpl;
    rewrite ?andb_true_r, ?andb_false_r; try done.
  by destruct (gpu_queue_max (d_cfg ctx) <=? gpu_queue_depth (d_state ctx)).
Qed.

Lemma dispatch_decide_queue ctx n hit :
  gpu_queue_depth (d_state (snd (kllm_dispatch_decide ctx n hit))) =
    match fst (kllm_dispatch_decide ctx n hit) with
    | KLLM_TARGET_CPU => gpu_queue_depth (d_state ctx)
    | KLLM_TARGET_GPU => wrap 32 (gpu_queue_depth (d_state ctx) + 1)
    end.
Proof. unfold kllm_dispatch_decide. by destruct hit; repeat case_match. Qed.

Lemma decide_inv ctx d n hit :
  dispatch_inv ctx d -> 0 <= d < 2 ^ 32 - 1 ->
  dispatch_inv (snd (kllm_dispatch_decide ctx n hit)) (d + 1).
Proof.
  intros [] Hd.
  assert (forall x w, 0 <= x < 2 ^ 32 - 1 -> w = 32 \/ w = 64 -> wrap w (x + 1) = x + 1) as Hw.
  { intros x w Hx [-> | ->]; apply wrap_small; unfold fits; lia. }
  unfold kllm_dispatch_decide.
  destruct hit; repeat case_match; split; simpl; rewrite ?Hw by lia; lia.
Qed.

Lemma complete_inv ctx d :
  dispatch_inv ctx d -> d < 2 ^ 32 -> dispatch_inv (kllm_dispatch_gpu_complete ctx) d.
Proof.
  intros [] Hd. unfold kllm_dispatch_gpu_complete. case_cond; [|by split].
  split; simpl; rewrite ?(wrap_small 32) by (unfold fits; lia); lia.
Qed.

(** ** Theorems *)

(** The cascade of conditions and the overflow rule decide exactly: a
    request runs on the CPU if its sequence is at most the threshold and either
    the cache was hit or the GPU queue is at its maximum; otherwise on the GPU.
    Only a GPU decision lengthens the queue, and the configuration stays. *)
Theorem decide_policy ctx n hit :
  let '(target, ctx') := kllm_dispatch_decide ctx n hit in
  (target = KLLM_TARGET_CPU <->
     n <= cpu_seq_threshold (d_cfg ctx) /\
     (hit = true \/ gpu_queue_max (d_cfg ctx) <= gpu_queue_depth (d_state ctx))) /\
  d_cfg ctx' = d_cfg ctx /\
  gpu_queue_depth (d_state ctx') =
    match target with
    | KLLM_TARGET_CPU => gpu_queue_depth (d_state ctx)
    | KLLM_TARGET_GPU => u32 (gpu_queue_depth (d_state ctx) + 1)
    end.
Proof.
  pose proof (dispatch_decide_spec ctx n hit) as [Ht Hc].
  pose proof (dispatch_decide_queue ctx n hit) as Hd.
  destruct (kllm_dispatch_decide ctx n hit) as [target ctx']. simpl in *.
  split; [|done]. rewrite Ht. unfold cpu_eligible.
  destruct (Z.leb_spec n (cpu_seq_threshold (d_cfg ctx))),
    (Z.leb_spec (gpu_queue_max (d_cfg ctx)) (gpu_queue_depth (d_state ctx))), hit; simpl;
    intuition (congruence || lia).
Qed.

(** C31. From a fresh context, after any sequence of fewer than [2^32] decisions
    and any completions, the counters agree: decisions are split exactly into
    CPU and GPU ones and into hits and misses, and the queue depth is at most
    the number of GPU decisions.  If all sequences are at most the threshold the
    queue never exceeds its maximum. *)
Theorem dispatch_accounting cfg ctx ops :
  kllm_dispatch_create true cfg = Some ctx -> decides ops < 2 ^ 32 ->
  let ctx' := dispatch_run ctx ops in
  let s := kllm_dispatch_get_state ctx' in
  total_requests s = decides ops /\
  cpu_dispatches s + gpu_dispatches s = decides ops /\
  cache_hits s + cache_misses s = decides ops /\
  0 <= gpu_queue_depth s <= gpu_dispatches s /\
  (Forall (short_op (cpu_seq_threshold (d_cfg ctx))) ops -> 0 <= gpu_queue_max (d_cfg ctx) ->
     gpu_queue_depth s <= gpu_queue_max (d_cfg ctx)).
Proof.
  intros Hc Hd. cbn zeta.
  enough (d_cfg (dispatch_run ctx ops) = d_cfg ctx /\
    dispatch_inv (dispatch_run ctx ops) (decides ops) /\
    (Forall (short_op (cpu_seq_threshold (d_cfg ctx))) ops -> 0 <= gpu_queue_max (d_cfg ctx) ->
     gpu_queue_depth (d_state (dispatch_run ctx ops)) <= gpu_queue_max (d_cfg ctx)))
    as (_ & [] & Hq) by (unfold kllm_dispatch_get_state; split_and!; done || lia || auto).
  revert Hd. induction ops as [|op ops IH] using rev_ind; intros Hd.
  { unfold kllm_dispatch_create in Hc. simpl in Hc. simplify_eq. split_and!; [done|by split|done]. }
  unfold decides in *. rewrite filter_app, length_app in *.
  unfold dispatch_run in *. rewrite foldl_app. simpl.
  destruct IH as (Hcfg & Hinv & Hq); [lia|].
  set (c := foldl dispatch_call ctx ops) in *.
  destruct op as [n hit|]; simpl in *.
  - pose proof (dispatch_decide_spec c n hit) as [Ht Hc'].
    split_and!; [congruence| |].
    + replace (Z.of_nat _) with (len (filter (fun op => is_decide op = true) ops) + 1) by lia.
      apply decide_inv; [done|lia].
    + intros [Hs Hn]%Forall_app Hmax. specialize (Hq Hs Hmax).
      rewrite Forall_singleton in Hn. simpl in Hn.
      rewrite dispatch_decide_queue, Ht. unfold cpu_eligible. rewrite Hcfg in *.
      destruct Hinv. destruct (Z.leb_spec n (cpu_seq_threshold (d_cfg ctx))); [|lia].
      destruct hit; simpl; [done|]. destruct (Z.leb_spec (gpu_queue_max (d_cfg ctx)) (gpu_queue_depth (d_state c))); [done|].
      rewrite wrap_small by (unfold fits; lia). lia.
  - split_and!; [|rewrite Nat.add_0_r; apply complete_inv; [done|lia]|].
    + unfold kllm_dispatch_gpu_complete. by case_match.
    + intros [Hs _]%Forall_app Hmax. specialize (Hq Hs Hmax).
      unfold kllm_dispatch_gpu_complete. destruct (Z.ltb_spec 0 (gpu_queue_depth (d_state c))); simpl; [|done].
      destruct Hinv. rewrite wrap_small by (unfold fits; lia). lia.
Qed.

Definition demo_dispatch : kllm_dispatch_ctx :=
  DispatchCtx (DispatchConfig 512 f32_0_8 1) (DispatchState 0 0 0 0 0 0).

Lemma dispatch_accounting_witness :
  kllm_dispatch_create true (DispatchConfig 0 f32_zero 1) = Some demo_dispatch /\
  total_requests (kllm_dispatch_get_state (dispatch_run demo_dispatch
    [DDecide 10 false; DDecide 10 false; DComplete; DDecide 1000 true])) = 3.
Proof.
  assert (kllm_dispatch_create true (DispatchConfig 0 f32_zero 1) = Some demo_dispatch) as Hc
    by (vm_compute; reflexivity).
  split; [exact Hc|].
  destruct (dispatch_accounting _ _
    [DDecide 10 false; DDecide 10 false; DComplete; DDecide 1000 true] Hc) as (Ht & _).
  - vm_compute. reflexivity.
  - exact Ht.
Defined.
