(* ===== verification/Response.v ===== *)
(** * The userspace response path

    Models [userspace/reactor/kllm_response.c]: generated tokens are pushed to
    the character device in ioctl calls of at most 256 tokens.  Every response
    context is a descriptor of the one device, whose state the operations
    thread; [ioctl] is [Chardev.kllm_ioctl], and its negative results come back
    as [-errno].  The unused part of the command on the stack is the argument
    [stack].

    The file proves that the batching is invisible: the tokens of a call are
    appended to the response ring in order, as many as fit, and that what was
    emitted is what a client reads. *)

From Stdlib Require Import ZArith Lia.
From stdpp Require Import base numbers list.
From S2P Require Import Prelude TokenRing Chardev.

#[local] Open Scope Z_scope.

Definition EMIT_BATCH : Z := 256.

Section response.
Context `{KL : KernelLib}.

(** The loop of [kllm_response_emit]; a round sends at least one token, so
    [count] rounds are enough.  [None] with no fuel left. *)
Fixpoint emit_rounds (fuel : nat) (dev : kllm_device) (stack tokens : list Z)
    (sent count : Z) : option (Z * kllm_device) :=
  if sent <? count then
    match fuel with
    | O => None
    | S fuel' =>
        let batch := u32 (count - sent) in
        let batch := if EMIT_BATCH <? batch then EMIT_BATCH else batch in
        part ← arr_slice tokens sent batch;
        let stack' := part ++ drop (Z.to_nat batch) stack in
        '(rc, dev') ← kllm_ioctl dev (KLLM_IOC_EMIT_TOKENS (Some (EmitCmd batch stack')));
        if rc <? 0 then Some (rc, dev')
        else emit_rounds fuel' dev' stack' tokens (u32 (sent + batch)) count
    end
  else Some (0, dev).

Definition kllm_response_emit (dev : kllm_device) (stack tokens : list Z) (count : Z)
    : option (Z * kllm_device) :=
  emit_rounds (Z.to_nat count) dev stack tokens 0 count.

Definition kllm_response_emit_one (dev : kllm_device) (stack : list Z) (token : Z)
    : option (Z * kllm_device) :=
  kllm_response_emit dev stack [token] 1.

Definition kllm_response_eos (dev : kllm_device) : option (Z * kllm_device) :=
  '(rc, dev') ← kllm_ioctl dev KLLM_IOC_EOS;
  Some (if rc <? 0 then rc else 0, dev').

(** ** Lemmas *)

Lemma ioctl_emit_ok dev count ts :
  resp_wf dev -> 0 <= count <= 256 -> len ts = 256 ->
  exists dev', kllm_ioctl dev (KLLM_IOC_EMIT_TOKENS (Some (EmitCmd count ts))) = Some (0, dev') /\
    resp_wf dev' /\ resp_mask dev' = resp_mask dev /\
    resp_contents dev' =
      resp_push (resp_mask dev) (resp_contents dev) (take (Z.to_nat count) ts).
Proof.
  intros Hwf Hc Hl. cbn [kllm_ioctl emit_count emit_tokens].
  destruct (Z.ltb_spec 256 count); [lia|].
  destruct (emit_loop_ok dev ts count Hwf) as (dev' & -> & Hrest); [lia|].
  exists dev'. done.
Qed.

Lemma emit_rounds_ok fuel dev stack tokens sent count :
  resp_wf dev -> len stack = 256 -> 0 <= sent <= count -> count < 2 ^ 32 ->
  count <= len tokens -> count - sent <= Z.of_nat fuel ->
  exists dev', emit_rounds fuel dev stack tokens sent count = Some (0, dev') /\
    resp_wf dev' /\ resp_mask dev' = resp_mask dev /\
    resp_contents dev' = resp_push (resp_mask dev) (resp_contents dev)
      (take (Z.to_nat (count - sent)) (drop (Z.to_nat sent) tokens)).
Proof.
  revert dev stack sent. induction fuel as [|fuel IH];
    intros dev stack sent Hwf Hst Hs Hc Hl Hf; cbn [emit_rounds].
  - destruct (Z.ltb_spec sent count); [lia|]. exists dev. split_and!; [done..|].
    replace (count - sent) with 0 by lia. by rewrite resp_push_nil.
  - destruct (Z.ltb_spec sent count); cycle 1.
    { exists dev. split_and!; [done..|]. replace (count - sent) with 0 by lia.
      by rewrite resp_push_nil. }
    rewrite (wrap_small 32 (count - sent)) by (unfold fits; lia).
    unfold EMIT_BATCH.
    replace (if 256 <? count - sent then 256 else count - sent)
      with (Z.min 256 (count - sent)) by (case_cond; lia).
    set (batch := Z.min 256 (count - sent)).
    rewrite arr_slice_in by lia. cbn [mbind option_bind].
    set (part := take (Z.to_nat batch) (drop (Z.to_nat sent) tokens)).
    assert (length part = Z.to_nat batch) as Hp
      by (unfold part; rewrite length_take, length_drop; lia).
    assert (len (part ++ drop (Z.to_nat batch) stack) = 256) as Hst'
      by (rewrite length_app, length_drop; lia).
    destruct (ioctl_emit_ok dev batch _ Hwf ltac:(lia) Hst') as (d1 & -> & Hwf1 & Hm & Hct).
    cbn [mbind option_bind].
    rewrite (wrap_small 32) by (unfold fits; lia).
    destruct (IH d1 _ (sent + batch) Hwf1 Hst') as (d2 & Heq & Hwf2 & Hm2 & Hct2); [lia..|].
    exists d2. split_and!; [exact Heq|done|congruence|].
    rewrite Hct2, Hm, Hct, take_app_length' by done. rewrite resp_push_app. f_equal.
    unfold part. rewrite Z2Nat.inj_add, <- drop_drop by lia.
    replace (Z.to_nat (count - sent)) with (Z.to_nat batch + Z.to_nat (count - (sent + batch)))%nat by lia.
    apply take_take_drop.
Qed.

Lemma response_emit_one_ok dev stack token :
  resp_wf dev -> len stack = 256 ->
  exists dev', kllm_response_emit_one dev stack token = Some (0, dev') /\ resp_wf dev' /\
    resp_mask dev' = resp_mask dev /\
    resp_contents dev' = resp_push (resp_mask dev) (resp_contents dev) [token].
Proof.
  intros Hwf Hst. apply (emit_rounds_ok 1 dev stack [token] 0 1); done || lia.
Qed.

Lemma response_eos_ok dev :
  resp_wf dev ->
  exists dev', kllm_response_eos dev = Some (0, dev') /\ resp_wf dev' /\
    resp_mask dev' = resp_mask dev /\
    resp_contents dev' = resp_push (resp_mask dev) (resp_contents dev) [EOS_SENTINEL].
Proof.
  intros Hwf. unfold kllm_response_eos, kllm_ioctl.
  destruct (resp_produce_ok dev Hwf EOS_SENTINEL) as (dev' & -> & Hwf' & Hm & _ & Hc & _).
  exists dev'. done.
Qed.

(** A read of a ring that holds tokens, with a large enough buffer. *)
Lemma read_all_ok dev count wait :
  resp_wf dev -> fits 31 count -> 4 * len (resp_contents dev) <= count ->
  resp_contents dev <> [] ->
  exists dev', kllm_read dev count true wait false =
    Some (4 * len (resp_contents dev), resp_contents dev, dev') /\
    resp_wf dev' /\ resp_contents dev' = [].
Proof.
  intros Hwf Hcount Hfit Hne. unfold fits in Hcount. unfold kllm_read.
  rewrite read_align_eq by lia. pose proof (resp_contents_length dev Hwf) as Hl.
  assert (0 < len (resp_contents dev)) by (destruct (resp_contents dev); [done|simpl; lia]).
  destruct (Z.eqb_spec (4 * (count / 4)) 0); [dlia|].
  rewrite resp_count_used by done. destruct (Z.eqb_spec (resp_used dev) 0); [lia|].
  cbn [negb Z.eqb].
  destruct (read_lock_inv dev Hwf (4 * (count / 4))) as [Hinv Hn].
  rewrite Z.mul_comm, Z.div_mul in Hn by lia.
  rewrite wrap_small in Hn by (unfold fits; dlia).
  rewrite Z.min_l in Hn by dlia.
  rewrite (Z.mul_comm 4 (count / 4)). rewrite (Z.mul_comm 4 (count / 4)) in Hinv.
  rewrite (read_copy_ok dev Hwf _ false Hinv). cbn [mbind option_bind].
  rewrite Hn. rewrite take_ge by lia.
  destruct (read_unlock_ok dev Hwf (read_lock dev (count / 4 * 4))) as [Hwf' Hc]; [lia|].
  eexists. split; [by rewrite Hl, Z.mul_comm|]. split; [done|].
  rewrite Hc, Hn. apply drop_ge. lia.
Qed.

(** ** Theorems *)

(** Emitting any number of tokens terminates, returns 0 and appends them to
    the response ring in order, as many as fit: the split into ioctl calls of
    at most 256 tokens cannot be observed. *)
Theorem response_emit_ok dev stack tokens count :
  resp_wf dev -> len stack = 256 -> fits 32 count -> count <= len tokens ->
  exists dev', kllm_response_emit dev stack tokens count = Some (0, dev') /\ resp_wf dev' /\
    resp_contents dev' =
      resp_push (resp_mask dev) (resp_contents dev) (take (Z.to_nat count) tokens).
Proof.
  intros Hwf Hst Hc Hl. unfold fits in Hc.
  destruct (emit_rounds_ok (Z.to_nat count) dev stack tokens 0 count) 
    as (dev' & Heq & Hwf' & _ & Hct); [done|done|lia..|].
  exists dev'. split_and!; [done..|]. rewrite Hct. by rewrite Z.sub_0_r.
Qed.

(** What the server emits is what a client reads: tokens emitted to a
    device with an empty ring that has room for them, followed by the end of the
    sequence, come back from one [read] with a large enough buffer, in order,
    followed by the sentinel word; the ring is then empty. *)
Theorem emit_read_roundtrip dev stack tokens count wait :
  resp_wf dev -> len stack = 256 -> resp_contents dev = [] ->
  len tokens < resp_mask dev -> fits 31 count -> 4 * (len tokens + 1) <= count ->
  exists d1 d2 d3, kllm_response_emit dev stack tokens (len tokens) = Some (0, d1) /\
    kllm_response_eos d1 = Some (0, d2) /\
    kllm_read d2 count true wait false =
      Some (4 * (len tokens + 1), tokens ++ [EOS_SENTINEL], d3) /\
    resp_contents d3 = [].
Proof.
  intros Hwf Hst He Hroom Hcount Hfit. pose proof (resp_size_bounds dev Hwf) as Hsz.
  unfold resp_size in Hsz.
  destruct (emit_rounds_ok (Z.to_nat (len tokens)) dev stack tokens 0 (len tokens))
    as (d1 & Heq & Hwf1 & Hm1 & Hc1); [done|done|lia..|].
  destruct (response_eos_ok d1 Hwf1) as (d2 & Heos & Hwf2 & _ & Hc2).
  assert (resp_contents d2 = tokens ++ [EOS_SENTINEL]) as Hc.
  { rewrite Hc2, Hc1, Hm1, resp_push_app, He. unfold resp_push. cbn [length app].
    change (Z.to_nat 0) with 0%nat. rewrite drop_0, !Z.sub_0_r, (take_ge tokens) by lia.
    rewrite take_ge; [done|]. rewrite length_app. simpl. lia. }
  destruct (read_all_ok d2 count wait Hwf2 Hcount) as (d3 & Hrd & _ & Hc3).
  - rewrite Hc, length_app. simpl. lia.
  - rewrite Hc. by destruct tokens.
  - exists d1, d2, d3. split_and!; [done|done| |done]. rewrite Hrd, Hc, length_app. simpl.
    do 3 f_equal. lia.
Qed.

End response.

#[local] Existing Instance linux_kernel_lib.

Lemma response_emit_ok_witness :
  exists dev', kllm_response_emit (resp_dev 10) (zeroed 256) (seqZ 0 300) 300 = Some (0, dev') /\
    resp_wf dev' /\
    resp_contents dev' = resp_push (resp_mask (resp_dev 10)) (resp_contents (resp_dev 10))
      (take (Z.to_nat 300) (seqZ 0 300)).
Proof.
  apply (response_emit_ok (resp_dev 10) (zeroed 256) (seqZ 0 300) 300).
  - apply resp_dev_wf. lia.
  - reflexivity.
  - vm_compute. split; congruence.
  - vm_compute. congruence.
Defined.

Lemma emit_read_roundtrip_witness :
  exists d1 d2 d3, kllm_response_emit (resp_dev 4) (zeroed 256) [7; 8] 2 = Some (0, d1) /\
    kllm_response_eos d1 = Some (0, d2) /\
    kllm_read d2 64 true (fun d => (0, d)) false = Some (12, [7; 8; EOS_SENTINEL], d3) /\
    resp_contents d3 = [].
Proof.
  apply (emit_read_roundtrip (resp_dev 4) (zeroed 256) [7; 8] 64).
  - apply resp_dev_wf. lia.
  - reflexivity.
  - reflexivity.
  - vm_compute. reflexivity.
  - vm_compute. split; congruence.
  - vm_compute. congruence.
Defined.
