(* ===== verification/Wavefront.v ===== *)
(** * Wavefronts: batches of NVMe reads

    Models [userspace/gpu/nvme_ep_wavefront.c]: the block descriptors, the
    construction of the wavefronts that fetch KV blocks and load weights, and
    the submit and poll functions, which are placeholders in the source.

    SHA-256 is a parameter ([Sha256]); its input is the bytes the code passes.
    Strings are lists of character codes, and [snprintf] is written out with
    its truncation.

    The file proves which keys and destinations a KV fetch asks for (one key per
    128-token prefix, the last one for the whole sequence, at most 64 blocks),
    that sequences with a common prefix share the keys of its full blocks, and
    that a long model path makes the weight-load construction read past its
    buffer. *)

From Stdlib Require Import ZArith Lia.
From stdpp Require Import base numbers list.
From S2P Require Import Prelude BlockFormat.

#[local] Open Scope Z_scope.

(** ** The hash function *)

Class Sha256 : Type := {
  SHA256 : list Z -> list Z;
  sha256_len : forall l, len (SHA256 l) = 32;
}.

(** The bytes of an array of 32-bit words in memory. *)
Definition word_bytes (x : Z) : list Z :=
  [x mod 256; x / 256 mod 256; x / 65536 mod 256; x / 16777216 mod 256].

Definition words_bytes (l : list Z) : list Z := l ≫= word_bytes.

(** ** Strings *)

(** The decimal digits of [n]; a 32-bit number has at most ten. *)
Fixpoint dec_digits (fuel : nat) (n : Z) : list Z :=
  match fuel with
  | O => []
  | S fuel' =>
      if n <? 10 then [48 + n]
      else dec_digits fuel' (n / 10) ++ [48 + n mod 10]
  end.

Definition dec_u32 (n : Z) : list Z := dec_digits 10 n.

(** [snprintf] of the formatted string [s] into a buffer of [size] bytes: the
    buffer after the call and the result, which is the length of [s]. *)
Definition snprintf (buf : list Z) (size : Z) (s : list Z) : list Z * Z :=
  let n := Z.min (len s) (size - 1) in
  (take (Z.to_nat n) s ++ [0] ++ drop (Z.to_nat n + 1) buf, len s).

(** [":layer_"] *)
Definition str_layer : list Z := [58; 108; 97; 121; 101; 114; 95].

(** ** Data *)

Definition KLLM_WAVEFRONT_MAX_BLOCKS : Z := 64.

Record kllm_wf_block_desc : Type := BlockDesc {
  obj_key : list Z;
  vram_dest_addr : Z;
  wb_size : Z;
  layer_start : Z;
  layer_count : Z;
}.

Record kllm_wavefront : Type := Wavefront {
  num_blocks : Z;
  wf_flags : Z;
  sequence_id : Z;
  blocks : list kllm_wf_block_desc;
}.

Definition KLLM_WF_FLAG_WEIGHT_LOAD : Z := Z.shiftl 1 0.
Definition KLLM_WF_FLAG_KV_FETCH : Z := Z.shiftl 1 1.

Record kllm_wf_completion : Type := WfCompletion {
  c_sequence_id : Z;
  blocks_completed : Z;
  blocks_failed : Z;
  total_bytes : Z;
  latency_ns : Z;
}.

Record kllm_wavefront_ctx : Type := WavefrontCtx {
  device_path : option (list Z);
  next_seq_id : Z;
}.

(** A zeroed wavefront. *)
Definition desc0 : kllm_wf_block_desc := BlockDesc (zeroed 32) 0 0 0 0.
Definition wavefront0 : kllm_wavefront :=
  Wavefront 0 0 0 (replicate (Z.to_nat KLLM_WAVEFRONT_MAX_BLOCKS) desc0).

(** ** Operations *)

(** [strdup_ok]: whether the copy of the path could be allocated. *)
Definition kllm_wavefront_create (calloc_ok strdup_ok : bool) (nvme_ep_dev : list Z)
    : option kllm_wavefront_ctx :=
  if negb calloc_ok then None
  else Some (WavefrontCtx (if strdup_ok then Some nvme_ep_dev else None) 1).

Definition kllm_wavefront_submit (ctx : option kllm_wavefront_ctx)
    (wf : option kllm_wavefront) : Z :=
  match ctx, wf with
  | Some _, Some w => if num_blocks w =? 0 then -1 else 0
  | _, _ => -1
  end.

(** The placeholder reports no completion and leaves the caller's array. *)
Definition kllm_wavefront_poll (ctx : option kllm_wavefront_ctx)
    (completions : list kllm_wf_completion) (max_completions : Z)
    : Z * list kllm_wf_completion :=
  (0, completions).

Section build.
Context `{Sha256}.

(** Returns the count and the wavefront.  [token_ids] is the caller's array. *)
Definition kllm_wavefront_build_kv_fetch (token_ids : list Z) (seq_len vram_base_addr
    block_size : Z) : option (Z * kllm_wavefront) :=
  let tokens_per_block := 128 in
  let needed := u32 (u32 (seq_len + tokens_per_block) - 1) / tokens_per_block in
  let needed := if KLLM_WAVEFRONT_MAX_BLOCKS <? needed
                then KLLM_WAVEFRONT_MAX_BLOCKS else needed in
  res ← for_range (R := unit) 0 needed (fun i bs =>
    let prefix_end := u32 (u32 (i + 1) * tokens_per_block) in
    let prefix_end := if seq_len <? prefix_end then seq_len else prefix_end in
    prefix ← arr_slice token_ids 0 prefix_end;
    let desc := BlockDesc (SHA256 (words_bytes prefix))
      (u64 (vram_base_addr + u64 (i * block_size))) block_size 0 0 in
    bs' ← arr_set bs i desc;
    Some (Continue bs')) (blocks wavefront0);
  match res with
  | inr _ => None
  | inl bs => Some (needed, Wavefront needed KLLM_WF_FLAG_KV_FETCH 0 bs)
  end.

(** [stack] is the uninitialised buffer [key_input]. *)
Definition kllm_wavefront_build_weight_load (stack model_path : list Z)
    (layer_start layer_count vram_dest_addr : Z) : option (Z * kllm_wavefront) :=
  let layer_count := if KLLM_WAVEFRONT_MAX_BLOCKS <? layer_count
                     then KLLM_WAVEFRONT_MAX_BLOCKS else layer_count in
  res ← for_range (R := unit) 0 layer_count (fun i bs =>
    let '(key_input, n) := snprintf stack 512
      (model_path ++ str_layer ++ dec_u32 (u32 (layer_start + i))) in
    key ← arr_slice key_input 0 n;
    let desc := BlockDesc (SHA256 key) vram_dest_addr 0 (u32 (layer_start + i)) 1 in
    bs' ← arr_set bs i desc;
    Some (Continue bs')) (blocks wavefront0);
  match res with
  | inr _ => None
  | inl bs => Some (layer_count, Wavefront layer_count KLLM_WF_FLAG_WEIGHT_LOAD 0 bs)
  end.

(** ** Specification *)

(** The key of the [i]-th block: the hash of the tokens up to its end. *)
Definition prefix_key (token_ids : list Z) (seq_len i : Z) : list Z :=
  SHA256 (words_bytes (take (Z.to_nat (Z.min ((i + 1) * 128) seq_len)) token_ids)).

Definition kv_desc (token_ids : list Z) (seq_len base size i : Z) : kllm_wf_block_desc :=
  BlockDesc (prefix_key token_ids seq_len i) (u64 (base + u64 (i * size))) size 0 0.

Definition kv_blocks (seq_len : Z) : Z := Z.min 64 ((seq_len + 127) / 128).

(** ** Lemmas *)

(** A loop that fills the first [n] descriptors. *)
Lemma fill_blocks n (body : Z -> list kllm_wf_block_desc ->
    option (ctl (list kllm_wf_block_desc) unit)) (f : Z -> kllm_wf_block_desc) :
  0 <= n <= 64 ->
  (forall i bs, 0 <= i < n -> len bs = 64 ->
     body i bs = Some (Continue (<[Z.to_nat i := f i]> bs))) ->
  for_range 0 n body (blocks wavefront0) =
    Some (inl ((f <$> seqZ 0 n) ++ replicate (64 - Z.to_nat n) desc0)).
Proof.
  intros Hn Hbody.
  edestruct (for_range_rule (R := unit)
    (fun i bs => bs = (f <$> seqZ 0 i) ++ replicate (64 - Z.to_nat i) desc0)
    (fun o => o = inl ((f <$> seqZ 0 n) ++ replicate (64 - Z.to_nat n) desc0)))
    as (o & -> & ->); [..|done].
  - lia.
  - done.
  - intros i bs Hi ->. rewrite Hbody; [|lia|].
    2:{ rewrite length_app, length_fmap, length_seqZ, length_replicate. lia. }
    eexists. split; [done|]. cbv beta iota.
    rewrite insert_app_r_alt by (rewrite length_fmap, length_seqZ; lia).
    rewrite length_fmap, length_seqZ, Nat.sub_diag.
    rewrite (seqZ_app 0 i 1), fmap_app, <- app_assoc by lia. f_equal.
    replace (64 - Z.to_nat i)%nat with (S (64 - Z.to_nat (i + 1))) by lia. done.
  - intros bs ->. done.
Qed.

Lemma kv_fetch_exact token_ids seq_len base size :
  0 <= seq_len < 2 ^ 32 - 128 -> seq_len <= len token_ids ->
  kllm_wavefront_build_kv_fetch token_ids seq_len base size =
    Some (kv_blocks seq_len,
      Wavefront (kv_blocks seq_len) KLLM_WF_FLAG_KV_FETCH 0
        ((kv_desc token_ids seq_len base size <$> seqZ 0 (kv_blocks seq_len))
           ++ replicate (64 - Z.to_nat (kv_blocks seq_len)) desc0)).
Proof.
  intros Hs Hl. unfold kllm_wavefront_build_kv_fetch.
  rewrite (wrap_small 32 (seq_len + 128)) by (unfold fits; lia).
  rewrite (wrap_small 32 (seq_len + 128 - 1)) by (unfold fits; lia).
  replace (seq_len + 128 - 1) with (seq_len + 127) by lia.
  replace (if KLLM_WAVEFRONT_MAX_BLOCKS <? (seq_len + 127) / 128
           then KLLM_WAVEFRONT_MAX_BLOCKS else (seq_len + 127) / 128)
    with (kv_blocks seq_len)
    by (unfold kv_blocks, KLLM_WAVEFRONT_MAX_BLOCKS; case_cond; lia).
  assert (0 <= kv_blocks seq_len <= 64) as Hk by (unfold kv_blocks; dlia).
  rewrite (fill_blocks (kv_blocks seq_len) _ (kv_desc token_ids seq_len base size)); [done|lia|].
  intros i bs Hi Hb. rewrite (wrap_small 32 (i + 1)) by (unfold fits; lia).
  rewrite (wrap_small 32 ((i + 1) * 128)) by (unfold fits; lia).
  replace (if seq_len <? (i + 1) * 128 then seq_len else (i + 1) * 128)
    with (Z.min ((i + 1) * 128) seq_len) by (case_cond; lia).
  rewrite arr_slice_in by lia. cbn [mbind option_bind].
  rewrite arr_set_in by lia. cbn [mbind option_bind]. rewrite drop_0. done.
Qed.

(** The string a weight key is made of. *)
Definition weight_string (model_path : list Z) (layer : Z) : list Z :=
  model_path ++ str_layer ++ dec_u32 layer.

Lemma snprintf_fits buf size s :
  len s < size -> len buf = size ->
  arr_slice (fst (snprintf buf size s)) 0 (snd (snprintf buf size s)) = Some s.
Proof.
  intros Hs Hb. unfold snprintf. simpl. rewrite Z.min_l by lia.
  rewrite Nat2Z.id, take_ge by lia.
  rewrite arr_slice_in by (rewrite ?length_app; simpl; lia).
  rewrite drop_0, Nat2Z.id. by rewrite take_app_length.
Qed.

Lemma snprintf_overrun buf size s :
  1 <= size < len s -> len buf = size ->
  arr_slice (fst (snprintf buf size s)) 0 (snd (snprintf buf size s)) = None.
Proof.
  intros Hs Hb. unfold snprintf. simpl. rewrite Z.min_r by lia.
  apply arr_slice_out. rewrite length_app, length_take. simpl. rewrite length_drop. lia.
Qed.

(** ** Theorems *)

(** A KV fetch asks for the first 64 blocks of the sequence: block [i] is
    keyed by the hash of the tokens up to the end of the block (the last block
    of a sequence of at most 8192 tokens by the hash of the whole sequence) and
    goes to its own place in VRAM.  Two sequences that share their first [n]
    tokens ask for the same keys for all full blocks of the shared prefix. *)
Theorem kv_fetch_keys token_ids seq_len base size :
  0 <= seq_len < 2 ^ 32 - 128 -> seq_len <= len token_ids ->
  exists wf, kllm_wavefront_build_kv_fetch token_ids seq_len base size =
      Some (num_blocks wf, wf) /\
    num_blocks wf = Z.min 64 ((seq_len + 127) / 128) /\ len (blocks wf) = 64 /\
    (forall i, 0 <= i < num_blocks wf -> exists d, blocks wf !! Z.to_nat i = Some d /\
       obj_key d = prefix_key token_ids seq_len i /\
       vram_dest_addr d = u64 (base + u64 (i * size)) /\ len (obj_key d) = 32) /\
    (1 <= seq_len <= 8192 -> prefix_key token_ids seq_len (num_blocks wf - 1) =
       SHA256 (words_bytes (take (Z.to_nat seq_len) token_ids))) /\
    (forall other n i, take (Z.to_nat n) other = take (Z.to_nat n) token_ids ->
       0 <= i -> (i + 1) * 128 <= n -> n <= seq_len ->
       prefix_key other n i = prefix_key token_ids seq_len i).
Proof.
  intros Hs Hl. rewrite (kv_fetch_exact token_ids seq_len base size Hs Hl).
  eexists (Wavefront _ _ _ _). split; [reflexivity|]. simpl.
  assert (0 <= kv_blocks seq_len <= 64) as Hk by (unfold kv_blocks; dlia).
  split_and!.
  - done.
  - rewrite length_app, length_fmap, length_seqZ, length_replicate. lia.
  - intros i Hi. exists (kv_desc token_ids seq_len base size i). split.
    + rewrite lookup_app_l by (rewrite length_fmap, length_seqZ; lia).
      rewrite list_lookup_fmap, lookup_seqZ_lt by lia. simpl. do 2 f_equal. lia.
    + split_and!; [done..|]. apply sha256_len.
  - intros H8. unfold prefix_key. do 4 f_equal. unfold kv_blocks. dlia.
  - intros other n i Hsh Hi Hn Hns. unfold prefix_key. do 2 f_equal.
    rewrite !Z.min_l by lia.
    replace (Z.to_nat ((i + 1) * 128)) with (Z.to_nat ((i + 1) * 128) `min` Z.to_nat n)%nat by lia.
    by rewrite <- !take_take, Hsh.
Qed.

(** Weight keys: when path, separator and layer number fit the 512-byte
    buffer, layer [layer_start + i] is keyed by the hash of
    "path:layer_N"; when the string is longer than the buffer the hash reads
    past its end, which is undefined behaviour. *)
Theorem weight_load_keys stack path first count dest :
  len stack = 512 -> 0 < count ->
  ((forall i, 0 <= i < Z.min 64 count -> len (weight_string path (u32 (first + i))) < 512) ->
     exists wf, kllm_wavefront_build_weight_load stack path first count dest =
         Some (num_blocks wf, wf) /\ num_blocks wf = Z.min 64 count /\
       forall i, 0 <= i < num_blocks wf -> exists d, blocks wf !! Z.to_nat i = Some d /\
         obj_key d = SHA256 (weight_string path (u32 (first + i))) /\
         layer_start d = u32 (first + i)) /\
  (512 < len (weight_string path (u32 first)) ->
     kllm_wavefront_build_weight_load stack path first count dest = None).
Proof.
  intros Hst Hc. unfold kllm_wavefront_build_weight_load.
  replace (if KLLM_WAVEFRONT_MAX_BLOCKS <? count then KLLM_WAVEFRONT_MAX_BLOCKS else count)
    with (Z.min 64 count) by (unfold KLLM_WAVEFRONT_MAX_BLOCKS; case_cond; lia).
  split.
  - intros Hfit. set (f := fun i => BlockDesc (SHA256 (weight_string path (wrap 32 (first + i))))
      dest 0 (wrap 32 (first + i)) 1).
    rewrite (fill_blocks (Z.min 64 count) _ f); [|lia|].
    2:{ intros i bs Hi Hb. pose proof (snprintf_fits stack 512 _ (Hfit i Hi) Hst) as Hs.
        unfold weight_string in Hs. destruct (snprintf stack 512 _) as [key n]. simpl in Hs.
        rewrite Hs. cbn [mbind option_bind]. by rewrite arr_set_in by lia. }
    eexists (Wavefront _ _ _ _). split; [reflexivity|]. simpl. split; [done|].
    intros i Hi. exists (f i).
    split; [|done].
    rewrite lookup_app_l by (rewrite length_fmap, length_seqZ; lia).
    rewrite list_lookup_fmap, lookup_seqZ_lt by lia. simpl. do 2 f_equal. lia.
  - intros Hlong. unfold for_range. rewrite Z.sub_0_r.
    destruct (Z.to_nat (Z.min 64 count)) as [|n] eqn:En; [lia|]. cbn [for_loop].
    rewrite Z.add_0_r. pose proof (snprintf_overrun stack 512 _ ltac:(split; [lia|exact Hlong]) Hst) as Hs.
    unfold weight_string in Hs. destruct (snprintf stack 512 _) as [key k]. simpl in Hs.
    by rewrite Hs.
Qed.

End build.

(** A hash of the right length, to evaluate the theorems. *)
#[local] Instance demo_sha : Sha256.
Proof.
  refine {| SHA256 l := [foldr Z.add 0 l mod 256] ++ zeroed 31 |}.
  intros l. rewrite length_app. reflexivity.
Defined.

Lemma kv_fetch_keys_witness :
  exists wf, kllm_wavefront_build_kv_fetch (seqZ 0 200) 200 4096 1000 = Some (num_blocks wf, wf) /\
    num_blocks wf = 2.
Proof.
  destruct (kv_fetch_keys (seqZ 0 200) 200 4096 1000) as (wf & Hwf & Hn & _).
  - lia.
  - vm_compute. congruence.
  - exists wf. split; [exact Hwf|]. rewrite Hn. reflexivity.
Defined.

(** A path of 600 characters. *)
Lemma weight_load_keys_witness :
  kllm_wavefront_build_weight_load (zeroed 512) (replicate 600 97) 0 1 4096 = None.
Proof.
  apply (weight_load_keys (zeroed 512) (replicate 600 97) 0 1 4096).
  - reflexivity.
  - lia.
  - vm_compute. reflexivity.
Defined.
