(* ===== verification/Gpu.v ===== *)
(** * The GPU: peer-to-peer memory and the attention backends

    Models [userspace/gpu/p2p_dma.c] and [userspace/gpu/gpu_attention.c].  The
    process state [proc] holds the open descriptors and the mapped regions;
    [open], [mmap] and [dlopen] results are arguments; the attention kernels of
    the three backends (compiled from the CUDA, HIP and SYCL sources) are the
    class [GpuBackends].

    Several functions are placeholders in the source (device memory, buffer
    registration); they are modelled as the placeholders they are.  The file
    proves that the P2P operations give back what they acquired, and that a
    discrete GPU or a missing one makes region allocation, respectively
    attention, fail. *)

From Stdlib Require Import ZArith Lia SpecFloat.
From stdpp Require Import base numbers list gmap.
From S2P Require Import Prelude Floats Wavefront.

#[local] Open Scope Z_scope.

(** ** Peer-to-peer memory *)

Record proc : Type := Proc {
  open_fds : gset Z;
  mapped : list (Z * Z);
}.

Definition close_fd (ps : proc) (fd : Z) : proc :=
  Proc (open_fds ps ∖ {[fd]}) (mapped ps).

Definition unmap (ps : proc) (addr size : Z) : proc :=
  Proc (open_fds ps) (filter (fun m => m <> (addr, size)) (mapped ps)).

Definition KLLM_P2P_FLAG_UMA : Z := Z.shiftl 1 0.
Definition KLLM_P2P_FLAG_PINNED : Z := Z.shiftl 1 1.

Record kllm_p2p_region : Type := P2pRegion {
  gpu_va : Z;
  bus_addr : Z;
  size_bytes : Z;
  dma_buf_fd : Z;
  r_gpu_id : Z;
  r_flags : Z;
}.

Definition region0 : kllm_p2p_region := P2pRegion 0 0 0 0 0 0.

Record kllm_p2p_ctx : Type := P2pCtx {
  gpu_id : Z;
  drm_fd : Z;
  is_uma : Z;
}.

(** "/dev/dri/renderD" *)
Definition str_render : list Z :=
  [47; 100; 101; 118; 47; 100; 114; 105; 47; 114; 101; 110; 100; 101; 114; 68].

(** [open] maps a path to a descriptor or a negative number. *)
Definition kllm_p2p_create (calloc_ok : bool) (open : list Z -> Z) (gpu_id : Z) (ps : proc)
    : option kllm_p2p_ctx * proc :=
  if negb calloc_ok then (None, ps)
  else
    let path := str_render ++ dec_u32 (u32 (128 + gpu_id)) in
    let fd := open path in
    if fd <? 0 then (Some (P2pCtx gpu_id (-1) 1), ps)
    else (Some (P2pCtx gpu_id fd 0), Proc ({[fd]} ∪ open_fds ps) (mapped ps)).

Definition kllm_p2p_destroy (ctx : option kllm_p2p_ctx) (ps : proc) : proc :=
  match ctx with
  | None => ps
  | Some c => if 0 <=? drm_fd c then close_fd ps (drm_fd c) else ps
  end.

(** [mmap] with and without huge pages; returns the result, the region and the
    process. *)
Definition kllm_p2p_alloc_region (ctx : kllm_p2p_ctx) (size : Z)
    (mmap_huge mmap_plain : option Z) (ps : proc) : Z * kllm_p2p_region * proc :=
  let out := P2pRegion 0 0 size 0 (gpu_id ctx) 0 in
  if negb (is_uma ctx =? 0) then
    let ptr := match mmap_huge with Some p => Some p | None => mmap_plain end in
    match ptr with
    | None => (-1, out, ps)
    | Some p =>
        (0, P2pRegion p 0 size (-1) (gpu_id ctx)
              (Z.lor KLLM_P2P_FLAG_UMA KLLM_P2P_FLAG_PINNED),
         Proc (open_fds ps) ((p, size) :: mapped ps))
    end
  else (-1, out, ps).

Definition kllm_p2p_free_region (region : kllm_p2p_region) (ps : proc)
    : kllm_p2p_region * proc :=
  let ps :=
    if negb (Z.land (r_flags region) KLLM_P2P_FLAG_UMA =? 0) then
      if negb (gpu_va region =? 0) then unmap ps (gpu_va region) (size_bytes region) else ps
    else if 0 <=? dma_buf_fd region then close_fd ps (dma_buf_fd region) else ps in
  (region0, ps).

Definition kllm_p2p_register_spdk (ctx : kllm_p2p_ctx) (region : kllm_p2p_region) : Z := 0.

(** The second component is the key written through [rkey_out]. *)
Definition kllm_p2p_register_rdma (ctx : kllm_p2p_ctx) (region : kllm_p2p_region)
    (rkey_out : option Z) : Z * option Z :=
  (0, match rkey_out with Some _ => Some 0 | None => None end).

Definition kllm_p2p_check_topology (gpu_id : Z) (nic_pci_addr : list Z) : Z := 1.

(** ** The attention backends *)

Inductive kllm_gpu_backend : Type :=
| KLLM_GPU_NONE | KLLM_GPU_XE | KLLM_GPU_CUDA | KLLM_GPU_ROCM.

Record kllm_gpu_attention_params : Type := GpuAttentionParams {
  ga_output : Z;
  ga_query : Z;
  ga_block_tables : list Z;
  ga_seq_lens : list Z;
  ga_num_seqs : Z;
  ga_num_heads : Z;
  ga_num_kv_heads : Z;
  ga_head_dim : Z;
  ga_max_blocks_per_seq : Z;
  ga_scale : spec_float;
  ga_stream : option Z;
}.

(** The launchers of the device kernels, by their result. *)
Class GpuBackends : Type := {
  paged_attention_xe : kllm_gpu_attention_params -> option Z -> Z;
  paged_attention_cuda : kllm_gpu_attention_params -> option Z -> Z;
  paged_attention_rocm : kllm_gpu_attention_params -> option Z -> Z;
}.

Record kllm_gpu_ctx : Type := GpuCtx {
  backend : kllm_gpu_backend;
  stream : option Z;
  lib_handle : option Z;
}.

(** Which of the three runtime libraries [dlopen] finds. *)
Definition detect_gpu (has_ze has_cuda has_hip : bool) : kllm_gpu_backend :=
  if has_ze then KLLM_GPU_XE
  else if has_cuda then KLLM_GPU_CUDA
  else if has_hip then KLLM_GPU_ROCM
  else KLLM_GPU_NONE.

Definition kllm_gpu_create (calloc_ok has_ze has_cuda has_hip : bool) : option kllm_gpu_ctx :=
  if negb calloc_ok then None
  else Some (GpuCtx (detect_gpu has_ze has_cuda has_hip) None None).

Definition kllm_gpu_get_backend (ctx : kllm_gpu_ctx) : kllm_gpu_backend := backend ctx.

Definition kllm_gpu_paged_attention `{GpuBackends} (ctx : kllm_gpu_ctx)
    (p : kllm_gpu_attention_params) : Z :=
  let st := match ga_stream p with Some s => Some s | None => stream ctx end in
  match backend ctx with
  | KLLM_GPU_XE => paged_attention_xe p st
  | KLLM_GPU_CUDA => paged_attention_cuda p st
  | KLLM_GPU_ROCM => paged_attention_rocm p st
  | KLLM_GPU_NONE => -1
  end.

(** Placeholders: no device memory. *)
Definition kllm_gpu_malloc (ctx : kllm_gpu_ctx) (size : Z) : option Z := None.

Definition kllm_gpu_memcpy_h2d (ctx : kllm_gpu_ctx) (dst src size : Z) : Z := -1.

Definition kllm_gpu_get_stream (ctx : kllm_gpu_ctx) : option Z := stream ctx.

(** ** Lemmas *)

Lemma filter_fresh (m : Z * Z) (l : list (Z * Z)) : m ∉ l -> filter (fun x => x <> m) l = l.
Proof.
  induction l as [|x l IH]; intros Hm; [done|]. rewrite not_elem_of_cons in Hm.
  destruct Hm as [Hne Hm]. rewrite filter_cons_True by done. f_equal. auto.
Qed.

(** ** Theorems *)

(** The P2P memory of a GPU: without a render node (unified memory) a
    region is mapped once, and freeing it and destroying the context give the
    process back exactly what it had; with a render node (a discrete GPU) no
    region can be allocated, and the context still releases its descriptor.
    A freed region is zeroed, so a second free would close descriptor 0. *)
Theorem p2p_lifecycle open id size mmap_huge mmap_plain ps :
  let fd := open (str_render ++ dec_u32 (u32 (128 + id))) in
  exists ctx ps1, kllm_p2p_create true open id ps = (Some ctx, ps1) /\
  let '(rc, region, ps2) := kllm_p2p_alloc_region ctx size mmap_huge mmap_plain ps1 in
  let '(region', ps3) := kllm_p2p_free_region region ps2 in
  (0 <= fd -> rc = -1 /\ ps2 = ps1 /\ kllm_p2p_destroy (Some ctx) ps2 = close_fd ps1 fd) /\
  (fd < 0 ->
     ps1 = ps /\
     (rc = 0 \/ (rc = -1 /\ mmap_huge = None /\ mmap_plain = None /\ ps2 = ps)) /\
     (rc = 0 -> exists p, (mmap_huge = Some p \/ mmap_plain = Some p) /\ gpu_va region = p /\
        ps2 = Proc (open_fds ps) ((p, size) :: mapped ps) /\
        (p <> 0 -> ((p, size) ∉ mapped ps) ->
           kllm_p2p_destroy (Some ctx) ps3 = ps))) /\
  snd (kllm_p2p_free_region region' ps) = close_fd ps 0.
Proof.
  cbn zeta. unfold kllm_p2p_create. cbn [negb].
  set (fd := open _). destruct (Z.ltb_spec fd 0).
  - do 2 eexists. split; [done|]. unfold kllm_p2p_alloc_region. cbn [is_uma Z.eqb negb gpu_id].
    destruct (match mmap_huge with Some p => Some p | None => mmap_plain end) as [p|] eqn:E;
      cbn [kllm_p2p_free_region]; split_and!; try lia; try done.
    + intros _. split_and!; [done|by left|]. intros _. exists p.
      split; [destruct mmap_huge; naive_solver|]. split_and!; [done..|].
      intros Hp Hn. cbn. destruct (Z.eqb_spec p 0); [done|]. cbn. unfold unmap. simpl.
      rewrite filter_cons_False by (intros Hne; by apply Hne).
      destruct ps as [fds maps]. simpl in *. f_equal.
      by apply filter_fresh.
    + intros _. split_and!; [done| |done]. right. destruct mmap_huge; naive_solver.
  - do 2 eexists. split; [done|]. unfold kllm_p2p_alloc_region. cbn [is_uma Z.eqb negb gpu_id].
    cbn [kllm_p2p_free_region]. split_and!; try lia; [|done].
    intros _. split_and!; [done..|]. unfold kllm_p2p_destroy. cbn [drm_fd].
    destruct (Z.leb_spec 0 fd); [done|lia].
Qed.
