(* ===== verification/InferGpu.v ===== *)
(** * GPU inference

    Models [userspace/compute/infer_gpu.c]: the context with its VRAM regions
    and block table, the fetch of the KV blocks in wavefronts of at most 64, and
    the inference function with its escalation entry.

    The fetch ends in a loop that polls for completions, so the outcome of a
    call is an [exec]: it finishes, runs out of the polls it was given, or has
    undefined behaviour.  The wavefronts handed to [kllm_wavefront_submit] are
    recorded in a log, which the source does not have; everything else is the
    source's state.

    The file proves that the fetch submits every block of the sequence exactly
    once and in order, in full wavefronts and a last partial one, and that it then
    never returns, because the poll function of [Wavefront.v] reports no
    completion. *)

From Stdlib Require Import ZArith Lia SpecFloat.
From stdpp Require Import base numbers list gmap.
From S2P Require Import Prelude Floats BlockFormat Wavefront Gpu.

#[local] Open Scope Z_scope.

(** ** Outcomes *)

Inductive exec (A : Type) : Type :=
| Done (a : A)
| OutOfFuel
| Undef.

Arguments Done {A} a.
Arguments OutOfFuel {A}.
Arguments Undef {A}.

Definition exec_of {A} (o : option A) : exec A :=
  match o with Some a => Done a | None => Undef end.

Definition exec_bind {A B} (x : exec A) (f : A -> exec B) : exec B :=
  match x with
  | Done a => f a
  | OutOfFuel => OutOfFuel
  | Undef => Undef
  end.

(** The computation has a result, which satisfies [P]; where [b] holds it may
    have none. *)
Definition yields {A} (b : bool) (x : exec A) (P : A -> Prop) : Prop :=
  match x with
  | Done a => P a
  | OutOfFuel | Undef => b = true
  end.

Lemma yields_false {A} (x : exec A) P : yields false x P -> exists a, x = Done a /\ P a.
Proof. destruct x as [a| |]; intros Hx; [by exists a|done..]. Qed.

Lemma yields_bind {A B} b (x : exec A) (f : A -> exec B) P Q :
  yields b x P -> (forall a, P a -> yields b (f a) Q) -> yields b (exec_bind x f) Q.
Proof. destruct x; cbn; auto. Qed.

Lemma yields_impl {A} b b' (x : exec A) P Q :
  yields b x P -> (b = true -> b' = true) -> (forall a, P a -> Q a) -> yields b' x Q.
Proof. destruct x; cbn; auto. Qed.

(** ** Data *)

(** [struct kllm_infer_result] of [infer_cpu.h]; a null pointer is [None]. *)
Record kllm_infer_result : Type := InferResult {
  logits : option (list spec_float);
  res_vocab_size : Z;
  next_token : Z;
}.

Record kllm_infer_gpu_config : Type := InferGpuConfig {
  gc_gpu : kllm_gpu_ctx;
  gc_wf : option kllm_wavefront_ctx;
  gc_gpu_id : Z;
  gc_model : kllm_model_config;
  gc_vocab_size : Z;
  gc_max_seq_len : Z;
}.

Record kllm_infer_gpu_ctx : Type := InferGpuCtx {
  ig_gpu : kllm_gpu_ctx;
  ig_wf : option kllm_wavefront_ctx;
  ig_p2p : kllm_p2p_ctx;
  ig_model : kllm_model_config;
  kv_region : kllm_p2p_region;
  logits_region : kllm_p2p_region;
  host_logits : option (list spec_float);
  ig_vocab_size : Z;
  block_table : option (list Z);
  max_blocks : Z;
}.

(** The outcomes of the calls [kllm_infer_gpu_create] makes. *)
Record create_env : Type := CreateEnv {
  ce_calloc : bool;
  ce_p2p_calloc : bool;
  ce_open : list Z -> Z;
  ce_mmap_kv : option Z * option Z;
  ce_mmap_logits : option Z * option Z;
  ce_host_calloc : bool;
  ce_table_calloc : bool;
}.

(** ** Operations *)

Definition kllm_infer_gpu_destroy (ctx : option kllm_infer_gpu_ctx) (ps : proc) : proc :=
  match ctx with
  | None => ps
  | Some c =>
      let '(_, ps) := kllm_p2p_free_region (logits_region c) ps in
      let '(_, ps) := kllm_p2p_free_region (kv_region c) ps in
      kllm_p2p_destroy (Some (ig_p2p c)) ps
  end.

(** The block table: the place of each block in the KV region. *)
Definition init_block_table (table : list Z) (n gpu_va block_bytes : Z) : option (list Z) :=
  res ← for_range (R := unit) 0 n (fun i t =>
    t' ← arr_set t i (u64 (gpu_va + u64 (i * block_bytes))); Some (Continue t')) table;
  match res with inl t => Some t | inr _ => None end.

(** The outer [None] is a division by zero tokens per block. *)
Definition kllm_infer_gpu_create (env : create_env) (cfg : kllm_infer_gpu_config) (ps : proc)
    : option (option kllm_infer_gpu_ctx * proc) :=
  if negb (ce_calloc env) then Some (None, ps)
  else
    match kllm_p2p_create (ce_p2p_calloc env) (ce_open env) (gc_gpu_id cfg) ps with
    | (None, ps) => Some (None, ps)
    | (Some p2p, ps) =>
        let block_bytes := kllm_block_total_bytes (gc_model cfg) in
        let tpb := tokens_per_block (gc_model cfg) in
        if tpb =? 0 then None
        else
          let needed := u32 (u32 (gc_max_seq_len cfg + tpb) - 1) / tpb in
          let kv_size := u64 (block_bytes * needed) in
          let '(rc, kv, ps) := kllm_p2p_alloc_region p2p kv_size
            (fst (ce_mmap_kv env)) (snd (ce_mmap_kv env)) ps in
          if rc <? 0 then Some (None, kllm_p2p_destroy (Some p2p) ps)
          else
            let _ := kllm_p2p_register_spdk p2p kv in
            let logits_size := u64 (gc_vocab_size cfg * 4) in
            let '(rc, lg, ps) := kllm_p2p_alloc_region p2p logits_size
              (fst (ce_mmap_logits env)) (snd (ce_mmap_logits env)) ps in
            if rc <? 0 then
              let '(_, ps) := kllm_p2p_free_region kv ps in
              Some (None, kllm_p2p_destroy (Some p2p) ps)
            else
              let host := if ce_host_calloc env
                then Some (replicate (Z.to_nat (gc_vocab_size cfg)) f32_zero) else None in
              let table := if ce_table_calloc env then Some (zeroed needed) else None in
              let ctx := InferGpuCtx (gc_gpu cfg) (gc_wf cfg) p2p (gc_model cfg) kv lg
                host (gc_vocab_size cfg) table needed in
              match host, table with
              | Some _, Some t =>
                  t' ← init_block_table t needed (gpu_va kv) block_bytes;
                  Some (Some (InferGpuCtx (gc_gpu cfg) (gc_wf cfg) p2p (gc_model cfg) kv lg
                    host (gc_vocab_size cfg) (Some t') needed), ps)
              | _, _ => Some (None, kllm_infer_gpu_destroy (Some ctx) ps)
              end
    end.

(** The wait for completions: [fuel] polls. *)
Fixpoint wait_completions (fuel : nat) (wf : option kllm_wavefront_ctx)
    (comp : list kllm_wf_completion) (completed submitted : Z) : exec Z :=
  if completed <? submitted then
    match fuel with
    | O => OutOfFuel
    | S fuel' =>
        let '(n, comp') := kllm_wavefront_poll wf comp 1 in
        if 0 <? n then
          exec_bind (exec_of (arr_get comp' 0)) (fun c =>
            wait_completions fuel' wf comp' (u32 (completed + blocks_completed c)) submitted)
        else wait_completions fuel' wf comp' completed submitted
    end
  else Done 0.

Section fetch.
Context `{Sha256} `{GpuBackends}.

(** The state of the loop that builds the wavefronts. *)
Record fetch_state : Type := FetchState {
  fs_wf : kllm_wavefront;
  fs_submitted : Z;
  fs_log : list kllm_wavefront;
}.

Definition fetch_step (ctx : kllm_infer_gpu_ctx) (token_ids : list Z) (seq_len : Z)
    (b : Z) (st : fetch_state) : option (ctl fetch_state Z) :=
  let tpb := tokens_per_block (ig_model ctx) in
  let block_bytes := kllm_block_total_bytes (ig_model ctx) in
  let wf := fs_wf st in
  let prefix_len := u32 (u32 (b + 1) * tpb) in
  let prefix_len := if seq_len <? prefix_len then seq_len else prefix_len in
  prefix ← arr_slice token_ids 0 prefix_len;
  table ← block_table ctx;
  dest ← arr_get table b;
  bs ← arr_set (blocks wf) (num_blocks wf)
    (BlockDesc (SHA256 (words_bytes prefix)) dest (u32 block_bytes) 0 (num_layers (ig_model ctx)));
  let wf := Wavefront (u32 (num_blocks wf + 1)) (wf_flags wf) (sequence_id wf) bs in
  if KLLM_WAVEFRONT_MAX_BLOCKS <=? num_blocks wf then
    if kllm_wavefront_submit (ig_wf ctx) (Some wf) <? 0 then Some (Return (-1))
    else Some (Continue (FetchState
      (Wavefront 0 (wf_flags wf) (sequence_id wf) (blocks wf))
      (u32 (fs_submitted st + num_blocks wf))
      (fs_log st ++ [wf])))
  else Some (Continue (FetchState wf (fs_submitted st) (fs_log st))).

(** The submission part of [fetch_kv_blocks]: the number of submitted blocks and
    the log, or the error return. *)
Definition submit_blocks (ctx : kllm_infer_gpu_ctx) (token_ids : list Z) (seq_len : Z)
    : option ((Z * list kllm_wavefront) + Z) :=
  let tpb := tokens_per_block (ig_model ctx) in
  if tpb =? 0 then None
  else
    let n := u32 (u32 (seq_len + tpb) - 1) / tpb in
    res ← for_range 0 n (fetch_step ctx token_ids seq_len)
      (FetchState (Wavefront 0 KLLM_WF_FLAG_KV_FETCH 0 (blocks wavefront0)) 0 []);
    match res with
    | inr rc => Some (inr rc)
    | inl st =>
        let wf := fs_wf st in
        if 0 <? num_blocks wf then
          if kllm_wavefront_submit (ig_wf ctx) (Some wf) <? 0 then Some (inr (-1))
          else Some (inl (u32 (fs_submitted st + num_blocks wf),
                          fs_log st ++ [wf]))
        else Some (inl (fs_submitted st, fs_log st))
    end.

(** [comp] is the uninitialised completion on the stack. *)
Definition fetch_kv_blocks (fuel : nat) (comp : kllm_wf_completion)
    (ctx : kllm_infer_gpu_ctx) (token_ids : list Z) (seq_len : Z) : exec Z :=
  exec_bind (exec_of (submit_blocks ctx token_ids seq_len)) (fun r =>
    match r with
    | inr rc => Done rc
    | inl (submitted, _) => wait_completions fuel (ig_wf ctx) [comp] 0 submitted
    end).

(** [calloc_ok] for the logits of the result. *)
Definition kllm_infer_gpu (fuel : nat) (comp : kllm_wf_completion) (calloc_ok : bool)
    (ctx : option kllm_infer_gpu_ctx) (token_ids : list Z) (seq_len : Z)
    (result : kllm_infer_result) : exec (Z * kllm_infer_result) :=
  match ctx with
  | None => Done (-1, result)
  | Some c =>
      if seq_len =? 0 then Done (-1, result)
      else exec_bind (fetch_kv_blocks fuel comp c token_ids seq_len) (fun rc =>
        if rc <? 0 then Done (-1, result)
        else
          let tpb := tokens_per_block (ig_model c) in
          let n := u32 (u32 (seq_len + tpb) - 1) / tpb in
          let hd := head_dim (ig_model c) in
          let heads := num_kv_heads (ig_model c) in
          let query_size := u64 (u64 (heads * hd) * 2) in
          match kllm_gpu_malloc (ig_gpu c) query_size, kllm_gpu_malloc (ig_gpu c) query_size with
          | Some q, Some out =>
              let rc := kllm_gpu_paged_attention (ig_gpu c) (GpuAttentionParams out q
                (default [] (block_table c)) [seq_len] 1 heads heads hd n
                (f32_div f32_one (f32_sqrt (f32_of_Z hd))) (kllm_gpu_get_stream (ig_gpu c))) in
              if rc <? 0 then Done (-1, result)
              else
                let lg := match logits result with
                  | Some l => Some l
                  | None => if calloc_ok
                      then Some (replicate (Z.to_nat (ig_vocab_size c)) f32_zero) else None
                  end in
                match lg with
                | None => Done (-1, result)
                | Some l =>
                    exec_bind (exec_of (argmax l (ig_vocab_size c))) (fun idx =>
                      Done (0, InferResult (Some l) (ig_vocab_size c) idx))
                end
          | _, _ => Done (-1, result)
          end)
  end.

Definition kllm_infer_gpu_escalate (fuel : nat) (comp : kllm_wf_completion) (calloc_ok : bool)
    (ctx : option kllm_infer_gpu_ctx) (token_ids : list Z) (seq_len : Z)
    (result : kllm_infer_result) : exec (Z * kllm_infer_result) :=
  match ctx with
  | None => Done (-1, result)
  | Some _ =>
      if seq_len =? 0 then Done (-1, result)
      else kllm_infer_gpu fuel comp calloc_ok ctx token_ids seq_len result
  end.

(** ** Specification *)

Definition seq_blocks (ctx : kllm_infer_gpu_ctx) (seq_len : Z) : Z :=
  (seq_len + tokens_per_block (ig_model ctx) - 1) / tokens_per_block (ig_model ctx).

(** The descriptor of block [b] of a sequence. *)
Definition block_desc (ctx : kllm_infer_gpu_ctx) (table token_ids : list Z) (seq_len b : Z)
    : kllm_wf_block_desc :=
  BlockDesc (SHA256 (words_bytes (take
      (Z.to_nat (Z.min ((b + 1) * tokens_per_block (ig_model ctx)) seq_len)) token_ids)))
    (table !!! Z.to_nat b) (u32 (kllm_block_total_bytes (ig_model ctx))) 0
    (num_layers (ig_model ctx)).

(** A wavefront that fetches the [n] blocks from [lo] on. *)
Definition fetches (ctx : kllm_infer_gpu_ctx) (table token_ids : list Z) (seq_len lo n : Z)
    (wf : kllm_wavefront) : Prop :=
  num_blocks wf = n /\ wf_flags wf = KLLM_WF_FLAG_KV_FETCH /\ sequence_id wf = 0 /\
  take (Z.to_nat n) (blocks wf) = block_desc ctx table token_ids seq_len <$> seqZ lo n.

(** A context and a sequence of at least one token. *)
Record fetch_pre (ctx : kllm_infer_gpu_ctx) (table token_ids : list Z) (seq_len : Z) : Prop := {
  fr_tpb : 1 <= tokens_per_block (ig_model ctx);
  fr_seq : 1 <= seq_len <= len token_ids;
  fr_u32 : seq_len + tokens_per_block (ig_model ctx) < 2 ^ 32;
  fr_table : block_table ctx = Some table;
}.

(** There is a device to fetch from, and the block table covers the sequence. *)
Definition fetch_ready (ctx : kllm_infer_gpu_ctx) (table token_ids : list Z) (seq_len : Z) : Prop :=
  fetch_pre ctx table token_ids seq_len /\ is_Some (ig_wf ctx) /\
  seq_blocks ctx seq_len <= len table.

(** Before block [b]: the full wavefronts are in the log, and the current one holds
    the blocks since. *)
Record fetch_inv (ctx : kllm_infer_gpu_ctx) (table token_ids : list Z) (seq_len b : Z)
    (st : fetch_state) : Prop := {
  fi_mem : len (blocks (fs_wf st)) = 64;
  fi_cur : fetches ctx table token_ids seq_len (64 * (b / 64)) (b mod 64) (fs_wf st);
  fi_sub : fs_submitted st = 64 * (b / 64);
  fi_len : len (fs_log st) = b / 64;
  fi_log : forall k wf, fs_log st !! k = Some wf ->
    fetches ctx table token_ids seq_len (64 * Z.of_nat k) 64 wf;
}.

(** ** Lemmas *)

Lemma submit_some w wf : 0 < num_blocks wf -> kllm_wavefront_submit (Some w) (Some wf) = 0.
Proof. intros. unfold kllm_wavefront_submit. by destruct (Z.eqb_spec (num_blocks wf) 0); [lia|]. Qed.

Lemma take_filled {A} (l : list A) k x :
  (k < length l)%nat -> take (S k) (<[k := x]> l) = take k l ++ [x].
Proof.
  intros. rewrite (take_S_r _ _ x) by (by apply list_lookup_insert_eq).
  by rewrite take_insert_ge.
Qed.

Lemma fetch_step_ok ctx table token_ids seq_len b st :
  fetch_pre ctx table token_ids seq_len -> 0 <= b < seq_blocks ctx seq_len ->
  b < len table -> fetch_inv ctx table token_ids seq_len b st ->
  exists c, fetch_step ctx token_ids seq_len b st = Some c /\
    match c with
    | Continue st' => fetch_inv ctx table token_ids seq_len (b + 1) st' /\ (ig_wf ctx = None -> b + 1 < 64 * (b / 64 + 1))
    | Break _ => False
    | Return rc => rc = -1 /\ ig_wf ctx = None
    end.
Proof.
  intros [Htpb Hseq Hu32 Htab] Hb Hcov [Hmem (Hnum & Hfl & Hid & Hcur) Hsub Hlen Hlog].
  pose proof (Z.mod_pos_bound b 64 ltac:(lia)) as Hm. pose proof (Z.div_mod b 64 ltac:(lia)) as Hdm.
  unfold fetch_step, seq_blocks in *. set (tpb := tokens_per_block (ig_model ctx)) in *.
  assert ((b + 1) * tpb <= seq_len + tpb - 1) as Hbt.
  { pose proof (Z.mul_div_le (seq_len + tpb - 1) tpb ltac:(lia)). nia. }
  assert (b < seq_len) as Hbs by nia.
  rewrite (wrap_small 32 (b + 1)) by (unfold fits; lia).
  rewrite (wrap_small 32 ((b + 1) * tpb)) by (unfold fits; nia).
  replace (if seq_len <? (b + 1) * tpb then seq_len else (b + 1) * tpb)
    with (Z.min ((b + 1) * tpb) seq_len) by (case_cond; lia).
  rewrite arr_slice_in by nia. cbn [mbind option_bind]. rewrite Htab. cbn [mbind option_bind].
  rewrite arr_get_total by lia. cbn [mbind option_bind].
  rewrite arr_set_in by lia. cbn [mbind option_bind num_blocks]. rewrite drop_0, Hnum.
  change (BlockDesc _ _ _ _ _) with (block_desc ctx table token_ids seq_len b).
  rewrite (wrap_small 32 (b mod 64 + 1)) by (unfold fits; lia).
  set (bs := <[_ := _]> (blocks (fs_wf st))).
  assert (len bs = 64) as Hbl by (unfold bs; by rewrite length_insert).
  assert (fetches ctx table token_ids seq_len (64 * (b / 64)) (b mod 64 + 1)
    (Wavefront (b mod 64 + 1) (wf_flags (fs_wf st)) (sequence_id (fs_wf st)) bs)) as Hnew.
  { split; [done|]. split; [done|]. split; [done|]. cbn [blocks]. unfold bs.
    replace (Z.to_nat (b mod 64 + 1)) with (S (Z.to_nat (b mod 64))) by lia.
    rewrite take_filled by lia. rewrite Hcur, seqZ_app, fmap_app by lia. cbn [seqZ].
    rewrite <- Hdm. done. }
  unfold KLLM_WAVEFRONT_MAX_BLOCKS. destruct (Z.leb_spec 64 (b mod 64 + 1)).
  - destruct (ig_wf ctx) as [w|] eqn:Hw.
    2:{ eexists. split; [done|]. done. }
    rewrite submit_some by (simpl; lia). cbn [Z.ltb Z.compare].
    eexists. split; [done|]. split; [|done]. rewrite (wrap_small 32) by (unfold fits; lia).
    assert ((b + 1) / 64 = b / 64 + 1) as Hd by (Z.to_euclidean_division_equations; lia).
    assert ((b + 1) mod 64 = 0) as Hz by (Z.to_euclidean_division_equations; lia).
    split; cbn [fs_wf fs_submitted fs_log blocks]; rewrite ?Hd, ?Hz; [done| |lia| |].
    + split; [done|]. by split_and!.
    + rewrite length_app. simpl. lia.
    + intros k wf. rewrite lookup_app_Some. intros [Hk|[Hge Hk]]; [by apply Hlog|].
      destruct (k - length (fs_log st))%nat eqn:Ek; simplify_eq/=.
      replace (64 * Z.of_nat k) with (64 * (b / 64)) by lia.
      assert (b mod 64 + 1 = 64) as H64 by lia. rewrite H64 in *. exact Hnew.
  - assert ((b + 1) / 64 = b / 64) as Hd by (Z.to_euclidean_division_equations; lia).
    assert ((b + 1) mod 64 = b mod 64 + 1) as Hz by (Z.to_euclidean_division_equations; lia).
    eexists. split; [done|]. split; [|lia]. split; cbn [fs_wf fs_submitted fs_log blocks]; rewrite ?Hd, ?Hz; done.
Qed.

Lemma fetch_inv_init ctx table token_ids seq_len :
  fetch_inv ctx table token_ids seq_len 0
    (FetchState (Wavefront 0 KLLM_WF_FLAG_KV_FETCH 0 (blocks wavefront0)) 0 []).
Proof. by split. Qed.

(** What the log of a fetch of [n] blocks holds. *)
Definition fetched (ctx : kllm_infer_gpu_ctx) (table token_ids : list Z) (seq_len n : Z)
    (log : list kllm_wavefront) : Prop :=
  len log = (n + 63) / 64 /\
  forall k wf, log !! k = Some wf ->
    fetches ctx table token_ids seq_len (64 * Z.of_nat k) (Z.min 64 (n - 64 * Z.of_nat k)) wf.

Lemma fetch_inv_log ctx table token_ids seq_len n st :
  0 <= n -> fetch_inv ctx table token_ids seq_len n st ->
  fetched ctx table token_ids seq_len n
    (if 0 <? n mod 64 then fs_log st ++ [fs_wf st] else fs_log st).
Proof.
  intros Hn [_ Hcur _ Hlen Hlog]. pose proof (Z.mod_pos_bound n 64 ltac:(lia)).
  pose proof (Z.div_mod n 64 ltac:(lia)).
  assert (forall k wf, fs_log st !! k = Some wf ->
    fetches ctx table token_ids seq_len (64 * Z.of_nat k) (Z.min 64 (n - 64 * Z.of_nat k)) wf) as Hfull.
  { intros k wf Hk. pose proof (lookup_lt_Some _ _ _ Hk). rewrite Z.min_l by lia. by apply Hlog. }
  destruct (Z.ltb_spec 0 (n mod 64)); split; [| | |exact Hfull].
  - rewrite length_app. simpl. Z.to_euclidean_division_equations; lia.
  - intros k wf. rewrite lookup_app_Some. intros [Hk|[Hge Hk]]; [by apply Hfull|].
    destruct (k - length (fs_log st))%nat eqn:Ek; simplify_eq/=.
    replace (64 * Z.of_nat k) with (64 * (n / 64)) by lia.
    replace (Z.min 64 (n - 64 * (n / 64))) with (n mod 64) by lia. exact Hcur.
  - Z.to_euclidean_division_equations; lia.
Qed.

Lemma submit_blocks_ok ctx table token_ids seq_len :
  fetch_pre ctx table token_ids seq_len -> seq_blocks ctx seq_len <= len table ->
  match ig_wf ctx with
  | Some _ => exists log, submit_blocks ctx token_ids seq_len = Some (inl (seq_blocks ctx seq_len, log)) /\
      fetched ctx table token_ids seq_len (seq_blocks ctx seq_len) log
  | None => submit_blocks ctx token_ids seq_len = Some (inr (-1))
  end.
Proof.
  intros Hr Hcov. pose proof Hr as [Htpb Hseq Hu32 Htab]. unfold submit_blocks.
  destruct (Z.eqb_spec (tokens_per_block (ig_model ctx)) 0) as [|_]; [lia|].
  rewrite (wrap_small 32 (seq_len + _)) by (unfold fits; lia).
  rewrite (wrap_small 32) by (unfold fits; lia). fold (seq_blocks ctx seq_len).
  set (n := seq_blocks ctx seq_len) in *.
  assert (1 <= n < 2 ^ 32) as Hsb.
  { unfold n, seq_blocks. split; [apply Z.div_le_lower_bound; lia|]. apply Z.div_lt_upper_bound; nia. }
  destruct (for_range_rule (R := Z)
    (fun b st => fetch_inv ctx table token_ids seq_len b st /\ (ig_wf ctx = None -> b < 64))
    (fun o => match o with
      | inl st => fetch_inv ctx table token_ids seq_len n st /\ (ig_wf ctx = None -> n < 64)
      | inr rc => rc = -1 /\ ig_wf ctx = None end)
    (fetch_step ctx token_ids seq_len) 0 n
    (FetchState (Wavefront 0 KLLM_WF_FLAG_KV_FETCH 0 (blocks wavefront0)) 0 [])) as (o & -> & Ho).
  - lia.
  - split; [apply fetch_inv_init|lia].
  - intros b st Hb [Hinv Hlt].
    destruct (fetch_step_ok ctx table token_ids seq_len b st) as (c & -> & Hc); [done|done|lia|done|].
    eexists. split; [done|]. destruct c as [st'|st'|rc]; [|done|done]. destruct Hc as [Hi Hn]. split; [done|].
    intros Hw. specialize (Hlt Hw). specialize (Hn Hw). rewrite (Z.div_small b 64) in Hn by lia. lia.
  - auto.
  - cbn [mbind option_bind]. destruct o as [st|rc].
    2:{ destruct Ho as [-> ->]. done. }
    destruct Ho as [Hinv Hlt]. pose proof (fetch_inv_log _ _ _ _ n st ltac:(lia) Hinv) as Hlog.
    destruct Hinv as [_ (Hnum & _) Hsub _ _]. rewrite Hnum in *.
    pose proof (Z.mod_pos_bound n 64 ltac:(lia)). pose proof (Z.div_mod n 64 ltac:(lia)).
    destruct (ig_wf ctx) as [w|].
    + destruct (Z.ltb_spec 0 (n mod 64)).
      * rewrite submit_some by lia. cbn [Z.ltb Z.compare].
        rewrite wrap_small by (unfold fits; lia). eexists. split; [|exact Hlog]. do 3 f_equal. lia.
      * eexists. split; [|exact Hlog]. do 3 f_equal. lia.
    + specialize (Hlt eq_refl). rewrite Z.mod_small in * by lia.
      by rewrite (proj2 (Z.ltb_lt 0 n)) by lia.
Qed.

(** A sequence that the table does not cover. *)
Lemma submit_blocks_overrun ctx table token_ids seq_len :
  fetch_pre ctx table token_ids seq_len -> is_Some (ig_wf ctx) -> len table < seq_blocks ctx seq_len ->
  submit_blocks ctx token_ids seq_len = None.
Proof.
  intros Hr [w Hw] Hlong. pose proof Hr as [Htpb Hseq Hu32 Htab]. unfold submit_blocks.
  destruct (Z.eqb_spec (tokens_per_block (ig_model ctx)) 0); [lia|].
  rewrite (wrap_small 32 (seq_len + _)) by (unfold fits; lia).
  rewrite (wrap_small 32) by (unfold fits; lia). fold (seq_blocks ctx seq_len).
  rewrite (for_range_undef (fetch_inv ctx table token_ids seq_len) _ _ _ (len table)); [done|lia| | |].
  - apply fetch_inv_init.
  - intros b st Hb Hinv.
    destruct (fetch_step_ok ctx table token_ids seq_len b st) as (c & Hc & Hres); [done|lia|lia|done|].
    destruct c as [st'|st'|rc]; [by exists st'; destruct Hres|done|]. destruct Hres. congruence.
  - intros st _. unfold fetch_step. rewrite Htab.
    destruct (arr_slice token_ids 0 _); [|done]. cbn [mbind option_bind].
    destruct (arr_get table (len table)) eqn:E; [|done].
    apply arr_get_range in E. lia.
Qed.

(** What a call leaves, if it returns: on success the logits of the result, or
    fresh ones. *)
Lemma infer_gpu_leaves fuel comp ok c token_ids seq_len result rc result' :
  kllm_infer_gpu fuel comp ok (Some c) token_ids seq_len result = Done (rc, result') ->
  rc < 0 /\ result' = result \/
  res_vocab_size result' = ig_vocab_size c /\ exists l, logits result' = Some l /\
    l = default (replicate (Z.to_nat (ig_vocab_size c)) f32_zero) (logits result).
Proof.
  unfold kllm_infer_gpu. intros Hrun.
  destruct (seq_len =? 0); [left; by simplify_eq|].
  destruct (fetch_kv_blocks fuel comp c token_ids seq_len) as [r| |]; cbn [exec_bind] in Hrun; [|done..].
  destruct (r <? 0); [left; by simplify_eq|].
  destruct (kllm_gpu_malloc _ _) as [q|]; [|left; by simplify_eq].
  destruct (kllm_gpu_paged_attention _ _ <? 0); [left; by simplify_eq|].
  destruct (logits result) as [l|]; [|destruct ok; [|left; by simplify_eq]];
    (destruct (argmax _ _); cbn [exec_of exec_bind] in Hrun; [|done]); simplify_eq;
    right; (split; [done|]); by eexists.
Qed.

Lemma wait_hangs fuel wf comp submitted :
  0 < submitted -> wait_completions fuel wf comp 0 submitted = OutOfFuel.
Proof.
  intros Hs. revert comp. induction fuel as [|fuel IH]; intros comp; simpl;
    (destruct (Z.ltb_spec 0 submitted); [|lia]); [done|]. apply IH.
Qed.

(** ** Theorems *)

(** C26. The fetch of the [n] blocks of a sequence that the block table covers
    submits them exactly once and in order, in full wavefronts of 64 blocks and a
    last one with the rest: wavefront [k] is a KV fetch of the blocks from [64 * k]
    on, block [b] keyed by the hash of the tokens up to its end and sent to entry
    [b] of the block table.  Without a wavefront context it returns -1.  A sequence
    that the table does not cover makes it read past the end of the table. *)
Theorem fetch_submits_all ctx table token_ids seq_len :
  fetch_pre ctx table token_ids seq_len ->
  let n := seq_blocks ctx seq_len in
  match ig_wf ctx with
  | Some _ =>
      if n <=? len table then
        exists log, submit_blocks ctx token_ids seq_len = Some (inl (n, log)) /\
          len log = (n + 63) / 64 /\
          forall k, 0 <= k < (n + 63) / 64 -> exists wf, log !! Z.to_nat k = Some wf /\
            num_blocks wf = Z.min 64 (n - 64 * k) /\ wf_flags wf = KLLM_WF_FLAG_KV_FETCH /\
            forall b, 0 <= b < num_blocks wf ->
              blocks wf !! Z.to_nat b = Some (block_desc ctx table token_ids seq_len (64 * k + b))
      else submit_blocks ctx token_ids seq_len = None
  | None => n <= len table -> submit_blocks ctx token_ids seq_len = Some (inr (-1))
  end.
Proof.
  intros Hr n. pose proof (submit_blocks_ok ctx table token_ids seq_len Hr) as Hs.
  pose proof (submit_blocks_overrun ctx table token_ids seq_len Hr) as Hover. fold n in Hs, Hover.
  destruct (ig_wf ctx) as [w|]; [|exact Hs].
  destruct (Z.leb_spec n (len table)); [|apply Hover; [by eexists|done]].
  destruct Hs as (log & Hs & Hl & Hk); [done|]. exists log. split; [done|]. split; [done|].
  intros k Hkr. destruct (lookup_lt_is_Some_2 log (Z.to_nat k)) as [wf Hwf]; [lia|].
  exists wf. split; [done|]. destruct (Hk _ _ Hwf) as (Hnum & Hfl & _ & Hbl).
  rewrite Z2Nat.id in * by lia. split; [done|]. split; [done|]. intros b Hb.
  assert (take (Z.to_nat (Z.min 64 (n - 64 * k))) (blocks wf) !! Z.to_nat b =
    Some (block_desc ctx table token_ids seq_len (64 * k + b))) as Hl2.
  { rewrite Hbl, list_lookup_fmap, lookup_seqZ_lt by lia. simpl. do 2 f_equal. lia. }
  by rewrite lookup_take_lt in Hl2 by lia.
Qed.

(** GPU inference on a sequence the block table covers never returns: after
    any number of polls it is still waiting for the first completion, and so is
    the escalation from the CPU path. *)
Theorem infer_gpu_never_returns fuel comp ok ctx table token_ids seq_len result :
  fetch_ready ctx table token_ids seq_len ->
  fetch_kv_blocks fuel comp ctx token_ids seq_len = OutOfFuel /\
  kllm_infer_gpu fuel comp ok (Some ctx) token_ids seq_len result = OutOfFuel /\
  kllm_infer_gpu_escalate fuel comp ok (Some ctx) token_ids seq_len result = OutOfFuel.
Proof.
  intros (Hr & [w Hw] & Hcov). pose proof Hr as [Htpb Hseq _ _].
  assert (fetch_kv_blocks fuel comp ctx token_ids seq_len = OutOfFuel) as Hf.
  { pose proof (submit_blocks_ok _ _ _ _ Hr Hcov) as Hs. rewrite Hw in Hs. destruct Hs as (log & Hs & _).
    unfold fetch_kv_blocks. rewrite Hs. simpl. apply wait_hangs. apply Z.div_str_pos. lia. }
  assert (kllm_infer_gpu fuel comp ok (Some ctx) token_ids seq_len result = OutOfFuel) as Hg.
  { unfold kllm_infer_gpu. destruct (Z.eqb_spec seq_len 0); [lia|]. by rewrite Hf. }
  split_and!; [done..|]. unfold kllm_infer_gpu_escalate.
  by destruct (Z.eqb_spec seq_len 0); [lia|].
Qed.

(** A sequence longer than the one the context was created for makes the
    fetch read past the end of the block table, which is undefined behaviour. *)
Theorem fetch_overruns_table fuel comp ctx table token_ids seq_len :
  fetch_pre ctx table token_ids seq_len -> is_Some (ig_wf ctx) ->
  len table < seq_blocks ctx seq_len ->
  fetch_kv_blocks fuel comp ctx token_ids seq_len = Undef.
Proof.
  intros Hr Hw Hlong. unfold fetch_kv_blocks. by rewrite (submit_blocks_overrun _ _ _ _ Hr Hw Hlong).
Qed.

End fetch.

(** ** Creation and destruction *)

(** A mapping [mmap] returns is not null and not one the process has. *)
Definition fresh_map (ps : proc) (size : Z) (mm : option Z * option Z) : Prop :=
  forall p, (fst mm = Some p \/ snd mm = Some p) -> p <> 0 /\ (p, size) ∉ mapped ps.

Definition uma_region (p size id : Z) : kllm_p2p_region := P2pRegion p 0 size (-1) id 3.

Lemma alloc_uma ctx size mm ps :
  is_uma ctx = 1 ->
  (exists r, kllm_p2p_alloc_region ctx size (fst mm) (snd mm) ps = (-1, r, ps)) \/
  (exists p, (fst mm = Some p \/ snd mm = Some p) /\
     kllm_p2p_alloc_region ctx size (fst mm) (snd mm) ps =
       (0, uma_region p size (gpu_id ctx), Proc (open_fds ps) ((p, size) :: mapped ps))).
Proof.
  intros Hu. unfold kllm_p2p_alloc_region. rewrite Hu. cbn [Z.eqb negb].
  destruct mm as [[p|] [q|]]; simpl; eauto 10.
Qed.

Lemma free_uma p size id ps :
  p <> 0 -> ((p, size) ∉ mapped ps) ->
  kllm_p2p_free_region (uma_region p size id) (Proc (open_fds ps) ((p, size) :: mapped ps)) =
    (region0, ps).
Proof.
  intros Hp Hf. unfold kllm_p2p_free_region. cbn.
  destruct (Z.eqb_spec p 0); [done|]. cbn. unfold unmap. cbn [mapped open_fds].
  rewrite filter_cons_False by (intros Hne; by apply Hne). rewrite filter_fresh by done.
  by destruct ps.
Qed.

Lemma init_block_table_ok n va bytes :
  0 <= n ->
  init_block_table (zeroed n) n va bytes =
    Some ((fun i => u64 (va + u64 (i * bytes))) <$> seqZ 0 n).
Proof.
  intros Hn. unfold init_block_table. set (f := fun i => wrap 64 (va + wrap 64 (i * bytes))).
  edestruct (for_range_rule (R := unit)
    (fun i t => t = (f <$> seqZ 0 i) ++ replicate (Z.to_nat (n - i)) 0)
    (fun o => o = inl (f <$> seqZ 0 n))) as (o & -> & ->); [..|done].
  - lia.
  - unfold zeroed. by rewrite Z.sub_0_r.
  - intros i t Hi ->. cbv beta.
    rewrite arr_set_in by (rewrite length_app, length_fmap, length_seqZ, length_replicate; lia).
    eexists. split; [done|]. cbv beta iota.
    rewrite insert_app_r_alt by (rewrite length_fmap, length_seqZ; lia).
    rewrite length_fmap, length_seqZ, Nat.sub_diag.
    rewrite (seqZ_app 0 i 1), fmap_app, <- app_assoc by lia. f_equal.
    replace (Z.to_nat (n - i)) with (S (Z.to_nat (n - (i + 1)))) by lia. done.
  - intros t ->. by rewrite Z.sub_diag, app_nil_r.
Qed.

(** Creating a GPU context gives everything back on each failure path
    (on a machine with a render node it always fails); otherwise entry [i] of
    its block table is the place of block [i] in the KV region, for every
    block of the longest sequence, and destroying the context restores the
    process. *)
Theorem infer_gpu_create_ok env cfg ps :
  let tpb := tokens_per_block (gc_model cfg) in
  let bytes := kllm_block_total_bytes (gc_model cfg) in
  let n := (gc_max_seq_len cfg + tpb - 1) / tpb in
  let fd := ce_open env (str_render ++ dec_u32 (u32 (128 + gc_gpu_id cfg))) in
  1 <= tpb -> 0 <= gc_max_seq_len cfg -> gc_max_seq_len cfg + tpb < 2 ^ 32 ->
  (fd ∉ open_fds ps) ->
  fresh_map ps (u64 (bytes * n)) (ce_mmap_kv env) ->
  (forall p, fst (ce_mmap_kv env) = Some p \/ snd (ce_mmap_kv env) = Some p ->
     fresh_map (Proc (open_fds ps) ((p, u64 (bytes * n)) :: mapped ps))
       (u64 (gc_vocab_size cfg * 4)) (ce_mmap_logits env)) ->
  exists r ps', kllm_infer_gpu_create env cfg ps = Some (r, ps') /\
    kllm_infer_gpu_destroy r ps' = ps /\
    match r with
    | None => ps' = ps
    | Some ctx => fd < 0 /\ max_blocks ctx = n /\
        exists t, block_table ctx = Some t /\ len t = n /\
          forall i, 0 <= i < n ->
            t !! Z.to_nat i = Some (u64 (gpu_va (kv_region ctx) + u64 (i * bytes)))
    end.
Proof.
  intros tpb bytes n fd Htpb Hms Hu32 Hfd Hkv Hlg. unfold kllm_infer_gpu_create.
  destruct (ce_calloc env); cbn [negb]; [|by exists None, ps].
  unfold kllm_p2p_create. destruct (ce_p2p_calloc env); cbn [negb]; [|by exists None, ps].
  fold fd. fold tpb. fold bytes.
  rewrite (wrap_small 32 (gc_max_seq_len cfg + tpb)) by (unfold fits; lia).
  rewrite (wrap_small 32) by (unfold fits; lia). fold n.
  assert (0 <= n) as Hn by (apply Z.div_pos; lia).
  destruct (Z.eqb_spec tpb 0); [lia|]. destruct (Z.ltb_spec fd 0); cycle 1.
  { exists None, ps. split; [|done]. unfold kllm_p2p_alloc_region, kllm_p2p_destroy.
    cbn [is_uma Z.eqb negb Z.ltb Z.compare drm_fd].
    destruct (Z.leb_spec 0 fd); [|lia]. unfold close_fd. cbn [open_fds mapped].
    destruct ps as [fds maps]. cbn in *. do 3 f_equal. set_solver. }
  set (p2p := P2pCtx (gc_gpu_id cfg) (-1) 1).
  destruct (alloc_uma p2p (wrap 64 (bytes * n)) (ce_mmap_kv env) ps eq_refl)
    as [(r & ->)|(p & Hp & ->)]; [by exists None, ps|]. cbn [Z.ltb Z.compare].
  destruct (Hkv p Hp) as [Hp0 Hpf]. set (ps1 := Proc _ ((p, _) :: _)) in *.
  destruct (alloc_uma p2p (wrap 64 (gc_vocab_size cfg * 4)) (ce_mmap_logits env) ps1 eq_refl)
    as [(r & ->)|(q & Hq & ->)]; cbn [Z.ltb Z.compare].
  { exists None, ps. subst ps1. rewrite free_uma by done. done. }
  destruct (Hlg p Hp q Hq) as [Hq0 Hqf]. fold ps1 in Hqf.
  assert (forall h v t b, kllm_infer_gpu_destroy (Some (InferGpuCtx (gc_gpu cfg) (gc_wf cfg) p2p
      (gc_model cfg) (uma_region p (wrap 64 (bytes * n)) (gpu_id p2p))
      (uma_region q (wrap 64 (gc_vocab_size cfg * 4)) (gpu_id p2p)) h v t b))
      (Proc (open_fds ps1) ((q, wrap 64 (gc_vocab_size cfg * 4)) :: mapped ps1)) = ps) as Hdes.
  { intros h v t b. unfold kllm_infer_gpu_destroy. cbn [logits_region kv_region ig_p2p].
    rewrite free_uma by done. subst ps1. by rewrite free_uma by done. }
  destruct (ce_host_calloc env), (ce_table_calloc env);
    try (exists None, ps; by rewrite Hdes).
  rewrite init_block_table_ok by done. cbn [mbind option_bind].
  do 2 eexists. split; [reflexivity|]. split; [apply Hdes|]. cbn [max_blocks block_table kv_region].
  split_and!; [done..|]. eexists. split; [done|]. split.
  - rewrite length_fmap, length_seqZ. lia.
  - intros i Hi. rewrite list_lookup_fmap, lookup_seqZ_lt by lia.
    by replace (0 + Z.of_nat (Z.to_nat i)) with i by lia.
Qed.

#[local] Existing Instance demo_sha.

#[local] Instance demo_backends : GpuBackends :=
  {| paged_attention_xe _ _ := 0; paged_attention_cuda _ _ := 0; paged_attention_rocm _ _ := 0 |}.

(** Blocks of 4 tokens and a table of 100 blocks. *)
Definition demo_gpu : kllm_infer_gpu_ctx :=
  InferGpuCtx (GpuCtx KLLM_GPU_CUDA None None) (Some (WavefrontCtx None 1)) (P2pCtx 0 (-1) 1)
    (ModelConfig 1 1 8 4) region0 region0 None 10 (Some (seqZ 0 100)) 100.

Definition demo_comp : kllm_wf_completion := WfCompletion 0 0 0 0 0.

Lemma demo_gpu_pre n : 1 <= n <= 1000 -> fetch_pre demo_gpu (seqZ 0 100) (zeroed 1000) n.
Proof.
  intros Hn. split; [simpl; lia| |simpl; lia|done].
  rewrite zeroed_len; lia.
Qed.

Lemma fetch_submits_all_witness :
  exists log, submit_blocks demo_gpu (zeroed 1000) 300 = Some (inl (75, log)) /\ len log = 2 /\
    exists wf, log !! 1%nat = Some wf /\ num_blocks wf = 11.
Proof.
  destruct (fetch_submits_all demo_gpu (seqZ 0 100) (zeroed 1000) 300) as (log & Hs & Hl & Hk).
  - apply demo_gpu_pre. lia.
  - exists log. split; [exact Hs|]. split; [exact Hl|].
    destruct (Hk 1) as (wf & Hw & Hn & _); [vm_compute; split; congruence|].
    exists wf. split; [exact Hw|exact Hn].
Defined.

Lemma infer_gpu_never_returns_witness :
  kllm_infer_gpu 50 demo_comp true (Some demo_gpu) (zeroed 1000) 300 (InferResult None 0 0)
    = OutOfFuel.
Proof.
  destruct (infer_gpu_never_returns 50 demo_comp true demo_gpu (seqZ 0 100) (zeroed 1000) 300
    (InferResult None 0 0)) as (_ & Hg & _); [|exact Hg].
  split; [apply demo_gpu_pre; lia|]. split; [by eexists|]. vm_compute. congruence.
Defined.

Lemma fetch_overruns_table_witness :
  fetch_kv_blocks 1 demo_comp demo_gpu (zeroed 1000) 401 = Undef.
Proof.
  apply (fetch_overruns_table 1 demo_comp demo_gpu (seqZ 0 100)).
  - apply demo_gpu_pre. lia.
  - by eexists.
  - vm_compute. reflexivity.
Defined.

(** An integrated GPU, a sequence of at most 300 tokens in blocks of 4. *)
Definition demo_env : create_env :=
  CreateEnv true true (fun _ => -1) (None, Some 4096) (Some 8192, None) true true.

Definition demo_config : kllm_infer_gpu_config :=
  InferGpuConfig (GpuCtx KLLM_GPU_CUDA None None) None 0 (ModelConfig 1 1 8 4) 10 300.

Lemma infer_gpu_create_ok_witness :
  exists r ps', kllm_infer_gpu_create demo_env demo_config (Proc ∅ []) = Some (r, ps') /\
    kllm_infer_gpu_destroy r ps' = Proc ∅ [].
Proof.
  destruct (infer_gpu_create_ok demo_env demo_config (Proc ∅ [])) as (r & ps' & Hc & Hd & _).
  - vm_compute. congruence.
  - vm_compute. congruence.
  - vm_compute. reflexivity.
  - apply not_elem_of_empty.
  - intros p [Hp|Hp]; simplify_eq/=. split; [lia|apply not_elem_of_nil].
  - intros p [Hp|Hp]; simplify_eq/=. intros q [Hq|Hq]; simplify_eq/=.
    split; [lia|]. rewrite list_elem_of_singleton. congruence.
  - exists r, ps'. split; [exact Hc|exact Hd].
Defined.
