(* ===== verification/Attention.v ===== *)
(** * BF16 attention on the CPU

    Models [userspace/compute/ace_attention.c]: the BF16 conversions, the probe
    of the instruction set, and the scalar and AVX-512 attention kernels behind
    [kllm_ace_attention].  A tensor is read through a function from element
    numbers to elements, [None] outside of the memory the caller gave; the
    variable-length array of scores starts uninitialised.  The exponential of
    the C library, the bits of a NaN and the AVX-512 intrinsics are parameters.
    The kernels are written once for any type of numbers ([Arith], [ArithFns]);
    the code's are the floats ([f32_arith], [f32_fns]), and [ExactAttention] takes
    the real numbers.

    The file proves that the BF16 conversion rounds to the nearest value, ties
    to even, and that the loops compute softmax(Q K^T scale) V for every head
    and query position within the bounds of the tensors they are given. *)

From Stdlib Require Import ZArith Lia SpecFloat.
From stdpp Require Import base numbers list.
From S2P Require Import Prelude Floats.

#[local] Open Scope Z_scope.

(** ** What the kernels use of the platform *)

(** The bits of a NaN have all exponent bits and some mantissa bit set. *)
Definition is_nan_bits (bits : Z) : Prop :=
  fits 32 bits /\ Z.land (Z.shiftr bits 23) 0xFF = 0xFF /\ Z.land bits 0x7FFFFF <> 0.

Class Libm : Type := {
  expf : spec_float -> spec_float;
  nan_bits : Z;
  nan_bits_ok : is_nan_bits nan_bits;
}.

(** [_mm512_dpbf16_ps] on 16 lanes and 32 BF16 values, [_mm512_reduce_add_ps]. *)
Class Avx512 (F : Type) : Type := {
  dpbf16_ps : list F -> list Z -> list Z -> list F;
  reduce_add_ps : list F -> F;
}.

(** The instruction sets the file is compiled for. *)
Record build : Type := Build {
  has_amx_bf16 : bool;
  has_avx512_bf16 : bool;
}.

(** ** Data *)

Inductive kllm_isa_level : Type :=
| ISA_NONE | ISA_AVX512_BF16 | ISA_AMX_BF16 | ISA_ACE_BF16.

Record kllm_attention_params (F : Type) : Type := AttentionParams {
  at_num_heads : Z;
  at_head_dim : Z;
  at_seq_len : Z;
  query_len : Z;
  at_scale : F;
}.

Arguments AttentionParams {F} _ _ _ _ _.
Arguments at_num_heads {F} _.
Arguments at_head_dim {F} _.
Arguments at_seq_len {F} _.
Arguments query_len {F} _.
Arguments at_scale {F} _.

(** A pointer to BF16 elements that are only read. *)
Definition tensor : Type := Z -> option Z.

(** ** Operations *)

(** [cpuid leaf subleaf] is EAX, EBX, ECX, EDX; [g] the global before. *)
Definition kllm_ace_probe (cpuid : Z -> Z -> Z * Z * Z * Z) (g : kllm_isa_level)
    : kllm_isa_level :=
  let '(eax, _, _, _) := cpuid 7 1 in
  let g := if negb (Z.land eax (Z.shiftl 1 5) =? 0) then ISA_AVX512_BF16 else g in
  let '(_, _, _, edx) := cpuid 7 0 in
  if negb (Z.land edx (Z.shiftl 1 22) =? 0) then ISA_AMX_BF16 else g.

Definition bf16_to_f32 (val : Z) : spec_float := f32_of_bits (u32 (Z.shiftl val 16)).

(** The rounding on the bits of the float. *)
Definition bf16_round (bits : Z) : Z :=
  let bits := u32 (bits + (0x7FFF + Z.land (Z.shiftr bits 16) 1)) in
  u16 (Z.shiftr bits 16).

Definition f32_to_bf16 `{Libm} (val : spec_float) : Z := bf16_round (bits_of_f32 nan_bits val).

(** ** Arithmetic

    The kernels are programs over a type of numbers: [float] in the code, with
    [f32_arith] and [f32_fns].  The conversions to and from BF16 belong to it. *)

Class Arith (F : Type) : Type := {
  a_zero : F;
  a_neg_inf : F;
  a_add : F -> F -> F;
  a_sub : F -> F -> F;
  a_mul : F -> F -> F;
  a_div : F -> F -> F;
  a_gt : F -> F -> bool;
  a_of_bf16 : Z -> F;
}.

Class ArithFns (F : Type) : Type := {
  a_exp : F -> F;
  a_to_bf16 : F -> Z;
}.

#[export] Instance f32_arith : Arith spec_float := {|
  a_zero := f32_zero; a_neg_inf := f32_neg_infinity; a_add := f32_add; a_sub := f32_sub;
  a_mul := f32_mul; a_div := f32_div; a_gt := float_gt; a_of_bf16 := bf16_to_f32;
|}.

#[export] Instance f32_fns `{Libm} : ArithFns spec_float :=
  {| a_exp := expf; a_to_bf16 := f32_to_bf16 |}.

(** [acc += x * y] *)
Definition mac {F : Type} `{Arith F} (acc x y : F) : F := a_add acc (a_mul x y).

(** [(a * num_heads + h) * head_dim] *)
Definition vec_offset {F : Type} (p : kllm_attention_params F) (a h : Z) : Z :=
  u32 (u32 (u32 (a * at_num_heads p) + h) * at_head_dim p).

(** An element of an array whose elements start uninitialised. *)
Definition arr_init {A} (l : list (option A)) (i : Z) : option A := mjoin (arr_get l i).

(** The score of one key: the scalar loop. *)
Definition score_scalar {F : Type} `{Arith F} (p : kllm_attention_params F) (q k : tensor) (qo ko : Z)
    : option F :=
  res ← for_range (R := unit) 0 (at_head_dim p) (fun d dot =>
    a ← q (qo + d); b ← k (ko + d);
    Some (Continue (mac dot (a_of_bf16 a) (a_of_bf16 b)))) a_zero;
  match res with inl dot => Some (a_mul dot (at_scale p)) | inr _ => None end.

Definition load_si512 (t : tensor) (o : Z) : option (list Z) := mapM t (seqZ o 32).

Section kernels.
Context {F : Type} `{Arith F} `{ArithFns F} `{Avx512 F}.

(** The loop over 32 elements at a time: the accumulator and where it stops.
    [None] with no fuel left. *)
Fixpoint avx512_chunks (fuel : nat) (p : kllm_attention_params F) (q k : tensor) (qo ko d : Z)
    (acc : list F) : option (list F * Z) :=
  if u32 (d + 32) <=? at_head_dim p then
    match fuel with
    | O => None
    | S fuel' =>
        a ← load_si512 q (qo + d); b ← load_si512 k (ko + d);
        avx512_chunks fuel' p q k qo ko (u32 (d + 32)) (dpbf16_ps acc a b)
    end
  else Some (acc, d).

(** The score of one key: the AVX-512 loop and its remainder. *)
Definition score_avx512 (p : kllm_attention_params F) (q k : tensor) (qo ko : Z)
    : option F :=
  '(acc, d) ← avx512_chunks (Z.to_nat (at_head_dim p / 32)) p q k qo ko 0
    (replicate 16 a_zero);
  res ← for_range (R := unit) d (at_head_dim p) (fun d score =>
    a ← q (qo + d); b ← k (ko + d);
    Some (Continue (a_add score
      (a_mul (a_mul (a_of_bf16 a) (a_of_bf16 b)) (at_scale p)))))
    (a_mul (reduce_add_ps acc) (at_scale p));
  match res with inl score => Some score | inr _ => None end.

(** The scores of all keys and the largest one. *)
Definition scores_row (p : kllm_attention_params F) (score : Z -> option F) (h : Z)
    : option (list (option F) * F) :=
  res ← for_range (R := unit) 0 (at_seq_len p) (fun si '(scores, max_score) =>
    x ← score (vec_offset p si h);
    scores' ← arr_set scores si (Some x);
    Some (Continue (scores', if a_gt x max_score then x else max_score)))
    (replicate (Z.to_nat (at_seq_len p)) None, a_neg_inf);
  match res with inl r => Some r | inr _ => None end.

Definition softmax_row (p : kllm_attention_params F) (scores : list (option F))
    (max_score : F) : option (list (option F)) :=
  res ← for_range (R := unit) 0 (at_seq_len p) (fun si '(scores, sum) =>
    x ← arr_init scores si;
    let e := a_exp (a_sub x max_score) in
    scores' ← arr_set scores si (Some e);
    Some (Continue (scores', a_add sum e))) (scores, a_zero);
  match res with
  | inr _ => None
  | inl (scores, sum) =>
      res ← for_range (R := unit) 0 (at_seq_len p) (fun si scores =>
        x ← arr_init scores si;
        scores' ← arr_set scores si (Some (a_div x sum));
        Some (Continue scores')) scores;
      match res with inl scores => Some scores | inr _ => None end
  end.

(** The weighted sum of element [d] of the values. *)
Definition weighted_sum (p : kllm_attention_params F) (scores : list (option F))
    (v : tensor) (h d : Z) : option F :=
  res ← for_range (R := unit) 0 (at_seq_len p) (fun si acc =>
    s ← arr_init scores si;
    x ← v (vec_offset p si h + d);
    Some (Continue (mac acc s (a_of_bf16 x)))) a_zero;
  match res with inl acc => Some acc | inr _ => None end.

(** The body of both kernels for one head and query position. *)
Definition attend (p : kllm_attention_params F) (score : Z -> Z -> option F)
    (v : tensor) (h qi : Z) (output : list Z) : option (list Z) :=
  '(scores, max_score) ← scores_row p (score (vec_offset p qi h)) h;
  scores ← softmax_row p scores max_score;
  res ← for_range (R := unit) 0 (at_head_dim p) (fun d out =>
    acc ← weighted_sum p scores v h d;
    out' ← arr_set out (vec_offset p qi h + d) (a_to_bf16 acc);
    Some (Continue out')) output;
  match res with inl out => Some out | inr _ => None end.

(** The loops over heads and query positions of both kernels. *)
Definition attention_with (p : kllm_attention_params F) (score : Z -> Z -> option F)
    (v : tensor) (output : list Z) : option (list Z) :=
  res ← for_range (R := unit) 0 (at_num_heads p) (fun h out =>
    res ← for_range (R := unit) 0 (query_len p) (fun qi out =>
      out' ← attend p score v h qi out; Some (Continue out')) out;
    match res with inl out' => Some (Continue out') | inr _ => None end) output;
  match res with inl out => Some out | inr _ => None end.

Definition attention_scalar (q k v : tensor) (output : list Z) (p : kllm_attention_params F)
    : option (list Z) :=
  attention_with p (score_scalar p q k) v output.

Definition attention_avx512_bf16 (q k v : tensor) (output : list Z) (p : kllm_attention_params F)
    : option (list Z) :=
  attention_with p (score_avx512 p q k) v output.

Definition attention_amx_bf16 (bd : build) (q k v : tensor) (output : list Z)
    (p : kllm_attention_params F) : option (list Z) :=
  if has_avx512_bf16 bd then attention_avx512_bf16 q k v output p
  else attention_scalar q k v output p.

(** Null pointers are [None]; [g] is the probed instruction set.  Returns the
    result and the output array. *)
Definition kllm_ace_attention (bd : build) (g : kllm_isa_level) (q k v : option tensor)
    (output : option (list Z)) (params : option (kllm_attention_params F))
    : option (Z * option (list Z)) :=
  match q, k, v, output, params with
  | Some q, Some k, Some v, Some out, Some p =>
      if (at_head_dim p =? 0) || (at_seq_len p =? 0) || (at_num_heads p =? 0)
      then Some (-1, output)
      else
        out' ←
          match g, has_amx_bf16 bd, has_avx512_bf16 bd with
          | (ISA_ACE_BF16 | ISA_AMX_BF16), true, _ => attention_amx_bf16 bd q k v out p
          | ISA_AVX512_BF16, _, true => attention_avx512_bf16 q k v out p
          | _, _, _ => attention_scalar q k v out p
          end;
        Some (0, Some out')
  | _, _, _, _, _ => Some (-1, output)
  end.

End kernels.

(** ** Specification *)

(** The elements [o], ..., [o + n - 1]. *)
Definition slice {F : Type} `{Arith F} (f : Z -> Z) (o n : Z) : list F := (fun i => a_of_bf16 (f i)) <$> seqZ o n.

Definition dot {F : Type} `{Arith F} (xs ys : list F) : F :=
  foldl (fun acc xy => mac acc (fst xy) (snd xy)) a_zero (zip xs ys).

Definition max_of {F : Type} `{Arith F} (xs : list F) : F :=
  foldl (fun m x => if a_gt x m then x else m) a_neg_inf xs.

Section spec.
Context {F : Type} `{Arith F} `{ArithFns F} `{Avx512 F}.

Definition softmax (xs : list F) : list F :=
  let es := (fun x => a_exp (a_sub x (max_of xs))) <$> xs in
  let sum := foldl a_add a_zero es in
  (fun e => a_div e sum) <$> es.

(** The score of a key, as the scalar and the AVX-512 kernel compute it. *)
Definition scalar_score (p : kllm_attention_params F) (q k : Z -> Z) (qo ko : Z) : F :=
  a_mul (dot (slice q qo (at_head_dim p)) (slice k ko (at_head_dim p))) (at_scale p).

Definition avx512_score (p : kllm_attention_params F) (q k : Z -> Z) (qo ko : Z) : F :=
  let chunks := at_head_dim p / 32 in
  let acc := foldl (fun acc c => dpbf16_ps acc (q <$> seqZ (qo + 32 * c) 32)
    (k <$> seqZ (ko + 32 * c) 32)) (replicate 16 a_zero) (seqZ 0 chunks) in
  foldl (fun s d => a_add s (a_mul (a_mul (a_of_bf16 (q (qo + d)))
      (a_of_bf16 (k (ko + d)))) (at_scale p)))
    (a_mul (reduce_add_ps acc) (at_scale p)) (seqZ (32 * chunks) (at_head_dim p - 32 * chunks)).

(** Element [d] of the output for head [h] and query position [qi]. *)
Definition attention_ref (p : kllm_attention_params F) (score : Z -> Z -> F) (v : Z -> Z)
    (qi h d : Z) : Z :=
  let off a := (a * at_num_heads p + h) * at_head_dim p in
  let weights := softmax ((fun si => score (off qi) (off si)) <$> seqZ 0 (at_seq_len p)) in
  a_to_bf16 (dot weights ((fun si => a_of_bf16 (v (off si + d))) <$> seqZ 0 (at_seq_len p))).

(** The score of the kernel that runs. *)
Definition score_of (bd : build) (g : kllm_isa_level)
    : kllm_attention_params F -> (Z -> Z) -> (Z -> Z) -> Z -> Z -> F :=
  match g, has_amx_bf16 bd, has_avx512_bf16 bd with
  | (ISA_ACE_BF16 | ISA_AMX_BF16), true, true => avx512_score
  | ISA_AVX512_BF16, _, true => avx512_score
  | _, _, _ => scalar_score
  end.

End spec.

(** The tensor [t] tensor_is the [n] elements [f]. *)
Definition tensor_is (t : tensor) (f : Z -> Z) (n : Z) : Prop :=
  forall i, 0 <= i < n -> t i = Some (f i).

(** The dimensions are positive and the element numbers fit 32 bits. *)
Record dims_wf {F : Type} (p : kllm_attention_params F) : Prop := {
  dw_heads : 1 <= at_num_heads p;
  dw_dim : 1 <= at_head_dim p < 2 ^ 32 - 32;
  dw_seq : 1 <= at_seq_len p;
  dw_query : 0 <= query_len p;
  dw_kv : at_seq_len p * at_num_heads p * at_head_dim p < 2 ^ 32;
  dw_q : query_len p * at_num_heads p * at_head_dim p < 2 ^ 32;
}.

(** ** Lemmas *)

Lemma dot_fmap {F : Type} `{Arith F} {A} (f g : A -> F) l :
  dot (f <$> l) (g <$> l) = foldl (fun acc i => mac acc (f i) (g i)) a_zero l.
Proof.
  unfold dot. generalize a_zero. induction l as [|x l IH]; intros z; [done|]. simpl. apply IH.
Qed.

Lemma slice_shift {F : Type} `{Arith F} f o n : slice f o n = (fun d => a_of_bf16 (f (o + d))) <$> seqZ 0 n.
Proof.
  unfold slice. rewrite <- (Z.add_0_r o) at 1. rewrite <- fmap_add_seqZ, <- list_fmap_compose.
  done.
Qed.

Lemma take_as_range {A} `{!Inhabited A} (l : list A) n :
  0 <= n <= len l -> take (Z.to_nat n) l = (fun i => l !!! Z.to_nat i) <$> seqZ 0 n.
Proof.
  intros Hn. apply list_eq. intros i. rewrite list_lookup_fmap.
  destruct (decide (i < Z.to_nat n)%nat) as [Hi|Hi].
  - rewrite lookup_take_lt, lookup_seqZ_lt by lia. simpl. rewrite Z.add_0_l, Nat2Z.id.
    apply list_lookup_lookup_total_lt. lia.
  - rewrite lookup_take_ge, lookup_seqZ_ge by lia. done.
Qed.

Lemma list_as_range {A} `{!Inhabited A} (l : list A) n :
  n = len l -> l = (fun i => l !!! Z.to_nat i) <$> seqZ 0 n.
Proof.
  intros Hn. rewrite <- take_as_range by lia. rewrite take_ge; [done|lia].
Qed.

Lemma arr_init_Some {A} `{!Inhabited A} (l : list A) i :
  0 <= i < len l -> arr_init (Some <$> l) i = Some (l !!! Z.to_nat i).
Proof.
  intros Hi. unfold arr_init. rewrite arr_get_lookup, list_lookup_fmap by lia.
  rewrite (list_lookup_lookup_total_lt l) by lia. done.
Qed.

#[local] Instance arith_inhabited {F : Type} `{Arith F} : Inhabited F := populate a_zero.

Section offsets.
Context {F : Type} (p : kllm_attention_params F) (Hp : dims_wf p).

(** A vector of one of the tensors lies inside of it. *)
Lemma vec_offset_exact a h n :
  0 <= a < n -> 0 <= h < at_num_heads p -> n * at_num_heads p * at_head_dim p < 2 ^ 32 ->
  vec_offset p a h = (a * at_num_heads p + h) * at_head_dim p /\
  0 <= vec_offset p a h /\
  vec_offset p a h + at_head_dim p <= n * at_num_heads p * at_head_dim p.
Proof.
  intros Ha Hh Hn. destruct Hp as [Hnh Hd _ _ _ _]. unfold vec_offset.
  set (nh := at_num_heads p) in *. set (hd := at_head_dim p) in *.
  assert (0 <= a * nh + h < n * nh) as Hr by nia.
  assert ((a * nh + h) * hd + hd <= n * nh * hd) by nia.
  assert (0 <= a * nh /\ 0 <= (a * nh + h) * hd) as [Hx Hy] by nia.
  assert (n * nh <= n * nh * hd) by nia.
  rewrite (wrap_small 32 (a * nh)) by (unfold fits; lia).
  rewrite (wrap_small 32 (a * nh + h)) by (unfold fits; lia).
  rewrite wrap_small by (unfold fits; lia). lia.
Qed.

End offsets.

Section loops.
Context {F : Type} `{Arith F} `{ArithFns F} `{Avx512 F} (p : kllm_attention_params F) (Hp : dims_wf p).

Lemma score_scalar_ok q k qv kv qo ko :
  (forall d, 0 <= d < at_head_dim p -> q (qo + d) = Some (qv (qo + d))) ->
  (forall d, 0 <= d < at_head_dim p -> k (ko + d) = Some (kv (ko + d))) ->
  score_scalar p q k qo ko = Some (scalar_score p qv kv qo ko).
Proof.
  intros Hq Hk. destruct Hp as [_ Hd _ _ _ _]. unfold score_scalar, scalar_score.
  rewrite !slice_shift, dot_fmap.
  rewrite (for_range_fold (fun d acc => mac acc (a_of_bf16 (qv (qo + d)))
    (a_of_bf16 (kv (ko + d))))); [|lia|intros d acc Hdr; by rewrite Hq, Hk].
  by rewrite Z.sub_0_r.
Qed.

Lemma load_si512_ok t f o :
  (forall d, 0 <= d < 32 -> t (o + d) = Some (f (o + d))) ->
  load_si512 t o = Some (f <$> seqZ o 32).
Proof.
  intros Ht. unfold load_si512. apply mapM_Some_2, Forall2_fmap_r, Forall_Forall2_diag.
  apply Forall_forall. intros x Hx%elem_of_seqZ. replace x with (o + (x - o)) by lia.
  apply Ht. lia.
Qed.

Lemma avx512_chunks_ok q k qv kv qo ko fuel c acc :
  (forall d, 0 <= d < at_head_dim p -> q (qo + d) = Some (qv (qo + d))) ->
  (forall d, 0 <= d < at_head_dim p -> k (ko + d) = Some (kv (ko + d))) ->
  0 <= c <= at_head_dim p / 32 -> Z.of_nat fuel = at_head_dim p / 32 - c ->
  avx512_chunks fuel p q k qo ko (32 * c) acc =
    Some (foldl (fun acc c => dpbf16_ps acc (qv <$> seqZ (qo + 32 * c) 32)
      (kv <$> seqZ (ko + 32 * c) 32)) acc (seqZ c (at_head_dim p / 32 - c)),
      32 * (at_head_dim p / 32)).
Proof.
  intros Hq Hk. destruct Hp as [_ Hd _ _ _ _]. revert c acc.
  induction fuel as [|fuel IH]; intros c acc Hc Hf; cbn [avx512_chunks];
    rewrite (wrap_small 32) by (unfold fits; dlia).
  - destruct (Z.leb_spec (32 * c + 32) (at_head_dim p)); [dlia|].
    replace c with (at_head_dim p / 32) by lia. by rewrite Z.sub_diag.
  - destruct (Z.leb_spec (32 * c + 32) (at_head_dim p)); [|dlia].
    rewrite (load_si512_ok q qv), (load_si512_ok k kv);
      [|intros d Hdr; rewrite <- !Z.add_assoc; (apply Hq || apply Hk); dlia..].
    cbn [mbind option_bind]. replace (32 * c + 32) with (32 * (c + 1)) by lia.
    rewrite IH by lia. rewrite (seqZ_cons c) by lia. simpl. do 3 f_equal. f_equal; lia.
Qed.

Lemma score_avx512_ok q k qv kv qo ko :
  (forall d, 0 <= d < at_head_dim p -> q (qo + d) = Some (qv (qo + d))) ->
  (forall d, 0 <= d < at_head_dim p -> k (ko + d) = Some (kv (ko + d))) ->
  score_avx512 p q k qo ko = Some (avx512_score p qv kv qo ko).
Proof.
  intros Hq Hk. pose proof Hp as [_ Hd _ _ _ _]. unfold score_avx512, avx512_score.
  change 0 with (32 * 0) at 1.
  rewrite (avx512_chunks_ok q k qv kv qo ko) by (assumption || dlia). cbn [mbind option_bind].
  rewrite (for_range_fold (fun d s => a_add s (a_mul (a_mul (a_of_bf16 (qv (qo + d)))
      (a_of_bf16 (kv (ko + d)))) (at_scale p))));
    [|dlia|intros d acc Hdr; rewrite Hq, Hk by dlia; done].
  by rewrite Z.sub_0_r.
Qed.

(** The scores and their maximum. *)
Lemma scores_row_ok score (sc : Z -> F) h :
  (forall si, 0 <= si < at_seq_len p -> score (vec_offset p si h) = Some (sc si)) ->
  let xs := sc <$> seqZ 0 (at_seq_len p) in
  scores_row p score h = Some (Some <$> xs, max_of xs).
Proof.
  intros Hs. destruct Hp as [_ _ Hn _ _ _]. unfold scores_row. set (n := at_seq_len p) in *.
  edestruct (for_range_rule (R := unit)
    (fun i st => st = ((Some <$> (sc <$> seqZ 0 i)) ++ replicate (Z.to_nat (n - i)) None,
      max_of (sc <$> seqZ 0 i)))
    (fun o => o = inl (Some <$> (sc <$> seqZ 0 n), max_of (sc <$> seqZ 0 n))))
    as (o & -> & ->); [..|done].
  - lia.
  - simpl. by rewrite Z.sub_0_r.
  - intros i st Hi ->. cbv beta iota. rewrite Hs by done. cbn [mbind option_bind].
    replace (Z.to_nat (n - i)) with (S (Z.to_nat (n - (i + 1)))) by lia. cbn [replicate].
    rewrite arr_set_app by (rewrite !length_fmap, length_seqZ; lia).
    eexists. split; [done|]. cbv beta iota.
    rewrite (seqZ_app 0 i 1), !fmap_app, <- app_assoc by lia. f_equal.
    unfold max_of. by rewrite foldl_app.
  - intros st ->. by rewrite Z.sub_diag, app_nil_r.
Qed.

(** An array of floats rewritten entry by entry. *)
Lemma part_at (f : F -> F) (xs : list F) i :
  0 <= i < len xs ->
  exists x, xs !! Z.to_nat i = Some x /\
    drop (Z.to_nat i) xs = x :: drop (Z.to_nat (i + 1)) xs /\
    f <$> take (Z.to_nat (i + 1)) xs = (f <$> take (Z.to_nat i) xs) ++ [f x].
Proof.
  intros Hi. destruct (lookup_lt_is_Some_2 xs (Z.to_nat i)) as [x Hx]; [lia|].
  exists x. replace (Z.to_nat (i + 1)) with (S (Z.to_nat i)) by lia.
  split; [done|]. split; [by apply drop_S|].
  by rewrite (take_S_r _ _ x), fmap_app.
Qed.

(** The loop that divides by the sum. *)
Lemma normalise_ok (es : list F) (sum : F) n :
  n = len es ->
  for_range (R := unit) 0 n (fun si scores =>
    x ← arr_init scores si;
    scores' ← arr_set scores si (Some (a_div x sum));
    Some (Continue scores')) (Some <$> es) =
  Some (inl (Some <$> ((fun e => a_div e sum) <$> es))).
Proof.
  intros Hn. set (G := fun e => a_div e sum).
  edestruct (for_range_rule (R := unit)
    (fun i st => st = (Some <$> (G <$> take (Z.to_nat i) es)) ++ (Some <$> drop (Z.to_nat i) es))
    (fun o => o = inl (Some <$> (G <$> es)))) as (o & -> & ->); [..|done].
  - lia.
  - done.
  - intros i st Hi ->. cbv beta iota.
    destruct (part_at G es i) as (x & Hx & Hd & Ht); [lia|]. rewrite Hd, Ht. rewrite !fmap_cons.
    unfold arr_init. rewrite arr_get_app by (rewrite !length_fmap, length_take; lia). simpl.
    rewrite arr_set_app by (rewrite !length_fmap, length_take; lia).
    eexists. split; [done|]. cbv beta iota. by rewrite fmap_app, <- app_assoc.
  - intros st ->. by rewrite take_ge, drop_ge, app_nil_r by lia.
Qed.

Lemma softmax_row_ok xs :
  len xs = at_seq_len p ->
  softmax_row p (Some <$> xs) (max_of xs) = Some (Some <$> softmax xs).
Proof.
  intros Hl. destruct Hp as [_ _ Hn _ _ _]. unfold softmax_row, softmax.
  set (E := fun x => a_exp (a_sub x (max_of xs))).
  edestruct (for_range_rule (R := unit)
    (fun i st => st = ((Some <$> (E <$> take (Z.to_nat i) xs)) ++ (Some <$> drop (Z.to_nat i) xs),
      foldl a_add a_zero (E <$> take (Z.to_nat i) xs)))
    (fun o => o = inl (Some <$> (E <$> xs), foldl a_add a_zero (E <$> xs))))
    as (o & -> & ->).
  - lia.
  - done.
  - intros i st Hi ->. cbv beta iota.
    destruct (part_at E xs i) as (x & Hx & Hd & Ht); [lia|]. rewrite Hd, Ht. rewrite !fmap_cons.
    unfold arr_init. rewrite arr_get_app by (rewrite !length_fmap, length_take; lia). simpl.
    rewrite arr_set_app by (rewrite !length_fmap, length_take; lia).
    eexists. split; [done|]. cbv beta iota. by rewrite fmap_app, <- app_assoc, foldl_app.
  - intros st ->. by rewrite take_ge, drop_ge, app_nil_r by lia.
  - cbn [mbind option_bind]. by rewrite normalise_ok by (rewrite length_fmap; lia).
Qed.

Lemma softmax_length xs : length (softmax xs) = length xs.
Proof. unfold softmax. by rewrite !length_fmap. Qed.

Lemma weighted_sum_ok v vv ws h d :
  tensor_is v vv (at_seq_len p * at_num_heads p * at_head_dim p) ->
  len ws = at_seq_len p -> 0 <= h < at_num_heads p -> 0 <= d < at_head_dim p ->
  weighted_sum p (Some <$> ws) v h d =
    Some (dot ws ((fun si => a_of_bf16 (vv ((si * at_num_heads p + h) * at_head_dim p + d)))
      <$> seqZ 0 (at_seq_len p))).
Proof.
  intros Hv Hl Hh Hd. pose proof Hp as [_ _ Hn _ Hkv _]. unfold weighted_sum.
  set (vs := _ <$> seqZ 0 (at_seq_len p)).
  assert (dot ws vs = dot ((fun i => ws !!! Z.to_nat i) <$> seqZ 0 (at_seq_len p)) vs) as ->
    by (f_equal; by apply list_as_range).
  unfold vs. rewrite dot_fmap.
  rewrite (for_range_fold (fun si acc => mac acc (ws !!! Z.to_nat si)
    (a_of_bf16 (vv ((si * at_num_heads p + h) * at_head_dim p + d))))); [|lia|].
  - by rewrite Z.sub_0_r.
  - intros si acc Hsi. rewrite arr_init_Some by lia. cbn [mbind option_bind].
    destruct (vec_offset_exact p Hp si h (at_seq_len p)) as (-> & ? & ?); [lia..|].
    rewrite Hv by lia. done.
Qed.

(** One vector of the output. *)
Lemma attend_ok score (sc : Z -> Z -> F) v vv h qi out :
  (forall si, 0 <= si < at_seq_len p ->
     score (vec_offset p qi h) (vec_offset p si h) =
       Some (sc (vec_offset p qi h) (vec_offset p si h))) ->
  tensor_is v vv (at_seq_len p * at_num_heads p * at_head_dim p) ->
  0 <= h < at_num_heads p -> 0 <= qi < query_len p ->
  len out = query_len p * at_num_heads p * at_head_dim p ->
  exists out', attend p score v h qi out = Some out' /\ length out' = length out /\
    let base := (qi * at_num_heads p + h) * at_head_dim p in
    (forall d, 0 <= d < at_head_dim p ->
       out' !! Z.to_nat (base + d) = Some (attention_ref p sc vv qi h d)) /\
    (forall i, ~ (base <= Z.of_nat i < base + at_head_dim p) -> out' !! i = out !! i).
Proof.
  intros Hs Hv Hh Hq Hl. pose proof Hp as [_ Hd Hn _ Hkv Hqq]. unfold attend.
  destruct (vec_offset_exact p Hp qi h (query_len p)) as (Hb & Hb0 & Hb1); [lia..|].
  rewrite (scores_row_ok _ (fun si => sc (vec_offset p qi h) (vec_offset p si h))) by done.
  cbn [mbind option_bind].
  rewrite softmax_row_ok by (rewrite length_fmap, length_seqZ; lia). cbn [mbind option_bind].
  assert ((fun si => sc (vec_offset p qi h) (vec_offset p si h)) <$> seqZ 0 (at_seq_len p) =
    (fun si => sc ((qi * at_num_heads p + h) * at_head_dim p)
      ((si * at_num_heads p + h) * at_head_dim p)) <$> seqZ 0 (at_seq_len p)) as ->.
  { apply list_fmap_ext. intros i si Hi%list_elem_of_lookup_2%elem_of_seqZ. rewrite Hb.
    destruct (vec_offset_exact p Hp si h (at_seq_len p)) as (-> & _); [lia..|]. done. }
  set (ws := softmax _). set (base := (qi * at_num_heads p + h) * at_head_dim p) in *.
  edestruct (for_range_rule (R := unit)
    (fun d o => length o = length out /\
      (forall j, 0 <= j < d -> o !! Z.to_nat (base + j) = Some (attention_ref p sc vv qi h j)) /\
      (forall i, ~ (base <= Z.of_nat i < base + d) -> o !! i = out !! i))
    (fun r => exists o, r = inl o /\ length o = length out /\
      (forall j, 0 <= j < at_head_dim p ->
        o !! Z.to_nat (base + j) = Some (attention_ref p sc vv qi h j)) /\
      (forall i, ~ (base <= Z.of_nat i < base + at_head_dim p) -> o !! i = out !! i)))
    as (r & -> & o & -> & Hlo & Hin & Hout); [..|by exists o].
  - lia.
  - split; [done|]. split; [lia|done].
  - intros d o Hdr (Hlo & Hin & Hout). cbv beta.
    rewrite (weighted_sum_ok v vv);
      [|done|unfold ws; rewrite softmax_length, length_fmap, length_seqZ; lia|done..].
    cbn [mbind option_bind]. rewrite Hb, arr_set_in by lia. eexists. split; [done|].
    cbv beta iota. rewrite length_insert. split; [done|]. split.
    + intros j Hj. destruct (decide (j = d)) as [->|Hne].
      * rewrite list_lookup_insert_eq by lia. done.
      * rewrite list_lookup_insert_ne by lia. apply Hin. lia.
    + intros i Hi. rewrite list_lookup_insert_ne by lia. apply Hout. lia.
  - intros o Ho. by exists o.
Qed.

(** The place of an element of the output. *)
Lemma out_place qi h qi' h' d' :
  0 <= h < at_num_heads p -> 0 <= h' < at_num_heads p ->
  0 <= d' < at_head_dim p ->
  (qi * at_num_heads p + h) * at_head_dim p <=
    (qi' * at_num_heads p + h') * at_head_dim p + d' <
    (qi * at_num_heads p + h) * at_head_dim p + at_head_dim p ->
  qi = qi' /\ h = h'.
Proof.
  intros Hh Hh' Hd Hr. pose proof Hp as [_ Hdd _ _ _ _].
  set (a := qi * at_num_heads p + h) in *. set (b := qi' * at_num_heads p + h') in *.
  assert (a = b) as Hab by nia. subst a b.
  assert (qi = qi') as -> by nia. lia.
Qed.

Definition in_out (qi h d : Z) : Prop :=
  0 <= qi < query_len p /\ 0 <= h < at_num_heads p /\ 0 <= d < at_head_dim p.

Lemma attention_with_ok score (sc : Z -> Z -> F) v vv out :
  (forall qi h si, 0 <= qi < query_len p -> 0 <= h < at_num_heads p ->
     0 <= si < at_seq_len p ->
     score (vec_offset p qi h) (vec_offset p si h) =
       Some (sc (vec_offset p qi h) (vec_offset p si h))) ->
  tensor_is v vv (at_seq_len p * at_num_heads p * at_head_dim p) ->
  len out = query_len p * at_num_heads p * at_head_dim p ->
  exists out', attention_with p score v out = Some out' /\ length out' = length out /\
    forall qi h d, in_out qi h d ->
      out' !! Z.to_nat ((qi * at_num_heads p + h) * at_head_dim p + d) =
        Some (attention_ref p sc vv qi h d).
Proof.
  intros Hs Hv Hl. pose proof Hp as [Hnh Hdd _ Hq _ _]. unfold attention_with.
  set (good := fun (o : list Z) qi h d => o !! Z.to_nat ((qi * at_num_heads p + h) * at_head_dim p + d) =
        Some (attention_ref p sc vv qi h d)).
  edestruct (for_range_rule (R := unit)
    (fun h o => length o = length out /\
      forall qi h' d, in_out qi h' d -> h' < h -> good o qi h' d)
    (fun r => exists o, r = inl o /\ length o = length out /\
      forall qi h d, in_out qi h d -> good o qi h d))
    as (r & -> & o & -> & Hlo & Hgood); [..|by exists o].
  - lia.
  - split; [done|]. intros qi h' d (_ & ? & _). lia.
  - intros h o Hh (Hlo & Hgood). cbv beta.
    edestruct (for_range_rule (R := unit)
      (fun q o => length o = length out /\
        forall qi h' d, in_out qi h' d -> h' < h \/ (h' = h /\ qi < q) -> good o qi h' d)
      (fun r => exists o, r = inl o /\ length o = length out /\
        forall qi h' d, in_out qi h' d -> h' < h + 1 -> good o qi h' d))
      as (r & -> & o' & -> & Hlo' & Hgood'); [..|by eexists].
    + lia.
    + split; [done|]. intros qi h' d Hio [?|[? ?]]; [by apply Hgood|]. destruct Hio. lia.
    + intros q o1 Hqr (Hlo1 & Hg1). cbv beta.
      destruct (attend_ok score sc v vv h q o1) as (o2 & -> & Hlo2 & Hin & Hout); [..|lia|lia|lia|].
      { intros si Hsi. by apply Hs. }
      { done. }
      eexists. split; [done|]. cbv beta iota. split; [congruence|].
      intros qi h' d Hio Hcase. destruct (decide (h' = h /\ qi = q)) as [[-> ->]|Hne].
      * apply Hin. apply Hio.
      * destruct Hio as (Hqi & Hh' & Hd). unfold good.
        assert (0 <= (qi * at_num_heads p + h') * at_head_dim p) by nia.
        rewrite Hout; [apply (Hg1 qi h' d); [done|lia]|].
        rewrite Z2Nat.id by lia. intros [-> ->]%(out_place q h qi h' d); lia.
    + intros o1 (Hlo1 & Hg1). exists o1. split_and!; [done..|].
      intros qi h' d Hio Hlt. apply Hg1; [done|]. destruct Hio. lia.
  - intros o (Hlo & Hgood). exists o. split_and!; [done..|].
    intros qi h d Hio. apply Hgood; [done|]. destruct Hio as (_ & ? & _). lia.
Qed.

End loops.

(** ** Theorems *)

(** The rounding on bits that do not overflow, as arithmetic. *)
Lemma bf16_round_exact bits :
  fits 32 bits -> bits + 0x8000 < 2 ^ 32 ->
  bf16_round bits = (bits + 0x7FFF + bits / 2 ^ 16 mod 2) / 2 ^ 16.
Proof.
  unfold fits. intros Hb Hr. unfold bf16_round.
  rewrite (Z.shiftr_div_pow2 bits) by lia. change 1 with (2 ^ 1 - 1) at 1.
  rewrite land_mask by lia. rewrite (wrap_small 32) by (unfold fits; dlia).
  rewrite Z.shiftr_div_pow2 by lia. rewrite wrap_small by (unfold fits; dlia).
  f_equal. change (2 ^ 1) with 2. lia.
Qed.

(** C35. The conversion of a float to BF16 picks the BF16 pattern nearest to the
    pattern of the float, the even one of two equally near; a BF16 value that
    is not a NaN survives the conversion to float and back.  The rounding
    carries out of the mantissa of a NaN: two NaN patterns become zeros. *)
Theorem bf16_conversion `{Libm} :
  (forall bits, fits 32 bits -> bits + 0x8000 < 2 ^ 32 ->
     fits 16 (bf16_round bits) /\
     Z.abs (bf16_round bits * 2 ^ 16 - bits) <= 2 ^ 15 /\
     (Z.abs (bf16_round bits * 2 ^ 16 - bits) = 2 ^ 15 -> Z.even (bf16_round bits) = true)) /\
  (forall b, fits 16 b -> ~ (b / 2 ^ 7 mod 2 ^ 8 = 0xFF /\ b mod 2 ^ 7 <> 0) ->
     f32_to_bf16 (bf16_to_f32 b) = b) /\
  f32_of_bits 0x7FFFFFFF = S754_nan /\ bf16_to_f32 (bf16_round 0x7FFFFFFF) = S754_zero true /\
  f32_of_bits 0xFFFFFFFF = S754_nan /\ bf16_to_f32 (bf16_round 0xFFFFFFFF) = S754_zero false.
Proof.
  split_and!; [| |reflexivity..].
  - intros bits Hb Hr. rewrite bf16_round_exact by done. unfold fits in *.
    split; [dlia|]. split; [dlia|]. intros Htie. rewrite Zeven_mod. apply Z.eqb_eq. dlia.
  - intros b Hb Hn. unfold f32_to_bf16, bf16_to_f32, fits in *.
    rewrite Z.shiftl_mul_pow2 by lia. rewrite (wrap_small 32) by (unfold fits; lia).
    assert (fits 32 (b * 2 ^ 16)) as Hf by (unfold fits; lia).
    destruct (f32_fields _ Hf) as (_ & He & Hm).
    rewrite bits_roundtrip; [|done|].
    + rewrite bf16_round_exact; [dlia|done|]. destruct (decide (b = 0xFFFF)) as [->|]; [|lia].
      exfalso. by apply Hn.
    + rewrite He, Hm. intros [H1 H2]. apply Hn. split; dlia.
Qed.

Lemma ace_attention_run {F : Type} `{Arith F} `{ArithFns F} `{Avx512 F} bd g q k v qv kv vv out p :
  dims_wf p ->
  tensor_is q qv (query_len p * at_num_heads p * at_head_dim p) ->
  tensor_is k kv (at_seq_len p * at_num_heads p * at_head_dim p) ->
  tensor_is v vv (at_seq_len p * at_num_heads p * at_head_dim p) ->
  len out = query_len p * at_num_heads p * at_head_dim p ->
  exists out',
    kllm_ace_attention bd g (Some q) (Some k) (Some v) (Some out) (Some p) =
      Some (0, Some out') /\ length out' = length out /\
    forall qi h d, in_out p qi h d ->
      out' !! Z.to_nat ((qi * at_num_heads p + h) * at_head_dim p + d) =
        Some (attention_ref p (score_of bd g p qv kv) vv qi h d).
Proof.
  intros Hp Hq Hk Hv Hl.
  pose proof Hp as [Hnh Hdd Hn Hqq Hkv Hqv].
  assert (forall score sc, (forall qo ko,
      (forall d, 0 <= d < at_head_dim p -> q (qo + d) = Some (qv (qo + d))) ->
      (forall d, 0 <= d < at_head_dim p -> k (ko + d) = Some (kv (ko + d))) ->
      score qo ko = Some (sc qo ko)) ->
    exists out', attention_with p score v out = Some out' /\ length out' = length out /\
     forall qi h d, in_out p qi h d ->
       out' !! Z.to_nat ((qi * at_num_heads p + h) * at_head_dim p + d) =
         Some (attention_ref p sc vv qi h d)) as Hmain.
  { intros score sc Hs. apply attention_with_ok; [done| |done..]. intros qi h si Hqi Hh Hsi.
    destruct (vec_offset_exact p Hp qi h (query_len p)) as (_ & ? & ?); [lia..|].
    destruct (vec_offset_exact p Hp si h (at_seq_len p)) as (_ & ? & ?); [lia..|].
    apply Hs; intros d Hd; [apply Hq|apply Hk]; lia. }
  destruct (Hmain (score_scalar p q k) (scalar_score p qv kv)
    (fun qo ko => score_scalar_ok p Hp q k qv kv qo ko)) as (o1 & Ho1 & R1).
  destruct (Hmain (score_avx512 p q k) (avx512_score p qv kv)
    (fun qo ko => score_avx512_ok p Hp q k qv kv qo ko)) as (o2 & Ho2 & R2).
  cbn [kllm_ace_attention]. destruct (Z.eqb_spec (at_head_dim p) 0); [lia|].
  destruct (Z.eqb_spec (at_seq_len p) 0); [lia|]. destruct (Z.eqb_spec (at_num_heads p) 0); [lia|].
  unfold score_of, attention_amx_bf16, attention_avx512_bf16, attention_scalar. cbn [orb].
  destruct g, (has_amx_bf16 bd), (has_avx512_bf16 bd);
    first [rewrite Ho1; exists o1; split; [done|exact R1] | rewrite Ho2; exists o2; split; [done|exact R2]].
Qed.

(** C8. Whatever the instruction set, [kllm_ace_attention] rejects null
    pointers and empty dimensions, and otherwise reads only elements of its
    tensors and leaves in its output, for every query position, head and
    element, the sum of the values weighted with the softmax of the scaled
    scores. *)
Theorem ace_attention_ok {F : Type} `{Arith F} `{ArithFns F} `{Avx512 F} bd g q k v qv kv vv out p :
  (at_head_dim p = 0 \/ at_seq_len p = 0 \/ at_num_heads p = 0 ->
     kllm_ace_attention bd g (Some q) (Some k) (Some v) (Some out) (Some p) = Some (-1, Some out)) /\
  (dims_wf p ->
   tensor_is q qv (query_len p * at_num_heads p * at_head_dim p) ->
   tensor_is k kv (at_seq_len p * at_num_heads p * at_head_dim p) ->
   tensor_is v vv (at_seq_len p * at_num_heads p * at_head_dim p) ->
   len out = query_len p * at_num_heads p * at_head_dim p ->
   exists out',
     kllm_ace_attention bd g (Some q) (Some k) (Some v) (Some out) (Some p) =
       Some (0, Some out') /\ length out' = length out /\
     forall qi h d, in_out p qi h d ->
       out' !! Z.to_nat ((qi * at_num_heads p + h) * at_head_dim p + d) =
         Some (attention_ref p (score_of bd g p qv kv) vv qi h d)).
Proof.
  split.
  { intros Hz. cbn. destruct (Z.eqb_spec (at_head_dim p) 0), (Z.eqb_spec (at_seq_len p) 0),
      (Z.eqb_spec (at_num_heads p) 0); done || lia. }
  apply ace_attention_run.
Qed.

(** ** A platform *)

#[local] Instance demo_libm : Libm.
Proof.
  refine {| expf x := if float_lt x f32_zero then f32_zero else f32_one; nan_bits := 0x7FC00000 |}.
  repeat split; discriminate.
Defined.

#[local] Instance demo_avx512 : Avx512 spec_float :=
  {| dpbf16_ps acc _ _ := acc; reduce_add_ps := foldl f32_add f32_zero |}.

(** Two heads of two elements, two keys; 0x3F80 is 1.0 in BF16. *)
Definition demo_params : kllm_attention_params spec_float := AttentionParams 2 2 2 1 f32_one.

Definition demo_tensor (n : Z) : tensor := fun i => if (0 <=? i) && (i <? n) then Some 0x3F80 else None.

Lemma demo_tensor_is n : tensor_is (demo_tensor n) (fun _ => 0x3F80) n.
Proof. intros i Hi. unfold demo_tensor. by case_cond. Qed.

Lemma ace_attention_ok_witness :
  exists out', kllm_ace_attention (Build false true) ISA_NONE (Some (demo_tensor 4))
    (Some (demo_tensor 8)) (Some (demo_tensor 8)) (Some (zeroed 4)) (Some demo_params) =
    Some (0, Some out') /\ length out' = 4%nat.
Proof.
  destruct (ace_attention_ok (Build false true) ISA_NONE (demo_tensor 4) (demo_tensor 8)
    (demo_tensor 8) (fun _ => 0x3F80) (fun _ => 0x3F80) (fun _ => 0x3F80) (zeroed 4) demo_params)
    as [_ Hok].
  destruct Hok as (out' & He & Hl & _); [split; cbn; lia|apply demo_tensor_is..|done|].
  exists out'. split; [exact He|exact Hl].
Defined.

Lemma bf16_conversion_witness : f32_to_bf16 (bf16_to_f32 0xC0A0) = 0xC0A0.
Proof.
  destruct bf16_conversion as (_ & Hrt & _). apply (Hrt 0xC0A0); [done|].
  vm_compute. intros [? _]. congruence.
Defined.
