(* ===== verification/Mx.v ===== *)
(** * OCP MX block scaling

    Models [userspace/compute/mx_dequant.h]: BF16 values that share an FP8 E4M3
    scale in groups of eight.  [None] is an access out of bounds or, in the FP8
    conversion, a shift by a negative amount.

    The file proves which FP8 codes the conversion decodes and that it decodes
    these to their exact value, that the fused dot product is the dot product
    with the dequantised tensor, and what quantisation stores: its scale code
    does not depend on the scale it divides by, so that dequantisation does not
    invert it. *)

From Stdlib Require Import ZArith Lia SpecFloat.
From stdpp Require Import base numbers list.
From S2P Require Import Prelude Floats Attention.

#[local] Open Scope Z_scope.

Definition MX_BLOCK_SIZE : Z := 8.

Definition f32_neg : spec_float -> spec_float := SFopp.

(** [1 << n] on a signed int. *)
Definition int_shl1 (n : Z) : option Z :=
  if (0 <=? n) && (n <? 31) then Some (Z.shiftl 1 n) else None.

(** ** Operations *)

Definition fp8_e4m3_to_f32 (val : Z) : option spec_float :=
  let sign := Z.land (Z.shiftr val 7) 1 in
  let exp := Z.land (Z.shiftr val 3) 0xF in
  let mant := Z.land val 0x7 in
  if (exp =? 0) && (mant =? 0)
  then Some (if negb (sign =? 0) then f32_neg f32_zero else f32_zero)
  else
    '(fexp, fmant) ←
      (if exp =? 0 then
         p ← int_shl1 6;
         Some (f32_div f32_one (f32_of_Z p), f32_div (f32_of_Z mant) (f32_of_Z 8))
       else
         _ ← int_shl1 (exp - 7 + 127 - 127);
         let real_exp := exp - 7 in
         fexp ← (if 0 <=? real_exp then p ← int_shl1 real_exp; Some (f32_of_Z p)
                 else p ← int_shl1 (- real_exp); Some (f32_div f32_one (f32_of_Z p)));
         Some (fexp, f32_add f32_one (f32_div (f32_of_Z mant) (f32_of_Z 8))));
    let result := f32_mul fexp fmant in
    Some (if negb (sign =? 0) then f32_neg result else result).

Definition mx_dequant_bf16 (data scales : list Z) (output : list spec_float) (count : Z)
    : option (list spec_float) :=
  res ← for_range (R := unit) 0 count (fun i out =>
    x ← arr_get data i;
    let val := f32_of_bits (u32 (Z.shiftl x 16)) in
    c ← arr_get scales (i / MX_BLOCK_SIZE);
    scale ← fp8_e4m3_to_f32 c;
    out' ← arr_set out i (f32_mul val scale);
    Some (Continue out')) output;
  match res with inl out => Some out | inr _ => None end.

Definition mx_dot_product (a b b_scales : list Z) (dim : Z) : option spec_float :=
  res ← for_range (R := unit) 0 dim (fun i acc =>
    x ← arr_get a i;
    y ← arr_get b i;
    let fa := f32_of_bits (u32 (Z.shiftl x 16)) in
    let fb := f32_of_bits (u32 (Z.shiftl y 16)) in
    c ← arr_get b_scales (i / MX_BLOCK_SIZE);
    scale ← fp8_e4m3_to_f32 c;
    Some (Continue (f32_add acc (f32_mul fa (f32_mul fb scale))))) f32_zero;
  match res with inl acc => Some acc | inr _ => None end.

(** The largest absolute value of a block. *)
Definition block_amax (input : list spec_float) (blk blk_end : Z) : option spec_float :=
  res ← for_range (R := unit) blk blk_end (fun i amax =>
    x ← arr_get input i;
    let av := if float_lt x f32_zero then f32_neg x else x in
    Some (Continue (if float_gt av amax then av else amax))) f32_zero;
  match res with inl amax => Some amax | inr _ => None end.

Section quant.
Context `{Libm}.

(** One iteration of the loop over blocks. *)
Definition quant_block (input : list spec_float) (count blk : Z) (st : list Z * list Z)
    : option (list Z * list Z) :=
  let '(data, scales) := st in
  let blk_end := u32 (blk + MX_BLOCK_SIZE) in
  let blk_end := if count <? blk_end then count else blk_end in
  amax ← block_amax input blk blk_end;
  let scale := if float_gt amax f32_zero then f32_div amax (f32_of_Z 448) else f32_one in
  let inv_scale := f32_div f32_one scale in
  scales' ← arr_set scales (blk / MX_BLOCK_SIZE) (if float_gt amax f32_zero then 64 else 0);
  res ← for_range (R := unit) blk blk_end (fun i data =>
    x ← arr_get input i;
    data' ← arr_set data i (f32_to_bf16 (f32_mul x inv_scale));
    Some (Continue data')) data;
  match res with inl data' => Some (data', scales') | inr _ => None end.

(** [None] with no fuel left. *)
Fixpoint quant_blocks (fuel : nat) (input : list spec_float) (count blk : Z)
    (st : list Z * list Z) : option (list Z * list Z) :=
  if blk <? count then
    match fuel with
    | O => None
    | S fuel' =>
        st' ← quant_block input count blk st;
        quant_blocks fuel' input count (u32 (blk + MX_BLOCK_SIZE)) st'
    end
  else Some st.

(** One round for each block of eight. *)
Definition mx_quant_to_bf16 (input : list spec_float) (data scales : list Z) (count : Z)
    : option (list Z * list Z) :=
  quant_blocks (Z.to_nat ((count + 7) / 8)) input count 0 (data, scales).

End quant.

(** ** Specification *)

(** The value of an FP8 E4M3 code: 3 mantissa bits, exponent bias 7. *)
Definition fp8_value (val : Z) : spec_float :=
  let s := 128 <=? val in
  let exp := val / 8 mod 16 in
  let m := if exp =? 0 then val mod 8 else 8 + val mod 8 in
  binary_normalize 24 128 (if s then - m else m) (Z.max exp 1 - 10) s.

(** The exponents below the bias, for which the code shifts by a negative
    amount. *)
Definition fp8_undefined (val : Z) : bool := (1 <=? val / 8 mod 16) && (val / 8 mod 16 <=? 6).

Definition amax_of (xs : list spec_float) : spec_float :=
  foldl (fun amax x => let av := if float_lt x f32_zero then f32_neg x else x in
    if float_gt av amax then av else amax) f32_zero xs.

(** The block of eight elements that starts at [blk]. *)
Definition block_of (input : list spec_float) (count blk : Z) : list spec_float :=
  take (Z.to_nat (Z.min 8 (count - blk))) (drop (Z.to_nat blk) input).

Definition scale_of (xs : list spec_float) : spec_float :=
  if float_gt (amax_of xs) f32_zero then f32_div (amax_of xs) (f32_of_Z 448) else f32_one.

(** ** Lemmas *)

(** Element [i] of the dequantised tensor. *)
Definition mx_elem (data scales : list Z) (i : Z) : option spec_float :=
  x ← arr_get data i;
  c ← arr_get scales (i / MX_BLOCK_SIZE);
  scale ← fp8_e4m3_to_f32 c;
  Some (f32_mul (bf16_to_f32 x) scale).

(** The elements before [n] are all defined, or there is a first one that is
    not. *)
Lemma first_undefined {A} (e : Z -> option A) n :
  0 <= n ->
  (forall i, 0 <= i < n -> is_Some (e i)) \/
  (exists k, 0 <= k < n /\ e k = None /\ forall i, 0 <= i < k -> is_Some (e i)).
Proof.
  intros Hn. pattern n. apply natlike_ind; [left; lia| |done].
  intros m Hm [Hall|(k & Hk & He & Hb)].
  - destruct (e m) eqn:Em.
    + left. intros i Hi. destruct (decide (i = m)) as [->|]; [by eexists|]. apply Hall. lia.
    + right. exists m. split_and!; [lia..|done|done].
  - right. exists k. split_and!; [lia..|done|done].
Qed.

Lemma mx_dot_body a b scales i acc :
  0 <= i < len a ->
  (x ← arr_get a i;
   y ← arr_get b i;
   let fa := f32_of_bits (wrap 32 (Z.shiftl x 16)) in
   let fb := f32_of_bits (wrap 32 (Z.shiftl y 16)) in
   c ← arr_get scales (i / MX_BLOCK_SIZE);
   scale ← fp8_e4m3_to_f32 c;
   Some (Continue (R := unit) (f32_add acc (f32_mul fa (f32_mul fb scale))))) =
  (e ← mx_elem b scales i; Some (Continue (mac acc (bf16_to_f32 (a !!! Z.to_nat i)) e))).
Proof.
  intros Hi. rewrite (arr_get_total a) by done. unfold mx_elem. cbn [mbind option_bind].
  destruct (arr_get b i) as [y|]; [|done]. cbn [mbind option_bind].
  destruct (arr_get scales _) as [c|]; [|done]. cbn [mbind option_bind].
  by destruct (fp8_e4m3_to_f32 c).
Qed.

Lemma mx_dequant_body data scales i (out : list spec_float) :
  (x ← arr_get data i;
   let val := f32_of_bits (wrap 32 (Z.shiftl x 16)) in
   c ← arr_get scales (i / MX_BLOCK_SIZE);
   scale ← fp8_e4m3_to_f32 c;
   out' ← arr_set out i (f32_mul val scale);
   Some (Continue (R := unit) out')) =
  (e ← mx_elem data scales i; out' ← arr_set out i e; Some (Continue out')).
Proof.
  unfold mx_elem. destruct (arr_get data i) as [y|]; [|done]. cbn [mbind option_bind].
  destruct (arr_get scales _) as [c|]; [|done]. cbn [mbind option_bind].
  by destruct (fp8_e4m3_to_f32 c).
Qed.

(** What dequantisation leaves, or that it is undefined. *)
Lemma mx_dequant_ok data scales (out : list spec_float) count (ev : Z -> spec_float) :
  0 <= count <= len out ->
  (forall i, 0 <= i < count -> mx_elem data scales i = Some (ev i)) ->
  mx_dequant_bf16 data scales out count =
    Some ((ev <$> seqZ 0 count) ++ drop (Z.to_nat count) out).
Proof.
  intros Hc He. unfold mx_dequant_bf16.
  edestruct (for_range_rule (R := unit)
    (fun i o => o = (ev <$> seqZ 0 i) ++ drop (Z.to_nat i) out)
    (fun r => r = inl ((ev <$> seqZ 0 count) ++ drop (Z.to_nat count) out)))
    as (r & -> & ->); [..|done].
  - lia.
  - done.
  - intros i o Hi ->. rewrite mx_dequant_body, He by done. cbn [mbind option_bind].
    destruct (lookup_lt_is_Some_2 out (Z.to_nat i)) as [y Hy]; [lia|].
    rewrite (drop_S out y) by done.
    rewrite arr_set_app by (rewrite length_fmap, length_seqZ; lia).
    eexists. split; [done|]. cbv beta iota.
    rewrite (seqZ_app 0 i 1), fmap_app, <- app_assoc by lia.
    by replace (Z.to_nat (i + 1)) with (S (Z.to_nat i)) by lia.
  - intros o ->. done.
Qed.

Lemma mx_dequant_undef data scales (out : list spec_float) count k :
  0 <= k < count -> count <= len out ->
  mx_elem data scales k = None ->
  (forall i, 0 <= i < k -> is_Some (mx_elem data scales i)) ->
  mx_dequant_bf16 data scales out count = None.
Proof.
  intros Hk Hc He Hb. unfold mx_dequant_bf16.
  rewrite (for_range_undef (fun _ o => length o = length out) _ 0 count k); [done..| |].
  - intros i o Hi Hl. rewrite mx_dequant_body. destruct (Hb i Hi) as [e ->].
    cbn [mbind option_bind]. rewrite arr_set_in by lia. eexists. split; [done|].
    by rewrite length_insert.
  - intros o _. by rewrite mx_dequant_body, He.
Qed.

Lemma block_elems input count blk i x :
  blk <= i < Z.min count (blk + 8) -> 0 <= blk -> input !! Z.to_nat i = Some x ->
  block_of input count blk !! Z.to_nat (i - blk) = Some x.
Proof.
  intros Hi Hb Hx. unfold block_of. rewrite lookup_take_lt, lookup_drop by lia.
  by replace (Z.to_nat blk + Z.to_nat (i - blk))%nat with (Z.to_nat i) by lia.
Qed.

Lemma block_amax_ok input count blk :
  0 <= blk < count -> count <= len input ->
  block_amax input blk (Z.min count (blk + 8)) = Some (amax_of (block_of input count blk)).
Proof.
  intros Hb Hc. unfold block_amax. set (xs := block_of input count blk).
  edestruct (for_range_rule (R := unit)
    (fun i amax => amax = amax_of (take (Z.to_nat (i - blk)) xs))
    (fun r => r = inl (amax_of xs))) as (r & -> & ->); [..|done].
  - lia.
  - by rewrite Z.sub_diag.
  - intros i amax Hi ->. destruct (lookup_lt_is_Some_2 input (Z.to_nat i)) as [x Hx]; [lia|].
    rewrite arr_get_lookup, Hx by lia. eexists. split; [done|]. cbv beta iota.
    replace (Z.to_nat (i + 1 - blk)) with (S (Z.to_nat (i - blk))) by lia.
    rewrite (take_S_r _ _ x) by (apply block_elems; [lia|lia|done]).
    unfold amax_of. by rewrite foldl_app.
  - intros amax ->. rewrite take_ge; [done|]. unfold xs, block_of. rewrite length_take. lia.
Qed.

Section quant_lemmas.
Context `{Libm}.

(** The code of element [i] with value [x], and the scale code of a block. *)
Definition quant_elem (input : list spec_float) (count i : Z) (x : spec_float) : Z :=
  f32_to_bf16 (f32_mul x (f32_div f32_one (scale_of (block_of input count (8 * (i / 8)))))).

Definition scale_code (xs : list spec_float) : Z :=
  if float_gt (amax_of xs) f32_zero then 64 else 0.

(** The blocks before [8 * k] are quantised. *)
Record quant_inv (input : list spec_float) (data0 scales0 : list Z) (count k : Z)
    (st : list Z * list Z) : Prop := {
  qi_data_len : length (fst st) = length data0;
  qi_scales_len : length (snd st) = length scales0;
  qi_data i x : 0 <= i < Z.min count (8 * k) -> input !! Z.to_nat i = Some x ->
    fst st !! Z.to_nat i = Some (quant_elem input count i x);
  qi_scales j : 0 <= j < k ->
    snd st !! Z.to_nat j = Some (scale_code (block_of input count (8 * j)));
}.

Lemma quant_block_ok input data0 scales0 count k st :
  0 <= 8 * k < count -> count + 8 < 2 ^ 32 -> count <= len input -> count <= len data0 ->
  (count + 7) / 8 <= len scales0 ->
  quant_inv input data0 scales0 count k st ->
  exists st', quant_block input count (8 * k) st = Some st' /\
    quant_inv input data0 scales0 count (k + 1) st'.
Proof.
  intros Hk Hc Hin Hd Hs [Hld Hls Hdata Hscales]. destruct st as [data scales]. cbn [fst snd] in *.
  unfold quant_block, MX_BLOCK_SIZE. rewrite (wrap_small 32) by (unfold fits; lia).
  replace (if count <? 8 * k + 8 then count else 8 * k + 8) with (Z.min count (8 * k + 8))
    by (case_cond; lia).
  rewrite block_amax_ok by lia. cbn [mbind option_bind].
  replace (8 * k / 8) with k by dlia. rewrite arr_set_in by dlia. cbn [mbind option_bind].
  fold (scale_of (block_of input count (8 * k))).
  edestruct (for_range_rule (R := unit)
    (fun i o => length o = length data0 /\
      (forall j x, 0 <= j < i -> input !! Z.to_nat j = Some x ->
        o !! Z.to_nat j = Some (quant_elem input count j x)))
    (fun r => exists o, r = inl o /\ length o = length data0 /\
      (forall j x, 0 <= j < Z.min count (8 * k + 8) -> input !! Z.to_nat j = Some x ->
        o !! Z.to_nat j = Some (quant_elem input count j x))))
    as (r & -> & o & -> & Hlo & Ho).
  - lia.
  - split; [done|]. intros j x Hj. apply Hdata. lia.
  - intros i o Hi [Hlo Ho]. destruct (lookup_lt_is_Some_2 input (Z.to_nat i)) as [x Hx]; [lia|].
    rewrite arr_get_lookup, Hx by lia. cbn [mbind option_bind].
    rewrite arr_set_in by lia. eexists. split; [done|]. cbv beta iota.
    rewrite length_insert. split; [done|]. intros j y Hj Hy.
    destruct (decide (j = i)) as [->|Hne].
    + rewrite list_lookup_insert_eq by lia. unfold quant_elem.
      replace (i / 8) with k by dlia. congruence.
    + rewrite list_lookup_insert_ne by lia. apply Ho; [lia|done].
  - intros o Ho. by exists o.
  - eexists. split; [done|]. split; cbn [fst snd].
    + done.
    + by rewrite length_insert.
    + intros i x Hi. apply Ho. lia.
    + intros j Hj. destruct (decide (j = k)) as [->|Hne].
      * rewrite list_lookup_insert_eq by dlia. done.
      * rewrite list_lookup_insert_ne by lia. apply Hscales. lia.
Qed.

Lemma quant_blocks_ok input data0 scales0 count fuel k st :
  0 <= count -> count + 8 < 2 ^ 32 -> count <= len input -> count <= len data0 ->
  (count + 7) / 8 <= len scales0 ->
  0 <= k -> Z.of_nat fuel = (count + 7) / 8 - k ->
  quant_inv input data0 scales0 count k st ->
  exists st', quant_blocks fuel input count (8 * k) st = Some st' /\
    quant_inv input data0 scales0 count ((count + 7) / 8) st'.
Proof.
  intros H0 Hc Hin Hd Hs. revert k st. induction fuel as [|fuel IH];
    intros k st Hk Hf Hinv; cbn [quant_blocks].
  - destruct (Z.ltb_spec (8 * k) count); [dlia|]. exists st. split; [done|].
    by replace ((count + 7) / 8) with k by lia.
  - destruct (Z.ltb_spec (8 * k) count); [|dlia].
    destruct (quant_block_ok input data0 scales0 count k st) as (st' & -> & Hinv'); [lia..|done|].
    cbn [mbind option_bind]. unfold MX_BLOCK_SIZE. rewrite (wrap_small 32) by (unfold fits; lia).
    replace (8 * k + 8) with (8 * (k + 1)) by lia. apply IH; [lia..|done].
Qed.

End quant_lemmas.

(** ** Theorems *)

(** The FP8 E4M3 conversion is undefined exactly on the codes of the
    exponents 1 to 6, and exact on every other code; it has no NaN. *)
Theorem fp8_decode_ok val :
  fits 8 val ->
  fp8_e4m3_to_f32 val = (if fp8_undefined val then None else Some (fp8_value val)) /\
  fp8_value val <> S754_nan.
Proof.
  intros Hv.
  assert (forallb (fun v => bool_decide (fp8_e4m3_to_f32 v =
      (if fp8_undefined v then None else Some (fp8_value v))) &&
      negb (bool_decide (fp8_value v = S754_nan))) (seqZ 0 256) = true) as Hall
    by (vm_compute; reflexivity).
  rewrite forallb_forall in Hall.
  specialize (Hall val). rewrite <- list_elem_of_In, elem_of_seqZ in Hall.
  unfold fits in Hv. specialize (Hall ltac:(lia)). apply andb_true_iff in Hall as [H1 H2].
  split; [by apply bool_decide_eq_true in H1|].
  apply negb_true_iff, bool_decide_eq_false in H2. done.
Qed.

Lemma fp8_decode_ok_witness : fp8_e4m3_to_f32 64 = Some (f32_of_Z 2) /\ fp8_e4m3_to_f32 8 = None.
Proof.
  split.
  - destruct (fp8_decode_ok 64) as [He _]; [done|]. rewrite He. vm_compute. reflexivity.
  - destruct (fp8_decode_ok 8) as [He _]; [done|]. rewrite He. vm_compute. reflexivity.
Defined.

(** C34. The fused dot product is the dot product with the dequantised tensor,
    and undefined exactly when the dequantisation is. *)
Theorem mx_dot_fused a b scales out dim :
  0 <= dim <= len a -> dim <= len out ->
  mx_dot_product a b scales dim =
    (o ← mx_dequant_bf16 b scales out dim;
     Some (dot (bf16_to_f32 <$> take (Z.to_nat dim) a) (take (Z.to_nat dim) o))).
Proof.
  intros Hd Ho. unfold mx_dot_product.
  destruct (first_undefined (mx_elem b scales) dim) as [Hall|(k & Hk & He & Hb)]; [lia| |].
  - set (ev := fun i => default f32_zero (mx_elem b scales i)).
    assert (forall i, 0 <= i < dim -> mx_elem b scales i = Some (ev i)) as Hev.
    { intros i Hi. unfold ev. by destruct (Hall i Hi) as [e ->]. }
    rewrite (mx_dequant_ok b scales out dim ev) by (done || lia). cbn [mbind option_bind].
    rewrite (for_range_fold (fun i acc => mac acc (bf16_to_f32 (a !!! Z.to_nat i)) (ev i)));
      [|lia|intros i acc Hi; by rewrite mx_dot_body, Hev by lia].
    rewrite Z.sub_0_r, take_app_length' by (rewrite length_fmap, length_seqZ; lia).
    by rewrite take_as_range, <- list_fmap_compose, dot_fmap by lia.
  - rewrite (mx_dequant_undef b scales out dim k) by (done || lia).
    rewrite (for_range_undef (fun _ _ => True) _ 0 dim k); [done..| |].
    + intros i acc Hi _. rewrite mx_dot_body by lia. destruct (Hb i Hi) as [e ->]. by eexists.
    + intros acc _. by rewrite mx_dot_body, He by lia.
Qed.

Lemma mx_dot_fused_witness :
  mx_dot_product [0x3F80; 0x4000] [0x4000; 0x4000] [64] 2 = Some (f32_of_Z 12).
Proof.
  rewrite (mx_dot_fused _ _ _ [f32_zero; f32_zero] 2) by (simpl; lia). vm_compute. reflexivity.
Defined.

(** Quantisation terminates within its arrays and stores, for each element,
    the element divided by the scale of its block of eight, rounded to BF16; the
    scale code it stores is 64 (the value 2) for every block that is not zero,
    whatever the scale. *)
Theorem mx_quant_ok `{Libm} input data scales count :
  0 <= count -> count + 8 < 2 ^ 32 -> count <= len input -> count <= len data ->
  (count + 7) / 8 <= len scales ->
  exists data' scales', mx_quant_to_bf16 input data scales count = Some (data', scales') /\
    length data' = length data /\ length scales' = length scales /\
    forall i x, 0 <= i < count -> input !! Z.to_nat i = Some x ->
      let xs := block_of input count (8 * (i / 8)) in
      data' !! Z.to_nat i = Some (f32_to_bf16 (f32_mul x (f32_div f32_one (scale_of xs)))) /\
      scales' !! Z.to_nat (i / 8) = Some (if float_gt (amax_of xs) f32_zero then 64 else 0).
Proof.
  intros H0 Hc Hin Hd Hs. unfold mx_quant_to_bf16.
  destruct (quant_blocks_ok input data scales count (Z.to_nat ((count + 7) / 8)) 0 (data, scales))
    as ([data' scales'] & He & [Hl1 Hl2 Hdata Hscales]); [done..|dlia| |].
  { split; cbn [fst snd]; [done..|intros; lia|intros; lia]. }
  exists data', scales'. cbn [fst snd] in *. split_and!; [done..|].
  intros i x Hi Hx. split; [apply Hdata; [dlia|done]|apply Hscales; dlia].
Qed.

(** Quantising eight ones and dequantising them gives eight times 896. *)
Theorem mx_requant_wrong `{Libm} :
  (st ← mx_quant_to_bf16 (replicate 8 f32_one) (zeroed 8) [0] 8;
   mx_dequant_bf16 (fst st) (snd st) (replicate 8 f32_zero) 8) =
  Some (replicate 8 (f32_of_Z 896)).
Proof. vm_compute. reflexivity. Qed.

#[local] Existing Instance demo_libm.

Lemma mx_quant_ok_witness :
  exists data' scales',
    mx_quant_to_bf16 [f32_one; f32_of_Z 3] (zeroed 2) [0] 2 = Some (data', scales') /\
    length data' = 2%nat /\ length scales' = 1%nat.
Proof.
  destruct (mx_quant_ok [f32_one; f32_of_Z 3] (zeroed 2) [0] 2) as (d & sc & He & H1 & H2 & _);
    [lia|reflexivity|simpl; lia|simpl; lia|vm_compute; congruence|].
  exists d, sc. split; [exact He|]. split; [exact H1|exact H2].
Defined.
