(* ===== verification/InferCpu.v ===== *)
(** * Inference on the CPU

    Models [userspace/compute/infer_cpu.c]: the cached KV block of a sequence
    is looked up by the SHA-256 of its tokens, attention runs over it layer by
    layer, and the last hidden vector is projected to logits.  The memory of the
    cache is a function from the address of a BF16 element to the element,
    [None] where nothing is mapped; whether each allocation succeeds and the
    clock are arguments.

    The file proves that a request whose block is cached returns the projection
    of the attention of the last layer and its largest entry, and that one whose
    block is not, or for which an allocation fails, returns an error and leaves
    the result alone.  Nothing bounds the sequence by the block: the attention of
    a longer one reads on past the tensors, which is undefined when nothing is
    mapped there ([long_sequence_undefined]). *)

From Stdlib Require Import ZArith Lia SpecFloat.
From stdpp Require Import base numbers list gmap.
From S2P Require Import Prelude Floats BlockFormat Arena CacheIndex Wavefront Gpu InferGpu Attention.

#[local] Open Scope Z_scope.

(** ** Data *)

(** The arena of the context is that of its index. *)
Record kllm_infer_cpu_ctx (A : Type) : Type := InferCpuCtx {
  cache_idx : kllm_cache_index A;
  ic_model : kllm_model_config;
  wq : option (list Z);
  wk : option (list Z);
  wv : option (list Z);
  wo : option (list Z);
  lm_head : option (list Z);
  vocab_size : Z;
}.

Arguments InferCpuCtx {A}.
Arguments cache_idx {A}.
Arguments ic_model {A}.
Arguments wq {A}.
Arguments wk {A}.
Arguments wv {A}.
Arguments wo {A}.
Arguments lm_head {A}.
Arguments vocab_size {A}.

(** What the environment answers during one call: the allocations of [hidden]
    and the logits, of [q] and the output of a layer, and the clock. *)
Record cpu_env : Type := CpuEnv {
  calloc_hidden : bool;
  calloc_logits : bool;
  calloc_q : Z -> bool;
  calloc_out : Z -> bool;
  clock : Z -> Z;
}.

(** ** Operations *)

(** The tensor at an address. *)
Definition tensor_at (mem : Z -> option Z) (addr : Z) : tensor := fun i => mem (addr + 2 * i).

(** The tensor in an array. *)
Definition tensor_of (l : list Z) : tensor := arr_get l.

Section operations.
Context {A : Type} {BA : BlockAllocator A} `{Sha256} `{Libm} `{!Avx512 spec_float}.
Abbreviation cpu_ctx := (kllm_infer_cpu_ctx A).

Definition with_idx (ctx : cpu_ctx) (idx : kllm_cache_index A) : cpu_ctx :=
  InferCpuCtx idx (ic_model ctx) (wq ctx) (wk ctx) (wv ctx) (wo ctx) (lm_head ctx) (vocab_size ctx).

(** The synthetic query: the last position of the keys, or zeros. *)
Definition last_query (model : kllm_model_config) (k : tensor) (seq_len : Z) : option (list Z) :=
  let num_heads := num_kv_heads model in
  let q_size := u32 (num_heads * head_dim model) in
  let last_pos_offset := u32 (u32 (u32 (seq_len - 1) * num_heads) * head_dim model) in
  if u32 (last_pos_offset + q_size) <=? u32 (tokens_per_block model * q_size)
  then mapM k (seqZ last_pos_offset q_size)
  else Some (zeroed q_size).

(** Returns the result, the output buffer and the context. *)
Definition kllm_infer_cpu_single_layer (mem : Z -> option Z) (bd : build) (g : kllm_isa_level)
    (env : cpu_env) (ctx : option cpu_ctx) (token_ids : option (list Z)) (seq_len layer_idx : Z)
    (output : list Z) (output_dim : Z) : option (Z * list Z * option cpu_ctx) :=
  match ctx, token_ids with
  | Some c, Some tokens =>
      if seq_len =? 0 then Some (-1, output, ctx)
      else
        toks ← arr_slice tokens 0 seq_len;
        '(kv_block, idx) ← kllm_index_lookup (cache_idx c) (SHA256 (words_bytes toks))
          (clock env layer_idx);
        let ctx := Some (with_idx c idx) in
        match kv_block with
        | None => Some (-1, output, ctx)
        | Some block =>
            let model := ic_model c in
            let k_data := tensor_at mem (kllm_block_key block model layer_idx) in
            let v_data := tensor_at mem (kllm_block_value block model layer_idx) in
            let q_size := u32 (num_kv_heads model * head_dim model) in
            if negb (calloc_q env layer_idx) then Some (-1, output, ctx)
            else
              q ← last_query model k_data seq_len;
              let params := AttentionParams (num_kv_heads model) (head_dim model) seq_len 1
                (f32_div f32_one (f32_sqrt (f32_of_Z (head_dim model)))) in
              if negb (calloc_out env layer_idx) then Some (-1, output, ctx)
              else
                '(rc, attn_output) ← kllm_ace_attention bd g (Some (tensor_of q)) (Some k_data)
                  (Some v_data) (Some (zeroed q_size)) (Some params);
                if rc <? 0 then Some (-1, output, ctx)
                else
                  out ← attn_output;
                  let copy_dim := if output_dim <? q_size then output_dim else q_size in
                  part ← arr_slice out 0 copy_dim;
                  if len output <? copy_dim then None
                  else Some (0, part ++ drop (Z.to_nat copy_dim) output, ctx)
        end
  | _, _ => Some (-1, output, ctx)
  end.

(** The logits from the last hidden vector. *)
Definition project (lm : option (list Z)) (vocab hidden_dim : Z) (hidden : list Z)
    (logits : list spec_float) : option (list spec_float) :=
  res ← for_range (R := unit) 0 vocab (fun v lg =>
    x ←
      match lm with
      | Some w =>
          let row := u32 (v * hidden_dim) in
          res ← for_range (R := unit) 0 hidden_dim (fun d acc =>
            a ← arr_get hidden d; b ← arr_get w (row + d);
            Some (Continue (mac acc (bf16_to_f32 a) (bf16_to_f32 b)))) f32_zero;
          match res with inl acc => Some acc | inr _ => None end
      | None =>
          if hidden_dim =? 0 then None
          else a ← arr_get hidden (v mod hidden_dim); Some (bf16_to_f32 a)
      end;
    lg' ← arr_set lg v x;
    Some (Continue lg')) logits;
  match res with inl lg => Some lg | inr _ => None end.

(** Returns the result code, the result and the context. *)
Definition kllm_infer_cpu (mem : Z -> option Z) (bd : build) (g : kllm_isa_level)
    (env : cpu_env) (ctx : cpu_ctx) (token_ids : list Z) (seq_len : Z)
    (result : kllm_infer_result) : option (Z * kllm_infer_result * cpu_ctx) :=
  let model := ic_model ctx in
  let hidden_dim := u32 (num_kv_heads model * head_dim model) in
  if negb (calloc_hidden env) then Some (-1, result, ctx)
  else
    res ← for_range 0 (num_layers model) (fun layer '(hidden, c) =>
      '(rc, hidden', c') ← kllm_infer_cpu_single_layer mem bd g env (Some c) (Some token_ids)
        seq_len layer hidden hidden_dim;
      c' ← c';
      if rc <? 0 then Some (Return c') else Some (Continue (hidden', c')))
      (zeroed hidden_dim, ctx);
    match res with
    | inr c => Some (-1, result, c)
    | inl (hidden, c) =>
        let lg := match logits result with
          | Some l => Some l
          | None => if calloc_logits env
              then Some (replicate (Z.to_nat (vocab_size c)) f32_zero) else None
          end in
        match lg with
        | None => Some (-1, result, c)
        | Some lg =>
            lg ← project (lm_head c) (vocab_size c) hidden_dim hidden lg;
            max_idx ← argmax lg (vocab_size c);
            Some (0, InferResult (Some lg) (vocab_size c) max_idx, c)
        end
    end.

End operations.

(** ** Specification *)

Section spec.
Context {A : Type} {BA : BlockAllocator A} `{Sha256} `{Libm} `{!Avx512 spec_float}.

(** The key of a sequence in the cache. *)
Definition seq_key (token_ids : list Z) (seq_len : Z) : list Z :=
  SHA256 (words_bytes (take (Z.to_nat seq_len) token_ids)).

Definition layer_params (model : kllm_model_config) (seq_len : Z) : kllm_attention_params spec_float :=
  AttentionParams (num_kv_heads model) (head_dim model) seq_len 1
    (f32_div f32_one (f32_sqrt (f32_of_Z (head_dim model)))).

(** The query: the key of the last position, or zeros when the sequence is
    longer than a block. *)
Definition query_ref (model : kllm_model_config) (seq_len : Z) (kv : Z -> Z) (i : Z) : Z :=
  if seq_len <=? tokens_per_block model
  then kv ((seq_len - 1) * num_kv_heads model * head_dim model + i) else 0.

(** The attention of a layer with keys [kv] and values [vv]. *)
Definition hidden_ref (bd : build) (g : kllm_isa_level) (model : kllm_model_config) (seq_len : Z)
    (kv vv : Z -> Z) : list Z :=
  let p := layer_params model seq_len in
  (fun i => attention_ref p (score_of bd g p (query_ref model seq_len kv) kv) vv 0
     (i / head_dim model) (i mod head_dim model))
  <$> seqZ 0 (num_kv_heads model * head_dim model).

(** Logit [v]: the product with row [v] of the projection, or without weights
    an element of the hidden vector. *)
Definition logit_ref (lm : option (list Z)) (hidden : list Z) (v : Z) : spec_float :=
  match lm with
  | Some w => dot (bf16_to_f32 <$> hidden)
      (bf16_to_f32 <$> take (length hidden) (drop (Z.to_nat (v * len hidden)) w))
  | None => bf16_to_f32 (hidden !!! Z.to_nat (v mod len hidden))
  end.

(** Dimensions whose element numbers fit 32 bits. *)
Record request_wf (ctx : kllm_infer_cpu_ctx A) (token_ids : list Z) (seq_len : Z) : Prop := {
  rw_model : model_wf (ic_model ctx);
  rw_layers : 1 <= num_layers (ic_model ctx);
  rw_dim : head_dim (ic_model ctx) < 2 ^ 32 - 32;
  rw_elems : tensor_elems (ic_model ctx) < 2 ^ 32;
  rw_seq : 1 <= seq_len;
  rw_reads : seq_len * num_kv_heads (ic_model ctx) * head_dim (ic_model ctx) < 2 ^ 32;
  rw_tokens : seq_len <= len token_ids;
  rw_vocab : 0 <= vocab_size ctx;
  rw_lm : match lm_head ctx with
    | Some w => vocab_size ctx * (num_kv_heads (ic_model ctx) * head_dim (ic_model ctx)) <=
        Z.min (len w) (2 ^ 32 - 1)
    | None => True
    end;
  rw_index : index_wf (cache_idx ctx);
}.

(** In memory the keys of [seq_len] positions are [kv], from the key tensor of
    each layer of the block on, and the values are [vv].  Of a sequence that is
    not longer than a block these are elements of the tensors; the positions of a
    longer one go on past the tensor, whatever is there. *)
Definition block_holds (mem : Z -> option Z) (model : kllm_model_config) (block seq_len : Z)
    (kv vv : Z -> Z -> Z) : Prop :=
  let n := seq_len * num_kv_heads model * head_dim model in
  forall layer, 0 <= layer < num_layers model ->
    tensor_is (tensor_at mem (kllm_block_key block model layer)) (kv layer) n /\
    tensor_is (tensor_at mem (kllm_block_value block model layer)) (vv layer) n.

(** The two allocations of a layer, and every allocation of a call. *)
Definition layer_allocs (env : cpu_env) (layer : Z) : bool := calloc_q env layer && calloc_out env layer.

Definition allocs_ok (env : cpu_env) (layers : Z) (result : kllm_infer_result) : bool :=
  calloc_hidden env && forallb (layer_allocs env) (seqZ 0 layers) &&
  match logits result with Some _ => true | None => calloc_logits env end.

(** ** Lemmas *)

Lemma dims_of ctx tokens seq_len :
  request_wf ctx tokens seq_len ->
  let nh := num_kv_heads (ic_model ctx) in
  let hd := head_dim (ic_model ctx) in
  1 <= nh /\ 1 <= hd /\ nh * hd <= seq_len * nh * hd /\ seq_len * nh * hd < 2 ^ 32.
Proof.
  intros [[_ Hh Hd Ht He _ _] _ _ Hel Hs Hr _ _ _ _]. unfold tensor_elems, fits in *. cbv zeta.
  set (nh := num_kv_heads _) in *. set (hd := head_dim _) in *. set (t := tokens_per_block _) in *.
  assert (0 < nh /\ 0 < hd) as [? ?] by nia.
  assert (1 * (nh * hd) <= seq_len * (nh * hd)) by nia.
  rewrite <- !Z.mul_assoc in *. lia.
Qed.

Lemma layer_dims ctx tokens seq_len :
  request_wf ctx tokens seq_len -> dims_wf (layer_params (ic_model ctx) seq_len).
Proof.
  intros Hwf. pose proof (dims_of _ _ _ Hwf) as (? & ? & ? & ?).
  destruct Hwf as [_ _ Hd _ Hs _ _ _ _ _]. split; cbn -[Z.pow]; nia.
Qed.

(** The query is the last key of the block, or zeros. *)
Lemma last_query_ok ctx tokens seq_len k kv :
  request_wf ctx tokens seq_len ->
  let nh := num_kv_heads (ic_model ctx) in
  let hd := head_dim (ic_model ctx) in
  tensor_is k kv (seq_len * nh * hd) ->
  exists q, last_query (ic_model ctx) k seq_len = Some q /\
    tensor_is (tensor_of q) (query_ref (ic_model ctx) seq_len kv) (1 * nh * hd).
Proof.
  intros Hwf nh hd Hk. pose proof (dims_of _ _ _ Hwf) as (Hnh & Hhd & Hq & Hlt).
  destruct Hwf as [[_ _ _ Ht _ _ _] _ _ Hel Hs _ _ _ _ _].
  fold nh in Hnh, Hq, Hlt. fold hd in Hhd, Hq, Hlt.
  unfold last_query, query_ref. fold nh. fold hd. unfold tensor_elems in Hel.
  fold nh in Hel. fold hd in Hel. unfold fits in Ht.
  set (t := tokens_per_block _) in *. set (off := (seq_len - 1) * nh * hd).
  assert (0 <= off /\ off + nh * hd = seq_len * nh * hd) as [Hoff Hend] by (unfold off; nia).
  assert (seq_len <= seq_len * nh * hd) by nia.
  assert (0 <= (seq_len - 1) * nh <= off) by (unfold off; nia).
  assert (t * (nh * hd) = t * nh * hd) as Et by ring.
  rewrite (wrap_small 32 (nh * hd)) by (unfold fits; lia).
  rewrite (wrap_small 32 (seq_len - 1)) by (unfold fits; lia).
  rewrite (wrap_small 32 ((seq_len - 1) * nh)) by (unfold fits; lia).
  fold off. rewrite (wrap_small 32 off) by (unfold fits; lia).
  rewrite (wrap_small 32 (off + nh * hd)) by (unfold fits; lia).
  rewrite (wrap_small 32 (t * (nh * hd))) by (unfold fits; nia).
  destruct (Z.leb_spec (off + nh * hd) (t * (nh * hd))); destruct (Z.leb_spec seq_len t); [|nia..|].
  - exists (kv <$> seqZ off (nh * hd)). split.
    + apply mapM_Some_2, Forall2_fmap_r, Forall_Forall2_diag, Forall_forall.
      intros x Hx%elem_of_seqZ. apply Hk. lia.
    + intros i Hi. unfold tensor_of. rewrite arr_get_lookup, list_lookup_fmap, lookup_seqZ_lt by lia.
      simpl. do 2 f_equal. lia.
  - exists (zeroed (nh * hd)). split; [done|]. intros i Hi. unfold tensor_of.
    rewrite arr_get_lookup by lia. apply lookup_replicate_2. lia.
Qed.

Lemma hidden_ref_length bd g model seq_len kv vv :
  0 <= num_kv_heads model * head_dim model ->
  len (hidden_ref bd g model seq_len kv vv) = num_kv_heads model * head_dim model.
Proof. intros. unfold hidden_ref. rewrite length_fmap, length_seqZ. lia. Qed.

(** An output with the attention of every head is the hidden vector. *)
Lemma hidden_out bd g model seq_len kv vv out :
  1 <= head_dim model -> 0 <= num_kv_heads model * head_dim model ->
  len out = num_kv_heads model * head_dim model ->
  (forall qi h d, in_out (layer_params model seq_len) qi h d ->
     out !! Z.to_nat ((qi * num_kv_heads model + h) * head_dim model + d) =
       Some (attention_ref (layer_params model seq_len) (score_of bd g (layer_params model seq_len)
         (query_ref model seq_len kv) kv) vv qi h d)) ->
  out = hidden_ref bd g model seq_len kv vv.
Proof.
  set (n := num_kv_heads model * head_dim model). intros Hhd Hn Hlen Hout.
  apply list_eq. intros i. unfold hidden_ref. rewrite list_lookup_fmap. fold n.
  destruct (decide (Z.of_nat i < n)) as [Hi|Hi]; cycle 1.
  { rewrite lookup_seqZ_ge by lia. apply lookup_ge_None. lia. }
  rewrite lookup_seqZ_lt by lia. cbn [fmap option_fmap option_map]. rewrite Z.add_0_l.
  set (hd := head_dim model) in *.
  pose proof (Z.div_mod (Z.of_nat i) hd ltac:(lia)) as Hdm.
  pose proof (Z.mod_pos_bound (Z.of_nat i) hd ltac:(lia)).
  rewrite <- (Hout 0 (Z.of_nat i / hd) (Z.of_nat i mod hd)).
  - f_equal. lia.
  - split; cbn; [lia|]. fold hd. split; [|lia]. split; [apply Z.div_pos; lia|].
    apply Z.div_lt_upper_bound; [lia|]. unfold n in Hi. lia.
Qed.

(** One layer of a sequence whose block is cached: the attention, or -1 and the
    buffer as it was if one of its allocations fails. *)
Lemma single_layer_ok mem bd g env ctx tokens seq_len layer block kv vv hidden :
  request_wf ctx tokens seq_len ->
  hit (cache_idx ctx) (seq_key tokens seq_len) block ->
  block_holds mem (ic_model ctx) block seq_len kv vv ->
  clock env layer < UINT64_MAX ->
  0 <= layer < num_layers (ic_model ctx) ->
  let n := num_kv_heads (ic_model ctx) * head_dim (ic_model ctx) in
  len hidden = n ->
  exists idx',
    kllm_infer_cpu_single_layer mem bd g env (Some ctx) (Some tokens) seq_len layer hidden (u32 n)
      = Some (if layer_allocs env layer
              then (0, hidden_ref bd g (ic_model ctx) seq_len (kv layer) (vv layer),
                    Some (with_idx ctx idx'))
              else (-1, hidden, Some (with_idx ctx idx'))) /\
    index_wf idx' /\ hit idx' (seq_key tokens seq_len) block /\
    arena idx' = arena (cache_idx ctx).
Proof.
  intros Hwf Hhit Hmem Hclk Hlayer n Hn.
  pose proof (dims_of _ _ _ Hwf) as (Hnh & Hhd & Hq & Hlt).
  pose proof (layer_dims _ _ _ Hwf) as Hdims.
  assert (1 <= n < 2 ^ 32) as Hn32 by (unfold n; nia).
  unfold kllm_infer_cpu_single_layer. destruct (Z.eqb_spec seq_len 0); [destruct Hwf; lia|].
  rewrite arr_slice_in by (destruct Hwf; lia). cbn [mbind option_bind].
  destruct (lookup_hit (cache_idx ctx) (seq_key tokens seq_len) (clock env layer) block)
    as (idx' & Hlk & Hwf' & Hhit'); [apply Hwf|apply sha256_len|done|done|].
  change (take (Z.to_nat seq_len) (drop (Z.to_nat 0) tokens)) with (take (Z.to_nat seq_len) tokens).
  fold (seq_key tokens seq_len). rewrite Hlk. cbn [mbind option_bind].
  destruct (Hmem layer Hlayer) as [Hk Hv]. unfold layer_allocs.
  destruct (calloc_q env layer); cbn [negb andb]; [|by exists idx'].
  destruct (last_query_ok ctx tokens seq_len _ _ Hwf Hk) as (q & -> & Hqt).
  cbn [mbind option_bind]. destruct (calloc_out env layer); cbn [negb]; [|by exists idx'].
  fold n. rewrite (wrap_small 32 n) by (unfold fits; lia).
  fold (layer_params (ic_model ctx) seq_len).
  destruct (ace_attention_run bd g (tensor_of q)
      (tensor_at mem (kllm_block_key block (ic_model ctx) layer))
      (tensor_at mem (kllm_block_value block (ic_model ctx) layer))
      _ (kv layer) (vv layer) (zeroed n) _ Hdims Hqt)
    as (out & Hrun & Hlo & Hout).
  { exact Hk. }
  { exact Hv. }
  { rewrite zeroed_len by lia. cbn -[Z.mul]. lia. }
  rewrite Hrun. cbn [mbind option_bind Z.ltb Z.compare].
  pose proof (zeroed_len n ltac:(lia)) as Hzl.
  destruct (Z.ltb_spec n n); [lia|]. rewrite arr_slice_in by lia. cbn [mbind option_bind].
  destruct (Z.ltb_spec (len hidden) n); [lia|]. rewrite (drop_ge hidden) by lia.
  rewrite app_nil_r. change (drop (Z.to_nat 0) out) with out. rewrite take_ge by lia.
  exists idx'. split; [|done]. do 3 f_equal. by apply hidden_out; [lia|nia|lia|].
Qed.

Lemma project_ok lm vocab hidden lg n :
  len hidden = n -> 1 <= n < 2 ^ 32 -> 0 <= vocab <= len lg ->
  match lm with Some w => vocab * n <= Z.min (len w) (2 ^ 32 - 1) | None => True end ->
  project lm vocab n hidden lg =
    Some ((logit_ref lm hidden <$> seqZ 0 vocab) ++ drop (Z.to_nat vocab) lg).
Proof.
  intros Hh Hn Hv Hlm. unfold project.
  edestruct (for_range_rule (R := unit)
    (fun v o => o = (logit_ref lm hidden <$> seqZ 0 v) ++ drop (Z.to_nat v) lg)
    (fun r => r = inl ((logit_ref lm hidden <$> seqZ 0 vocab) ++ drop (Z.to_nat vocab) lg)))
    as (r & -> & ->); [..|done].
  - lia.
  - done.
  - intros v o Hvr ->. cbv beta.
    assert (forall X : option spec_float, X = Some (logit_ref lm hidden v) ->
      exists c, (x ← X; lg' ← arr_set ((logit_ref lm hidden <$> seqZ 0 v) ++
        drop (Z.to_nat v) lg) v x; Some (Continue (R := unit) lg')) = Some c /\
      match c with
      | Continue o => o = (logit_ref lm hidden <$> seqZ 0 (v + 1)) ++ drop (Z.to_nat (v + 1)) lg
      | Break _ | Return _ => False
      end) as Hset.
    { intros X ->. destruct (lookup_lt_is_Some_2 lg (Z.to_nat v)) as [y Hy]; [lia|].
      cbn [mbind option_bind]. rewrite (drop_S lg y) by done.
      rewrite arr_set_app by (rewrite length_fmap, length_seqZ; lia).
      eexists. split; [done|]. cbv beta iota.
      rewrite (seqZ_app 0 v 1), fmap_app, <- app_assoc by lia.
      by replace (Z.to_nat (v + 1)) with (S (Z.to_nat v)) by lia. }
    edestruct Hset as (c & Hc & Hc'); cycle 1.
    { exists c. split; [exact Hc|]. by destruct c. }
    destruct lm as [w|]; cbn [logit_ref].
    + assert (0 <= v * n /\ v * n + n <= vocab * n) as [? ?] by nia.
      rewrite (wrap_small 32) by (unfold fits; lia).
      rewrite (for_range_fold (fun d acc => mac acc (bf16_to_f32 (hidden !!! Z.to_nat d))
        (bf16_to_f32 (drop (Z.to_nat (v * n)) w !!! Z.to_nat d)))); [|lia|].
      * rewrite Z.sub_0_r, Hh. change f32_zero with (a_zero (F := spec_float)). rewrite <- dot_fmap. replace (length hidden) with (Z.to_nat n) by lia.
        rewrite take_as_range by (rewrite length_drop; lia). rewrite <- list_fmap_compose.
        cbn [mbind option_bind]. do 2 f_equal.
        transitivity (bf16_to_f32 <$> ((fun i => hidden !!! Z.to_nat i) <$> seqZ 0 n));
          [by rewrite <- list_fmap_compose|].
        by rewrite <- list_as_range by done.
      * intros d acc Hd. rewrite !arr_get_total by lia. cbn [mbind option_bind].
        rewrite lookup_total_drop. do 4 f_equal. f_equal. lia.
    + destruct (Z.eqb_spec n 0); [lia|]. pose proof (Z.mod_pos_bound v n ltac:(lia)).
      rewrite arr_get_total by lia. by rewrite Hh.
  - intros o ->. done.
Qed.

(** The invariant of the loop over layers of a cached sequence: no allocation
    has failed so far. *)
Definition layers_inv (ctx : kllm_infer_cpu_ctx A) (env : cpu_env) (key : list Z) (block : Z)
    (href : Z -> list Z) (i : Z) (st : list Z * kllm_infer_cpu_ctx A) : Prop :=
  exists idx, snd st = with_idx ctx idx /\ index_wf idx /\ hit idx key block /\
    arena idx = arena (cache_idx ctx) /\
    len (fst st) = num_kv_heads (ic_model ctx) * head_dim (ic_model ctx) /\
    (0 < i -> fst st = href (i - 1)) /\ forallb (layer_allocs env) (seqZ 0 i) = true.

Definition clock_ok (env : cpu_env) : Prop := forall layer, clock env layer < UINT64_MAX.

(** The buffer of an earlier result is reused: it has the size of the
    vocabulary. *)
Definition result_wf (vocab : Z) (result : kllm_infer_result) : Prop :=
  match logits result with Some l => len l = vocab | None => True end.

Lemma forallb_false {T} (f : T -> bool) l x : x ∈ l -> f x = false -> forallb f l = false.
Proof.
  intros Hx Hf. apply not_true_iff_false. rewrite forallb_forall. intros Hall.
  rewrite Hall in Hf; [done|]. by apply list_elem_of_In.
Qed.

Lemma request_with_idx ctx tokens seq_len idx :
  request_wf ctx tokens seq_len -> index_wf idx -> request_wf (with_idx ctx idx) tokens seq_len.
Proof. intros [] Hi. by split. Qed.

(** The part of a call after the layers. *)
Lemma finish_ok ctx tokens seq_len hidden lg :
  request_wf ctx tokens seq_len ->
  len hidden = num_kv_heads (ic_model ctx) * head_dim (ic_model ctx) -> len lg = vocab_size ctx ->
  let lg' := logit_ref (lm_head ctx) hidden <$> seqZ 0 (vocab_size ctx) in
  exists m idx, project (lm_head ctx) (vocab_size ctx)
    (u32 (num_kv_heads (ic_model ctx) * head_dim (ic_model ctx))) hidden lg = Some lg' /\
    argmax lg' (vocab_size ctx) = Some idx /\ argmax_inv lg' (vocab_size ctx) (m, idx).
Proof.
  intros Hwf Hh Hl lg'. pose proof (dims_of _ _ _ Hwf) as (? & ? & ? & ?).
  set (n := num_kv_heads _ * head_dim _) in *.
  assert (1 <= n) by (unfold n; nia). destruct Hwf as [_ _ _ _ _ _ _ Hv Hlm _].
  destruct (argmax_ok lg' (vocab_size ctx)) as (m & r & Ha & Hinv).
  { unfold lg'. rewrite length_fmap, length_seqZ. lia. }
  exists m, r. split; [|done]. rewrite (wrap_small 32) by (unfold fits; lia).
  rewrite project_ok; [|done|lia|lia|done]. by rewrite (drop_ge lg), app_nil_r by lia.
Qed.

(** The layers of a cached sequence. *)
Lemma layers_ok mem bd g env ctx tokens seq_len block kv vv :
  request_wf ctx tokens seq_len -> clock_ok env ->
  hit (cache_idx ctx) (seq_key tokens seq_len) block ->
  block_holds mem (ic_model ctx) block seq_len kv vv ->
  let n := num_kv_heads (ic_model ctx) * head_dim (ic_model ctx) in
  let layers := num_layers (ic_model ctx) in
  exists idx', for_range 0 layers (fun layer '(hidden, c) =>
      '(rc, hidden', c') ← kllm_infer_cpu_single_layer mem bd g env (Some c) (Some tokens)
        seq_len layer hidden (wrap 32 n);
      c' ← c';
      if rc <? 0 then Some (Return c') else Some (Continue (hidden', c')))
      (zeroed (wrap 32 n), ctx) =
    Some (if forallb (layer_allocs env) (seqZ 0 layers)
          then inl (hidden_ref bd g (ic_model ctx) seq_len (kv (layers - 1)) (vv (layers - 1)),
                    with_idx ctx idx')
          else inr (with_idx ctx idx')) /\
    index_wf idx' /\ hit idx' (seq_key tokens seq_len) block.
Proof.
  intros Hwf Hclk Hhit Hmem n layers.
  pose proof (dims_of _ _ _ Hwf) as (? & ? & ? & ?).
  assert (1 <= n < 2 ^ 32) as Hn by (unfold n; nia).
  set (href := fun l => hidden_ref bd g (ic_model ctx) seq_len (kv l) (vv l)).
  edestruct (for_range_rule (R := kllm_infer_cpu_ctx A)
    (layers_inv ctx env (seq_key tokens seq_len) block href)
    (fun r => exists idx', r = (if forallb (layer_allocs env) (seqZ 0 layers)
        then inl (href (layers - 1), with_idx ctx idx') else inr (with_idx ctx idx')) /\
      index_wf idx' /\ hit idx' (seq_key tokens seq_len) block))
    as (r & -> & idx' & -> & Hok); [..|by exists idx'].
  - unfold layers. destruct Hwf. lia.
  - exists (cache_idx ctx). cbn [fst snd]. split; [by destruct ctx|]. split; [apply Hwf|].
    split_and!; [done..| |lia|done]. by rewrite (wrap_small 32 n), zeroed_len by (unfold fits; lia).
  - intros layer [hidden c] Hlayer (idx & Hc & Hiwf & Hihit & Ha & Hlen & _ & Hall).
    cbn [fst snd] in *. subst c.
    destruct (single_layer_ok mem bd g env (with_idx ctx idx) tokens seq_len layer block kv vv hidden)
      as (idx' & Hrun & Hi1 & Hi2 & Hi3); try done.
    { by apply request_with_idx. }
    change (ic_model (with_idx ctx idx)) with (ic_model ctx) in Hrun. fold n in Hrun.
    cbv beta iota. rewrite Hrun. destruct (layer_allocs env layer) eqn:Hal;
      cbn [mbind option_bind Z.ltb Z.compare]; (eexists; split; [done|]); exists idx'; cbn [fst snd].
    + split_and!; try done.
      * by rewrite Hi3.
      * apply hidden_ref_length. cbn. nia.
      * intros _. by replace (layer + 1 - 1) with layer by lia.
      * rewrite (seqZ_app 0 layer 1), forallb_app, Hall by lia. rewrite Z.add_0_l.
        rewrite seqZ_cons by lia. cbn [forallb andb]. by rewrite Hal.
    + rewrite (forallb_false _ _ layer); [done|apply elem_of_seqZ; lia|done].
  - intros [hidden c] (idx & Hc & Hiwf & Hihit & _ & _ & Hh & Hall). cbn [fst snd] in *. subst c.
    exists idx. rewrite Hall, <- Hh by (unfold layers; destruct Hwf; lia). done.
Qed.

(** A request whose first lookup misses. *)
Lemma infer_cpu_miss mem bd g env ctx tokens seq_len result idx' :
  request_wf ctx tokens seq_len -> calloc_hidden env = true ->
  kllm_index_lookup (cache_idx ctx) (seq_key tokens seq_len) (clock env 0) = Some (None, idx') ->
  kllm_infer_cpu mem bd g env ctx tokens seq_len result = Some (-1, result, with_idx ctx idx').
Proof.
  intros Hwf Hc Hlk. unfold kllm_infer_cpu. rewrite Hc. cbn [negb]. unfold for_range.
  pose proof (rw_layers _ _ _ Hwf) as Hl. pose proof (rw_seq _ _ _ Hwf) as Hs.
  pose proof (rw_tokens _ _ _ Hwf) as Ht.
  replace (Z.to_nat (num_layers (ic_model ctx) - 0))
    with (S (Z.to_nat (num_layers (ic_model ctx) - 1))) by lia.
  cbn [for_loop]. unfold kllm_infer_cpu_single_layer. destruct (Z.eqb_spec seq_len 0); [lia|].
  rewrite arr_slice_in by lia. cbn [mbind option_bind].
  change (take (Z.to_nat seq_len) (drop (Z.to_nat 0) tokens)) with (take (Z.to_nat seq_len) tokens).
  fold (seq_key tokens seq_len). by rewrite Hlk.
Qed.

(** An empty sequence. *)
Lemma infer_cpu_empty mem bd g env ctx tokens seq_len result :
  request_wf ctx tokens seq_len ->
  kllm_infer_cpu mem bd g env ctx tokens 0 result = Some (-1, result, ctx).
Proof.
  intros Hwf. unfold kllm_infer_cpu. destruct (calloc_hidden env); [|done]. cbn [negb].
  pose proof (rw_layers _ _ _ Hwf) as Hl. unfold for_range.
  by replace (Z.to_nat (num_layers (ic_model ctx) - 0))
    with (S (Z.to_nat (num_layers (ic_model ctx) - 1))) by lia.
Qed.

(** For every block of the arena the memory that a sequence reads is there. *)
Definition mapped_blocks (mem : Z -> option Z) (ctx : kllm_infer_cpu_ctx A) (seq_len : Z) : Prop :=
  forall slot block, ba_slot_ptr (arena (cache_idx ctx)) slot = Some block ->
    exists kv vv, block_holds mem (ic_model ctx) block seq_len kv vv.

Lemma mapped_le mem ctx m n :
  0 <= num_kv_heads (ic_model ctx) -> 0 <= head_dim (ic_model ctx) -> n <= m ->
  mapped_blocks mem ctx m -> mapped_blocks mem ctx n.
Proof.
  intros Hh Hd Hle Hmap slot block Hs. destruct (Hmap slot block Hs) as (kv & vv & Hb).
  exists kv, vv. intros layer Hl. destruct (Hb layer Hl) as [Hk Hv].
  set (nh := num_kv_heads _) in *. set (hd := head_dim _) in *.
  assert (n * nh * hd <= m * nh * hd) by (by do 2 (apply Z.mul_le_mono_nonneg_r; [done|])).
  split; intros i Hi; [apply Hk|apply Hv]; lia.
Qed.

(** A layer returns, whatever is cached and whichever allocation fails. *)
Lemma single_layer_total mem bd g env ctx tokens seq_len layer hidden :
  request_wf ctx tokens seq_len -> clock_ok env -> mapped_blocks mem ctx seq_len ->
  0 <= layer < num_layers (ic_model ctx) ->
  let n := num_kv_heads (ic_model ctx) * head_dim (ic_model ctx) in
  len hidden = n ->
  exists rc out idx',
    kllm_infer_cpu_single_layer mem bd g env (Some ctx) (Some tokens) seq_len layer hidden (wrap 32 n)
      = Some (rc, out, Some (with_idx ctx idx')) /\
    index_wf idx' /\ arena idx' = arena (cache_idx ctx) /\ len out = n.
Proof.
  intros Hwf Hclk Hmap Hlayer n Hn.
  pose proof (dims_of _ _ _ Hwf) as (Hnh & Hhd & Hq & Hlt).
  destruct (lookup_ok (cache_idx ctx) (seq_key tokens seq_len) (clock env layer))
    as (p & idx' & Hlk & Hwf' & Hres); [apply Hwf|apply sha256_len|apply Hclk|].
  assert (arena idx' = arena (cache_idx ctx)) as Har
    by (destruct Hres as [(_ & -> & _)|(? & ? & _ & _ & _ & _ & ->)]; done).
  destruct Hres as [(-> & Hres)|(i & e & Hf & Hl & [block Hb] & Hp & _)].
  - unfold kllm_infer_cpu_single_layer. destruct (Z.eqb_spec seq_len 0); [destruct Hwf; lia|].
    rewrite arr_slice_in by (destruct Hwf; lia). cbn [mbind option_bind].
    change (take (Z.to_nat seq_len) (drop (Z.to_nat 0) tokens))
      with (take (Z.to_nat seq_len) tokens).
    fold (seq_key tokens seq_len). rewrite Hlk. cbn [mbind option_bind].
    by exists (-1), hidden, idx'.
  - rewrite Hb in Hp. symmetry in Hp. destruct (Hmap _ _ Hp) as (kv & vv & Hmem).
    destruct (single_layer_ok mem bd g env ctx tokens seq_len layer block kv vv hidden)
      as (idx1 & Hrun & Hi1 & _ & Hi3); try done.
    { by exists i, e. }
    fold n in Hrun. rewrite Hrun. destruct (layer_allocs env layer); do 2 eexists; exists idx1;
      (split; [done|]); split_and!; try done. apply hidden_ref_length. lia.
Qed.

(** So does a call; on success it leaves logits for the vocabulary. *)
Lemma infer_cpu_total mem bd g env ctx tokens seq_len result :
  request_wf ctx tokens seq_len -> clock_ok env -> mapped_blocks mem ctx seq_len ->
  result_wf (vocab_size ctx) result ->
  exists rc result' idx',
    kllm_infer_cpu mem bd g env ctx tokens seq_len result = Some (rc, result', with_idx ctx idx') /\
    index_wf idx' /\ arena idx' = arena (cache_idx ctx) /\
    result_wf (vocab_size ctx) result' /\
    (rc < 0 \/ (res_vocab_size result' = vocab_size ctx /\
       exists lg, logits result' = Some lg /\ len lg = vocab_size ctx)).
Proof.
  intros Hwf Hclk Hmap Hres. pose proof (dims_of _ _ _ Hwf) as (Hnh & Hhd & Hq & Hlt).
  unfold kllm_infer_cpu. set (n := num_kv_heads (ic_model ctx) * head_dim (ic_model ctx)).
  assert (1 <= n < 2 ^ 32) as Hn by (unfold n; nia).
  destruct (calloc_hidden env); cbn [negb]; cycle 1.
  { exists (-1), result, (cache_idx ctx). split; [by destruct ctx|].
    split; [apply Hwf|]. split_and!; [done..|by left]. }
  edestruct (for_range_rule (R := kllm_infer_cpu_ctx A)
    (fun _ (st : list Z * kllm_infer_cpu_ctx A) => exists idx, snd st = with_idx ctx idx /\
      index_wf idx /\ arena idx = arena (cache_idx ctx) /\ len (fst st) = n)
    (fun r => exists idx, index_wf idx /\ arena idx = arena (cache_idx ctx) /\
      (r = inr (with_idx ctx idx) \/
       exists hidden, r = inl (hidden, with_idx ctx idx) /\ len hidden = n)))
    as (r & -> & idx & Hiwf & Har & Hr).
  - destruct Hwf. lia.
  - exists (cache_idx ctx). cbn [fst snd]. split; [by destruct ctx|]. split; [apply Hwf|].
    split; [done|]. by rewrite (wrap_small 32 n), zeroed_len by (unfold fits; lia).
  - intros layer [hidden c] Hlayer (idx & Hc & Hiwf & Har & Hlen). cbn [fst snd] in *. subst c.
    destruct (single_layer_total mem bd g env (with_idx ctx idx) tokens seq_len layer hidden)
      as (rc & out & idx' & Hrun & Hi1 & Hi2 & Hi3); try done.
    { by apply request_with_idx. }
    { intros slot block. cbn [with_idx cache_idx]. rewrite Har. apply Hmap. }
    change (ic_model (with_idx ctx idx)) with (ic_model ctx) in *. fold n in Hrun, Hi3.
    cbv beta iota. rewrite Hrun. cbn [mbind option_bind]. cbn [with_idx cache_idx] in Hi2.
    assert (arena idx' = arena (cache_idx ctx)) by congruence.
    destruct (rc <? 0); (eexists; split; [done|]); exists idx'; split_and!; try done. by left.
  - intros [hidden c] (idx & Hc & Hiwf & Har & Hlen). cbn [fst snd] in *. subst c.
    exists idx. split_and!; [done..|]. right. by exists hidden.
  - cbn [mbind option_bind]. destruct Hr as [->|(hidden & -> & Hh)].
    { exists (-1), result, idx. split_and!; [done..|by left]. }
    change (vocab_size (with_idx ctx idx)) with (vocab_size ctx).
    change (lm_head (with_idx ctx idx)) with (lm_head ctx).
    set (lg := match logits result with Some l => Some l | None => _ end).
    destruct lg as [l|] eqn:Hlg; cycle 1.
    { exists (-1), result, idx. split_and!; [done..|by left]. }
    assert (len l = vocab_size ctx) as Hll.
    { unfold lg, result_wf in *. destruct (logits result); [congruence|].
      destruct (calloc_logits env); simplify_eq. rewrite length_replicate. destruct Hwf. lia. }
    destruct (finish_ok ctx tokens seq_len hidden l Hwf Hh Hll) as (m & next & Hp & Ha & _).
    fold n in Hp. rewrite Hp. cbn [mbind option_bind]. rewrite Ha. cbn [mbind option_bind].
    assert (len (logit_ref (lm_head ctx) hidden <$> seqZ 0 (vocab_size ctx)) = vocab_size ctx)
      by (rewrite length_fmap, length_seqZ; destruct Hwf; lia).
    eexists 0, _, idx. split; [reflexivity|]. split_and!; [done..|]. right. split; [done|].
    by eexists.
Qed.

End spec.

(** ** Theorems *)

(** C25. Inference on the CPU, for every outcome of the lookup and of the
    allocations.  A request whose sequence is cached returns 0 with the logits
    that the projection gives for the attention of the last layer over the keys
    and values at the block, and the first largest logit as next token, when the
    allocations succeed; the query is the last key, or zeros when the sequence is
    longer than a block, and the positions past the block are then those that
    happen to follow it in memory.  When an allocation fails, when the sequence
    is not cached and when it is empty, the call returns -1 and leaves the result
    alone.  The block stays cached. *)
Theorem infer_cpu_ok {A} {BA : BlockAllocator A} `{Sha256} `{Libm} `{!Avx512 spec_float}
    mem bd g env (ctx : kllm_infer_cpu_ctx A) tokens seq_len result :
  request_wf ctx tokens seq_len -> clock_ok env -> result_wf (vocab_size ctx) result ->
  (forall block kv vv, hit (cache_idx ctx) (seq_key tokens seq_len) block ->
     block_holds mem (ic_model ctx) block seq_len kv vv ->
     let last := num_layers (ic_model ctx) - 1 in
     let hidden := hidden_ref bd g (ic_model ctx) seq_len (kv last) (vv last) in
     let lg := logit_ref (lm_head ctx) hidden <$> seqZ 0 (vocab_size ctx) in
     exists next idx' m,
       kllm_infer_cpu mem bd g env ctx tokens seq_len result =
         Some (if allocs_ok env (num_layers (ic_model ctx)) result
               then (0, InferResult (Some lg) (vocab_size ctx) next, with_idx ctx idx')
               else (-1, result, with_idx ctx idx')) /\
       argmax_inv lg (vocab_size ctx) (m, next) /\
       hit idx' (seq_key tokens seq_len) block) /\
  (forall idx', calloc_hidden env = true ->
     kllm_index_lookup (cache_idx ctx) (seq_key tokens seq_len) (clock env 0) = Some (None, idx') ->
     kllm_infer_cpu mem bd g env ctx tokens seq_len result = Some (-1, result, with_idx ctx idx')) /\
  kllm_infer_cpu mem bd g env ctx tokens 0 result = Some (-1, result, ctx).
Proof.
  intros Hwf Hclk Hres. split; [|split; [intros idx'; by apply infer_cpu_miss|by apply (infer_cpu_empty _ _ _ _ _ _ seq_len)]].
  intros block kv vv Hhit Hmem last hidden lg.
  destruct (layers_ok mem bd g env ctx tokens seq_len block kv vv)
    as (idx' & Hrun & Hiwf & Hihit); [done..|].
  pose proof (dims_of _ _ _ Hwf) as (? & ? & _).
  set (lg0 := default (replicate (Z.to_nat (vocab_size ctx)) f32_zero) (logits result)).
  assert (len lg0 = vocab_size ctx) as Hlg0.
  { unfold lg0, result_wf in *. destruct (logits result); [done|].
    cbn [default id]. rewrite length_replicate. destruct Hwf. lia. }
  destruct (finish_ok (with_idx ctx idx') tokens seq_len hidden lg0)
    as (m & next & Hp & Ha & Hinv); [by apply request_with_idx| |done|].
  { apply (hidden_ref_length bd g (ic_model ctx)). nia. }
  cbn [with_idx lm_head vocab_size ic_model] in *.
  unfold kllm_infer_cpu, allocs_ok. destruct (calloc_hidden env); cbn [negb andb]; cycle 1.
  { exists next, (cache_idx ctx), m. by destruct ctx. }
  rewrite Hrun. exists next, idx', m. split; [|done]. unfold lg0 in Hp.
  destruct (forallb _ _); cbn [mbind option_bind andb]; [|done]. fold last. fold hidden.
  destruct (logits result); [|destruct (calloc_logits env); [|done]];
    cbn [default id with_idx lm_head vocab_size] in *; rewrite Hp; cbn [mbind option_bind]; by rewrite Ha.
Qed.

(** ** A cached sequence *)

#[local] Existing Instance demo_sha.
#[local] Existing Instance demo_libm.
#[local] Existing Instance demo_avx512.

Definition demo_cpu (idx : kllm_cache_index kllm_arena) : kllm_infer_cpu_ctx kllm_arena :=
  InferCpuCtx idx (ModelConfig 1 2 2 4) None None None None None 5.

Definition demo_cpu_env : cpu_env :=
  CpuEnv true true (fun _ => true) (fun _ => true) (fun layer => 2 + layer mod 2).

Lemma demo_cpu_ok :
  exists idx, kllm_index_insert demo_index (seq_key [1; 2] 2) 1 = Some (Some 8192, idx) /\
    request_wf (demo_cpu idx) [1; 2] 2 /\ hit idx (seq_key [1; 2] 2) 8192.
Proof.
  destruct demo_index_ok as (_ & Hwf & Hown & _).
  destruct (insert_ok demo_index (seq_key [1; 2] 2) 1 Hwf Hown)
    as (idx1 & p & idx' & _ & Hins & Hwf' & _); [done..|].
  assert (exists idx, kllm_index_insert demo_index (seq_key [1; 2] 2) 1 = Some (Some 8192, idx) /\
    hit idx (seq_key [1; 2] 2) 8192) as (idx & Hi & Hhit).
  { eexists. split; [vm_compute; reflexivity|].
    exists 0, (CacheEntry (seq_key [1; 2] 2) 0 0 1). split; [|by split].
    split; [done|]. split; [vm_compute; reflexivity|]. split; [by right|]. intros j e' Hj. lia. }
  rewrite Hi in Hins. simplify_eq. exists idx'. split_and!; [done| |done].
  split; done.
Qed.

Lemma demo_block idx : block_holds (fun _ => Some 0x3F80) (ic_model (demo_cpu idx)) 8192 2
  (fun _ _ => 0x3F80) (fun _ _ => 0x3F80).
Proof. intros layer _. by split. Qed.

Lemma infer_cpu_ok_witness :
  exists idx lg next idx',
    kllm_infer_cpu (fun _ => Some 0x3F80) (Build false false) ISA_NONE demo_cpu_env
      (demo_cpu idx) [1; 2] 2 (InferResult None 0 0) =
    Some (0, InferResult (Some lg) 5 next, with_idx (demo_cpu idx) idx').
Proof.
  destruct demo_cpu_ok as (idx & _ & Hwf & Hhit).
  destruct (infer_cpu_ok (fun _ => Some 0x3F80) (Build false false) ISA_NONE demo_cpu_env
    (demo_cpu idx) [1; 2] 2 (InferResult None 0 0) Hwf) as [Hok _].
  - intros layer. unfold demo_cpu_env, clock, UINT64_MAX. pose proof (Z.mod_pos_bound layer 2). lia.
  - exact I.
  - destruct (Hok 8192 _ _ Hhit (demo_block idx)) as (next & idx' & m & Hrun & _).
    exists idx. eexists. exists next, idx'. exact Hrun.
Defined.

(** The memory of one block of the model and nothing else. *)
Definition one_block (i : Z) : option Z :=
  if (8192 <=? i) && (i <? 8192 + kllm_block_total_bytes (ModelConfig 1 2 2 4)) then Some 0x3F80 else None.

(** Six tokens in a block of four: the attention reads past the block. *)
Theorem long_sequence_undefined :
  (r ← kllm_index_insert demo_index (seq_key [1; 2; 3; 4; 5; 6] 6) 1;
   kllm_infer_cpu one_block (Build false false) ISA_NONE demo_cpu_env (demo_cpu (snd r))
     [1; 2; 3; 4; 5; 6] 6 (InferResult None 0 0)) = None /\
  is_Some (r ← kllm_index_insert demo_index (seq_key [1; 2; 3; 4] 4) 1;
   kllm_infer_cpu one_block (Build false false) ISA_NONE demo_cpu_env (demo_cpu (snd r))
     [1; 2; 3; 4] 4 (InferResult None 0 0)).
Proof. split; [vm_compute; reflexivity|]. eexists. vm_compute. reflexivity. Qed.
