(* ===== verification/Pipeline.v ===== *)
(** * The synthetic run of the latency test

    Models [test_synthetic_path] of [tests/test_e2e_latency.c] and its latency
    statistics: the one place of the repository where the dispatch policy, the
    arena, the cache index, the block format and the CPU attention work together.
    It creates an arena and an index, inserts the block of a sequence of four
    tokens, fills it through the accessors of the block format, and then decides,
    looks up and attends in a loop.

    The answers of the operating system, the allocations, the clock, SHA-256, the
    C library and the AVX-512 instructions are parameters.  A store into the block
    outside of its slot, a use of a null pointer that the code does not check
    ([calloc] of the query and the output, [kllm_dispatch_create]) is undefined.
    The objects on the heap that the run holds are a list; the destruction of one
    that is not in it is undefined.

    The file proves that the run, when its set-up is given what it asks for and
    the unchecked allocations succeed, passes: it never stores outside of the
    slot, every decision is for the CPU, every lookup hits, the attention of every
    iteration succeeds, and everything is released.  When the set-up fails it
    fails with everything released, and when an unchecked allocation fails it is
    undefined. *)

From Stdlib Require Import ZArith Lia SpecFloat.
From stdpp Require Import base numbers list gmap.
From S2P Require Import Prelude Floats BlockFormat Arena CacheIndex Dispatch Wavefront Gpu InferGpu Attention InferCpu.

#[local] Open Scope Z_scope.

(** ** Latency statistics *)

Record latency_stats : Type := LatencyStats {
  min_ns : Z;
  max_ns : Z;
  sum_ns : Z;
  count : Z;
}.

Definition stats_init : latency_stats := LatencyStats UINT64_MAX 0 0 0.

Definition stats_add (s : latency_stats) (ns : Z) : latency_stats :=
  let min_ns := if ns <? min_ns s then ns else min_ns s in
  let max_ns := if max_ns s <? ns then ns else max_ns s in
  LatencyStats min_ns max_ns (u64 (sum_ns s + ns)) (u32 (count s + 1)).

(** The minimum, average and maximum in microseconds; [None] for no samples. *)
Definition stats_print (s : latency_stats) : option (Z * Z * Z) :=
  if count s =? 0 then None
  else Some (min_ns s / 1000, sum_ns s / count s / 1000, max_ns s / 1000).

(** ** The test *)

Definition TEST_NUM_LAYERS : Z := 1.
Definition TEST_NUM_KV_HEADS : Z := 4.
Definition TEST_HEAD_DIM : Z := 64.
Definition TEST_TOKENS_PER_BLOCK : Z := 16.

Definition model : kllm_model_config :=
  ModelConfig TEST_NUM_LAYERS TEST_NUM_KV_HEADS TEST_HEAD_DIM TEST_TOKENS_PER_BLOCK.

Definition block_size : Z := kllm_block_total_bytes model.

Definition acfg : kllm_arena_config := ArenaConfig (u64 (block_size * 256)) 2 (-1) model.

Definition dcfg : kllm_dispatch_config := DispatchConfig 512 f32_0_8 64.

Definition test_tokens : list Z := [100; 200; 300; 400].
Definition test_len : Z := 4.

(** 1.0 and 0.5 in BF16. *)
Definition ONE : Z := 0x3F80.
Definition HALF : Z := 0x3F00.

(** [1.0f / 8.0f] *)
Definition test_scale : spec_float := f32_div f32_one (f32_of_Z 8).

Definition params : kllm_attention_params spec_float :=
  AttentionParams TEST_NUM_KV_HEADS TEST_HEAD_DIM test_len 1 test_scale.

(** What the environment answers: allocations, and the readings of the clock in
    the order in which the program takes them. *)
Record test_env : Type := TestEnv {
  te_os : os;
  te_index : bool;
  te_entries : bool;
  te_dispatch : bool;
  te_query : bool;
  te_output : bool;
  te_clock : Z -> Z;
}.

(** The state of the loop: the components, the output, the statistics and the
    number of clock readings so far. *)
Record test_state : Type := TestState {
  ts_dispatch : option kllm_dispatch_ctx;
  ts_index : kllm_cache_index kllm_arena;
  ts_output : option (list Z);
  dispatch_lat : latency_stats;
  lookup_lat : latency_stats;
  attention_lat : latency_stats;
  total_lat : latency_stats;
  ts_tick : Z;
}.

(** A store of a BF16 element into the slot of a block. *)
Definition store (block slot : Z) (addr x : Z) (mem : gmap Z Z) : option (gmap Z Z) :=
  if (block <=? addr) && (addr + 2 <=? block + slot) then Some (<[addr := x]> mem) else None.

(** The objects that the run allocates, beside the memory of the arena. *)
Inductive test_object : Type := HIndex | HDispatch | HQuery | HOutput.

#[export] Instance test_object_eq_dec : EqDecision test_object.
Proof. solve_decision. Defined.

Definition acquire (ok : bool) (x : test_object) (live : list test_object) : list test_object :=
  if ok then x :: live else live.

(** Of a null pointer, which [ok] tells apart, there is nothing to release. *)
Definition release (ok : bool) (x : test_object) (live : list test_object) : option (list test_object) :=
  if negb ok then Some live
  else if bool_decide (x ∈ live) then Some (filter (fun y => y <> x) live) else None.

Section test.
Context `{Sha256} `{Libm} `{!Avx512 spec_float} (bd : build) (g : kllm_isa_level).

Definition seq_hash : list Z := SHA256 (words_bytes test_tokens).

(** The header of the block: the fields that are not written stay zero. *)
Definition test_hdr : kllm_block_hdr :=
  BlockHdr KLLM_BLOCK_MAGIC KLLM_BLOCK_VERSION (u32 block_size) TEST_TOKENS_PER_BLOCK seq_hash
    (num_layers model) (num_kv_heads model) (head_dim model) 0 0 KLLM_BLOCK_F_VALID 0 0.

(** The header at the start of the slot, then the keys and values of the block. *)
Definition fill_block (block slot : Z) : option (kllm_block_hdr * gmap Z Z) :=
  if slot <? sizeof_block_hdr then None else
  let k_data := kllm_block_key block model 0 in
  let v_data := kllm_block_value block model 0 in
  let kv_elems := u64 (u64 (TEST_TOKENS_PER_BLOCK * TEST_NUM_KV_HEADS) * TEST_HEAD_DIM) in
  res ← for_range (R := unit) 0 kv_elems (fun i mem =>
    mem ← store block slot (k_data + 2 * i) ONE mem;
    mem ← store block slot (v_data + 2 * i) HALF mem;
    Some (Continue mem)) ∅;
  match res with inl mem => Some (test_hdr, mem) | inr _ => None end.

(** One iteration; [Return] is the failure of the lookup. *)
Definition test_iteration (env : test_env) (mem : gmap Z Z) (query : list Z) (s : test_state)
    : option (ctl test_state test_state) :=
  let now n := te_clock env (ts_tick s + n) in
  let t0 := now 0 in
  ctx ← ts_dispatch s;
  let '(target, d) := kllm_dispatch_decide ctx test_len true in
  let d := Some d in
  let t1 := now 1 in
  match target with
  | KLLM_TARGET_GPU =>
      Some (Continue (TestState d (ts_index s) (ts_output s) (dispatch_lat s) (lookup_lat s)
        (attention_lat s) (total_lat s) (ts_tick s + 2)))
  | KLLM_TARGET_CPU =>
      '(found, idx) ← kllm_index_lookup (ts_index s) seq_hash (now 2);
      let t2 := now 3 in
      match found with
      | None =>
          Some (Return (TestState d idx (ts_output s) (dispatch_lat s) (lookup_lat s)
            (attention_lat s) (total_lat s) (ts_tick s + 4)))
      | Some block =>
          let read a := mem !! a in
          let cached_k := tensor_at read (kllm_block_key block model 0) in
          let cached_v := tensor_at read (kllm_block_value block model 0) in
          '(_, out) ← kllm_ace_attention bd g (Some (tensor_of query)) (Some cached_k)
            (Some cached_v) (ts_output s) (Some params);
          let t3 := now 4 in
          Some (Continue (TestState d idx out
            (stats_add (dispatch_lat s) (u64 (t1 - t0)))
            (stats_add (lookup_lat s) (u64 (t2 - t1)))
            (stats_add (attention_lat s) (u64 (t3 - t2)))
            (stats_add (total_lat s) (u64 (t3 - t0))) (ts_tick s + 5)))
      end
  end.

(** The policy, the query and output, and the iterations. *)
Definition test_loop (env : test_env) (iterations : Z) (mem : gmap Z Z)
    (idx : kllm_cache_index kllm_arena) : option (test_state + test_state) :=
  let dispatch := kllm_dispatch_create (te_dispatch env) dcfg in
  let q_elems := TEST_NUM_KV_HEADS * TEST_HEAD_DIM in
  if negb (te_query env) then None
  else
    let query := replicate (Z.to_nat q_elems) ONE in
    let output := if te_output env then Some (zeroed q_elems) else None in
    for_range 0 iterations (fun _ s => test_iteration env mem query s)
      (TestState dispatch idx output stats_init stats_init stats_init stats_init 1).

(** The end of the run and of a failed lookup. *)
Definition cleanup (env : test_env) (live : list test_object) : option (list test_object) :=
  live ← release (te_query env) HQuery live;
  live ← release (te_output env) HOutput live;
  live ← release (te_dispatch env) HDispatch live;
  release true HIndex live.

(** The result, the state at the end, and what is still held of the arena and on
    the heap. *)
Definition test_synthetic_path (env : test_env) (iterations : Z)
    : option (Z * option test_state * list resource * list test_object) :=
  '(arena, held) ← kllm_arena_create (te_os env) acfg;
  match arena with
  | None => Some (-1, None, held, [])
  | Some a =>
      idx ← kllm_index_create (te_index env) (te_entries env) 256 a;
      match idx with
      | None => held ← kllm_arena_destroy (Some a) held; Some (-1, None, held, [])
      | Some idx =>
          let live := acquire true HIndex [] in
          '(block_ptr, idx) ← kllm_index_insert idx seq_hash (te_clock env 0);
          match block_ptr with
          | None =>
              live ← release true HIndex live;
              held ← kllm_arena_destroy (Some a) held;
              Some (-1, None, held, live)
          | Some block =>
              '(_, mem) ← fill_block block (slot_size a);
              let live := acquire (te_dispatch env) HDispatch live in
              let live := acquire (te_query env) HQuery live in
              let live := acquire (te_output env) HOutput live in
              res ← test_loop env iterations mem idx;
              live ← cleanup env live;
              held ← kllm_arena_destroy (Some a) held;
              match res with
              | inr s => Some (-1, Some s, held, live)
              | inl s => Some (0, Some s, held, live)
              end
          end
      end
  end.

(** ** Specification *)

(** The first [n] elements of the keys and of the values are stored. *)
Definition filled (mem : gmap Z Z) (block n : Z) : Prop :=
  forall i, 0 <= i < n -> mem !! (block + 128 + 2 * i) = Some ONE /\
    mem !! (block + 128 + 8192 + 2 * i) = Some HALF.

(** What [mmap] and the clock promise. *)
Definition env_ok (env : test_env) : Prop :=
  mmap_law (te_os env) /\ forall n, 0 <= te_clock env n < UINT64_MAX.

(** The allocations that the program checks succeed: those of the arena and of
    the index. *)
Definition setup_gives (env : test_env) : Prop :=
  os_calloc_arena (te_os env) = true /\ os_calloc_bitmap (te_os env) = true /\
  is_Some (os_mmap (te_os env) (cfg_total_bytes acfg) (mmap_flags 4)) /\
  te_index env = true /\ te_entries env = true.

(** The state after [n] iterations. *)
Record after (env : test_env) (block n : Z) (s : test_state) : Prop := {
  af_dispatch : exists d, ts_dispatch s = Some d /\ d_cfg d = dcfg /\ gpu_queue_depth (d_state d) = 0 /\
    total_requests (d_state d) = n /\ cpu_dispatches (d_state d) = n /\
    gpu_dispatches (d_state d) = 0;
  af_index : index_wf (ts_index s) /\ hit (ts_index s) seq_hash block;
  af_hits : hits (ix_stats (ts_index s)) = n /\ misses (ix_stats (ts_index s)) = 0;
  af_output : (te_output env = true -> exists out, ts_output s = Some out /\ len out = 256 /\
    (1 <= n -> forall h d, 0 <= h < 4 -> 0 <= d < 64 ->
       out !! Z.to_nat (h * 64 + d) =
         Some (attention_ref params (score_of bd g params (fun _ => ONE) (fun _ => ONE))
           (fun _ => HALF) 0 h d))) /\ (te_output env = false -> ts_output s = None);
  af_samples : count (dispatch_lat s) = n /\ count (lookup_lat s) = n /\
    count (attention_lat s) = n /\ count (total_lat s) = n;
}.

(** ** Lemmas *)

Lemma bind_done {A B} (x : A) (f : A -> option B) : (Some x ≫= f) = f x.
Proof. done. Qed.

Lemma model_ok : model_wf model.
Proof. split; done. Qed.

Lemma params_ok : dims_wf params.
Proof. split; try split; vm_compute; congruence. Qed.

Lemma key_addr block : kllm_block_key block model 0 = block + 128.
Proof. rewrite (block_key_exact _ model_ok) by done. lia. Qed.

Lemma value_addr block : kllm_block_value block model 0 = block + 128 + 8192.
Proof. rewrite (block_value_exact _ model_ok), key_addr by done. done. Qed.

Lemma sizes :
  kllm_block_total_bytes (cfg_model acfg) = 17536 /\ cfg_total_bytes acfg = 4489216 /\
  align_up (kllm_block_total_bytes (cfg_model acfg)) 4096 = 20480.
Proof. vm_compute. done. Qed.

(** The stores stay inside of a slot that holds a block. *)
Lemma fill_block_ok block slot :
  17536 <= slot ->
  exists mem, fill_block block slot = Some (test_hdr, mem) /\ filled mem block 4096.
Proof.
  intros Hs. unfold fill_block. change sizeof_block_hdr with 128 at 1.
  rewrite (proj2 (Z.ltb_ge _ _)) by lia. rewrite key_addr, value_addr.
  change (wrap 64 (wrap 64 (TEST_TOKENS_PER_BLOCK * TEST_NUM_KV_HEADS) * TEST_HEAD_DIM)) with 4096.
  edestruct (for_range_rule (R := unit) (fun n mem => filled mem block n)
    (fun o => exists mem, o = inl mem /\ filled mem block 4096))
    as (o & -> & mem & -> & Hm); [done|intros i Hi; lia| |by eauto|by eauto].
  intros n mem Hn Hm. unfold store.
  rewrite !(proj2 (Z.leb_le _ _)) by lia. simpl.
  eexists. split; [done|]. simpl. intros i Hi.
  destruct (decide (i = n)) as [->|].
  - rewrite lookup_insert_ne, !lookup_insert_eq by lia. done.
  - rewrite !lookup_insert_ne by lia. apply Hm. lia.
Qed.

(** Whatever was allocated, the end of the run releases it. *)
Lemma cleanup_ok env :
  cleanup env (acquire (te_output env) HOutput (acquire (te_query env) HQuery
    (acquire (te_dispatch env) HDispatch (acquire true HIndex [])))) = Some [].
Proof. unfold cleanup. by destruct (te_output env), (te_query env), (te_dispatch env). Qed.

(** A lookup that hits is counted as one. *)
Lemma lookup_counts idx now block idx' :
  index_wf idx -> now < UINT64_MAX ->
  kllm_index_lookup idx seq_hash now = Some (Some block, idx') ->
  hits (ix_stats idx') = u64 (hits (ix_stats idx) + 1) /\
  misses (ix_stats idx') = misses (ix_stats idx).
Proof.
  intros Hwf Hnow Hl. destruct (lookup_ok idx seq_hash now Hwf) as (p & i & Hl' & _ & Hres);
    [apply sha256_len|done|]. rewrite Hl in Hl'. simplify_eq.
  destruct Hres as [(? & _)|(k & e & _ & _ & _ & _ & ->)]; done.
Qed.

Lemma decide_cpu d :
  d_cfg d = dcfg -> gpu_queue_depth (d_state d) = 0 ->
  fits 31 (total_requests (d_state d)) -> fits 31 (cpu_dispatches (d_state d)) ->
  exists d', kllm_dispatch_decide d test_len true = (KLLM_TARGET_CPU, d') /\ d_cfg d' = dcfg /\
    gpu_queue_depth (d_state d') = 0 /\ total_requests (d_state d') = total_requests (d_state d) + 1 /\
    cpu_dispatches (d_state d') = cpu_dispatches (d_state d) + 1 /\
    gpu_dispatches (d_state d') = gpu_dispatches (d_state d).
Proof.
  destruct d as [cfg st]. simpl. intros -> Hq Ht Hc. unfold fits in Ht, Hc.
  eexists. split; [reflexivity|]. simpl. by rewrite !wrap_small by (unfold fits; lia).
Qed.

(** The attention of an iteration. *)
Lemma attend_ok_test mem block out :
  filled mem block 4096 ->
  len out = 256 ->
  exists out',
    kllm_ace_attention bd g (Some (tensor_of (replicate (Z.to_nat 256) ONE)))
      (Some (tensor_at (fun a => mem !! a) (kllm_block_key block model 0)))
      (Some (tensor_at (fun a => mem !! a) (kllm_block_value block model 0)))
      (Some out) (Some params) = Some (0, Some out') /\ len out' = 256 /\
    forall h d, 0 <= h < 4 -> 0 <= d < 64 -> out' !! Z.to_nat (h * 64 + d) =
      Some (attention_ref params (score_of bd g params (fun _ => ONE) (fun _ => ONE))
        (fun _ => HALF) 0 h d).
Proof.
  intros Hm Hl. rewrite key_addr, value_addr.
  destruct (ace_attention_run bd g (tensor_of (replicate (Z.to_nat 256) ONE))
    (tensor_at (fun a => mem !! a) (block + 128))
    (tensor_at (fun a => mem !! a) (block + 128 + 8192))
    (fun _ => ONE) (fun _ => ONE) (fun _ => HALF) out params) as (out' & Hr & Hl' & Hv).
  - apply params_ok.
  - intros i Hi. change (0 <= i < 256) in Hi. unfold tensor_of. rewrite arr_get_lookup by lia.
    apply lookup_replicate_2. lia.
  - intros i Hi. change (0 <= i < 1024) in Hi. apply Hm. lia.
  - intros i Hi. change (0 <= i < 1024) in Hi. apply Hm. lia.
  - done.
  - exists out'. split; [done|]. split; [lia|]. intros h d Hh Hd.
    rewrite <- (Hv 0 h d); [done|]. split; [done|]. by split.
Qed.

Lemma iteration_ok env mem block n s :
  env_ok env -> 0 <= n < 2 ^ 31 ->
  filled mem block 4096 ->
  after env block n s ->
  exists s', test_iteration env mem (replicate (Z.to_nat 256) ONE) s = Some (Continue s') /\
    after env block (n + 1) s'.
Proof.
  intros (_ & Hclk) Hn Hm [(d & Hd & Hcfg & Hq & Ht & Hc & Hg) [Hwf Hhit] [Hhits Hmiss]
    [Hout Hnull] (H1 & H2 & H3 & H4)].
  destruct (decide_cpu d) as (d' & Hdec & Hcfg' & Hq' & Ht' & Hc' & Hg'); [done..|unfold fits; lia|
    unfold fits; lia|].
  destruct (Hclk (ts_tick s + 2)) as [_ Hlt].
  destruct (lookup_hit (ts_index s) seq_hash (te_clock env (ts_tick s + 2)) block)
    as (idx' & Hl & Hwf' & Hhit' & _); [done|apply sha256_len|done|done|].
  destruct (lookup_counts _ _ _ _ Hwf Hlt Hl) as [Hh' Hm'].
  unfold test_iteration. rewrite Hd. cbn [mbind option_bind]. rewrite Hdec. cbv beta iota zeta.
  rewrite Hl. cbn [mbind option_bind].
  assert (exists rc out', kllm_ace_attention bd g (Some (tensor_of (replicate (Z.to_nat 256) ONE)))
      (Some (tensor_at (fun a => mem !! a) (kllm_block_key block model 0)))
      (Some (tensor_at (fun a => mem !! a) (kllm_block_value block model 0)))
      (ts_output s) (Some params) = Some (rc, out') /\
    (te_output env = true -> exists out, out' = Some out /\ len out = 256 /\
      forall h d, 0 <= h < 4 -> 0 <= d < 64 -> out !! Z.to_nat (h * 64 + d) =
        Some (attention_ref params (score_of bd g params (fun _ => ONE) (fun _ => ONE))
          (fun _ => HALF) 0 h d)) /\
    (te_output env = false -> out' = None)) as (rc & out' & Hatt & Hyes & Hno).
  { destruct (te_output env).
    - destruct (Hout eq_refl) as (out & -> & Hlen & _).
      destruct (attend_ok_test mem block out Hm Hlen) as (out' & -> & Hl' & Hv).
      exists 0, (Some out'). split; [done|]. split; [|done]. intros _. exists out'.
      split; [done|]. split; [exact Hl'|exact Hv].
    - rewrite Hnull by done. exists (-1), None. done. }
  rewrite Hatt. cbn [mbind option_bind]. eexists. split; [done|].
  split; cbn [ts_dispatch ts_index ts_output dispatch_lat lookup_lat attention_lat total_lat count
    stats_add].
  - exists d'. split_and!; (done || lia).
  - done.
  - rewrite Hh', Hm', Hhits, wrap_small by (unfold fits; lia). done.
  - split; [|done]. intros Ho. destruct (Hyes Ho) as (out & -> & Hlen & Hv).
    exists out. split; [done|]. split; [exact Hlen|]. intros _. exact Hv.
  - rewrite H1, H2, H3, H4, wrap_small by (unfold fits; lia). done.
Qed.

(** A new index has counted nothing, and an insertion counts no lookup. *)
Lemma create_counts c1 c2 cap (a : kllm_arena) idx :
  kllm_index_create c1 c2 cap a = Some (Some idx) ->
  hits (ix_stats idx) = 0 /\ misses (ix_stats idx) = 0.
Proof.
  unfold kllm_index_create. destruct (negb _), c1, c2; simpl; try done.
  destruct (for_range _ _ _ _) as [[es|[]]|]; simpl; intros Hc; by simplify_eq.
Qed.

Lemma insert_counts (idx : kllm_cache_index kllm_arena) hash now b idx' :
  make_room idx = Some idx -> kllm_index_insert idx hash now = Some (Some b, idx') ->
  hits (ix_stats idx') = hits (ix_stats idx) /\ misses (ix_stats idx') = misses (ix_stats idx).
Proof.
  intros Hroom. unfold kllm_index_insert. rewrite Hroom. cbn [mbind option_bind].
  destruct (ba_alloc (arena idx)) as [[[p|] a]|]; simpl; try done.
  destruct (kllm_arena_slot_index a p) as [slot|]; simpl; [|done].
  destruct (insert_probe _ _ _ _) as [[|x]|] eqn:Hp; simpl; [by destruct (kllm_arena_free a p)| |done].
  intros Hx. simplify_eq. unfold insert_probe in Hp.
  eapply (for_range_returns (fun x => hits (ix_stats x) = hits (ix_stats idx) /\
    misses (ix_stats x) = misses (ix_stats idx))); [|exact Hp].
  intros i t x Hb. simpl in Hb. destruct (arr_get _ _) as [e|]; simpl in Hb; [|done].
  destruct (slot_index e =? EMPTY_SLOT); [|done].
  destruct (arr_set _ _ _); simpl in Hb; [|done]. by simplify_eq.
Qed.

(** The first allocation of an empty arena succeeds. *)
Lemma fresh_alloc a :
  arena_wf a -> allocated a = ∅ -> exists p a', kllm_arena_alloc a = Some (Some p, a').
Proof.
  intros Hwf Hall. destruct (arena_alloc_ok a Hwf) as (p & a' & Ha & _ & _ & _ & _ & Hres).
  assert (set_alloc (total_slots a) (allocated a) = Some 0) as Hs.
  { apply set_alloc_Some. rewrite Hall. pose proof (aw_total a Hwf). split; [lia|].
    split; [set_solver|lia]. }
  rewrite Hs in Hres. destruct Hres as [-> _]. by eauto.
Qed.

(** The block of the sequence is inserted and found. *)
Lemma insert_fresh c1 c2 a idx now :
  arena_wf a -> allocated a = ∅ -> total_slots a <= UINT32_MAX -> 0 <= now < UINT64_MAX ->
  kllm_index_create c1 c2 256 a = Some (Some idx) ->
  exists b idx', kllm_index_insert idx seq_hash now = Some (Some b, idx') /\ index_wf idx' /\
    hit idx' seq_hash b /\ hits (ix_stats idx') = 0 /\ misses (ix_stats idx') = 0.
Proof.
  intros Hwf Hall Htot Hnow Hc. pose proof (create_counts _ _ _ _ _ Hc) as [Hh Hm].
  destruct (index_create_ok c1 c2 256 a) as (r & Hr & Hres);
    [unfold fits; lia|by split|].
  rewrite Hc in Hr. simplify_eq.
  destruct Hres as (_ & _ & Hocc & Har & [?|(_ & Hiwf & _ & Hslots)]); [done|].
  assert (forall pos e, ~ holds idx seq_hash pos e) as Hnone.
  { intros pos e Hold. apply holds_slot in Hold. rewrite Hslots in Hold. by apply elem_of_nil in Hold. }
  assert (owned idx) as Hown.
  { intros x. rewrite Har, Hslots. simpl. rewrite Hall. set_solver. }
  destruct (make_room_ok idx Hiwf) as (idx1 & Hroom & _ & _ & _ & Hcase).
  pose proof (over_load_ends idx Hiwf) as [Hzero _]. specialize (Hzero Hocc).
  destruct Hcase as [[_ ->]|[Hover _]]; [|congruence].
  destruct (insert_ok idx seq_hash now Hiwf Hown (sha256_len _)) as (idx1 & p & idx' & Hr1 & Hins & _ & _ & Hp);
    [lia|]. rewrite Hroom in Hr1. simplify_eq.
  destruct p as [b|].
  - exists b, idx'. destruct (insert_hit idx1 seq_hash now b idx') as [Hw Hhit];
      [done|done|apply sha256_len|lia|done|done|].
    destruct (insert_counts _ _ _ _ _ Hroom Hins). split_and!; (done || congruence).
  - destruct Hp as [_ Hnone']. simpl in Hnone'.
    destruct (fresh_alloc (arena idx1)) as (q & a' & Ha); [done|done|]. congruence.
Qed.

Lemma test_run env iterations mem block idx :
  env_ok env -> te_dispatch env = true -> te_query env = true ->
  0 <= iterations < 2 ^ 31 -> filled mem block 4096 ->
  index_wf idx -> hit idx seq_hash block -> hits (ix_stats idx) = 0 -> misses (ix_stats idx) = 0 ->
  exists s, test_loop env iterations mem idx = Some (inl s) /\
    after env block iterations s.
Proof.
  intros Henv Hd Hq Hit Hm Hwf Hhit Hh Hmi. unfold test_loop. rewrite Hd, Hq. cbn [negb].
  replace (TEST_NUM_KV_HEADS * TEST_HEAD_DIM) with 256 by done.
  edestruct (for_range_rule (R := test_state) (after env block)
    (fun o => exists s, o = inl s /\ after env block iterations s)) as (o & -> & s & -> & Hs);
    [lia| | |by eauto|by eauto].
  - split; cbn [ts_dispatch ts_index ts_output
      dispatch_lat lookup_lat attention_lat total_lat]; [by eexists|done|done| |done].
    split; intros ->; [|done]. exists (zeroed 256). split; [done|]. split; [done|lia].
  - intros n s Hn Hs. destruct (iteration_ok env mem block n s) as (s' & -> & Hs'); [done|lia|done..|].
    by eexists.
Qed.

(** The two allocations that the program does not check: a null query is written
    to, a null policy is asked in the first iteration. *)
Lemma test_run_null env iterations mem idx :
  te_query env = false \/ te_dispatch env = false /\ 0 < iterations ->
  test_loop env iterations mem idx = None.
Proof.
  unfold test_loop. intros [-> | [Hd Hit]]; [done|]. rewrite Hd. destruct (te_query env); [|done].
  unfold for_range. by replace (Z.to_nat (iterations - 0)) with (S (Z.to_nat (iterations - 1))) by lia.
Qed.

End test.

(** ** Theorems *)


(** On a scalar build the output of the run is the value that the block holds:
    with equal keys each of the four tokens has the weight 1/4. *)
Theorem synthetic_output `{Libm} h d :
  expf f32_zero = f32_one ->
  attention_ref params (scalar_score params (fun _ => ONE) (fun _ => ONE)) (fun _ => HALF) 0 h d = HALF.
Proof.
  intros Hexp. unfold attention_ref.
  assert (forall a b, scalar_score params (fun _ => ONE) (fun _ => ONE) a b = f32_of_Z 8) as Hsc.
  { intros a b. unfold scalar_score. rewrite !slice_shift. by vm_compute. }
  assert ((fun si => scalar_score params (fun _ => ONE) (fun _ => ONE)
      ((0 * at_num_heads params + h) * at_head_dim params)
      ((si * at_num_heads params + h) * at_head_dim params)) <$> seqZ 0 (at_seq_len params) =
    replicate 4 (f32_of_Z 8)) as ->.
  { change (seqZ 0 (at_seq_len params)) with [0; 1; 2; 3]. cbn [fmap list_fmap]. by rewrite !Hsc. }
  unfold softmax. set (m := max_of _). assert (m = f32_of_Z 8) as -> by (by vm_compute).
  assert ((fun x => a_exp (a_sub x (f32_of_Z 8))) <$> replicate 4 (f32_of_Z 8) =
    replicate 4 f32_one) as ->; [|by vm_compute].
  cbn [replicate fmap list_fmap]. assert (a_sub (f32_of_Z 8) (f32_of_Z 8) = f32_zero) as ->
    by (by vm_compute). cbn [a_exp f32_fns]. by rewrite Hexp.
Qed.

(** What the statistics hold after some samples. *)
Lemma stats_fold (ns : list Z) :
  len ns < 2 ^ 32 -> Forall (fun x => 0 <= x < UINT64_MAX) ns -> foldr Z.add 0 ns < 2 ^ 64 ->
  let s := foldl stats_add stats_init ns in
  count s = len ns /\ sum_ns s = foldr Z.add 0 ns /\ 0 <= sum_ns s /\ 0 <= min_ns s /\
  Forall (fun x => min_ns s <= x <= max_ns s) ns.
Proof.
  induction ns as [|x ns IH] using rev_ind; intros Hl Hpos Hsum; cbn zeta; [done|].
  rewrite length_app in *. simpl in Hl. apply Forall_app in Hpos as [Hpos Hx].
  rewrite Forall_singleton in Hx. rewrite foldr_app in *. cbn [foldr] in *.
  assert (forall l a, foldr Z.add a l = foldr Z.add 0 l + a) as Hfr.
  { clear. induction l as [|y l IH]; intros a; simpl; [lia|]. rewrite IH. lia. }
  rewrite (Hfr ns) in *. destruct IH as (Hc & Hs & Hs0 & Hm & Hb); [lia|done|lia|].
  unfold UINT64_MAX in *. rewrite foldl_app. cbn [foldl]. set (s := foldl stats_add stats_init ns) in *.
  cbn [count sum_ns min_ns max_ns stats_add]. rewrite !wrap_small by (unfold fits; lia).
  split; [simpl; lia|]. split; [lia|]. split; [lia|].
  destruct (Z.ltb_spec x (min_ns s)), (Z.ltb_spec (max_ns s) x); (split; [lia|]);
    (rewrite Forall_app, Forall_singleton; split; [|lia]);
    (eapply Forall_impl; [exact Hb|]); simpl; lia.
Qed.

Lemma sum_between lo hi ns :
  Forall (fun x => lo <= x <= hi) ns -> lo * len ns <= foldr Z.add 0 ns <= hi * len ns.
Proof. induction 1; cbn [foldr length]; nia. Qed.

(** The printed figures are ordered: while the sum does not overflow, the minimum
    is at most the average and the average at most the maximum. *)
Theorem stats_ordered (ns : list Z) :
  ns <> [] -> len ns < 2 ^ 32 -> Forall (fun x => 0 <= x < UINT64_MAX) ns ->
  foldr Z.add 0 ns < 2 ^ 64 ->
  exists mn av mx, stats_print (foldl stats_add stats_init ns) = Some (mn, av, mx) /\
    0 <= mn <= av /\ av <= mx.
Proof.
  intros Hne Hl Hpos Hsum. destruct (stats_fold ns Hl Hpos Hsum) as (Hc & Hs & _ & Hm & Hb).
  set (s := foldl stats_add stats_init ns) in *. apply sum_between in Hb.
  assert (0 < len ns) by (destruct ns; [done|simpl; lia]). unfold stats_print.
  destruct (Z.eqb_spec (count s) 0); [lia|]. do 3 eexists. split; [done|].
  assert (min_ns s <= sum_ns s / count s <= max_ns s) as [H1 H2].
  { split; [apply Z.div_le_lower_bound|apply Z.div_le_upper_bound]; lia. }
  pose proof (Z.div_le_mono _ _ 1000 ltac:(lia) H1). pose proof (Z.div_le_mono _ _ 1000 ltac:(lia) H2).
  pose proof (Z.div_pos (min_ns s) 1000). lia.
Qed.

(** ** Witness *)

#[local] Existing Instance demo_sha.
#[local] Existing Instance demo_libm.
#[local] Existing Instance demo_avx512.

