(* ===== verification/Sampling.v ===== *)
(** * Sampling the next token

    Models the sampling half of [userspace/decode/decode_loop.c]: greedy,
    temperature, top-k and top-p sampling from an array of logits.  The
    exponential of the C library is a parameter; [rand] and the allocations are
    the arguments of one call.

    The file proves that whatever the method, the parameters and the logits
    (NaNs included), sampling stays inside of its arrays and returns a token of
    the vocabulary, and that the selection of top-k sampling holds the [k]
    largest logits in descending order. *)

From Stdlib Require Import ZArith Lia SpecFloat.
From stdpp Require Import base numbers list sets sorting.
From S2P Require Import Prelude Floats Attention.

#[local] Open Scope Z_scope.

(** ** Data *)

(** The last constructor is a value that none of the names has. *)
Inductive kllm_sampling_method : Type :=
| KLLM_SAMPLE_GREEDY | KLLM_SAMPLE_TOP_K | KLLM_SAMPLE_TOP_P | KLLM_SAMPLE_TEMPERATURE
| KLLM_SAMPLE_OTHER (value : Z).

Record kllm_decode_params : Type := DecodeParams {
  max_tokens : Z;
  eos_token_id : Z;
  sampling : kllm_sampling_method;
  temperature : spec_float;
  top_k : Z;
  top_p : spec_float;
}.

(** The outcome of the calls of one sampling. *)
Record sample_env : Type := SampleEnv {
  rand_value : Z;
  malloc_probs : bool;
  malloc_vals : bool;
  malloc_idxs : bool;
}.

Definition RAND_MAX : Z := 0x7FFFFFFF.

(** An unsigned value converted to [int]. *)
Definition s32 (x : Z) : Z := if wrap 32 x <? 2 ^ 31 then wrap 32 x else wrap 32 x - 2 ^ 32.

(** ** Operations *)

Definition sample_greedy (logits : list spec_float) (vocab_size : Z) : option Z :=
  argmax logits vocab_size.

Section sampling.
Context `{Libm}.

(** The softmax of the scaled logits. *)
Definition temperature_probs (logits : list spec_float) (vocab_size : Z) (temp : spec_float)
    : option (list (option spec_float)) :=
  res ← for_range (R := unit) 0 vocab_size (fun i m =>
    x ← arr_get logits i; Some (Continue (if float_gt x m then x else m))) f32_neg_infinity;
  match res with
  | inr _ => None
  | inl max_logit =>
      res ← for_range (R := unit) 0 vocab_size (fun i '(probs, sum) =>
        x ← arr_get logits i;
        let e := expf (f32_div (f32_sub x max_logit) temp) in
        probs' ← arr_set probs i (Some e);
        Some (Continue (probs', f32_add sum e)))
        (replicate (Z.to_nat vocab_size) None, f32_zero);
      match res with
      | inr _ => None
      | inl (probs, sum) =>
          res ← for_range (R := unit) 0 vocab_size (fun i probs =>
            x ← arr_init probs i;
            probs' ← arr_set probs i (Some (f32_div x sum));
            Some (Continue probs')) probs;
          match res with inl probs => Some probs | inr _ => None end
      end
  end.

Definition sample_temperature (env : sample_env) (logits : list spec_float) (vocab_size : Z)
    (temp : spec_float) : option Z :=
  if float_le temp f32_zero then sample_greedy logits vocab_size
  else if negb (malloc_probs env) then sample_greedy logits vocab_size
  else
    probs ← temperature_probs logits vocab_size temp;
    let r := f32_div (f32_of_Z (rand_value env)) (f32_of_Z RAND_MAX) in
    res ← for_range (R := unit) 0 vocab_size (fun i '(cumsum, token) =>
      x ← arr_init probs i;
      let cumsum := f32_add cumsum x in
      if float_le r cumsum then Some (Break (cumsum, i)) else Some (Continue (cumsum, token)))
      (f32_zero, u32 (vocab_size - 1));
    match res with inl (_, token) => Some token | inr _ => None end.

(** Exchanges the entries [j] and [j + 1] of an array. *)
Definition swap {A} (l : list A) (j : Z) : option (list A) :=
  t ← arr_get l j;
  x ← arr_get l (j + 1);
  l ← arr_set l j x;
  arr_set l (j + 1) t.

(** The loop over [j] from [k - 2] down to 0. *)
Definition bubble_up (k : Z) (st : list spec_float * list Z)
    : option (list spec_float * list Z) :=
  let j0 := s32 (k - 2) in
  res ← for_range (R := unit) 0 (j0 + 1) (fun t '(vals, idxs) =>
    let j := j0 - t in
    a ← arr_get vals (j + 1);
    b ← arr_get vals j;
    if float_gt a b then
      vals' ← swap vals j; idxs' ← swap idxs j; Some (Continue (vals', idxs'))
    else Some (Continue (vals, idxs))) st;
  match res with inl st => Some st | inr _ => None end.

Definition select_top_k (logits : list spec_float) (vocab_size k : Z)
    : option (list spec_float * list Z) :=
  let st := (replicate (Z.to_nat k) f32_neg_infinity, replicate (Z.to_nat k) 0) in
  res ← for_range (R := unit) 0 vocab_size (fun i '(vals, idxs) =>
    x ← arr_get logits i;
    y ← arr_get vals (k - 1);
    if float_gt x y then
      vals ← arr_set vals (k - 1) x;
      idxs ← arr_set idxs (k - 1) i;
      st' ← bubble_up k (vals, idxs); Some (Continue st')
    else Some (Continue (vals, idxs))) st;
  match res with inl st => Some st | inr _ => None end.

Definition sample_top_k (env : sample_env) (logits : list spec_float) (vocab_size k : Z)
    (temp : spec_float) : option Z :=
  if (k =? 0) || (vocab_size <=? k) then sample_temperature env logits vocab_size temp
  else if negb (malloc_vals env) || negb (malloc_idxs env) then sample_greedy logits vocab_size
  else
    '(vals, idxs) ← select_top_k logits vocab_size k;
    result ← sample_temperature env vals k temp;
    arr_get idxs (if result <? k then result else 0).

Definition sample_top_p (env : sample_env) (logits : list spec_float) (vocab_size : Z)
    (p temp : spec_float) : option Z :=
  sample_temperature env logits vocab_size temp.

Definition sample_token (env : sample_env) (logits : list spec_float) (vocab_size : Z)
    (params : kllm_decode_params) : option Z :=
  match sampling params with
  | KLLM_SAMPLE_GREEDY => sample_greedy logits vocab_size
  | KLLM_SAMPLE_TEMPERATURE => sample_temperature env logits vocab_size (temperature params)
  | KLLM_SAMPLE_TOP_K => sample_top_k env logits vocab_size (top_k params) (temperature params)
  | KLLM_SAMPLE_TOP_P => sample_top_p env logits vocab_size (top_p params) (temperature params)
  | KLLM_SAMPLE_OTHER _ => sample_greedy logits vocab_size
  end.

End sampling.

(** ** Specification *)

(** The probabilities of temperature sampling. *)
Definition temp_softmax `{Libm} (temp : spec_float) (xs : list spec_float) : list spec_float :=
  let es := (fun x => expf (f32_div (f32_sub x (max_of xs)) temp)) <$> xs in
  (fun e => f32_div e (foldl f32_add f32_zero es)) <$> es.

(** [b] does not come before [a] in descending order. *)
Definition not_above (a b : spec_float * Z) : Prop := float_gt (fst b) (fst a) = false.

Abbreviation descending := (StronglySorted not_above) (only parsing).

(** The pairs of value and index that the selection holds after the first [i]
    logits; the pairs that are not in use hold minus infinity. *)
Definition in_use (e : spec_float * Z) : Prop := float_gt (fst e) f32_neg_infinity = true.

#[export] Instance in_use_dec e : Decision (in_use e).
Proof. unfold in_use. apply _. Defined.

Record top_inv (logits : list spec_float) (k i : Z) (ps : list (spec_float * Z)) : Prop := {
  ti_len : len ps = k;
  ti_sorted : descending ps;
  ti_entries : Forall (fun e => e = (f32_neg_infinity, 0) \/
    (in_use e /\ 0 <= snd e < i /\ logits !! Z.to_nat (snd e) = Some (fst e))) ps;
  ti_nodup : NoDup (snd <$> filter in_use ps);
  ti_rest m x : 0 <= m < i -> logits !! Z.to_nat m = Some x ->
    (in_use (x, m) /\ (x, m) ∈ ps) \/ (forall e, e ∈ ps -> float_gt x (fst e) = false);
}.

(** ** Lemmas *)

Lemma float_not_gt_trans x y z :
  y <> S754_nan -> float_gt x y = false -> float_gt y z = false -> float_gt x z = false.
Proof.
  intros Hy Hxy Hyz. destruct (float_gt x z) eqn:Hxz; [|done].
  apply float_not_gt in Hxy; [|done]. apply float_gt_spec in Hxz as (Hx & Hz & Hl).
  assert (float_gt y z = true); [|congruence]. apply float_gt_spec. split_and!; [done..|].
  destruct Hxy as [->|[<-|Hg]]; [done..|].
  apply float_gt_spec in Hg as (_ & _ & Hg). by eapply lex_lt_trans.
Qed.

Lemma float_gt_asym x y : float_gt x y = true -> float_gt y x = false.
Proof.
  intros Hxy. destruct (float_gt y x) eqn:Hyx; [|done].
  by rewrite <- (float_gt_irrefl x), (float_gt_trans x y x).
Qed.

Lemma entry_not_nan logits k i ps e : top_inv logits k i ps -> e ∈ ps -> fst e <> S754_nan.
Proof.
  intros Hi He. pose proof (ti_entries _ _ _ _ Hi) as Hall. rewrite Forall_forall in Hall.
  destruct (Hall e He) as [->|[Hu _]]; [done|]. by apply float_gt_spec in Hu as [? _].
Qed.

Lemma swap_app {A} (l1 l2 : list A) a b j :
  j = len l1 -> swap (l1 ++ a :: b :: l2) j = Some (l1 ++ b :: a :: l2).
Proof.
  intros Hj. unfold swap. rewrite (arr_get_app l1 a (b :: l2) j) by done. cbn [mbind option_bind].
  assert (l1 ++ a :: b :: l2 = (l1 ++ [a]) ++ b :: l2) as -> by (by rewrite <- app_assoc).
  rewrite arr_get_app by (rewrite length_app; simpl; lia). cbn [mbind option_bind].
  rewrite <- app_assoc. cbn [app]. rewrite arr_set_app by done. cbn [mbind option_bind].
  assert (l1 ++ b :: b :: l2 = (l1 ++ [b]) ++ b :: l2) as -> by (by rewrite <- app_assoc).
  rewrite arr_set_app by (rewrite length_app; simpl; lia). by rewrite <- app_assoc.
Qed.

(** One step of the bubble loop, on pairs. *)
Definition bubble_inv (j : Z) (ps0 : list (spec_float * Z)) (st : list spec_float * list Z) : Prop :=
  exists l1 x l2, st = (fst <$> (l1 ++ x :: l2), snd <$> (l1 ++ x :: l2)) /\
    len l1 = j + 1 /\ l1 ++ x :: l2 ≡ₚ ps0 /\
    descending l1 /\ descending (x :: l2) /\
    (forall a b, a ∈ l1 -> b ∈ l2 -> not_above a b).

Lemma bubble_step j ps0 l1 y x l2 :
  fst x <> S754_nan -> fst y <> S754_nan ->
  len l1 = j -> (l1 ++ [y]) ++ x :: l2 ≡ₚ ps0 ->
  descending (l1 ++ [y]) -> descending (x :: l2) ->
  (forall a b, a ∈ l1 ++ [y] -> b ∈ l2 -> not_above a b) ->
  bubble_inv (j - 1) ps0
    (if float_gt (fst x) (fst y)
     then (fst <$> (l1 ++ x :: y :: l2), snd <$> (l1 ++ x :: y :: l2))
     else (fst <$> (l1 ++ y :: x :: l2), snd <$> (l1 ++ y :: x :: l2))).
Proof.
  intros Hx Hy Hl Hperm Hs1 Hs2 Hcross. rewrite <- app_assoc in Hperm. cbn [app] in Hperm.
  apply StronglySorted_app in Hs1 as (Hly & Hs1 & _).
  apply StronglySorted_inv in Hs2 as [Hs2 Hx2]. rewrite Forall_forall in Hx2.
  assert (forall b, b ∈ l2 -> not_above y b) as Hyl2 by (intros; apply Hcross; set_solver).
  destruct (float_gt (fst x) (fst y)) eqn:Hgt.
  - exists l1, x, (y :: l2). split_and!; [done|lia| |done| |].
    + rewrite <- Hperm. f_equiv. apply Permutation_swap.
    + constructor; [constructor; [done|by apply Forall_forall]|].
      constructor; [by apply float_gt_asym|by apply Forall_forall].
    + intros a b Ha [->|Hb]%elem_of_cons; [apply Hly; set_solver|apply Hcross; set_solver].
  - exists l1, y, (x :: l2). split_and!; [done|lia|done|done| |].
    + constructor; [constructor; [done|by apply Forall_forall]|].
      constructor; [done|by apply Forall_forall].
    + intros a b Ha [->|Hb]%elem_of_cons; [|apply Hcross; set_solver].
      apply (float_not_gt_trans _ (fst y)); [done..|]. apply (Hly a y); set_solver.
Qed.

Lemma bubble_up_ok k l1 x :
  1 <= k <= 2 ^ 31 -> len l1 = k - 1 -> descending l1 ->
  Forall (fun e => fst e <> S754_nan) (l1 ++ [x]) ->
  exists ps, bubble_up k (fst <$> (l1 ++ [x]), snd <$> (l1 ++ [x])) =
      Some (fst <$> ps, snd <$> ps) /\ ps ≡ₚ l1 ++ [x] /\ descending ps.
Proof.
  intros Hk Hl Hs Hn. unfold bubble_up.
  assert (s32 (k - 2) = k - 2) as ->.
  { unfold s32. destruct (decide (k = 1)) as [->|]; [done|].
    rewrite wrap_small by (unfold fits; lia). by case_cond. }
  edestruct (for_range_rule (R := unit) (fun t => bubble_inv (k - 2 - t) (l1 ++ [x]))
    (fun r => exists ps, r = inl (fst <$> ps, snd <$> ps) /\ ps ≡ₚ l1 ++ [x] /\ descending ps))
    as (r & -> & ps & -> & Hok); [..|by exists ps].
  - lia.
  - exists l1, x, []. split_and!; [done|lia|done|done| |set_solver]. by repeat constructor.
  - intros t st Ht (m1 & e & m2 & -> & Hlen & Hperm & Hd1 & Hd2 & Hcross).
    destruct m1 as [|y m1 _] using rev_ind; [simpl in Hlen; lia|].
    rewrite length_app in Hlen. simpl in Hlen. cbv beta iota zeta.
    set (j := k - 2 - t) in *. assert (len m1 = j) as Hj by lia.
    assert (forall e', e' ∈ (m1 ++ [y]) ++ e :: m2 -> fst e' <> S754_nan) as Hnn.
    { intros e' He'. rewrite Hperm in He'. rewrite Forall_forall in Hn. by apply Hn. }
    pose proof (bubble_step j (l1 ++ [x]) m1 y e m2 ltac:(apply Hnn; set_solver)
      ltac:(apply Hnn; set_solver) Hj Hperm Hd1 Hd2 Hcross) as Hnext.
    replace (k - 2 - (t + 1)) with (j - 1) by lia.
    rewrite <- app_assoc. cbn [app]. rewrite !fmap_app, !fmap_cons.
    assert (arr_get ((fst <$> m1) ++ fst y :: fst e :: (fst <$> m2)) (j + 1) = Some (fst e)) as ->.
    { rewrite (cons_middle (fst y)), app_assoc.
      apply arr_get_app. rewrite length_app, length_fmap. simpl. lia. }
    cbn [mbind option_bind]. rewrite arr_get_app by (rewrite length_fmap; lia).
    cbn [mbind option_bind]. destruct (float_gt (fst e) (fst y)).
    + rewrite !swap_app by (rewrite length_fmap; lia). cbn [mbind option_bind].
      eexists. split; [done|]. by rewrite !fmap_app, !fmap_cons in Hnext.
    + eexists. split; [done|]. by rewrite !fmap_app, !fmap_cons in Hnext.
  - intros st (m1 & e & m2 & -> & Hlen & Hperm & _ & Hd & _).
    destruct m1; [|simpl in Hlen; lia]. by exists (e :: m2).
Qed.

(** A logit that is selected. *)
Lemma top_step logits k i l1 old x ps :
  0 <= i -> logits !! Z.to_nat i = Some x ->
  top_inv logits k i (l1 ++ [old]) -> float_gt x (fst old) = true ->
  ps ≡ₚ l1 ++ [(x, i)] -> descending ps ->
  top_inv logits k (i + 1) ps.
Proof.
  intros Hi Hx Hinv Hgt Hperm Hs. pose proof Hinv as [Hlen Hsort Hent Hnd Hrest].
  apply StronglySorted_app in Hsort as (Hcross & Hs1 & _).
  rewrite Forall_app, Forall_singleton in Hent. destruct Hent as [He1 He2].
  assert (in_use (x, i)) as Hux.
  { destruct He2 as [->|[Hu _]]; [done|]. by eapply float_gt_trans. }
  split.
  - rewrite Hperm. rewrite length_app in *. simpl in *. lia.
  - done.
  - rewrite Hperm, Forall_app, Forall_singleton. split.
    + eapply Forall_impl; [exact He1|]. intros e [->|(? & ? & ?)]; [by left|right].
      split_and!; [done|lia..|done].
    + right. split_and!; [done|simpl; lia..|done].
  - rewrite Hperm, filter_app, fmap_app, filter_cons_True, filter_nil by done.
    rewrite filter_app, fmap_app in Hnd. apply NoDup_app in Hnd as (Hnd & _ & _).
    apply NoDup_app. split_and!; [done| |apply NoDup_singleton].
    intros m Hm ->%list_elem_of_singleton.
    apply list_elem_of_fmap in Hm as (e & Hei & [Hu He]%list_elem_of_filter).
    rewrite Forall_forall in He1. destruct (He1 e He) as [->|(_ & ? & _)]; [done|]. simpl in *. lia.
  - intros m y Hm Hy. setoid_rewrite Hperm. destruct (decide (m = i)) as [->|Hne].
    { left. simplify_eq. split; [done|set_solver]. }
    assert (forall e, e ∈ l1 ++ [(x, i)] -> e ∈ l1 \/ e = (x, i)) as Hin by set_solver.
    destruct (Hrest m y ltac:(lia) Hy) as [[Hu Hmem]|Hno].
    + apply elem_of_app in Hmem as [Hmem|<-%list_elem_of_singleton]; [left; set_solver|right].
      intros e [He| ->]%Hin; [apply (Hcross e (y, m)); set_solver|by apply float_gt_asym].
    + right. intros e [He| ->]%Hin; [apply Hno; set_solver|]. simpl.
      destruct (float_gt y x) eqn:Hyx; [|done].
      rewrite <- (Hno old) by set_solver. symmetry. by eapply float_gt_trans.
Qed.

(** A logit that is not. *)
Lemma top_skip logits k i l1 old x :
  0 <= i -> logits !! Z.to_nat i = Some x ->
  top_inv logits k i (l1 ++ [old]) -> float_gt x (fst old) = false ->
  top_inv logits k (i + 1) (l1 ++ [old]).
Proof.
  intros Hi Hx Hinv Hgt. pose proof Hinv as [Hlen Hsort Hent Hnd Hrest]. split; [done..| |done|].
  - eapply Forall_impl; [exact Hent|]. intros e [->|(? & ? & ?)]; [by left|right].
    split_and!; [done|lia..|done].
  - intros m y Hm Hy. destruct (decide (m = i)) as [->|Hne]; [|apply Hrest; [lia|done]].
    simplify_eq. right. intros e He. apply (float_not_gt_trans _ (fst old)); [|done|].
    + eapply entry_not_nan; [exact Hinv|]. set_solver.
    + apply elem_of_app in He as [He|<-%list_elem_of_singleton]; [|apply float_gt_irrefl].
      apply StronglySorted_app in Hsort as (Hcross & _). apply (Hcross e old); set_solver.
Qed.

Lemma select_top_k_ok logits vocab k :
  1 <= k <= 2 ^ 31 -> 0 <= vocab <= len logits ->
  exists ps, select_top_k logits vocab k = Some (fst <$> ps, snd <$> ps) /\
    top_inv logits k vocab ps.
Proof.
  intros Hk Hv. unfold select_top_k.
  edestruct (for_range_rule (R := unit)
    (fun i st => exists ps, st = (fst <$> ps, snd <$> ps) /\ top_inv logits k i ps)
    (fun r => exists ps, r = inl (fst <$> ps, snd <$> ps) /\ top_inv logits k vocab ps))
    as (r & -> & ps & -> & Hok); [..|by exists ps].
  - lia.
  - exists (replicate (Z.to_nat k) (f32_neg_infinity, 0)). split.
    { by rewrite !fmap_replicate. }
    split.
    + rewrite length_replicate. lia.
    + induction (Z.to_nat k); simpl; constructor; [done|]. by apply Forall_replicate.
    + apply Forall_replicate. by left.
    + assert (filter in_use (replicate (Z.to_nat k) (f32_neg_infinity, 0)) = []) as ->.
      { induction (Z.to_nat k) as [|n IH]; [done|]. cbn [replicate]. by rewrite filter_cons_False. }
      constructor.
    + lia.
  - intros i st Hi (ps & -> & Hinv). cbv beta iota.
    destruct (lookup_lt_is_Some_2 logits (Z.to_nat i)) as [x Hx]; [lia|].
    rewrite (arr_get_lookup logits i), Hx by lia. cbn [mbind option_bind].
    pose proof (ti_len _ _ _ _ Hinv) as Hlen.
    destruct ps as [|old l1 _] using rev_ind; [simpl in Hlen; lia|].
    rewrite length_app in Hlen. simpl in Hlen. rewrite !fmap_app. cbn [fmap list_fmap].
    rewrite arr_get_app by (rewrite length_fmap; lia). cbn [mbind option_bind].
    destruct (float_gt x (fst old)) eqn:Hgt.
    + rewrite !arr_set_app by (rewrite length_fmap; lia). cbn [mbind option_bind].
      destruct (bubble_up_ok k l1 (x, i)) as (ps & Hb & Hperm & Hs).
      * done.
      * lia.
      * pose proof (ti_sorted _ _ _ _ Hinv) as Hss. by apply StronglySorted_app in Hss as (_ & ? & _).
      * apply Forall_app. split; [|apply Forall_singleton; by apply float_gt_spec in Hgt as [? _]].
        apply Forall_forall. intros e He. eapply entry_not_nan; [exact Hinv|]. set_solver.
      * rewrite !fmap_app in Hb. cbn [fmap list_fmap fst snd] in Hb. rewrite Hb.
        eexists. split; [done|]. exists ps. split; [done|]. eapply top_step; done || lia.
    + eexists. split; [done|]. exists (l1 ++ [old]). rewrite !fmap_app. split; [done|].
      eapply top_skip; done || lia.
  - intros st (ps & -> & Hinv). by exists ps.
Qed.

Lemma max_of_fmap {A} (f : A -> spec_float) l z :
  foldl (fun m i => if float_gt (f i) m then f i else m) z l =
    foldl (fun m x => if float_gt x m then x else m) z (f <$> l).
Proof. revert z. induction l as [|x l IH]; intros z; [done|]. simpl. apply IH. Qed.

Section temperature.
Context `{Libm}.

Lemma temperature_probs_ok logits n temp :
  0 <= n <= len logits ->
  temperature_probs logits n temp = Some (Some <$> temp_softmax temp (take (Z.to_nat n) logits)).
Proof.
  intros Hn. unfold temperature_probs, temp_softmax. set (xs := take (Z.to_nat n) logits).
  assert (len xs = n) as Hxs by (unfold xs; rewrite length_take; lia).
  rewrite (for_range_fold (fun i m => if float_gt (logits !!! Z.to_nat i) m
    then logits !!! Z.to_nat i else m)); [|lia|intros i m Hi; by rewrite arr_get_total by lia].
  rewrite Z.sub_0_r, (max_of_fmap (fun i => logits !!! Z.to_nat i)).
  rewrite <- take_as_range by lia. fold xs. fold (max_of xs). cbn [mbind option_bind].
  set (F := fun x => expf (f32_div (f32_sub x (max_of xs)) temp)).
  edestruct (for_range_rule (R := unit)
    (fun i st => st = ((Some <$> (F <$> take (Z.to_nat i) xs)) ++ replicate (Z.to_nat (n - i)) None,
      foldl f32_add f32_zero (F <$> take (Z.to_nat i) xs)))
    (fun o => o = inl (Some <$> (F <$> xs), foldl f32_add f32_zero (F <$> xs))))
    as (o & -> & ->).
  - lia.
  - by rewrite Z.sub_0_r.
  - intros i st Hi ->. cbv beta iota.
    destruct (part_at F xs i) as (x & Hx & _ & Ht); [lia|]. rewrite Ht.
    assert (logits !! Z.to_nat i = Some x) as Hx'.
    { unfold xs in Hx. by rewrite lookup_take_lt in Hx by lia. }
    rewrite (arr_get_lookup logits i), Hx' by lia. cbn [mbind option_bind].
    replace (Z.to_nat (n - i)) with (S (Z.to_nat (n - (i + 1)))) by lia. cbn [replicate].
    rewrite arr_set_app by (rewrite !length_fmap, length_take; lia).
    eexists. split; [done|]. cbv beta iota. by rewrite fmap_app, <- app_assoc, foldl_app.
  - intros st ->. by rewrite take_ge, Z.sub_diag, app_nil_r by lia.
  - cbn [mbind option_bind]. change f32_div with (a_div (F := spec_float)).
    by rewrite normalise_ok by (rewrite length_fmap; lia).
Qed.

Lemma greedy_range logits n :
  1 <= n <= len logits ->
  exists t, sample_greedy logits n = Some t /\ 0 <= t < n.
Proof.
  intros Hn. destruct (argmax_ok logits n) as (m & r & Ha & _ & Hr); [lia|].
  exists r. split; [done|]. destruct Hr as [Heq|[? _]]; [|by simpl in *].
  simplify_eq. lia.
Qed.

Lemma temperature_range env logits n temp :
  1 <= n <= len logits -> n < 2 ^ 32 ->
  exists t, sample_temperature env logits n temp = Some t /\ 0 <= t < n.
Proof.
  intros Hn Hn32. unfold sample_temperature.
  destruct (float_le temp f32_zero); [by apply greedy_range|].
  destruct (malloc_probs env); cbn [negb]; [|by apply greedy_range].
  rewrite temperature_probs_ok by lia. cbn [mbind option_bind].
  set (ps := temp_softmax temp _).
  assert (len ps = n) as Hps
    by (unfold ps, temp_softmax; rewrite !length_fmap, length_take; lia).
  edestruct (for_range_rule (R := unit) (fun _ (st : spec_float * Z) => 0 <= snd st < n)
    (fun r => exists s t, r = inl (s, t) /\ 0 <= t < n)) as (r & -> & s & t & -> & Ht); [..|by exists t].
  - lia.
  - simpl. rewrite wrap_small by (unfold fits; lia). lia.
  - intros i [s t] Hi Ht. rewrite arr_init_Some by lia. cbn [mbind option_bind].
    destruct (float_le _ _); eexists; (split; [done|]); [by eexists _, _|done].
  - intros [s t] Ht. by eexists _, _.
Qed.

End temperature.

Lemma sample_token_range `{Libm} env logits vocab params :
  1 <= vocab <= len logits -> vocab <= 2 ^ 31 -> 0 <= top_k params ->
  exists t, sample_token env logits vocab params = Some t /\ 0 <= t < vocab.
Proof.
  intros Hv H31 Hk. unfold sample_token, sample_top_p.
  destruct (sampling params); [by apply greedy_range| |apply temperature_range; lia..|by apply greedy_range].
  unfold sample_top_k. set (k := top_k params) in *.
  destruct (Z.eqb_spec k 0); [apply temperature_range; lia|].
  destruct (Z.leb_spec vocab k); [apply temperature_range; lia|]. cbn [orb].
  destruct (malloc_vals env), (malloc_idxs env); cbn [negb orb]; try (apply greedy_range; lia).
  destruct (select_top_k_ok logits vocab k) as (ps & -> & [Hl _ He _ _]); [lia..|].
  cbn [mbind option_bind].
  destruct (temperature_range env (fst <$> ps) k (temperature params)) as (t & -> & Ht);
    [rewrite length_fmap; lia|lia|].
  cbn [mbind option_bind]. destruct (Z.ltb_spec t k); [|lia].
  destruct (lookup_lt_is_Some_2 ps (Z.to_nat t)) as [e Het]; [lia|].
  rewrite arr_get_lookup, list_lookup_fmap, Het by lia. exists (snd e). split; [done|].
  rewrite Forall_lookup in He. destruct (He _ _ Het) as [->|(_ & ? & _)]; simpl; lia.
Qed.

(** ** Theorems *)

(** C32. The selection of top-k sampling terminates inside of its arrays and
    holds its entries in descending order, each an index with its logit, no
    index twice (unused entries hold minus infinity); a logit that it does not
    hold is larger than none that it holds. *)
Theorem top_k_selects logits vocab k :
  1 <= k <= 2 ^ 31 -> 0 <= vocab <= len logits ->
  exists vals idxs, select_top_k logits vocab k = Some (vals, idxs) /\
    len vals = k /\ len idxs = k /\
    descending (zip vals idxs) /\ NoDup (snd <$> filter in_use (zip vals idxs)) /\
    (forall j x m, vals !! j = Some x -> idxs !! j = Some m -> in_use (x, m) ->
       0 <= m < vocab /\ logits !! Z.to_nat m = Some x) /\
    (forall m x, 0 <= m < vocab -> logits !! Z.to_nat m = Some x ->
       (x, m) ∈ zip vals idxs \/ forall y, y ∈ vals -> float_gt x y = false).
Proof.
  intros Hk Hv. destruct (select_top_k_ok logits vocab k Hk Hv) as (ps & Hs & [Hl Hd He Hnd Hr]).
  exists (fst <$> ps), (snd <$> ps). rewrite zip_fst_snd, !length_fmap.
  split_and!; [done..| |].
  - intros j x m Hx Hm Hu. rewrite list_lookup_fmap in Hx. rewrite list_lookup_fmap in Hm.
    destruct (ps !! j) as [[x' m']|] eqn:Hj; simplify_eq/=.
    rewrite Forall_lookup in He. destruct (He j _ Hj) as [|(_ & ? & ?)]; [simplify_eq; done|done].
  - intros m x Hm Hx. destruct (Hr m x Hm Hx) as [[_ ?]|Hno]; [by left|right].
    intros y (e & -> & He')%list_elem_of_fmap. by apply Hno.
Qed.

(** C33. Whatever the sampling method and its parameters, the random number, the
    failing allocations and the logits, sampling stays inside of its arrays and
    returns a token of the vocabulary. *)
Theorem sample_token_ok `{Libm} env logits vocab params :
  1 <= vocab <= len logits -> vocab <= 2 ^ 31 -> 0 <= top_k params ->
  exists t, sample_token env logits vocab params = Some t /\ 0 <= t < vocab.
Proof. apply sample_token_range. Qed.

#[local] Existing Instance demo_libm.

Definition demo_logits : list spec_float := f32_of_Z <$> [3; 1; 4; 1; 5].

Lemma top_k_selects_witness :
  exists vals idxs, select_top_k demo_logits 5 2 = Some (vals, idxs) /\ len vals = 2.
Proof.
  destruct (top_k_selects demo_logits 5 2) as (vals & idxs & Hs & Hl & _); [lia|simpl; lia|].
  exists vals, idxs. split; [exact Hs|exact Hl].
Defined.

Lemma sample_token_ok_witness :
  exists t, sample_token (SampleEnv 12345 true true true) demo_logits 5
    (DecodeParams 10 0 KLLM_SAMPLE_TOP_K f32_one 2 f32_one) = Some t /\ 0 <= t < 5.
Proof.
  apply (sample_token_ok (SampleEnv 12345 true true true) demo_logits 5
    (DecodeParams 10 0 KLLM_SAMPLE_TOP_K f32_one 2 f32_one)); simpl; lia.
Defined.
