(* ===== verification/Decode.v ===== *)
(** * The decode loop

    Models [kllm_decode_run] of [userspace/decode/decode_loop.c]: inference,
    sampling, streaming of the token to the response ring and appending it to
    the sequence, until the end token, the limit or an error.

    The loop is proved against the class [Inference], which states what it
    relies on from the two inference paths: a call on the CPU returns, and a call
    that returns with success leaves logits for a non-empty vocabulary.  A call
    on the GPU need not return (that of [InferGpu.v] does not).
    [server_inference] shows that the paths of [InferCpu.v] and [InferGpu.v]
    together are such an implementation.

    The relation [generates] is the specification of an answer: every token is
    the one that sampling picks from the logits of the inference on the sequence
    so far.  The file proves that the loop streams exactly such an answer,
    followed by one end of sequence, to the response ring, which keeps what it
    has room for; and that without a GPU it terminates. *)

From Stdlib Require Import ZArith Lia SpecFloat.
From stdpp Require Import base numbers list gmap.
From S2P Require Import Prelude Floats TokenRing Chardev BlockFormat Arena CacheIndex Dispatch Response Wavefront Gpu InferGpu Attention InferCpu Sampling.

#[local] Open Scope Z_scope.

Definition MAX_SEQUENCE_LEN : Z := 32768.

(** ** What the loop relies on *)

(** The logits a successful call leaves. *)
Definition ready (vocab : Z) (r : kllm_infer_result) : Prop :=
  res_vocab_size r = vocab /\ exists lg, logits r = Some lg /\ vocab <= len lg.

Class Inference (St : Type) := {
  call_cpu : St -> list Z -> Z -> kllm_infer_result -> exec (Z * kllm_infer_result * St);
  call_escalate : St -> list Z -> Z -> kllm_infer_result -> exec (Z * kllm_infer_result * St);
  call_gpu : St -> list Z -> Z -> kllm_infer_result -> exec (Z * kllm_infer_result * St);
  (** The GPU context is not null. *)
  has_gpu : St -> bool;
  inf_vocab : Z;
  inf_wf : St -> kllm_infer_result -> Prop;

  inf_vocab_ok : 1 <= inf_vocab <= 2 ^ 31;
  inf_start st : (exists r, inf_wf st r) -> inf_wf st (InferResult None 0 0);

  (** A call on the CPU returns; a call that returns leaves logits on success. *)
  inf_cpu_ok st tokens n r :
    inf_wf st r -> 1 <= n <= len tokens -> n <= MAX_SEQUENCE_LEN ->
    yields false (call_cpu st tokens n r) (fun '(rc, r', st') =>
      inf_wf st' r' /\ has_gpu st' = has_gpu st /\ (rc < 0 \/ ready inf_vocab r'));
  inf_escalate_ok st tokens n r :
    inf_wf st r -> has_gpu st = true -> 1 <= n <= len tokens -> n <= MAX_SEQUENCE_LEN ->
    yields true (call_escalate st tokens n r) (fun '(rc, r', st') =>
      inf_wf st' r' /\ has_gpu st' = has_gpu st /\ (rc < 0 \/ ready inf_vocab r'));
  inf_gpu_ok st tokens n r :
    inf_wf st r -> has_gpu st = true -> 1 <= n <= len tokens -> n <= MAX_SEQUENCE_LEN ->
    yields true (call_gpu st tokens n r) (fun '(rc, r', st') =>
      inf_wf st' r' /\ has_gpu st' = has_gpu st /\ (rc < 0 \/ ready inf_vocab r'));
}.

(** ** Data *)

Record kllm_decode_stats : Type := DecodeStats {
  tokens_generated : Z;
  total_latency_ns : Z;
  avg_token_latency_ns : Z;
  stopped_eos : bool;
}.

(** The contexts of the loop: inference, dispatch and the device behind the
    response path. *)
Record kllm_decode_ctx (St : Type) : Type := DecodeCtx {
  dc_infer : St;
  dc_dispatch : kllm_dispatch_ctx;
  dc_dev : kllm_device;
}.

Arguments DecodeCtx {St}.
Arguments dc_infer {St}.
Arguments dc_dispatch {St}.
Arguments dc_dev {St}.

(** The environment of one iteration: the clock before and after, the calls of
    sampling, and the unused part of the command on the stack. *)
Record step_env : Type := StepEnv {
  se_start : Z;
  se_end : Z;
  se_sample : sample_env;
  se_stack : list Z;
}.

(** The local variables of the loop. *)
Record decode_state (St : Type) : Type := DecodeState {
  ds_ctx : kllm_decode_ctx St;
  ds_sequence : list Z;
  ds_seq_len : Z;
  ds_generated : Z;
  ds_total_ns : Z;
  ds_result : kllm_infer_result;
  ds_eos : bool;
}.

Arguments DecodeState {St}.
Arguments ds_ctx {St}.
Arguments ds_sequence {St}.
Arguments ds_seq_len {St}.
Arguments ds_generated {St}.
Arguments ds_total_ns {St}.
Arguments ds_result {St}.
Arguments ds_eos {St}.

(** ** Operations *)

Section decode.
Context {St : Type} {INF : Inference St} `{Libm} `{KL : KernelLib}.

Definition kllm_decode_create (calloc_ok : bool) (infer : St) (dispatch : kllm_dispatch_ctx)
    (dev : kllm_device) : option (kllm_decode_ctx St) :=
  if negb calloc_ok then None else Some (DecodeCtx infer dispatch dev).

(** Inference of one iteration: where it runs, with the escalation to the GPU
    when the CPU path fails.  [false] is the [break]. *)
Definition decode_infer (st : St) (disp : kllm_dispatch_ctx) (sequence : list Z) (seq_len : Z)
    (result : kllm_infer_result) : exec (bool * kllm_infer_result * St * kllm_dispatch_ctx) :=
  let '(target, disp) := kllm_dispatch_decide disp seq_len true in
  match target with
  | KLLM_TARGET_CPU =>
      exec_bind (call_cpu st sequence seq_len result) (fun '(rc, result, st) =>
      exec_bind (if (rc <? 0) && has_gpu st then call_escalate st sequence seq_len result
                 else Done (rc, result, st)) (fun '(rc, result, st) =>
      Done (negb (rc <? 0), result, st, disp)))
  | KLLM_TARGET_GPU =>
      if negb (has_gpu st) then Done (false, result, st, disp)
      else exec_bind (call_gpu st sequence seq_len result) (fun '(rc, result, st) =>
        Done (negb (rc <? 0), result, st, disp))
  end.

Definition with_dev (ctx : kllm_decode_ctx St) (dev : kllm_device) : kllm_decode_ctx St :=
  DecodeCtx (dc_infer ctx) (dc_dispatch ctx) dev.

(** The body of the loop; [inl] goes on, [inr] is the [break]. *)
Definition decode_step (params : kllm_decode_params) (env : step_env) (s : decode_state St)
    : exec (decode_state St + decode_state St) :=
  exec_bind (decode_infer (dc_infer (ds_ctx s)) (dc_dispatch (ds_ctx s)) (ds_sequence s)
    (ds_seq_len s) (ds_result s)) (fun '(ok, result, st, disp) =>
  let ctx := DecodeCtx st disp (dc_dev (ds_ctx s)) in
  if negb ok
  then Done (inr (DecodeState ctx (ds_sequence s) (ds_seq_len s) (ds_generated s)
    (ds_total_ns s) result (ds_eos s)))
  else
  exec_bind (exec_of (lg ← logits result;
    sample_token (se_sample env) lg (res_vocab_size result) params)) (fun next_token =>
  let total := u64 (ds_total_ns s + u64 (se_end env - se_start env)) in
  if next_token =? eos_token_id params then
    exec_bind (exec_of (kllm_response_eos (dc_dev ctx))) (fun '(_, dev) =>
    Done (inr (DecodeState (with_dev ctx dev) (ds_sequence s) (ds_seq_len s) (ds_generated s)
      total result true)))
  else
    exec_bind (exec_of (kllm_response_emit_one (dc_dev ctx) (se_stack env) next_token))
      (fun '(_, dev) =>
    exec_bind (exec_of (arr_set (ds_sequence s) (ds_seq_len s) next_token)) (fun sequence =>
    Done (inl (DecodeState (with_dev ctx dev) sequence (u32 (ds_seq_len s + 1))
      (u32 (ds_generated s + 1)) total result (ds_eos s))))))).

(** Iteration [i] has environment [env i]. *)
Fixpoint decode_loop (fuel : nat) (params : kllm_decode_params) (env : Z -> step_env) (i : Z)
    (s : decode_state St) : exec (decode_state St) :=
  if (ds_generated s <? max_tokens params) && (ds_seq_len s <? MAX_SEQUENCE_LEN) then
    match fuel with
    | O => OutOfFuel
    | S fuel' =>
        exec_bind (decode_step params (env i) s) (fun r =>
        match r with
        | inl s' => decode_loop fuel' params env (i + 1) s'
        | inr s' => Done s'
        end)
    end
  else Done s.

(** Returns the number of tokens or -1, the statistics and the context.  The
    sequence grows in every iteration, so [MAX_SEQUENCE_LEN] rounds are
    enough. *)
Definition kllm_decode_run (calloc_ok : bool) (env : Z -> step_env)
    (ctx : option (kllm_decode_ctx St)) (prompt_tokens : option (list Z)) (prompt_len : Z)
    (params : option kllm_decode_params)
    : exec (Z * option kllm_decode_stats * option (kllm_decode_ctx St)) :=
  match ctx, prompt_tokens, params with
  | Some c, Some prompt, Some ps =>
      if prompt_len =? 0 then Done (-1, None, ctx)
      else if negb calloc_ok then Done (-1, None, ctx)
      else
        let copy_len := if prompt_len <? MAX_SEQUENCE_LEN then prompt_len else MAX_SEQUENCE_LEN in
        exec_bind (exec_of (arr_slice prompt 0 copy_len)) (fun part =>
        let sequence := part ++ drop (Z.to_nat copy_len) (zeroed MAX_SEQUENCE_LEN) in
        exec_bind (decode_loop (Z.to_nat MAX_SEQUENCE_LEN) ps env 0
          (DecodeState c sequence copy_len 0 0 (InferResult None 0 0) false)) (fun s =>
        exec_bind (if ds_eos s then Done (dc_dev (ds_ctx s))
          else exec_bind (exec_of (kllm_response_eos (dc_dev (ds_ctx s))))
            (fun '(_, dev) => Done dev)) (fun dev =>
        Done (ds_generated s, Some (DecodeStats (ds_generated s) (ds_total_ns s)
            (if 0 <? ds_generated s then ds_total_ns s / ds_generated s else 0) (ds_eos s)),
          Some (with_dev (ds_ctx s) dev)))))
  | _, _, _ => Done (-1, None, ctx)
  end.

End decode.

(** ** Specification *)

Section spec.
Context {St : Type} {INF : Inference St} `{Libm} `{KL : KernelLib}.

(** The buffer that holds a sequence. *)
Definition padded (seq : list Z) : list Z := seq ++ drop (length seq) (zeroed MAX_SEQUENCE_LEN).

(** Why an answer ends: at a limit, at an error of the inference, or at the end
    token. *)
Inductive ending : Type := AtLimit | AtError | AtEos.

(** The tokens that the sequence is continued with from round [i] on, when the
    inference, the dispatcher and the last result are [st], [d] and [r]. *)
Inductive generates (params : kllm_decode_params) (env : Z -> step_env) :
    Z -> St -> kllm_dispatch_ctx -> list Z -> kllm_infer_result -> list Z -> ending -> Prop :=
| gen_limit i st d seq r :
    max_tokens params <= i \/ MAX_SEQUENCE_LEN <= len seq ->
    generates params env i st d seq r [] AtLimit
| gen_error i st d seq r r' st' d' :
    i < max_tokens params -> len seq < MAX_SEQUENCE_LEN ->
    decode_infer st d (padded seq) (len seq) r = Done (false, r', st', d') ->
    generates params env i st d seq r [] AtError
| gen_eos i st d seq r r' st' d' lg :
    i < max_tokens params -> len seq < MAX_SEQUENCE_LEN ->
    decode_infer st d (padded seq) (len seq) r = Done (true, r', st', d') ->
    logits r' = Some lg ->
    sample_token (se_sample (env i)) lg (res_vocab_size r') params = Some (eos_token_id params) ->
    generates params env i st d seq r [] AtEos
| gen_token i st d seq r r' st' d' lg t toks why :
    i < max_tokens params -> len seq < MAX_SEQUENCE_LEN ->
    decode_infer st d (padded seq) (len seq) r = Done (true, r', st', d') ->
    logits r' = Some lg ->
    sample_token (se_sample (env i)) lg (res_vocab_size r') params = Some t ->
    t <> eos_token_id params ->
    generates params env (i + 1) st' d' (seq ++ [t]) r' toks why ->
    generates params env i st d seq r (t :: toks) why.

(** The state of the loop in round [i], when the sequence is [seq]. *)
Record decode_inv (i : Z) (seq : list Z) (s : decode_state St) : Prop := {
  di_inf : inf_wf (dc_infer (ds_ctx s)) (ds_result s);
  di_resp : resp_wf (dc_dev (ds_ctx s));
  di_sequence : ds_sequence s = padded seq;
  di_seq_len : ds_seq_len s = len seq;
  di_room : 1 <= len seq <= MAX_SEQUENCE_LEN;
  di_generated : ds_generated s = i;
  di_eos : ds_eos s = false;
}.

(** The loop has gone from [s] to [s'] and streamed the tokens; an end token has
    been signalled at once. *)
Record decode_end (s : decode_state St) (toks : list Z) (why : ending) (s' : decode_state St) : Prop := {
  de_generated : ds_generated s' = ds_generated s + len toks;
  de_eos : ds_eos s' = match why with AtEos => true | _ => false end;
  de_resp : resp_wf (dc_dev (ds_ctx s'));
  de_mask : resp_mask (dc_dev (ds_ctx s')) = resp_mask (dc_dev (ds_ctx s));
  de_ring : resp_contents (dc_dev (ds_ctx s')) =
    resp_push (resp_mask (dc_dev (ds_ctx s))) (resp_contents (dc_dev (ds_ctx s)))
      (toks ++ match why with AtEos => [EOS_SENTINEL] | _ => [] end);
}.

(** ** Lemmas *)

Lemma padded_len seq : len seq <= MAX_SEQUENCE_LEN -> len (padded seq) = MAX_SEQUENCE_LEN.
Proof.
  intros Hl. unfold padded. rewrite length_app, length_drop.
  pose proof (zeroed_len MAX_SEQUENCE_LEN ltac:(done)). lia.
Qed.

Lemma padded_set seq t :
  len seq < MAX_SEQUENCE_LEN -> arr_set (padded seq) (len seq) t = Some (padded (seq ++ [t])).
Proof.
  intros Hl. unfold padded. pose proof (zeroed_len MAX_SEQUENCE_LEN ltac:(done)) as Hz.
  set (z := zeroed MAX_SEQUENCE_LEN) in *. clearbody z.
  destruct (lookup_lt_is_Some_2 z (length seq)) as [y Hy]; [lia|].
  rewrite (drop_S z y) by done. rewrite arr_set_app by done.
  rewrite length_app, <- app_assoc. cbn [length app]. by rewrite Nat.add_1_r.
Qed.

Lemma ready_of rc r : rc < 0 \/ ready inf_vocab r -> negb (rc <? 0) = true -> ready inf_vocab r.
Proof. intros [?|?] Hb; [|done]. apply negb_true_iff in Hb. unbool. lia. Qed.

Lemma decode_infer_ok st disp sequence n r :
  inf_wf st r -> 1 <= n <= len sequence -> n <= MAX_SEQUENCE_LEN ->
  yields (has_gpu st) (decode_infer st disp sequence n r) (fun '(ok, r', st', disp') =>
    inf_wf st' r' /\ has_gpu st' = has_gpu st /\ (ok = true -> ready inf_vocab r')).
Proof.
  intros Hwf Hn Hmax. unfold decode_infer. destruct (kllm_dispatch_decide _ _ _) as [[] disp'].
  - destruct (yields_false _ _ (inf_cpu_ok _ sequence n r Hwf Hn Hmax))
      as ([[rc r1] st1] & -> & Hwf1 & Hg1 & Hr1). cbn [exec_bind].
    destruct ((rc <? 0) && has_gpu st1) eqn:Hb.
    + apply andb_true_iff in Hb as [_ Hg]. rewrite <- Hg1, Hg. eapply yields_bind.
      { exact (inf_escalate_ok _ sequence n r1 Hwf1 Hg Hn Hmax). }
      intros [[rc2 r2] st2] (Hwf2 & Hg2 & Hr2). cbn. split; [done|]. split; [congruence|].
      by apply ready_of.
    + cbn. split; [done|]. split; [done|]. by apply ready_of.
  - destruct (has_gpu st) eqn:Hg; cbn [negb].
    + eapply yields_bind; [exact (inf_gpu_ok _ sequence n r Hwf Hg Hn Hmax)|].
      intros [[rc r1] st1] (Hwf1 & Hg1 & Hr1). cbn. split; [done|]. split; [congruence|].
      by apply ready_of.
    + by cbn.
Qed.

Section loop.
Context (params : kllm_decode_params) (env : Z -> step_env).
Hypothesis Hk : 0 <= top_k params.

(** Sampling from the logits of a successful call. *)
Lemma sample_ready e r :
  ready inf_vocab r ->
  exists lg t, logits r = Some lg /\ sample_token e lg (res_vocab_size r) params = Some t /\
    0 <= t < inf_vocab.
Proof.
  intros (Hv & lg & Hlg & Hle). pose proof inf_vocab_ok.
  destruct (sample_token_range e lg inf_vocab params) as (t & Ht & Hr); [lia..|].
  exists lg, t. by rewrite Hv.
Qed.

(** The tokens of an answer. *)
Lemma generates_ok i st d seq r toks why :
  generates params env i st d seq r toks why ->
  inf_wf st r -> 1 <= len seq <= MAX_SEQUENCE_LEN -> i <= max_tokens params ->
  Forall (fun t => 0 <= t < inf_vocab /\ t <> eos_token_id params) toks /\
  i + len toks <= max_tokens params /\ len seq + len toks <= MAX_SEQUENCE_LEN.
Proof.
  induction 1 as [i st d seq r _|i st d seq r r' st' d' _ _ _|i st d seq r r' st' d' lg _ _ _ _ _
    |i st d seq r r' st' d' lg t toks why Hi Hs Hinf Hlg Ht Hne _ IH]; intros Hwf Hseq Hm;
    [cbn; split; [constructor|lia]..|].
  pose proof (decode_infer_ok st d (padded seq) (len seq) r Hwf) as Hok.
  rewrite Hinf, padded_len in Hok by lia. cbn in Hok.
  destruct Hok as (Hwf' & _ & Hready); [lia..|].
  destruct (sample_ready (se_sample (env i)) r' (Hready eq_refl)) as (lg' & t' & Hlg' & Ht' & Hr).
  rewrite length_app in IH. cbn [length] in *. destruct IH as (H1 & H2 & H3); [done|lia..|].
  simplify_eq. split; [by constructor|lia].
Qed.

Hypothesis Hst : forall i, len (se_stack (env i)) = 256.
Hypothesis Hmax : max_tokens params < 2 ^ 32.

Lemma decode_loop_ok fuel i seq (s : decode_state St) :
  decode_inv i seq s -> 0 <= i -> MAX_SEQUENCE_LEN - len seq <= Z.of_nat fuel ->
  yields (has_gpu (dc_infer (ds_ctx s))) (decode_loop fuel params env i s) (fun s' =>
    exists toks why, generates params env i (dc_infer (ds_ctx s)) (dc_dispatch (ds_ctx s)) seq
      (ds_result s) toks why /\ decode_end s toks why s').
Proof.
  revert i seq s. induction fuel as [|fuel IH]; intros i seq s Hinv Hi Hf;
    cbn [decode_loop]; pose proof Hinv as [Hwf Hresp Hseq Hsl Hr Hg He]; rewrite Hg, Hsl;
    (destruct (Z.ltb_spec i (max_tokens params)), (Z.ltb_spec (len seq) MAX_SEQUENCE_LEN);
      cbn [andb]; [|by exists [], AtLimit; (split; [constructor; lia|]); split; rewrite ?resp_push_nil; cbn; (done || lia)..]).
  { lia. }
  assert (MAX_SEQUENCE_LEN < 2 ^ 32) as H32 by done.
  unfold decode_step. rewrite Hseq, Hsl.
  pose proof (decode_infer_ok (dc_infer (ds_ctx s)) (dc_dispatch (ds_ctx s)) (padded seq) (len seq)
    (ds_result s) Hwf) as Hcall. rewrite padded_len in Hcall by lia. specialize (Hcall ltac:(lia) ltac:(lia)).
  destruct (decode_infer _ _ _ _ _) as [[[[ok r'] st'] d']| |] eqn:Hinf; [|exact Hcall..].
  destruct Hcall as (Hwf' & Hgpu & Hready). cbn [exec_bind]. destruct ok; cbn [negb]; cycle 1.
  { cbn. exists [], AtError. split; [by eapply gen_error|].
    split; cbn; rewrite ?resp_push_nil; (done || lia). }
  destruct (sample_ready (se_sample (env i)) r' (Hready eq_refl)) as (lg & t & Hlg & Ht & _).
  rewrite Hlg. cbn [mbind option_bind]. rewrite Ht. cbn [exec_of exec_bind dc_dev].
  destruct (Z.eqb_spec t (eos_token_id params)) as [->|Hne].
  - destruct (response_eos_ok _ Hresp) as (dev & -> & Hw & Hm & Hc). cbn.
    exists [], AtEos. split; [by eapply gen_eos|]. split; cbn; (done || lia).
  - destruct (response_emit_one_ok _ (se_stack (env i)) t Hresp (Hst i)) as (dev & -> & Hw & Hm & Hc).
    cbn [exec_of exec_bind]. rewrite padded_set by done. cbn [exec_of exec_bind].
    rewrite !(wrap_small 32) by (unfold fits; lia).
    assert (Hls : len (seq ++ [t]) = len seq + 1) by (rewrite length_app; cbn; lia).
    set (s1 := DecodeState _ _ _ _ _ _ _).
    assert (decode_inv (i + 1) (seq ++ [t]) s1) as Hinv1.
    { split; cbn [s1 ds_ctx ds_result ds_sequence ds_seq_len ds_generated ds_eos dc_infer dc_dev with_dev];
        (done || lia). }
    specialize (IH _ _ _ Hinv1 ltac:(lia) ltac:(lia)). rewrite <- Hgpu.
    eapply yields_impl; [exact IH|done|]. intros s' (toks & why & Hgen & [G1 G2 G3 G4 G5]).
    exists (t :: toks), why. split; [by eapply gen_token|]. cbn [s1 ds_ctx dc_dev with_dev ds_generated] in *.
    split; [cbn [length]; lia|done|done|congruence|].
    by rewrite G5, Hm, Hc, resp_push_app.
Qed.

End loop.

End spec.

(** What a run has streamed. *)
Definition answered {St} {INF : Inference St} `{Libm} `{KL : KernelLib} (env : Z -> step_env)
    (ctx : kllm_decode_ctx St) (prompt : list Z) (prompt_len : Z) (params : kllm_decode_params)
    (toks : list Z) (why : ending) : Prop :=
  generates params env 0 (dc_infer ctx) (dc_dispatch ctx)
    (take (Z.to_nat (Z.min prompt_len MAX_SEQUENCE_LEN)) prompt) (InferResult None 0 0) toks why.

(** A run, with the device as it is left. *)
Lemma decode_run_stream {St} {INF : Inference St} `{Libm} `{KL : KernelLib}
    env (ctx : kllm_decode_ctx St) prompt prompt_len params :
  (exists r, inf_wf (dc_infer ctx) r) -> resp_wf (dc_dev ctx) ->
  1 <= prompt_len <= len prompt -> 0 <= max_tokens params < 2 ^ 32 -> 0 <= top_k params ->
  (forall i, len (se_stack (env i)) = 256) ->
  yields (has_gpu (dc_infer ctx))
    (kllm_decode_run true env (Some ctx) (Some prompt) prompt_len (Some params))
    (fun '(n, stats, ctx') => exists toks why st c,
      answered env ctx prompt prompt_len params toks why /\
      n = len toks /\ stats = Some st /\ ctx' = Some c /\
      tokens_generated st = len toks /\
      stopped_eos st = match why with AtEos => true | _ => false end /\
      resp_contents (dc_dev c) = resp_push (resp_mask (dc_dev ctx))
        (resp_contents (dc_dev ctx)) (toks ++ [EOS_SENTINEL]) /\
      Forall (fun t => 0 <= t < inf_vocab /\ t <> eos_token_id params) toks /\
      (EOS_SENTINEL ∉ toks) /\ len toks <= max_tokens params /\
      Z.min prompt_len MAX_SEQUENCE_LEN + len toks <= MAX_SEQUENCE_LEN /\ resp_wf (dc_dev c)).
Proof.
  intros Hinf Hresp Hp Hmax Hk Hst. cbn [kllm_decode_run].
  destruct (Z.eqb_spec prompt_len 0) as [|_]; [lia|]. cbn [negb].
  replace (if prompt_len <? MAX_SEQUENCE_LEN then prompt_len else MAX_SEQUENCE_LEN)
    with (Z.min prompt_len MAX_SEQUENCE_LEN) by (case_cond; lia).
  unfold answered. set (n := Z.min prompt_len MAX_SEQUENCE_LEN).
  assert (1 <= n <= len prompt /\ n <= MAX_SEQUENCE_LEN) as [Hn Hn']
    by (unfold n, MAX_SEQUENCE_LEN; lia).
  rewrite arr_slice_in by lia. cbn [exec_of exec_bind].
  change (drop (Z.to_nat 0) prompt) with prompt. set (part := take (Z.to_nat n) prompt).
  assert (len part = n) as Hpart by (unfold part; rewrite length_take; lia).
  pose proof (inf_start _ Hinf) as Hwf0.
  eapply yields_bind.
  { apply (decode_loop_ok params env Hk Hst ltac:(lia) _ 0 part (DecodeState ctx _ n 0 0 (InferResult None 0 0) false));
      [|done|lia].
    split; cbn [ds_ctx ds_result ds_sequence ds_seq_len ds_generated ds_eos]; try (done || lia).
    unfold padded. by replace (length part) with (Z.to_nat n) by lia. }
  intros s (toks & why & Hgen & [Hg He Hw Hm Hc]). cbn [ds_ctx ds_result ds_generated] in *.
  destruct (generates_ok params env Hk _ _ _ _ _ _ _ Hgen Hwf0) as (Htok & Hlim & Hroom); [lia..|].
  assert (EOS_SENTINEL ∉ toks) as Hno.
  { intros Hin. rewrite Forall_forall in Htok. apply Htok in Hin as [? _].
    pose proof inf_vocab_ok. unfold EOS_SENTINEL in *. lia. }
  assert (exists dev, (if ds_eos s then Done (dc_dev (ds_ctx s))
      else exec_bind (exec_of (kllm_response_eos (dc_dev (ds_ctx s)))) (fun '(_, dev) => Done dev))
      = Done dev /\ resp_wf dev /\ resp_contents dev = resp_push (resp_mask (dc_dev ctx))
        (resp_contents (dc_dev ctx)) (toks ++ [EOS_SENTINEL])) as (dev & -> & Hdw & Hdc).
  { rewrite He. destruct (response_eos_ok _ Hw) as (dev & Heos & Hw' & _ & Hc').
    rewrite Heos, Hc, Hm, resp_push_app in *. rewrite <- app_assoc in Hc'.
    destruct why; cbn [exec_of exec_bind app] in *; eauto. }
  cbn [exec_bind yields]. exists toks, why. do 2 eexists. split; [exact Hgen|].
  split_and!; try done; cbn [tokens_generated]; lia.
Qed.

(** ** Theorems *)

(** C21. A decode run over a valid prompt.  The tokens that it returns the number
    of and counts in its statistics are those of the answer: in each round the
    inference on the sequence so far is run where the dispatcher says, and the
    token is the one that sampling picks from its logits, until the end token is
    picked, a limit is reached or the inference fails.  The response ring is
    offered these tokens, in order, and then exactly one end of sequence, however
    the answer ends; it keeps what it has room for and drops the rest, the end of
    sequence included.  The tokens are of the vocabulary and none is the end
    token, and they exceed neither the requested number nor the sequence.
    Without a GPU the run terminates; with one it does unless a call on the GPU
    has no result.  A run without prompt or memory returns -1 and streams
    nothing. *)
Theorem decode_run_ok {St} {INF : Inference St} `{Libm} `{KL : KernelLib}
    env (ctx : kllm_decode_ctx St) prompt prompt_len params :
  (exists r, inf_wf (dc_infer ctx) r) -> resp_wf (dc_dev ctx) ->
  1 <= prompt_len <= len prompt -> 0 <= max_tokens params < 2 ^ 32 -> 0 <= top_k params ->
  (forall i, len (se_stack (env i)) = 256) ->
  kllm_decode_run false env (Some ctx) (Some prompt) prompt_len (Some params)
    = Done (-1, None, Some ctx) /\
  kllm_decode_run true env (Some ctx) (Some prompt) 0 (Some params) = Done (-1, None, Some ctx) /\
  match kllm_decode_run true env (Some ctx) (Some prompt) prompt_len (Some params) with
  | Done (n, stats, ctx') => exists toks why st c,
      answered env ctx prompt prompt_len params toks why /\
      n = len toks /\ stats = Some st /\ ctx' = Some c /\
      tokens_generated st = len toks /\
      stopped_eos st = match why with AtEos => true | _ => false end /\
      resp_contents (dc_dev c) = resp_push (resp_mask (dc_dev ctx))
        (resp_contents (dc_dev ctx)) (toks ++ [EOS_SENTINEL]) /\
      Forall (fun t => 0 <= t < inf_vocab /\ t <> eos_token_id params) toks /\
      (EOS_SENTINEL ∉ toks) /\ len toks <= max_tokens params /\
      Z.min prompt_len MAX_SEQUENCE_LEN + len toks <= MAX_SEQUENCE_LEN
  | OutOfFuel | Undef => has_gpu (dc_infer ctx) = true
  end.
Proof.
  intros Hinf Hresp Hp Hmax Hk Hst. split; [cbn [kllm_decode_run]; by destruct (Z.eqb_spec prompt_len 0)|].
  split; [done|].
  pose proof (decode_run_stream env ctx prompt prompt_len params Hinf Hresp Hp Hmax Hk Hst) as Hrun.
  destruct (kllm_decode_run true env (Some ctx) (Some prompt) prompt_len (Some params))
    as [[[n stats] ctx']| |]; [|exact Hrun..].
  destruct Hrun as (toks & why & st & c & H1 & H2 & H3 & H4 & H5 & H6 & H7 & H8 & H9 & H10 & H11 & _).
  by exists toks, why, st, c.
Qed.

(** ** The two paths as an implementation *)

Section server.
Context {A : Type} {BA : BlockAllocator A} `{Sha256} `{Libm} `{!Avx512 spec_float} `{GpuBackends}.
Context (mem : Z -> option Z) (bd : build) (g : kllm_isa_level) (vocab : Z).

(** The environment of each call; its clock stays below the largest value. *)
Context (envs : Z -> cpu_env) (Henvs : forall i, clock_ok (envs i)).

(** For a call on the GPU: how many polls to wait for, what the completion queue
    holds, and whether the logits are allocated. *)
Context (gpu_envs : Z -> nat * kllm_wf_completion * bool).
Context (Hvocab : 1 <= vocab <= 2 ^ 31).

(** The contexts of the two paths, and the number of calls so far. *)
Definition server : Type := kllm_infer_cpu_ctx A * option kllm_infer_gpu_ctx * Z.

(** The memory that the longest sequence reads at a block of the arena is
    mapped. *)
Record server_wf (ctx : kllm_infer_cpu_ctx A) : Prop := {
  sw_model : model_wf (ic_model ctx);
  sw_layers : 1 <= num_layers (ic_model ctx);
  sw_dim : head_dim (ic_model ctx) < 2 ^ 32 - 32;
  sw_elems : tensor_elems (ic_model ctx) < 2 ^ 32;
  sw_reads : MAX_SEQUENCE_LEN * num_kv_heads (ic_model ctx) * head_dim (ic_model ctx) < 2 ^ 32;
  sw_vocab : vocab_size ctx = vocab;
  sw_lm : match lm_head ctx with
    | Some w => vocab * (num_kv_heads (ic_model ctx) * head_dim (ic_model ctx)) <=
        Z.min (len w) (2 ^ 32 - 1)
    | None => True
    end;
  sw_index : index_wf (cache_idx ctx);
  sw_mapped : mapped_blocks mem ctx MAX_SEQUENCE_LEN;
}.

Lemma server_request ctx tokens n :
  server_wf ctx -> 1 <= n <= len tokens -> n <= MAX_SEQUENCE_LEN -> request_wf ctx tokens n.
Proof.
  intros [Hmod] Hn Hm. destruct (Hmod) as [_ [Hh _] [Hd _] _ _ _ _]. split; try done; [lia|nia|lia..|].
  by subst vocab.
Qed.

Lemma server_with_idx ctx idx :
  server_wf ctx -> index_wf idx -> arena idx = arena (cache_idx ctx) -> server_wf (with_idx ctx idx).
Proof.
  intros [] Hi Ha. split; try done. intros slot block. cbn [with_idx cache_idx]. rewrite Ha. eauto.
Qed.

Definition server_cpu (st : server) (tokens : list Z) (n : Z) (r : kllm_infer_result)
    : exec (Z * kllm_infer_result * server) :=
  let '(c, gpu, i) := st in
  exec_of (
    '(rc, r', c) ← kllm_infer_cpu mem bd g (envs i) c tokens n r;
    Some (rc, r', (c, gpu, i + 1))).

Definition server_escalate (st : server) (tokens : list Z) (n : Z) (r : kllm_infer_result)
    : exec (Z * kllm_infer_result * server) :=
  let '(c, gpu, i) := st in
  let '(fuel, comp, ok) := gpu_envs i in
  exec_bind (kllm_infer_gpu_escalate fuel comp ok gpu tokens n r) (fun '(rc, r') =>
  Done (rc, r', (c, gpu, i + 1))).

Definition server_gpu (st : server) (tokens : list Z) (n : Z) (r : kllm_infer_result)
    : exec (Z * kllm_infer_result * server) :=
  let '(c, gpu, i) := st in
  let '(fuel, comp, ok) := gpu_envs i in
  exec_bind (kllm_infer_gpu fuel comp ok gpu tokens n r) (fun '(rc, r') =>
  Done (rc, r', (c, gpu, i + 1))).

Definition server_has_gpu (st : server) : bool :=
  let '(_, gpu, _) := st in match gpu with Some _ => true | None => false end.

(** The GPU path has the same vocabulary. *)
Definition server_ok (st : server) (r : kllm_infer_result) : Prop :=
  let '(c, gpu, _) := st in
  server_wf c /\ result_wf vocab r /\
  match gpu with Some x => ig_vocab_size x = vocab | None => True end.

(** A call on the GPU that returns. *)
Lemma gpu_leaves fuel comp ok x tokens n r rc r' :
  ig_vocab_size x = vocab -> result_wf vocab r ->
  kllm_infer_gpu fuel comp ok (Some x) tokens n r = Done (rc, r') ->
  result_wf vocab r' /\ (rc < 0 \/ ready vocab r').
Proof.
  intros Hx Hr Hrun. destruct (infer_gpu_leaves _ _ _ _ _ _ _ _ _ Hrun) as [[? ->]|(Hv & l & Hl & El)];
    [by auto|].
  assert (len l = vocab) as Hll.
  { subst l. unfold result_wf in Hr. destruct (logits r); [done|]. cbn. rewrite length_replicate. lia. }
  unfold result_wf. rewrite Hl. split; [done|]. right. split; [congruence|]. exists l. split; [done|lia].
Qed.

#[local] Obligation Tactic := idtac.

#[program] Definition server_inference : Inference server :=
  {| call_cpu := server_cpu;
     call_escalate := server_escalate;
     call_gpu := server_gpu;
     has_gpu := server_has_gpu;
     inf_vocab := vocab;
     inf_wf := server_ok |}.
Next Obligation. exact Hvocab. Qed.
Next Obligation. intros [[c gpu] i] (r & Hs & _ & Hg). done. Qed.
Next Obligation.
  intros [[c gpu] i] tokens n r (Hs & Hr & Hg) Hn Hm. unfold server_cpu.
  pose proof (server_request _ _ _ Hs Hn Hm) as Hreq. pose proof (sw_vocab _ Hs) as Hv.
  destruct (sw_model _ Hs) as [_ [Hh _] [Hd _] _ _ _ _].
  destruct (infer_cpu_total mem bd g (envs i) c tokens n r Hreq (Henvs i)
    (mapped_le _ _ _ _ Hh Hd Hm (sw_mapped _ Hs)))
    as (rc & r' & idx' & -> & Hi & Ha & Hr' & Hrc); [by rewrite Hv|].
  rewrite Hv in Hr', Hrc. cbn. split; [split; [by apply server_with_idx|done]|]. split; [done|].
  destruct Hrc as [?|(? & lg & ? & ?)]; [by left|right]. split; [done|]. exists lg. split; [done|lia].
Qed.
Next Obligation.
  intros [[c [x|]] i] tokens n r (Hs & Hr & Hg) Hhas Hn Hm; [|done]. unfold server_escalate.
  destruct (gpu_envs i) as [[fuel comp] ok]. cbn [kllm_infer_gpu_escalate].
  destruct (Z.eqb_spec n 0); [lia|].
  destruct (kllm_infer_gpu fuel comp ok (Some x) tokens n r) as [[rc r']| |] eqn:Hrun; cbn; [|done..].
  destruct (gpu_leaves _ _ _ _ _ _ _ _ _ Hg Hr Hrun) as [? ?]. done.
Qed.
Next Obligation.
  intros [[c [x|]] i] tokens n r (Hs & Hr & Hg) Hhas Hn Hm; [|done]. unfold server_gpu.
  destruct (gpu_envs i) as [[fuel comp] ok].
  destruct (kllm_infer_gpu fuel comp ok (Some x) tokens n r) as [[rc r']| |] eqn:Hrun; cbn; [|done..].
  destruct (gpu_leaves _ _ _ _ _ _ _ _ _ Hg Hr Hrun) as [? ?]. done.
Qed.

End server.

(** ** A server *)

#[local] Existing Instance linux_kernel_lib.
#[local] Existing Instance demo_sha.
#[local] Existing Instance demo_libm.
#[local] Existing Instance demo_avx512.

(** An empty cache over memory full of ones, blocks of the longest sequence. *)
Definition demo_server : kllm_infer_cpu_ctx kllm_arena :=
  InferCpuCtx demo_index (ModelConfig 1 1 2 32768) None None None None None 5.

Lemma demo_clock : forall i : Z, clock_ok demo_cpu_env.
Proof.
  intros _ layer. unfold demo_cpu_env, clock, UINT64_MAX. pose proof (Z.mod_pos_bound layer 2). lia.
Qed.

Lemma demo_server_wf : server_wf (fun _ => Some 0x3F80) 5 demo_server.
Proof.
  split; try done.
  - apply demo_index_ok.
  - intros slot block _. exists (fun _ _ => 0x3F80), (fun _ _ => 0x3F80).
    intros layer _. by split.
Qed.

Lemma demo_vocab : 1 <= 5 <= 2 ^ 31.
Proof. lia. Qed.

#[local] Existing Instance demo_backends.

(** No call on the GPU is ever made: there is none. *)
#[local] Instance demo_inference : Inference (server (A := kllm_arena)) :=
  server_inference (fun _ => Some 0x3F80) (Build false false) ISA_NONE 5 (fun _ => demo_cpu_env)
    demo_clock (fun _ => (O, demo_comp, false)) demo_vocab.

Definition demo_state : server (A := kllm_arena) := (demo_server, None, 0).

Lemma demo_state_ok : exists r, inf_wf demo_state r.
Proof. exists (InferResult None 0 0). split; [exact demo_server_wf|]. split; exact I. Qed.

Definition demo_decode : kllm_decode_ctx (server (A := kllm_arena)) :=
  DecodeCtx demo_state (DispatchCtx (DispatchConfig 512 f32_0_8 64)
    (DispatchState 0 0 0 0 0 0)) (resp_dev 4).

Definition demo_decode_params : kllm_decode_params :=
  DecodeParams 10 2 KLLM_SAMPLE_GREEDY f32_one 0 f32_one.

Definition demo_steps (i : Z) : step_env := StepEnv 0 0 (SampleEnv 0 true true true) (zeroed 256).

Lemma decode_run_ok_witness :
  exists toks why stats ctx',
    kllm_decode_run true demo_steps (Some demo_decode) (Some [1; 2]) 2 (Some demo_decode_params)
      = Done (len toks, Some stats, Some ctx') /\
    answered demo_steps demo_decode [1; 2] 2 demo_decode_params toks why /\
    resp_contents (dc_dev ctx') = resp_push (resp_mask (resp_dev 4))
      (resp_contents (resp_dev 4)) (toks ++ [EOS_SENTINEL]).
Proof.
  destruct (decode_run_ok demo_steps demo_decode [1; 2] 2 demo_decode_params) as (_ & _ & Hrun).
  - exact demo_state_ok.
  - apply resp_dev_wf. lia.
  - simpl. lia.
  - simpl. lia.
  - simpl. lia.
  - reflexivity.
  - destruct (kllm_decode_run true demo_steps (Some demo_decode) (Some [1; 2]) 2 (Some demo_decode_params))
      as [[[n stats] ctx']| |].
    + destruct Hrun as (toks & why & st & c & Hans & -> & -> & -> & _ & _ & Hc & _).
      exists toks, why, st, c. split; [reflexivity|]. split; [exact Hans|exact Hc].
    + discriminate Hrun.
    + discriminate Hrun.
Defined.
