(* ===== verification/Scheduler.v ===== *)
(** * The continuous batching scheduler

    Models [userspace/reactor/batch_scheduler.c]: a fixed pool of request slots,
    the two queues rebuilt in every iteration, prefill within a token budget,
    one decode step per request of the batch, and the retirement of finished
    requests.  Inference is the class [Inference] of [Decode.v]; all response
    paths end in the one device.

    The specification of an iteration ([iteration]) runs the inference of each
    request of the batch on the requests alone ([decode_batch]) and says what the
    client gets of each outcome ([words]).  The file proves that an iteration on a
    well-formed pool stays within its arrays, keeps the pool well-formed and
    offers the device exactly the words of the specification, and that it
    terminates unless a call on the GPU does not; that a submission fills a free
    slot; and that a
    scheduler as [kllm_batch_create] leaves it accepts no request, ever: the
    zeroed slots are in the phase [KLLM_PHASE_PREFILL], and only slots in the
    phase [KLLM_PHASE_DONE] are free. *)

From Stdlib Require Import ZArith Lia SpecFloat.
From stdpp Require Import base numbers list gmap.
From S2P Require Import Prelude Floats TokenRing Chardev BlockFormat Arena CacheIndex Dispatch Response Wavefront Gpu InferGpu Attention InferCpu Sampling Decode.

#[local] Open Scope Z_scope.

(** ** Data *)

Definition KLLM_MAX_BATCH_SIZE : Z := 256.
Definition KLLM_MAX_SEQ_LEN : Z := 32768.

Inductive kllm_request_phase : Type := KLLM_PHASE_PREFILL | KLLM_PHASE_DECODE | KLLM_PHASE_DONE.

#[export] Instance phase_eq_dec : EqDecision kllm_request_phase.
Proof. solve_decision. Defined.

(** [response] is the handle of a response context, 0 for null. *)
Record kllm_request : Type := Request {
  request_id : Z;
  phase : kllm_request_phase;
  target : kllm_dispatch_target;
  tokens : option (list Z);
  prompt_len : Z;
  rq_seq_len : Z;
  arrival_ns : Z;
  last_step_ns : Z;
  priority : Z;
  preempted : bool;
  response : Z;
}.

Record kllm_batch_config : Type := BatchConfig {
  max_batch_size : Z;
  prefill_budget : Z;
  cfg_max_requests : Z;
  cfg_eos_token_id : Z;
}.

Record kllm_batch_stats : Type := BatchStats {
  bs_total_requests : Z;
  completed_requests : Z;
  preemptions : Z;
  total_tokens_generated : Z;
  batch_iterations : Z;
  current_batch_size : Z;
  current_prefill_queue : Z;
  current_decode_queue : Z;
}.

(** [infer] stands for the contexts of the two inference paths, [dev] for the
    device behind the response contexts. *)
Record kllm_batch_scheduler (St : Type) : Type := Scheduler {
  cfg : kllm_batch_config;
  infer : St;
  dispatch : kllm_dispatch_ctx;
  requests : list kllm_request;
  max_requests : Z;
  active_count : Z;
  next_request_id : Z;
  prefill_queue : list Z;
  prefill_count : Z;
  decode_queue : list Z;
  decode_count : Z;
  bstats : kllm_batch_stats;
  dev : kllm_device;
}.

Arguments Scheduler {St}.
Arguments cfg {St}.
Arguments infer {St}.
Arguments dispatch {St}.
Arguments requests {St}.
Arguments max_requests {St}.
Arguments active_count {St}.
Arguments next_request_id {St}.
Arguments prefill_queue {St}.
Arguments prefill_count {St}.
Arguments decode_queue {St}.
Arguments decode_count {St}.
Arguments bstats {St}.
Arguments dev {St}.

(** A zeroed slot. *)
Definition request0 : kllm_request :=
  Request 0 KLLM_PHASE_PREFILL KLLM_TARGET_CPU None 0 0 0 0 0 false 0.

Definition with_phase (r : kllm_request) (p : kllm_request_phase) : kllm_request :=
  Request (request_id r) p (target r) (tokens r) (prompt_len r) (rq_seq_len r) (arrival_ns r)
    (last_step_ns r) (priority r) (preempted r) (response r).

Definition with_target (r : kllm_request) (t : kllm_dispatch_target) : kllm_request :=
  Request (request_id r) (phase r) t (tokens r) (prompt_len r) (rq_seq_len r) (arrival_ns r)
    (last_step_ns r) (priority r) (preempted r) (response r).

Definition with_step (r : kllm_request) (ns : Z) : kllm_request :=
  Request (request_id r) (phase r) (target r) (tokens r) (prompt_len r) (rq_seq_len r)
    (arrival_ns r) ns (priority r) (preempted r) (response r).

Definition with_token (r : kllm_request) (toks : list Z) (n : Z) : kllm_request :=
  Request (request_id r) (phase r) (target r) (Some toks) (prompt_len r) n (arrival_ns r)
    (last_step_ns r) (priority r) (preempted r) (response r).

Definition retired (r : kllm_request) : kllm_request :=
  Request 0 (phase r) (target r) None (prompt_len r) (rq_seq_len r) (arrival_ns r)
    (last_step_ns r) (priority r) (preempted r) (response r).

Definition count_completed (s : kllm_batch_stats) : kllm_batch_stats :=
  BatchStats (bs_total_requests s) (u64 (completed_requests s + 1)) (preemptions s)
    (total_tokens_generated s) (batch_iterations s) (current_batch_size s)
    (current_prefill_queue s) (current_decode_queue s).

Definition count_token (s : kllm_batch_stats) : kllm_batch_stats :=
  BatchStats (bs_total_requests s) (completed_requests s) (preemptions s)
    (u64 (total_tokens_generated s + 1)) (batch_iterations s) (current_batch_size s)
    (current_prefill_queue s) (current_decode_queue s).

Section setters.
Context {St : Type}.
Implicit Types (s : kllm_batch_scheduler St).

Definition set_requests s (rs : list kllm_request) : kllm_batch_scheduler St :=
  Scheduler (cfg s) (infer s) (dispatch s) rs (max_requests s) (active_count s)
    (next_request_id s) (prefill_queue s) (prefill_count s) (decode_queue s) (decode_count s)
    (bstats s) (dev s).

Definition set_stats s (st : kllm_batch_stats) : kllm_batch_scheduler St :=
  Scheduler (cfg s) (infer s) (dispatch s) (requests s) (max_requests s) (active_count s)
    (next_request_id s) (prefill_queue s) (prefill_count s) (decode_queue s) (decode_count s)
    st (dev s).

Definition set_dispatch s (d : kllm_dispatch_ctx) : kllm_batch_scheduler St :=
  Scheduler (cfg s) (infer s) d (requests s) (max_requests s) (active_count s)
    (next_request_id s) (prefill_queue s) (prefill_count s) (decode_queue s) (decode_count s)
    (bstats s) (dev s).

Definition set_infer s (i : St) : kllm_batch_scheduler St :=
  Scheduler (cfg s) i (dispatch s) (requests s) (max_requests s) (active_count s)
    (next_request_id s) (prefill_queue s) (prefill_count s) (decode_queue s) (decode_count s)
    (bstats s) (dev s).

Definition set_dev s (d : kllm_device) : kllm_batch_scheduler St :=
  Scheduler (cfg s) (infer s) (dispatch s) (requests s) (max_requests s) (active_count s)
    (next_request_id s) (prefill_queue s) (prefill_count s) (decode_queue s) (decode_count s)
    (bstats s) d.

Definition set_active s (n : Z) : kllm_batch_scheduler St :=
  Scheduler (cfg s) (infer s) (dispatch s) (requests s) (max_requests s) n
    (next_request_id s) (prefill_queue s) (prefill_count s) (decode_queue s) (decode_count s)
    (bstats s) (dev s).

Definition set_queues s (pq : list Z) (pc : Z) (dq : list Z) (dc : Z) : kllm_batch_scheduler St :=
  Scheduler (cfg s) (infer s) (dispatch s) (requests s) (max_requests s) (active_count s)
    (next_request_id s) pq pc dq dc (bstats s) (dev s).

End setters.

(** ** Operations *)

Section operations.
Context {St : Type} {INF : Inference St} `{KL : KernelLib}.
Abbreviation sched := (kllm_batch_scheduler St).

(** [callocs] tell whether the scheduler, the slots and the two queues are
    allocated. *)
Definition kllm_batch_create (calloc_s calloc_r calloc_p calloc_d : bool)
    (c : kllm_batch_config) (inf : St) (disp : kllm_dispatch_ctx) (d : kllm_device)
    : option sched :=
  if negb calloc_s then None
  else if negb calloc_r || negb calloc_p || negb calloc_d then None
  else Some (Scheduler c inf disp (replicate (Z.to_nat (cfg_max_requests c)) request0)
    (cfg_max_requests c) 0 1 (zeroed (cfg_max_requests c)) 0 (zeroed (cfg_max_requests c)) 0
    (BatchStats 0 0 0 0 0 0 0 0) d).

(** The slot, and the slots after the second pass has cleared a completed
    one. *)
Definition find_free_slot (s : sched) : option (option Z * sched) :=
  res ← for_range 0 (max_requests s) (fun i _ =>
    r ← arr_get (requests s) i;
    if bool_decide (phase r = KLLM_PHASE_DONE) && (request_id r =? 0)
    then Some (Return i) else Some (Continue tt)) tt;
  match res with
  | inr i => Some (Some i, s)
  | inl _ =>
      res ← for_range 0 (max_requests s) (fun i _ =>
        r ← arr_get (requests s) i;
        if bool_decide (phase r = KLLM_PHASE_DONE) then
          rs ← arr_set (requests s) i request0; Some (Return (i, rs))
        else Some (Continue tt)) tt;
      match res with
      | inr (i, rs) => Some (Some i, set_requests s rs)
      | inl _ => Some (None, s)
      end
  end.

Definition kllm_batch_submit (calloc_ok : bool) (now : Z) (s : sched) (prompt_tokens : list Z)
    (plen : Z) (resp : Z) : option (Z * sched) :=
  if max_requests s <=? active_count s then Some (0, s)
  else
    '(slot, s) ← find_free_slot s;
    match slot with
    | None => Some (0, s)
    | Some i =>
        r ← arr_get (requests s) i;
        if negb calloc_ok then
          rs ← arr_set (requests s) i (Request (request_id r) (phase r) (target r) None
            (prompt_len r) (rq_seq_len r) (arrival_ns r) (last_step_ns r) (priority r)
            (preempted r) (response r));
          Some (0, set_requests s rs)
        else
          part ← arr_slice prompt_tokens 0 plen;
          if KLLM_MAX_SEQ_LEN <? plen then None
          else
            let toks := part ++ drop (Z.to_nat plen) (zeroed KLLM_MAX_SEQ_LEN) in
            rs ← arr_set (requests s) i (Request (next_request_id s) KLLM_PHASE_PREFILL (target r)
              (Some toks) plen plen now (last_step_ns r) (priority r) false resp);
            let st := bstats s in
            Some (next_request_id s, Scheduler (cfg s) (infer s) (dispatch s) rs (max_requests s)
              (u32 (active_count s + 1)) (u32 (next_request_id s + 1)) (prefill_queue s)
              (prefill_count s) (decode_queue s) (decode_count s)
              (BatchStats (u64 (bs_total_requests st + 1)) (completed_requests st)
                (preemptions st) (total_tokens_generated st) (batch_iterations st)
                (current_batch_size st) (current_prefill_queue st) (current_decode_queue st))
              (dev s))
    end.

(** The state of the loop is the two queues with their counts. *)
Definition rebuild_queues (s : sched) : option sched :=
  res ← for_range (R := unit) 0 (max_requests s) (fun i '(pq, pc, dq, dc) =>
    r ← arr_get (requests s) i;
    if (request_id r =? 0) || bool_decide (phase r = KLLM_PHASE_DONE)
    then Some (Continue (pq, pc, dq, dc))
    else
      match phase r with
      | KLLM_PHASE_PREFILL => pq' ← arr_set pq pc i; Some (Continue (pq', u32 (pc + 1), dq, dc))
      | KLLM_PHASE_DECODE => dq' ← arr_set dq dc i; Some (Continue (pq, pc, dq', u32 (dc + 1)))
      | KLLM_PHASE_DONE => Some (Continue (pq, pc, dq, dc))
      end) (prefill_queue s, 0, decode_queue s, 0);
  match res with
  | inl (pq, pc, dq, dc) => Some (set_queues s pq pc dq dc)
  | inr _ => None
  end.

(** The hash of the prompt is computed and not used: only its bounds matter. *)
Definition run_prefill (s : sched) (i : Z) : option sched :=
  r ← arr_get (requests s) i;
  toks ← tokens r;
  _ ← arr_slice toks 0 (prompt_len r);
  let '(t, d) := kllm_dispatch_decide (dispatch s) (rq_seq_len r) true in
  rs ← arr_set (requests s) i (with_phase (with_target r t) KLLM_PHASE_DECODE);
  Some (set_dispatch (set_requests s rs) d).

(** The inference of a decode step, on the path of the request; a request that
    the CPU path fails on moves to the GPU. *)
Definition request_infer (st : St) (r : kllm_request) (toks : list Z)
    : exec (Z * kllm_infer_result * St * kllm_dispatch_target) :=
  let result := InferResult None 0 0 in
  match target r with
  | KLLM_TARGET_CPU =>
      exec_bind (call_cpu st toks (rq_seq_len r) result) (fun '(rc, result, st) =>
      if (rc <? 0) && has_gpu st then
        exec_bind (call_escalate st toks (rq_seq_len r) result) (fun '(rc, result, st) =>
        Done (rc, result, st, KLLM_TARGET_GPU))
      else Done (rc, result, st, KLLM_TARGET_CPU))
  | KLLM_TARGET_GPU =>
      if negb (has_gpu st) then Done (-1, result, st, KLLM_TARGET_GPU)
      else exec_bind (call_gpu st toks (rq_seq_len r) result) (fun '(rc, result, st) =>
        Done (rc, result, st, KLLM_TARGET_GPU))
  end.

(** [now] is the clock, [stack] the unused part of the emit command. *)
Definition run_decode_step (now : Z) (stack : list Z) (s : sched) (i : Z) : exec (Z * sched) :=
  exec_bind (exec_of (arr_get (requests s) i)) (fun r =>
  exec_bind (exec_of (tokens r)) (fun toks =>
  let put (s : sched) (r : kllm_request) : exec sched :=
    exec_bind (exec_of (arr_set (requests s) i r)) (fun rs => Done (set_requests s rs)) in
  exec_bind (request_infer (infer s) r toks) (fun '(rc, result, st, t) =>
  let r := with_target r t in
  let s := set_infer s st in
  if rc <? 0 then
    exec_bind (put s (with_phase r KLLM_PHASE_DONE)) (fun s => Done (-1, s))
  else
    let t := next_token result in
    if t =? cfg_eos_token_id (cfg s) then
      exec_bind (exec_of (kllm_response_eos (dev s))) (fun '(_, d) =>
      exec_bind (put (set_dev s d) (with_phase r KLLM_PHASE_DONE)) (fun s =>
      Done (0, set_stats s (count_completed (bstats s)))))
    else
      exec_bind (exec_of (kllm_response_emit_one (dev s) stack t)) (fun '(_, d) =>
      let s := set_dev s d in
      exec_bind
        (if rq_seq_len r <? KLLM_MAX_SEQ_LEN then
           exec_bind (exec_of (arr_set toks (rq_seq_len r) t)) (fun toks' =>
           put s (with_step (with_token r toks' (u32 (rq_seq_len r + 1))) now))
         else
           exec_bind (exec_of (kllm_response_eos (dev s))) (fun '(_, d) =>
           exec_bind (put (set_dev s d) (with_step (with_phase r KLLM_PHASE_DONE) now)) (fun s =>
           Done (set_stats s (count_completed (bstats s)))))) (fun s =>
      Done (1, set_stats s (count_token (bstats s)))))))).

(** The prefills of an iteration, within the budget. *)
Definition prefill_phase (s : sched) : option sched :=
  res ← for_range (R := unit) 0 (prefill_count s) (fun i '(s, spent) =>
    j ← arr_get (prefill_queue s) i;
    r ← arr_get (requests s) j;
    if prefill_budget (cfg s) <? u32 (spent + prompt_len r) then Some (Break (s, spent))
    else s' ← run_prefill s j; Some (Continue (s', u32 (spent + prompt_len r)))) (s, 0);
  match res with inl (s, _) => Some s | inr _ => None end.

(** The decode steps [i], ..., [i + n - 1] of the batch. *)
Fixpoint decode_phase (n : nat) (env : Z -> Z * list Z) (i : Z) (s : sched) (generated : Z)
    : exec (Z * sched) :=
  match n with
  | O => Done (generated, s)
  | S n' =>
      exec_bind (exec_of (arr_get (decode_queue s) i)) (fun j =>
      exec_bind (run_decode_step (fst (env i)) (snd (env i)) s j) (fun '(rc, s) =>
      decode_phase n' env (i + 1) s (if 0 <? rc then generated + rc else generated)))
  end.

Definition retire_phase (s : sched) : option sched :=
  res ← for_range (R := unit) 0 (max_requests s) (fun i '(rs, active) =>
    r ← arr_get rs i;
    if bool_decide (phase r = KLLM_PHASE_DONE) && negb (request_id r =? 0) then
      rs' ← arr_set rs i (retired r); Some (Continue (rs', u32 (active - 1)))
    else Some (Continue (rs, active))) (requests s, active_count s);
  match res with
  | inl (rs, active) => Some (set_active (set_requests s rs) active)
  | inr _ => None
  end.

(** Returns the number of tokens generated in this iteration. *)
Definition kllm_batch_step (env : Z -> Z * list Z) (s : sched) : exec (Z * sched) :=
  exec_bind (exec_of (rebuild_queues s)) (fun s =>
  let st := bstats s in
  let s := set_stats s (BatchStats (bs_total_requests st) (completed_requests st) (preemptions st)
    (total_tokens_generated st) (u64 (batch_iterations st + 1)) (current_batch_size st)
    (prefill_count s) (decode_count s)) in
  exec_bind (exec_of (prefill_phase s)) (fun s =>
  exec_bind (exec_of (rebuild_queues s)) (fun s =>
  let batch_limit := if decode_count s <? max_batch_size (cfg s) then decode_count s
                     else max_batch_size (cfg s) in
  let st := bstats s in
  let s := set_stats s (BatchStats (bs_total_requests st) (completed_requests st) (preemptions st)
    (total_tokens_generated st) (batch_iterations st) batch_limit
    (current_prefill_queue st) (current_decode_queue st)) in
  exec_bind (decode_phase (Z.to_nat batch_limit) env 0 s 0) (fun '(n, s) =>
  exec_bind (exec_of (retire_phase s)) (fun s => Done (n, s)))))).

Definition kllm_batch_idle (s : sched) : bool := active_count s =? 0.

Definition kllm_batch_get_stats (s : sched) : kllm_batch_stats := bstats s.

End operations.

(** ** Specification *)

Definition live (r : kllm_request) : Prop := request_id r <> 0.

#[export] Instance live_dec r : Decision (live r).
Proof. unfold live. apply _. Defined.

Definition live_count (rs : list kllm_request) : Z := len (filter live rs).

(** What a decode step makes of a request: the inference fails, the request ends,
    a token is emitted and appended, or emitted and the sequence is full. *)
Inductive outcome : Type :=
| Failed
| Ended
| Emitted (token : Z)
| Filled (token : Z).

Definition outcome_of (eos rc token seq_len : Z) : outcome :=
  if rc <? 0 then Failed
  else if token =? eos then Ended
  else if seq_len <? KLLM_MAX_SEQ_LEN then Emitted token
  else Filled token.

(** The words that the client gets of it. *)
Definition words (o : outcome) : list Z :=
  match o with
  | Failed => []
  | Ended => [EOS_SENTINEL]
  | Emitted t => [t]
  | Filled t => [t; EOS_SENTINEL]
  end.

Definition token_count (o : outcome) : Z :=
  match o with Failed | Ended => 0 | Emitted _ | Filled _ => 1 end.

Definition end_count (o : outcome) : Z :=
  match o with Failed | Emitted _ => 0 | Ended | Filled _ => 1 end.

Definition all_words (os : list outcome) : list Z := concat (words <$> os).

Definition tokens_in (os : list outcome) : Z := foldr (fun o n => token_count o + n) 0 os.

Definition ends_in (os : list outcome) : Z := foldr (fun o n => end_count o + n) 0 os.

(** The request afterwards. *)
Definition after_step (now : Z) (toks : list Z) (r : kllm_request) (o : outcome) : kllm_request :=
  match o with
  | Failed | Ended => with_phase r KLLM_PHASE_DONE
  | Emitted t => with_step (with_token r (<[Z.to_nat (rq_seq_len r) := t]> toks) (rq_seq_len r + 1)) now
  | Filled _ => with_step (with_phase r KLLM_PHASE_DONE) now
  end.

(** A request in a slot has its tokens, and room for them; a slot without a
    request has no buffer. *)
Definition slot_wf (r : kllm_request) : Prop :=
  (live r -> exists toks, tokens r = Some toks /\ len toks = KLLM_MAX_SEQ_LEN /\
    1 <= prompt_len r <= rq_seq_len r /\ rq_seq_len r <= KLLM_MAX_SEQ_LEN) /\
  (~ live r -> tokens r = None).

(** The slots of the live requests in a phase, in order. *)
Definition in_phase (ph : kllm_request_phase) (rs : list kllm_request) (i : Z) : Prop :=
  match rs !! Z.to_nat i with
  | Some r => live r /\ phase r = ph
  | None => False
  end.

#[export] Instance in_phase_dec ph rs i : Decision (in_phase ph rs i).
Proof. unfold in_phase. destruct (rs !! Z.to_nat i); apply _. Defined.

Definition phase_slots (ph : kllm_request_phase) (rs : list kllm_request) : list Z :=
  filter (in_phase ph rs) (seqZ 0 (len rs)).

Section spec.
Context {St : Type} {INF : Inference St} `{KL : KernelLib}.

(** The decode steps of the slots [js] on the requests alone: each outcome is
    that of the inference on the tokens of its request. *)
Definition decode_one (eos now : Z) (st : St) (rs : list kllm_request) (j : Z)
    : exec (outcome * St * list kllm_request) :=
  exec_bind (exec_of (rs !! Z.to_nat j)) (fun r =>
  exec_bind (exec_of (tokens r)) (fun toks =>
  exec_bind (request_infer st r toks) (fun '(rc, result, st, t) =>
  let o := outcome_of eos rc (next_token result) (rq_seq_len r) in
  Done (o, st, <[Z.to_nat j := after_step now toks (with_target r t) o]> rs)))).

Fixpoint decode_batch (eos : Z) (env : Z -> Z * list Z) (i : Z) (st : St) (rs : list kllm_request)
    (js : list Z) : exec (list outcome * St * list kllm_request) :=
  match js with
  | [] => Done ([], st, rs)
  | j :: js =>
      exec_bind (decode_one eos (fst (env i)) st rs j) (fun '(o, st, rs) =>
      exec_bind (decode_batch eos env (i + 1) st rs js) (fun '(os, st, rs) =>
      Done (o :: os, st, rs)))
  end.

(** What holds throughout an iteration. *)
Record pool_wf (s : kllm_batch_scheduler St) : Prop := {
  pw_slots : len (requests s) = max_requests s;
  pw_bound : max_requests s < 2 ^ 32;
  pw_prefill : len (prefill_queue s) = max_requests s;
  pw_decode : len (decode_queue s) = max_requests s;
  pw_requests : Forall slot_wf (requests s);
  pw_active : active_count s = live_count (requests s);
  pw_infer : exists r, inf_wf (infer s) r;
  pw_resp : resp_wf (dev s);
}.

(** Between iterations no finished request is left. *)
Definition settled (s : kllm_batch_scheduler St) : Prop :=
  Forall (fun r => live r -> phase r <> KLLM_PHASE_DONE) (requests s).

(** The calls of a client. *)
Inductive batch_op : Type :=
| BSubmit (calloc_ok : bool) (now : Z) (prompt : list Z) (plen resp : Z)
| BStep (env : Z -> Z * list Z).

Definition batch_call (s : kllm_batch_scheduler St) (op : batch_op)
    : exec (Z * kllm_batch_scheduler St) :=
  match op with
  | BSubmit ok now prompt plen resp => exec_of (kllm_batch_submit ok now s prompt plen resp)
  | BStep env => kllm_batch_step env s
  end.

Fixpoint batch_run (s : kllm_batch_scheduler St) (ops : list batch_op)
    : exec (list Z * kllm_batch_scheduler St) :=
  match ops with
  | [] => Done ([], s)
  | op :: ops' =>
      exec_bind (batch_call s op) (fun '(r, s) =>
      exec_bind (batch_run s ops') (fun '(rs, s) => Done (r :: rs, s)))
  end.

(** ** A scheduler as it is created *)

Record fresh (s : kllm_batch_scheduler St) : Prop := {
  fr_slots : Forall (fun r => request_id r = 0 /\ phase r = KLLM_PHASE_PREFILL) (requests s);
  fr_len : len (requests s) = max_requests s;
  fr_active : active_count s = 0;
  fr_batch : 0 <= max_batch_size (cfg s);
}.

Lemma fresh_slot s i :
  fresh s -> 0 <= i < max_requests s ->
  exists r, arr_get (requests s) i = Some r /\ request_id r = 0 /\ phase r = KLLM_PHASE_PREFILL.
Proof.
  intros [Hs Hl _ _] Hi. destruct (lookup_lt_is_Some_2 (requests s) (Z.to_nat i)) as [r Hr]; [lia|].
  exists r. rewrite arr_get_lookup by lia. split; [done|]. by rewrite Forall_lookup in Hs; eapply Hs.
Qed.

(** A loop over the slots that leaves every fresh slot alone. *)
Lemma fresh_loop {S R} s (body : Z -> S -> option (ctl S R)) (x : S) :
  fresh s -> (forall i x, 0 <= i < max_requests s -> body i x = Some (Continue x)) ->
  for_range 0 (max_requests s) body x = Some (inl x).
Proof.
  intros Hf Hb. destruct (for_range_rule (R := R) (fun _ y => y = x)
    (fun o => o = inl x) body 0 (max_requests s) x) as (o & -> & ->); try done.
  - pose proof (fr_len _ Hf). lia.
  - intros i y Hi ->. eexists. split; [by apply Hb|]. done.
  - by intros y ->.
Qed.

Lemma fresh_submit ok now s prompt plen resp :
  fresh s -> kllm_batch_submit ok now s prompt plen resp = Some (0, s).
Proof.
  intros Hf. unfold kllm_batch_submit. destruct (_ <=? _); [done|].
  assert (find_free_slot s = Some (None, s)) as ->; [|done].
  unfold find_free_slot. rewrite (fresh_loop s); [|done|]; cbn [mbind option_bind].
  - rewrite (fresh_loop s); [done|done|]. intros i [] Hi.
    destruct (fresh_slot s i Hf Hi) as (r & -> & _ & Hp). cbn [mbind option_bind]. by rewrite Hp.
  - intros i [] Hi. destruct (fresh_slot s i Hf Hi) as (r & -> & _ & Hp).
    cbn [mbind option_bind]. by rewrite Hp.
Qed.

Lemma fresh_queues s :
  fresh s -> rebuild_queues s = Some (set_queues s (prefill_queue s) 0 (decode_queue s) 0).
Proof.
  intros Hf. unfold rebuild_queues. rewrite (fresh_loop s); [done|done|].
  intros i [[[pq pc] dq] dc] Hi. destruct (fresh_slot s i Hf Hi) as (r & -> & Hid & _).
  cbn [mbind option_bind]. by rewrite Hid.
Qed.

Lemma fresh_step env s :
  fresh s -> exists s', kllm_batch_step env s = Done (0, s') /\ fresh s' /\ dev s' = dev s.
Proof.
  intros Hf. unfold kllm_batch_step. rewrite (fresh_queues s Hf). cbn [exec_of exec_bind].
  set (s1 := set_stats _ _). assert (fresh s1) as Hf1 by (destruct Hf; by split).
  assert (prefill_phase s1 = Some s1) as ->.
  { unfold prefill_phase. by rewrite for_range_empty. }
  cbn [exec_of exec_bind]. rewrite (fresh_queues s1 Hf1). cbn [exec_of exec_bind].
  change (decode_count (set_queues s1 _ _ _ 0)) with 0.
  change (cfg (set_queues s1 _ _ _ _)) with (cfg s).
  replace (if 0 <? max_batch_size (cfg s) then 0 else max_batch_size (cfg s)) with 0
    by (destruct Hf as [_ _ _ Hb]; case_cond; lia).
  set (s2 := set_stats _ _). assert (fresh s2) as Hf2 by (destruct Hf; by split).
  change (Z.to_nat 0) with O. cbn [decode_phase exec_bind].
  assert (retire_phase s2 = Some (set_active (set_requests s2 (requests s2)) (active_count s2))) as ->.
  { unfold retire_phase. change (max_requests s2) with (max_requests s).
    edestruct (for_range_rule (R := unit) (fun _ y => y = (requests s2, active_count s2))
      (fun o => o = inl (requests s2, active_count s2))) as (o & -> & ->).
    - pose proof (fr_len _ Hf). lia.
    - done.
    - intros i y Hi ->. destruct (fresh_slot s2 i Hf2 Hi) as (r & -> & Hid & Hp).
      cbn [mbind option_bind]. rewrite Hid, andb_false_r. by eexists.
    - by intros y ->.
    - done. }
  cbn [exec_of exec_bind]. eexists. split; [done|]. split; [|done]. destruct Hf; by split.
Qed.

End spec.

(** ** Lemmas on the pool *)

Lemma live_count_set rs i r r' :
  rs !! i = Some r ->
  live_count (<[i := r']> rs) = live_count rs - (if decide (live r) then 1 else 0)
    + (if decide (live r') then 1 else 0).
Proof.
  intros Hr. pose proof (lookup_lt_Some _ _ _ Hr). unfold live_count.
  rewrite insert_take_drop by done. rewrite <- (take_drop_middle rs i r Hr) at 3.
  rewrite !filter_app, !filter_cons, !length_app.
  destruct (decide (live r)), (decide (live r')); simpl; lia.
Qed.

(** *** The work that is left

    How many more iterations a request can take: one for its prefill, one for
    each place left in its sequence, one to notice that none is left, and one. *)
Definition work (r : kllm_request) : Z :=
  if decide (live r) then
    match phase r with
    | KLLM_PHASE_PREFILL => KLLM_MAX_SEQ_LEN - rq_seq_len r + 3
    | KLLM_PHASE_DECODE => KLLM_MAX_SEQ_LEN - rq_seq_len r + 2
    | KLLM_PHASE_DONE => 0
    end
  else 0.

Definition pool_work (rs : list kllm_request) : Z := foldr (fun r n => work r + n) 0 rs.

(** A slot whose request has not moved backwards. *)
Definition advanced (r r' : kllm_request) : Prop :=
  (live r' -> live r) /\ prompt_len r' = prompt_len r /\ work r' <= work r.

#[local] Instance advanced_preorder : PreOrder advanced.
Proof.
  split; [by intros r|]. intros r1 r2 r3 (H1 & H2 & H3) (K1 & K2 & K3).
  split; [auto|]. split; [congruence|lia].
Qed.

Lemma advanced_list_refl rs : Forall2 advanced rs rs.
Proof. reflexivity. Qed.

Lemma advanced_list_trans rs1 rs2 rs3 :
  Forall2 advanced rs1 rs2 -> Forall2 advanced rs2 rs3 -> Forall2 advanced rs1 rs3.
Proof. intros H1 H2. by transitivity rs2. Qed.

Lemma pool_work_le rs rs' : Forall2 advanced rs rs' -> pool_work rs' <= pool_work rs.
Proof. induction 1 as [|r r' rs rs' (_ & _ & Hw) _ IH]; [done|]. cbn. unfold pool_work in IH. lia. Qed.

Lemma pool_work_set rs i r r' :
  rs !! i = Some r -> pool_work (<[i := r']> rs) = pool_work rs - work r + work r'.
Proof.
  revert i. induction rs as [|x rs IH]; intros [|i] Hr; simplify_eq/=; [lia|].
  specialize (IH i Hr). lia.
Qed.

Lemma advanced_set rs i r r' :
  rs !! i = Some r -> advanced r r' -> Forall2 advanced rs (<[i := r']> rs).
Proof.
  intros Hr Ha. rewrite <- (list_insert_id rs i r Hr) at 1. by apply Forall2_insert.
Qed.

Lemma phase_slots_elem ph rs i :
  i ∈ phase_slots ph rs <->
  0 <= i < len rs /\ exists r, rs !! Z.to_nat i = Some r /\ live r /\ phase r = ph.
Proof.
  unfold phase_slots. rewrite list_elem_of_filter, elem_of_seqZ. unfold in_phase.
  destruct (rs !! Z.to_nat i) as [r|].
  - split; [intros [[? ?] ?]; split; [lia|by exists r]|].
    intros (? & r' & ? & ? & ?). simplify_eq. split; [done|lia].
  - split; [by intros [? _]|]. by intros (? & r' & ? & _).
Qed.

Lemma phase_slots_length ph rs : len (phase_slots ph rs) <= len rs.
Proof.
  unfold phase_slots. pose proof (length_filter (in_phase ph rs) (seqZ 0 (len rs))) as Hl.
  rewrite length_seqZ in Hl. lia.
Qed.

(** Filtering the slots up to the next one. *)
Lemma filter_slots_S ph rs i r :
  0 <= i -> rs !! Z.to_nat i = Some r ->
  filter (in_phase ph rs) (seqZ 0 (i + 1)) = filter (in_phase ph rs) (seqZ 0 i) ++
    (if decide (live r /\ phase r = ph) then [i] else []).
Proof.
  intros Hi Hr. rewrite seqZ_app, filter_app by lia. f_equal.
  assert (seqZ (0 + i) 1 = [i]) as -> by (cbn; f_equal; lia).
  rewrite filter_cons, filter_nil.
  assert (in_phase ph rs i <-> live r /\ phase r = ph) as Hiff by (unfold in_phase; by rewrite Hr).
  by repeat case_decide; naive_solver.
Qed.

Section pool.
Context {St : Type} {INF : Inference St} `{KL : KernelLib}.
Implicit Types (s : kllm_batch_scheduler St).

(** The queues hold the slots of the two phases. *)
Definition queues_ok s : Prop :=
  prefill_count s = len (phase_slots KLLM_PHASE_PREFILL (requests s)) /\
  take (Z.to_nat (prefill_count s)) (prefill_queue s) =
    phase_slots KLLM_PHASE_PREFILL (requests s) /\
  decode_count s = len (phase_slots KLLM_PHASE_DECODE (requests s)) /\
  take (Z.to_nat (decode_count s)) (decode_queue s) = phase_slots KLLM_PHASE_DECODE (requests s).

(** Appending to the used part of a queue. *)
Lemma queue_push (q : list Z) (used : list Z) x n :
  take (length used) q = used -> len used < n -> n = len q -> n < 2 ^ 32 ->
  exists q', arr_set q (len used) x = Some q' /\ length q' = length q /\
    take (length (used ++ [x])) q' = used ++ [x] /\ wrap 32 (len used + 1) = len (used ++ [x]).
Proof.
  intros Ht Hl Hn Hb. rewrite arr_set_in by lia. eexists. split; [done|].
  rewrite length_insert, length_app, Nat2Z.id. simpl. split; [done|].
  replace (length used + 1)%nat with (S (length used)) by lia.
  rewrite (take_S_r _ _ x) by (apply list_lookup_insert_eq; lia).
  rewrite take_insert_ge, Ht by lia. split; [done|]. rewrite wrap_small by (unfold fits; lia). lia.
Qed.

Lemma rebuild_ok s :
  pool_wf s ->
  exists pq pc dq dc, rebuild_queues s = Some (set_queues s pq pc dq dc) /\
    pool_wf (set_queues s pq pc dq dc) /\ queues_ok (set_queues s pq pc dq dc).
Proof.
  intros Hwf. pose proof Hwf as [Hl Hb Hp Hd Hr Ha Hi Hresp]. unfold rebuild_queues.
  set (rs := requests s) in *. set (n := max_requests s) in *.
  set (P := fun ph i => filter (in_phase ph rs) (seqZ 0 i)).
  edestruct (for_range_rule (R := unit)
    (fun i (st : list Z * Z * list Z * Z) => let '(pq, pc, dq, dc) := st in
      len pq = n /\ len dq = n /\
      pc = len (P KLLM_PHASE_PREFILL i) /\ dc = len (P KLLM_PHASE_DECODE i) /\
      take (length (P KLLM_PHASE_PREFILL i)) pq = P KLLM_PHASE_PREFILL i /\
      take (length (P KLLM_PHASE_DECODE i)) dq = P KLLM_PHASE_DECODE i)
    (fun o => exists pq pc dq dc, o = inl (pq, pc, dq, dc) /\ len pq = n /\ len dq = n /\
      pc = len (P KLLM_PHASE_PREFILL n) /\ dc = len (P KLLM_PHASE_DECODE n) /\
      take (length (P KLLM_PHASE_PREFILL n)) pq = P KLLM_PHASE_PREFILL n /\
      take (length (P KLLM_PHASE_DECODE n)) dq = P KLLM_PHASE_DECODE n))
    as (o & -> & pq & pc & dq & dc & -> & H1 & H2 & H3 & H4 & H5 & H6).
  - lia.
  - by cbn.
  - intros i [[[pq pc] dq] dc] Hi' (H1 & H2 & -> & -> & H5 & H6).
    destruct (lookup_lt_is_Some_2 rs (Z.to_nat i)) as [r Hri]; [lia|].
    rewrite arr_get_lookup, Hri by lia. cbn [mbind option_bind].
    assert (forall ph, len (P ph i) <= i) as Hlen.
    { intros ph. unfold P. pose proof (length_filter (in_phase ph rs) (seqZ 0 i)) as Hle.
      rewrite length_seqZ in Hle. lia. }
    pose proof (fun ph => filter_slots_S ph rs i r ltac:(lia) Hri) as HS.
    fold (P KLLM_PHASE_PREFILL i) in HS.
    assert (forall ph, P ph (i + 1) = P ph i ++
      (if decide (live r /\ phase r = ph) then [i] else [])) as HP by done. clear HS.
    destruct (Z.eqb_spec (request_id r) 0) as [Hid|Hid]; cbn [orb].
    { eexists. split; [done|]. rewrite !HP. unfold live.
      rewrite !decide_False by naive_solver. rewrite !app_nil_r. done. }
    assert (forall ph, phase r = ph -> P ph (i + 1) = P ph i ++ [i]) as Hadd.
    { intros ph Hph. by rewrite HP, decide_True. }
    assert (forall ph, phase r <> ph -> P ph (i + 1) = P ph i) as Hskip.
    { intros ph Hph. rewrite HP, decide_False by naive_solver. apply app_nil_r. }
    destruct (phase r) eqn:Hph; cbn [bool_decide decide_rel phase_eq_dec].
    + destruct (queue_push pq _ i n H5) as (q & -> & Hq1 & Hq2 & Hq3);
        [specialize (Hlen KLLM_PHASE_PREFILL); lia|done|lia|].
      eexists. split; [done|]. cbv beta iota. rewrite Hadd, Hskip, Hq3 by done.
      split_and!; [congruence|done..].
    + destruct (queue_push dq _ i n H6) as (q & -> & Hq1 & Hq2 & Hq3);
        [specialize (Hlen KLLM_PHASE_DECODE); lia|done|lia|].
      eexists. split; [done|]. cbv beta iota.
      rewrite (Hadd KLLM_PHASE_DECODE), (Hskip KLLM_PHASE_PREFILL), Hq3 by done.
      split_and!; [done|congruence|done..].
    + eexists. split; [done|]. cbv beta iota. by rewrite !Hskip by done.
  - intros [[[pq pc] dq] dc] Hst. by exists pq, pc, dq, dc.
  - cbn [mbind option_bind]. exists pq, pc, dq, dc. split; [done|].
    split; [by destruct Hwf; split|]. subst pc dc. unfold P in *. rewrite <- Hl in *.
    repeat split; cbn; rewrite ?Nat2Z.id; done.
Qed.

(** Writing a slot back. *)
Lemma pool_set s i r r' :
  pool_wf s -> requests s !! i = Some r -> slot_wf r' -> (live r' <-> live r) ->
  pool_wf (set_requests s (<[i := r']> (requests s))).
Proof.
  intros [Hl Hb Hp Hd Hr Ha Hi Hresp] Hri Hw Hlive. split; cbn; try done.
  - by rewrite length_insert.
  - by apply Forall_insert.
  - rewrite (live_count_set _ _ r) by done. repeat case_decide; lia || naive_solver.
Qed.

Lemma run_prefill_ok s i r :
  pool_wf s -> 0 <= i -> requests s !! Z.to_nat i = Some r -> live r ->
  exists t d, let s' := set_dispatch (set_requests s
      (<[Z.to_nat i := with_phase (with_target r t) KLLM_PHASE_DECODE]> (requests s))) d in
    run_prefill s i = Some s' /\ pool_wf s'.
Proof.
  intros Hwf Hi Hr Hl. pose proof (pw_requests _ Hwf) as Hall.
  rewrite Forall_lookup in Hall. pose proof (Hall _ _ Hr) as Hslot.
  destruct (proj1 Hslot Hl) as (toks & Ht & Hlen & Hp & Hsq).
  unfold run_prefill. rewrite arr_get_lookup, Hr by done. cbn [mbind option_bind]. rewrite Ht.
  cbn [mbind option_bind]. rewrite arr_slice_in by lia. cbn [mbind option_bind].
  destruct (kllm_dispatch_decide (dispatch s) (rq_seq_len r) true) as [t d].
  rewrite arr_set_in by (apply lookup_lt_Some in Hr; lia). cbn [mbind option_bind].
  exists t, d. split; [done|].
  assert (pool_wf (set_requests s (<[Z.to_nat i := with_phase (with_target r t) KLLM_PHASE_DECODE]>
    (requests s)))) as Hwf' by (by apply (pool_set s (Z.to_nat i) r)).
  by destruct Hwf'; split.
Qed.

(** The number of prompts of the queue that fit the budget. *)
Fixpoint within_budget (budget spent : Z) (lens : list Z) : nat :=
  match lens with
  | [] => O
  | n :: ns => if budget <? spent + n then O else S (within_budget budget (spent + n) ns)
  end.

Definition prompt_lens (rs : list kllm_request) (q : list Z) : list Z :=
  (fun i => prompt_len (default request0 (rs !! Z.to_nat i))) <$> q.

(** The requests of the slots [q] moved on to decoding, the others as they
    were. *)
Definition moved (q : list Z) (rs rs' : list kllm_request) : Prop :=
  length rs' = length rs /\
  (forall i r, 0 <= i -> rs !! Z.to_nat i = Some r ->
    if decide (i ∈ q) then exists t, rs' !! Z.to_nat i =
      Some (with_phase (with_target r t) KLLM_PHASE_DECODE)
    else rs' !! Z.to_nat i = Some r).

Lemma moved_advanced q rs rs' :
  (forall i, i ∈ q -> i ∈ phase_slots KLLM_PHASE_PREFILL rs) -> moved q rs rs' ->
  Forall2 advanced rs rs'.
Proof.
  intros Hq [Hl Hm]. apply Forall2_same_length_lookup_2; [done|]. intros i r r' Hr Hr'.
  specialize (Hm (Z.of_nat i) r ltac:(lia)). rewrite Nat2Z.id in Hm. specialize (Hm Hr).
  case_decide as Hin; [|naive_solver]. destruct Hm as [t Hm].
  apply Hq, phase_slots_elem in Hin as (_ & r0 & Hr0 & Hlv & Hph).
  rewrite Nat2Z.id in Hr0. simplify_eq. split; [done|]. split; [done|]. unfold work.
  rewrite !decide_True by done. rewrite Hph. cbn. lia.
Qed.

Lemma phase_slots_NoDup ph rs : NoDup (phase_slots ph rs).
Proof. apply NoDup_filter, NoDup_seqZ. Qed.

(** One more request moves on. *)
Lemma moved_snoc q rs rs' j r t :
  moved q rs rs' -> 0 <= j -> rs !! Z.to_nat j = Some r -> (j ∉ q) ->
  moved (q ++ [j]) rs (<[Z.to_nat j := with_phase (with_target r t) KLLM_PHASE_DECODE]> rs').
Proof.
  intros [Hl Hm] Hj Hr Hjq. split; [by rewrite length_insert|]. intros i r0 Hi Hr0.
  pose proof (lookup_lt_Some _ _ _ Hr). specialize (Hm i r0 Hi Hr0).
  destruct (decide (i = j)) as [->|Hne].
  - rewrite decide_True by set_solver. simplify_eq. exists t.
    apply list_lookup_insert_eq. lia.
  - rewrite list_lookup_insert_ne by lia.
    repeat case_decide; [done|set_solver|set_solver|done].
Qed.

(** The prefills of an iteration. *)
Lemma prefill_ok s :
  pool_wf s -> queues_ok s -> 0 <= prefill_budget (cfg s) < 2 ^ 32 - KLLM_MAX_SEQ_LEN ->
  let q := phase_slots KLLM_PHASE_PREFILL (requests s) in
  exists s', prefill_phase s = Some s' /\ pool_wf s' /\ cfg s' = cfg s /\
    max_requests s' = max_requests s /\ bstats s' = bstats s /\ dev s' = dev s /\
    infer s' = infer s /\
    moved (take (within_budget (prefill_budget (cfg s)) 0 (prompt_lens (requests s) q)) q)
      (requests s) (requests s').
Proof.
  intros Hwf (Hpc & Hpq & _) Hbud q. unfold prefill_phase. fold q in Hpc, Hpq.
  set (lens := prompt_lens (requests s) q). set (budget := prefill_budget (cfg s)) in *.
  set (Q := fun (k : Z) (s' : kllm_batch_scheduler St) => pool_wf s' /\ cfg s' = cfg s /\
    max_requests s' = max_requests s /\ bstats s' = bstats s /\ dev s' = dev s /\
    infer s' = infer s /\ prefill_queue s' = prefill_queue s /\
    moved (take (Z.to_nat k) q) (requests s) (requests s')).
  edestruct (for_range_rule (R := unit)
    (fun i (st : kllm_batch_scheduler St * Z) => Q i (fst st) /\ 0 <= snd st <= budget /\
      within_budget budget 0 lens =
        (Z.to_nat i + within_budget budget (snd st) (drop (Z.to_nat i) lens))%nat)
    (fun o => exists s' sp, o = inl (s', sp) /\ Q (Z.of_nat (within_budget budget 0 lens)) s'))
    as (o & -> & s' & sp & -> & (H1 & H2 & H3 & H4 & H5 & H6 & _ & H7)).
  - lia.
  - split; [|split; [cbn; lia|done]]. by split_and!.
  - intros i [s1 spent] Hi ((Hwf1 & Hc & Hmx & Hst & Hdv & Hif & Hq1 & Hmv) & Hsp & Hk). cbn [fst snd] in *.
    destruct (lookup_lt_is_Some_2 q (Z.to_nat i)) as [j Hj]; [lia|].
    assert (arr_get (prefill_queue s1) i = Some j) as ->.
    { rewrite Hq1, arr_get_lookup by lia. rewrite <- Hj, <- Hpq, lookup_take_lt by lia. done. }
    cbn [mbind option_bind].
    assert (j ∈ q) as Hjq by (by eapply list_elem_of_lookup_2).
    pose proof Hjq as (Hj0 & r & Hr & Hlive & Hph)%phase_slots_elem.
    assert (j ∉ take (Z.to_nat i) q) as Hnot.
    { intros Hin. pose proof (phase_slots_NoDup KLLM_PHASE_PREFILL (requests s)) as Hnd. fold q in Hnd.
      apply list_elem_of_lookup in Hin as [m Hm]. pose proof (lookup_lt_Some _ _ _ Hm) as Hml.
      rewrite length_take in Hml. rewrite lookup_take_lt in Hm by lia.
      pose proof (NoDup_lookup _ _ _ _ Hnd Hj Hm). lia. }
    destruct Hmv as [Hml Hmv]. pose proof (Hmv j r ltac:(lia) Hr) as Hrj.
    rewrite decide_False in Hrj by done.
    rewrite arr_get_lookup, Hrj by lia. cbn [mbind option_bind]. rewrite Hc. fold budget.
    pose proof (pw_requests _ Hwf1) as Hall. rewrite Forall_lookup in Hall.
    destruct (proj1 (Hall _ _ Hrj) Hlive) as (toks & _ & _ & Hpl & Hsq).
    rewrite (wrap_small 32) by (unfold fits; lia).
    assert (drop (Z.to_nat i) lens = prompt_len r :: drop (S (Z.to_nat i)) lens) as Hdrop.
    { apply drop_S. unfold lens, prompt_lens. rewrite list_lookup_fmap, Hj. simpl. by rewrite Hr. }
    rewrite Hdrop in Hk. cbn [within_budget] in Hk.
    destruct (Z.ltb_spec budget (spent + prompt_len r)).
    + eexists. split; [done|]. exists s1, spent. split; [done|]. unfold Q.
      rewrite Hk, Nat.add_0_r, Z2Nat.id by lia. by split_and!.
    + destruct (run_prefill_ok s1 j r Hwf1 ltac:(lia) Hrj Hlive) as (t & d & -> & Hwf2).
      cbn [mbind option_bind]. eexists. split; [done|]. cbn [fst snd].
      split; [|split; [lia|]].
      * split_and!; try done. replace (Z.to_nat (i + 1)) with (S (Z.to_nat i)) by lia.
        rewrite (take_S_r _ _ j) by done. by apply (moved_snoc _ _ _ _ r); [split|lia|..].
      * replace (Z.to_nat (i + 1)) with (S (Z.to_nat i)) by lia. lia.
  - intros [s1 spent] (HQ & _ & Hk). cbn [fst snd] in *. exists s1, spent. split; [done|].
    rewrite drop_ge in Hk by (unfold lens, prompt_lens; rewrite length_fmap; lia).
    cbn [within_budget] in Hk. rewrite Nat.add_0_r in Hk. rewrite Hk, Z2Nat.id by lia. done.
  - exists s'. rewrite Nat2Z.id in H7. by split_and!.
Qed.

(** What the decode steps keep: the requests stay in their slots, and the device
    gains the words [ts]. *)
Record decode_keeps (ts : list Z) s s' : Prop := {
  dk_ids : request_id <$> requests s' = request_id <$> requests s;
  dk_queue : decode_queue s' = decode_queue s;
  dk_cfg : cfg s' = cfg s;
  dk_max : max_requests s' = max_requests s;
  dk_gpu : has_gpu (infer s') = has_gpu (infer s);
  dk_mask : resp_mask (dev s') = resp_mask (dev s);
  dk_ring : resp_contents (dev s') = resp_push (resp_mask (dev s)) (resp_contents (dev s)) ts;
  dk_advanced : Forall2 advanced (requests s) (requests s');
}.

Lemma decode_keeps_refl s : decode_keeps [] s s.
Proof. split; try done. by rewrite resp_push_nil. Qed.

Lemma decode_keeps_trans ts1 ts2 s1 s2 s3 :
  decode_keeps ts1 s1 s2 -> decode_keeps ts2 s2 s3 -> decode_keeps (ts1 ++ ts2) s1 s3.
Proof.
  intros [H1 H2 H3 H4 H0 H5 H6 H7] [K1 K2 K3 K4 K0 K5 K6 K7]. split; try congruence.
  - by rewrite K6, H6, H5, resp_push_app.
  - by eapply advanced_list_trans.
Qed.

(** The statistics count [n] more tokens and [k] more completed requests. *)
Definition counted (n k : Z) (st st' : kllm_batch_stats) : Prop :=
  wrap 64 (total_tokens_generated st') = wrap 64 (total_tokens_generated st + n) /\
  wrap 64 (completed_requests st') = wrap 64 (completed_requests st + k).

Lemma counted_refl st : counted 0 0 st st.
Proof. by unfold counted; rewrite !Z.add_0_r. Qed.

Lemma counted_trans n1 k1 n2 k2 st1 st2 st3 :
  counted n1 k1 st1 st2 -> counted n2 k2 st2 st3 -> counted (n1 + n2) (k1 + k2) st1 st3.
Proof.
  unfold counted, wrap. intros [H1 H2] [K1 K2]. rewrite K1, K2.
  rewrite <- (Zplus_mod_idemp_l _ n2), H1, <- (Zplus_mod_idemp_l _ k2), H2.
  rewrite !Zplus_mod_idemp_l. by split; f_equal; lia.
Qed.

Lemma counted_completed st : counted 0 1 st (count_completed st).
Proof.
  unfold counted. cbn [count_completed count_token total_tokens_generated completed_requests].
  unfold wrap. by rewrite Zmod_mod, Z.add_0_r.
Qed.

Lemma counted_token st : counted 1 0 st (count_token st).
Proof.
  unfold counted. cbn [count_completed count_token total_tokens_generated completed_requests].
  unfold wrap. by rewrite Zmod_mod, Z.add_0_r.
Qed.

Lemma set_stats_same s st : pool_wf s -> pool_wf (set_stats s st).
Proof. by intros []; split. Qed.

(** What a decode step may have changed before it writes the slot: the
    inference, and the device, which has gained the words [ts]. *)
Record decode_frame (ts : list Z) s s1 : Prop := {
  df_requests : requests s1 = requests s;
  df_max : max_requests s1 = max_requests s;
  df_cfg : cfg s1 = cfg s;
  df_active : active_count s1 = active_count s;
  df_prefill : prefill_queue s1 = prefill_queue s;
  df_decode : decode_queue s1 = decode_queue s;
  df_stats : bstats s1 = bstats s;
  df_infer : exists res, inf_wf (infer s1) res;
  df_gpu : has_gpu (infer s1) = has_gpu (infer s);
  df_resp : resp_wf (dev s1);
  df_mask : resp_mask (dev s1) = resp_mask (dev s);
  df_ring : resp_contents (dev s1) = resp_push (resp_mask (dev s)) (resp_contents (dev s)) ts;
}.

Lemma frame_infer s st :
  pool_wf s -> (exists res, inf_wf st res) -> has_gpu st = has_gpu (infer s) ->
  decode_frame [] s (set_infer s st).
Proof. intros Hwf Hst Hg. split; cbn; try done; [apply Hwf|by rewrite resp_push_nil]. Qed.

Lemma frame_push ts s s1 d ws :
  decode_frame ts s s1 -> resp_wf d -> resp_mask d = resp_mask (dev s1) ->
  resp_contents d = resp_push (resp_mask (dev s1)) (resp_contents (dev s1)) ws ->
  decode_frame (ts ++ ws) s (set_dev s1 d).
Proof.
  intros [] Hw Hm Hc. split; cbn; try done; [congruence|].
  by rewrite Hc, df_mask0, df_ring0, resp_push_app.
Qed.

(** A request after a step: it has less work left. *)
Lemma after_ok now toks r t o :
  slot_wf r -> live r -> tokens r = Some toks ->
  (forall x, o = Emitted x -> rq_seq_len r < KLLM_MAX_SEQ_LEN) ->
  let r' := after_step now toks (with_target r t) o in
  request_id r' = request_id r /\ slot_wf r' /\ advanced r r' /\
  (phase r <> KLLM_PHASE_DONE -> work r' < work r).
Proof.
  intros Hslot Hl Ht Ho r'. pose proof Hslot as [Hs _].
  destruct (Hs Hl) as (toks' & Ht' & Hlen & Hp & Hb). simplify_eq.
  assert (request_id r' = request_id r) as Hid by (by destruct o).
  split; [done|]. split.
  - destruct o as [| |x|x]; try exact Hslot. specialize (Ho x eq_refl).
    split; [|by intros []]. intros _. eexists. split; [done|]. unfold r'. cbn. rewrite length_insert. lia.
  - unfold advanced, work. rewrite !decide_True by (unfold live; congruence).
    destruct o as [| |x|x]; [| |specialize (Ho x eq_refl)|]; unfold r'; cbn;
      destruct (phase r); (split; [split; [done|]; split; [done|lia]|]); (done || lia).
Qed.

(** What a decode step of slot [i], with the request [r], leaves. *)
Definition step_post now s i r (res : Z * kllm_batch_scheduler St) : Prop :=
  let '(rc, s') := res in
  exists o, decode_one (cfg_eos_token_id (cfg s)) now (infer s) (requests s) i
      = Done (o, infer s', requests s') /\
    Z.max 0 rc = token_count o /\ pool_wf s' /\ decode_keeps (words o) s s' /\
    counted (token_count o) (end_count o) (bstats s) (bstats s') /\
    (phase r <> KLLM_PHASE_DONE -> pool_work (requests s') < pool_work (requests s)).

Lemma outcome_emitted eos rc t n x : outcome_of eos rc t n = Emitted x -> n < KLLM_MAX_SEQ_LEN.
Proof.
  unfold outcome_of. destruct (rc <? 0), (t =? eos), (Z.ltb_spec n KLLM_MAX_SEQ_LEN); done.
Qed.

(** The slot is written back after a step with outcome [o]. *)
Lemma decode_put now s s1 i r toks rc res t o n st :
  pool_wf s -> requests s !! Z.to_nat i = Some r -> 0 <= i -> live r -> tokens r = Some toks ->
  request_infer (infer s) r toks = Done (rc, res, infer s1, t) ->
  outcome_of (cfg_eos_token_id (cfg s)) rc (next_token res) (rq_seq_len r) = o ->
  decode_frame (words o) s s1 -> Z.max 0 n = token_count o ->
  counted (token_count o) (end_count o) (bstats s) st ->
  let r' := after_step now toks (with_target r t) o in
  arr_set (requests s1) i r' = Some (<[Z.to_nat i := r']> (requests s1)) /\
  step_post now s i r (n, set_stats (set_requests s1 (<[Z.to_nat i := r']> (requests s1))) st).
Proof.
  intros Hwf Hr Hi Hl Ht Hinf Ho [E1 E2 E3 E4 E5 E6 _ Hin Hg Hresp Hm Hts] Hn Hcnt r'.
  pose proof (proj1 (Forall_lookup _ _) (pw_requests _ Hwf) _ _ Hr) as Hslot.
  destruct (after_ok now toks r t o Hslot Hl Ht) as (Hid & Hw & Hadv & Hlt).
  { intros x Hx. eapply outcome_emitted. by rewrite Ho. }
  fold r' in Hid, Hw, Hadv, Hlt.
  pose proof (lookup_lt_Some _ _ _ Hr). split; [apply arr_set_in; rewrite E1; lia|].
  assert (pool_wf (set_requests s (<[Z.to_nat i := r']> (requests s)))) as [W1 W2 W3 W4 W5 W6 _ _].
  { apply (pool_set s (Z.to_nat i) r); try done. unfold live. by rewrite Hid. }
  exists o. cbn [infer set_stats set_requests requests bstats].
  split; [|split; [done|split; [|split; [|split; [done|]]]]].
  - unfold decode_one. rewrite Hr. cbn [exec_of exec_bind]. rewrite Ht. cbn [exec_of exec_bind].
    rewrite Hinf. cbn [exec_bind]. rewrite Ho. by rewrite E1.
  - split; cbn in *; rewrite ?E1, ?E2, ?E3, ?E4, ?E5, ?E6; done.
  - split; cbn in *; rewrite ?E1, ?E2, ?E3, ?E4, ?E5, ?E6; try done.
    + rewrite list_fmap_insert, Hid. apply list_insert_id. by rewrite list_lookup_fmap, Hr.
    + by apply (advanced_set _ _ r).
  - intros Hd%Hlt. rewrite E1, (pool_work_set _ _ r) by done. lia.
Qed.

(** The inference of a decode step. *)
Lemma request_infer_ok st r toks :
  (exists res, inf_wf st res) -> len toks = KLLM_MAX_SEQ_LEN -> 1 <= rq_seq_len r <= KLLM_MAX_SEQ_LEN ->
  yields (has_gpu st) (request_infer st r toks) (fun '(rc, res, st', t) =>
    (exists res, inf_wf st' res) /\ has_gpu st' = has_gpu st).
Proof.
  intros Hinf%inf_start Hl Hn. change KLLM_MAX_SEQ_LEN with MAX_SEQUENCE_LEN in *.
  unfold request_infer. destruct (target r).
  - destruct (yields_false _ _ (inf_cpu_ok st toks (rq_seq_len r) _ Hinf ltac:(lia) ltac:(lia)))
      as ([[rc r1] st1] & -> & Hw1 & Hg1 & _). cbn [exec_bind].
    destruct ((rc <? 0) && has_gpu st1) eqn:Hb; [|cbn; by eauto].
    apply andb_true_iff in Hb as [_ Hg]. rewrite <- Hg1, Hg.
    eapply yields_bind; [apply (inf_escalate_ok st1 toks (rq_seq_len r) r1 Hw1 Hg); lia|].
    intros [[rc2 r2] st2] (Hw2 & Hg2 & _). cbn. split; [by eauto|congruence].
  - destruct (has_gpu st) eqn:Hg; cbn [negb]; [|cbn; by eauto].
    eapply yields_bind; [apply (inf_gpu_ok st toks (rq_seq_len r) _ Hinf Hg); lia|].
    intros [[rc r1] st1] (Hw1 & Hg1 & _). cbn. split; [by eauto|congruence].
Qed.

(** A decode step: at most one token, then at most one end of sequence. *)
Lemma run_decode_step_ok now stack s i r :
  pool_wf s -> 0 <= i -> requests s !! Z.to_nat i = Some r -> live r -> len stack = 256 ->
  yields (has_gpu (infer s)) (run_decode_step now stack s i) (step_post now s i r).
Proof.
  intros Hwf Hi Hr Hlive Hst. pose proof (proj1 (Forall_lookup _ _) (pw_requests _ Hwf) _ _ Hr) as Hslot.
  destruct (proj1 Hslot Hlive) as (toks & Ht & Hlen & Hp & Hsq).
  unfold run_decode_step. rewrite arr_get_lookup, Hr by done. cbn [exec_of exec_bind].
  rewrite Ht. cbn [exec_of exec_bind].
  pose proof (request_infer_ok (infer s) r toks (pw_infer _ Hwf) Hlen ltac:(lia)) as Hcall.
  destruct (request_infer (infer s) r toks) as [[[[rc res] st] t]| |] eqn:Hinf; [|exact Hcall..].
  destruct Hcall as [Hst' Hg]. cbn [exec_bind].
  pose proof (frame_infer s st Hwf Hst' Hg) as Hf. pose proof (df_resp _ _ _ Hf) as Hresp.
  pose proof (fun s1 => decode_put now s s1 i r toks rc res t) as Hput.
  unfold outcome_of in Hput. destruct (Z.ltb_spec rc 0).
  { destruct (Hput (set_infer s st) _ (-1) (bstats s) Hwf Hr Hi Hlive Ht Hinf eq_refl Hf)
      as [Hset Hpost]; [done|apply counted_refl|].
    cbn [after_step] in Hset, Hpost. rewrite Hset. exact Hpost. }
  change (cfg (set_infer s st)) with (cfg s).
  destruct (Z.eqb_spec (next_token res) (cfg_eos_token_id (cfg s))).
  { destruct (response_eos_ok _ Hresp) as (d & -> & Hw & Hm & Hc). cbn [exec_of exec_bind].
    destruct (Hput (set_dev (set_infer s st) d) _ 0 (count_completed (bstats s)) Hwf Hr Hi Hlive Ht
      Hinf eq_refl (frame_push _ _ _ _ _ Hf Hw Hm Hc)) as [Hset Hpost]; [done|apply counted_completed|].
    cbn [after_step] in Hset, Hpost. rewrite Hset. exact Hpost. }
  destruct (response_emit_one_ok _ stack (next_token res) Hresp Hst) as (d & -> & Hw & Hm & Hc).
  cbn [exec_of exec_bind]. change (rq_seq_len (with_target r t)) with (rq_seq_len r).
  pose proof (frame_push _ _ _ _ _ Hf Hw Hm Hc) as Hf1.
  destruct (Z.ltb_spec (rq_seq_len r) KLLM_MAX_SEQ_LEN).
  - rewrite (arr_set_in toks) by lia. cbn [exec_of exec_bind].
    rewrite (wrap_small 32) by (unfold fits, KLLM_MAX_SEQ_LEN in *; lia).
    destruct (Hput (set_dev (set_infer s st) d) _ 1 (count_token (bstats s)) Hwf Hr Hi Hlive Ht
      Hinf eq_refl Hf1) as [Hset Hpost]; [done|apply counted_token|].
    cbn [after_step] in Hset, Hpost. change (rq_seq_len (with_target r t)) with (rq_seq_len r) in *.
    rewrite Hset. exact Hpost.
  - destruct (response_eos_ok d Hw) as (d2 & Heos & Hw2 & Hm2 & Hc2).
    change (dev (set_dev (set_infer s st) d)) with d. rewrite Heos. cbn [exec_of exec_bind].
    destruct (Hput (set_dev (set_dev (set_infer s st) d) d2) _ 1 (count_token (count_completed (bstats s)))
      Hwf Hr Hi Hlive Ht Hinf eq_refl (frame_push _ _ _ d2 _ Hf1 Hw2 Hm2 Hc2)) as [Hset Hpost];
      [done|exact (counted_trans 0 1 1 0 _ _ _ (counted_completed _) (counted_token _))|].
    cbn [after_step] in Hset, Hpost. rewrite Hset. exact Hpost.
Qed.

Lemma tokens_in_range os : 0 <= tokens_in os <= len os.
Proof. induction os as [|o os IH]; cbn; [lia|]. fold (tokens_in os). destruct o; cbn; lia. Qed.

(** The decode steps of the batch, on the slots [js]. *)
Lemma decode_phase_ok env js i s g :
  pool_wf s -> (forall k, len (snd (env k)) = 256) -> 0 <= i ->
  take (length js) (drop (Z.to_nat i) (decode_queue s)) = js ->
  Forall (fun j => 0 <= j /\ exists r, requests s !! Z.to_nat j = Some r /\ live r) js ->
  yields (has_gpu (infer s)) (decode_phase (length js) env i s g) (fun '(g', s') => exists os,
    decode_batch (cfg_eos_token_id (cfg s)) env i (infer s) (requests s) js
      = Done (os, infer s', requests s') /\
    g' = g + tokens_in os /\ length os = length js /\
    pool_wf s' /\ decode_keeps (all_words os) s s' /\
    counted (tokens_in os) (ends_in os) (bstats s) (bstats s') /\
    (forall j r, js !! 0%nat = Some j -> requests s !! Z.to_nat j = Some r ->
       phase r <> KLLM_PHASE_DONE -> pool_work (requests s') < pool_work (requests s))).
Proof.
  revert i s g. induction js as [|j js IH]; intros i s g Hwf Henv Hi Hq Hjs; cbn [decode_phase length].
  { cbn. exists []. split_and!; try done; [cbn; lia|apply decode_keeps_refl|apply counted_refl]. }
  apply Forall_cons in Hjs as [(Hj & r & Hr & Hl) Hjs].
  assert (drop (Z.to_nat i) (decode_queue s) = j :: drop (S (Z.to_nat i)) (decode_queue s)) as Hd.
  { destruct (drop (Z.to_nat i) (decode_queue s)) as [|j' q] eqn:Hdr; [done|]. cbn in Hq. simplify_eq.
    f_equal. apply (f_equal (drop 1)) in Hdr. rewrite drop_drop, Nat.add_1_r in Hdr. by rewrite Hdr. }
  assert (arr_get (decode_queue s) i = Some j) as ->.
  { rewrite arr_get_lookup by lia. rewrite <- (Nat.add_0_r (Z.to_nat i)), <- lookup_drop, Hd. done. }
  cbn [exec_of exec_bind]. eapply yields_bind; [by apply (run_decode_step_ok _ _ s j r)|].
  intros [rc s1] (o & Hone & Hrc & Hwf1 & Hk1 & Hc1 & Hlt1).
  replace (if 0 <? rc then g + rc else g) with (g + token_count o) by (case_cond; lia).
  pose proof Hk1 as [Hids Hdq Hcfg _ Hgpu _ _ _].
  rewrite <- Hgpu. eapply yields_impl; [apply (IH (i + 1) s1)| |]; [done|done|lia|..|done|].
  - rewrite Hdq. replace (Z.to_nat (i + 1)) with (S (Z.to_nat i)) by lia.
    rewrite Hd in Hq. cbn in Hq. by simplify_eq.
  - eapply Forall_impl; [exact Hjs|]. intros j' (Hj' & r' & Hr' & Hl'). split; [done|].
    assert ((request_id <$> requests s1) !! Z.to_nat j' = Some (request_id r')) as Hid
      by (rewrite Hids, list_lookup_fmap, Hr'; done).
    rewrite list_lookup_fmap in Hid.
    destruct (requests s1 !! Z.to_nat j') as [r1|] eqn:Hr1; simplify_eq/=.
    exists r1. split; [done|]. unfold live in *. congruence.
  - intros [g' s'] (os & Hb & -> & Hlen & Hwf' & Hk' & Hc2 & _). exists (o :: os).
    split; [cbn [decode_batch]; rewrite Hone; cbn [exec_bind]; rewrite Hcfg in Hb; by rewrite Hb|].
    split; [cbn; unfold tokens_in; lia|]. split; [cbn; lia|]. split; [done|].
    split; [by eapply decode_keeps_trans|]. split; [by eapply counted_trans|].
    intros j' r' [= <-] Hr' Hph. simplify_eq. specialize (Hlt1 Hph).
    pose proof (pool_work_le _ _ (dk_advanced _ _ _ Hk')). lia.
Qed.

(** The retirement of the finished requests. *)
Definition finished (r : kllm_request) : Prop := live r /\ phase r = KLLM_PHASE_DONE.

#[local] Instance finished_dec r : Decision (finished r).
Proof. unfold finished. apply _. Defined.

(** A slot after the retirement. *)
Definition retire_slot (r : kllm_request) : kllm_request :=
  if decide (finished r) then retired r else r.

Lemma finished_test r :
  bool_decide (phase r = KLLM_PHASE_DONE) && negb (request_id r =? 0) = bool_decide (finished r).
Proof.
  unfold finished, live. destruct (Z.eqb_spec (request_id r) 0); cbn [negb].
  - rewrite andb_false_r. symmetry. apply bool_decide_false. by intros [].
  - rewrite andb_true_r. apply bool_decide_ext. naive_solver.
Qed.

(** After the first [i] slots of [rs0], of which [n0] were live. *)
Definition retire_inv (rs0 : list kllm_request) (n0 i : Z) (st : list kllm_request * Z) : Prop :=
  let '(rs, active) := st in
  length rs = length rs0 /\ Forall slot_wf rs /\ active = live_count rs /\
  drop (Z.to_nat i) rs = drop (Z.to_nat i) rs0 /\
  Forall (fun r => ~ finished r) (take (Z.to_nat i) rs) /\
  n0 - active = len (filter finished (take (Z.to_nat i) rs0)) /\
  Forall2 advanced rs0 rs /\
  take (Z.to_nat i) rs = retire_slot <$> take (Z.to_nat i) rs0.

Lemma retired_advanced r : finished r -> advanced r (retired r).
Proof.
  intros [Hl Hph]. split; [by intros Hx; destruct Hx|]. split; [done|].
  unfold work. rewrite (decide_False (P := live (retired r))) by (intros Hx; by destruct Hx).
  rewrite decide_True, Hph by done. done.
Qed.

Lemma live_count_range rs : 0 <= live_count rs <= len rs.
Proof. unfold live_count. pose proof (length_filter live rs). lia. Qed.

Lemma retire_step rs0 n0 i rs active :
  0 <= i < len rs0 -> len rs0 < 2 ^ 32 -> retire_inv rs0 n0 i (rs, active) ->
  exists r, arr_get rs i = Some r /\
    retire_inv rs0 n0 (i + 1)
      (if bool_decide (finished r) then (<[Z.to_nat i := retired r]> rs, u32 (active - 1))
       else (rs, active)).
Proof.
  intros Hir Hb (H1 & H2 & H3 & H4 & H5 & H6 & H7 & H8).
  destruct (lookup_lt_is_Some_2 rs (Z.to_nat i)) as [r Hri]; [lia|].
  assert (rs0 !! Z.to_nat i = Some r) as Hrs.
  { rewrite <- (Nat.add_0_r (Z.to_nat i)), <- lookup_drop, <- H4, lookup_drop, Nat.add_0_r. done. }
  exists r. split; [by rewrite arr_get_lookup by lia|]. unfold retire_inv.
  replace (Z.to_nat (i + 1)) with (S (Z.to_nat i)) by lia. rewrite (take_S_r rs0 _ r) by done.
  assert (drop (S (Z.to_nat i)) rs = drop (S (Z.to_nat i)) rs0) as Hdrop.
  { rewrite (drop_S rs r), (drop_S rs0 r) in H4 by done. by simplify_eq. }
  rewrite filter_app, filter_cons, filter_nil, length_app, fmap_app. cbn [fmap list_fmap].
  unfold retire_slot at 2. case_bool_decide as Hfin; [rewrite !decide_True by done|rewrite !decide_False by done].
  - pose proof (live_count_set rs (Z.to_nat i) r (retired r) Hri) as Hset.
    rewrite decide_True in Hset by apply Hfin.
    rewrite (decide_False (P := live (retired r))) in Hset by (intros Hx; by apply Hx).
    pose proof (live_count_range rs). pose proof (live_count_range (<[Z.to_nat i := retired r]> rs)).
    rewrite length_insert, drop_insert_lt by lia. rewrite wrap_small by (unfold fits; lia). simpl.
    split_and!; [done| |lia|done| |lia| |].
    + apply Forall_insert; [done|]. split; [intros Hx; by destruct Hx|done].
    + rewrite (take_S_r _ _ (retired r)) by (apply list_lookup_insert_eq; lia).
      rewrite take_insert_ge by lia. apply Forall_app. split; [done|].
      apply Forall_singleton. intros [Hx _]. by apply Hx.
    + eapply advanced_list_trans; [done|]. apply (advanced_set _ _ r); [done|].
      by apply retired_advanced.
    + rewrite (take_S_r _ _ (retired r)) by (apply list_lookup_insert_eq; lia).
      by rewrite take_insert_ge, H8 by lia.
  - simpl. split_and!; try done; [|lia|].
    + rewrite (take_S_r _ _ r) by done. apply Forall_app. split; [done|by apply Forall_singleton].
    + by rewrite (take_S_r _ _ r), H8 by done.
Qed.

Lemma retire_ok s :
  pool_wf s ->
  exists s', retire_phase s = Some s' /\ pool_wf s' /\ settled s' /\
    cfg s' = cfg s /\ bstats s' = bstats s /\ dev s' = dev s /\
    active_count s - active_count s' = len (filter finished (requests s)) /\
    Forall2 advanced (requests s) (requests s') /\
    requests s' = retire_slot <$> requests s /\ infer s' = infer s.
Proof.
  intros Hwf. pose proof Hwf as [Hl Hb Hp Hd Hr Ha Hi Hresp]. unfold retire_phase.
  edestruct (for_range_rule (R := unit) (retire_inv (requests s) (active_count s))
    (fun o => exists st, o = inl st /\ retire_inv (requests s) (active_count s) (max_requests s) st))
    as (o & -> & [rs active] & -> & H1 & H2 & H3 & _ & H5 & H6 & H7 & H8).
  - lia.
  - split_and!; [done..|constructor|simpl; lia|apply advanced_list_refl|done].
  - intros i [rs active] Hir Hinv.
    destruct (retire_step (requests s) (active_count s) i rs active ltac:(lia) ltac:(lia) Hinv)
      as (r & Hget & Hnext).
    pose proof (arr_get_range _ _ _ Hget). rewrite Hget. cbn [mbind option_bind].
    rewrite finished_test. case_bool_decide; [rewrite arr_set_in by lia|]; by eexists.
  - intros st Hst. by exists st.
  - rewrite take_ge in H5, H6, H8 by lia. rewrite take_ge in H8 by lia. cbn [mbind option_bind]. eexists. split; [done|].
    split_and!; try done; cbn.
    + split; cbn; try done. lia.
    + eapply Forall_impl; [exact H5|]. intros r Hn Hlv Hph. by apply Hn.
Qed.

(** A slot that a submission can take. *)
Definition free_slot (r : kllm_request) : Prop := phase r = KLLM_PHASE_DONE /\ request_id r = 0.

Lemma find_free_ok s :
  pool_wf s -> Exists free_slot (requests s) ->
  exists i r, find_free_slot s = Some (Some i, s) /\ 0 <= i /\
    requests s !! Z.to_nat i = Some r /\ free_slot r.
Proof.
  intros Hwf Hex. pose proof (pw_slots _ Hwf) as Hl. unfold find_free_slot.
  edestruct (for_range_rule (S := unit)
    (fun i _ => Forall (fun r => ~ free_slot r) (take (Z.to_nat i) (requests s)))
    (fun o => exists i r, o = inr i /\ 0 <= i /\ requests s !! Z.to_nat i = Some r /\ free_slot r))
    as (o & -> & i & r & -> & Hi & Hr & Hf); [..|by exists i, r].
  - lia.
  - constructor.
  - intros i [] Hi Hno. destruct (lookup_lt_is_Some_2 (requests s) (Z.to_nat i)) as [r Hr]; [lia|].
    rewrite arr_get_lookup, Hr by lia. cbn [mbind option_bind].
    destruct (bool_decide (phase r = KLLM_PHASE_DONE) && (request_id r =? 0)) eqn:Hb.
    + eexists. split; [done|]. exists i, r. apply andb_true_iff in Hb as [Hp%bool_decide_eq_true Hid].
      unbool. split_and!; [done|lia|done|by split].
    + eexists. split; [done|]. cbv beta iota.
      replace (Z.to_nat (i + 1)) with (S (Z.to_nat i)) by lia. rewrite (take_S_r _ _ r) by done.
      apply Forall_app. split; [done|]. apply Forall_singleton. intros [Hp Hid].
      rewrite Hp, Hid in Hb. by rewrite bool_decide_true in Hb.
  - intros [] Hno. rewrite take_ge in Hno by lia. exfalso.
    apply Exists_exists in Hex as (r & Hin & Hf). rewrite Forall_forall in Hno. by apply (Hno r).
Qed.

Lemma live_count_free s i r :
  requests s !! i = Some r -> ~ live r -> live_count (requests s) < len (requests s).
Proof.
  intros Hr Hn. pose proof (live_count_set (requests s) i r
    (Request 1 KLLM_PHASE_DONE KLLM_TARGET_CPU None 0 0 0 0 0 false 0) Hr) as Hs.
  rewrite decide_False, decide_True in Hs by done.
  pose proof (length_filter live (<[i := Request 1 KLLM_PHASE_DONE KLLM_TARGET_CPU None 0 0 0 0 0 false 0]>
    (requests s))) as Hl. rewrite length_insert in Hl. unfold live_count in *. lia.
Qed.

End pool.

(** ** Theorems *)

(** A scheduler as it is created rejects every request: whatever is
    submitted and however many iterations run, every submission returns 0 (the
    error) and every iteration generates nothing and leaves the device alone. *)
Theorem fresh_scheduler_rejects {St} {INF : Inference St} `{KL : KernelLib} c inf disp d
    (s : kllm_batch_scheduler St) ops :
  0 <= cfg_max_requests c -> 0 <= max_batch_size c ->
  kllm_batch_create true true true true c inf disp d = Some s ->
  exists s', batch_run s ops = Done (replicate (length ops) 0, s') /\ dev s' = d /\
    kllm_batch_idle s' = true.
Proof.
  intros Hm Hb Hc. unfold kllm_batch_create in Hc. cbn [negb orb] in Hc. injection Hc as Hc.
  assert (fresh s) as Hf.
  { subst s. split; cbn; [by apply Forall_replicate|
      rewrite length_replicate; lia|done|done]. }
  assert (dev s = d) as <- by (by subst s). clear Hc.
  revert s Hf. induction ops as [|op ops IH]; intros s Hf; cbn [batch_run].
  { exists s. split; [done|]. split; [done|]. unfold kllm_batch_idle. by rewrite (fr_active _ Hf). }
  assert (exists s', batch_call s op = Done (0, s') /\ fresh s' /\ dev s' = dev s)
    as (s' & -> & Hf' & <-).
  { destruct op; cbn [batch_call]; [|by apply fresh_step].
    rewrite fresh_submit by done. by exists s. }
  cbn [exec_bind]. destruct (IH s' Hf') as (s2 & -> & Hd & Hi). by exists s2.
Qed.

(** C39. On a pool with a free slot a submission takes one: it returns the next
    request number, stores the prompt, zero-padded to the longest sequence, in
    the slot as a request that waits for its prefill, leaves the other slots
    alone and keeps the pool well-formed; the slot had no buffer that could be
    lost.  Without memory for the prompt it returns 0 and changes nothing.  A
    prompt longer than the longest sequence is written past the end of the
    buffer. *)
Theorem submit_ok {St} {INF : Inference St} `{KL : KernelLib} (s : kllm_batch_scheduler St)
    now prompt plen resp :
  pool_wf s -> Exists free_slot (requests s) -> 1 <= plen <= len prompt ->
  0 < next_request_id s ->
  (plen <= KLLM_MAX_SEQ_LEN ->
   exists i r s', kllm_batch_submit true now s prompt plen resp = Some (next_request_id s, s') /\
     pool_wf s' /\ active_count s' = active_count s + 1 /\
     requests s' = <[i := r]> (requests s) /\
     (exists old, requests s !! i = Some old /\ free_slot old /\ tokens old = None) /\
     phase r = KLLM_PHASE_PREFILL /\ request_id r = next_request_id s /\
     rq_seq_len r = plen /\ prompt_len r = plen /\
     exists toks, tokens r = Some toks /\ take (Z.to_nat plen) toks = take (Z.to_nat plen) prompt) /\
  (KLLM_MAX_SEQ_LEN < plen -> kllm_batch_submit true now s prompt plen resp = None) /\
  kllm_batch_submit false now s prompt plen resp = Some (0, s).
Proof.
  intros Hwf Hex Hp Hid. destruct (find_free_ok s Hwf Hex) as (i & old & Hfind & Hi & Hold & Hfree).
  pose proof Hwf as [Hl Hb Hpq Hdq Hr Ha Hinf Hresp].
  assert (~ live old) as Hnl by (destruct Hfree as [_ Hz]; unfold live; lia).
  pose proof (live_count_free s _ _ Hold Hnl) as Hlt. pose proof (lookup_lt_Some _ _ _ Hold) as Hil.
  assert (tokens old = None) as Hnone by (by apply (proj1 (Forall_lookup _ _) Hr _ _ Hold)).
  unfold kllm_batch_submit. destruct (Z.leb_spec (max_requests s) (active_count s)); [lia|].
  rewrite Hfind. cbn [mbind option_bind]. rewrite arr_get_lookup, Hold by done.
  cbn [mbind option_bind negb]. rewrite arr_slice_in by lia. cbn [mbind option_bind].
  assert (<[Z.to_nat i := old]> (requests s) = requests s) as Hsame by (by apply list_insert_id).
  change (drop (Z.to_nat 0) prompt) with prompt.
  assert (len (zeroed KLLM_MAX_SEQ_LEN) = KLLM_MAX_SEQ_LEN) as Hz by (apply zeroed_len; done).
  set (z := zeroed KLLM_MAX_SEQ_LEN) in *. clearbody z.
  split; [|split; [|rewrite <- Hnone, arr_set_in by lia; destruct old, s; cbn in *; by rewrite Hsame]];
    intros Hmax; destruct (Z.ltb_spec KLLM_MAX_SEQ_LEN plen); try lia; [|done].
  rewrite arr_set_in by lia. cbn [mbind option_bind].
  set (r := Request _ KLLM_PHASE_PREFILL _ _ _ _ _ _ _ _ _).
  pose proof (live_count_set (requests s) _ old r Hold) as Hcount.
  rewrite decide_False in Hcount by done. rewrite decide_True in Hcount by (unfold live; simpl; lia).
  assert (0 <= live_count (requests s)) by (unfold live_count; lia).
  exists (Z.to_nat i), r. eexists. split; [done|].
  rewrite (wrap_small 32 (active_count s + 1)) by (unfold fits; lia).
  assert (len (take (Z.to_nat plen) prompt) = plen) as Htl by (rewrite length_take; lia).
  split_and!; try done.
  - split; cbn; try done.
    + by rewrite length_insert.
    + apply Forall_insert; [done|]. split; [|intros Hx; unfold live in Hx; cbn in Hx; lia].
      intros _. eexists. split; [done|]. rewrite length_app, length_drop. cbn. lia.
    + lia.
  - by exists old.
  - eexists. split; [done|]. by rewrite take_app_length' by lia.
Qed.

(** The prefills of an iteration move exactly the longest prefix of the
    waiting requests, in slot order, whose prompts fit the token budget on to
    decoding; every other request stays as it is.  In particular a prompt larger
    than the whole budget blocks every request in a later slot. *)
Theorem prefill_in_budget {St} {INF : Inference St} `{KL : KernelLib} (s : kllm_batch_scheduler St) :
  pool_wf s -> 0 <= prefill_budget (cfg s) < 2 ^ 32 - KLLM_MAX_SEQ_LEN ->
  let q := phase_slots KLLM_PHASE_PREFILL (requests s) in
  let k := within_budget (prefill_budget (cfg s)) 0 (prompt_lens (requests s) q) in
  exists s1 s2, rebuild_queues s = Some s1 /\ prefill_phase s1 = Some s2 /\ pool_wf s2 /\
    moved (take k q) (requests s) (requests s2) /\
    (forall n ns, prompt_lens (requests s) q = n :: ns -> prefill_budget (cfg s) < n -> k = O).
Proof.
  intros Hwf Hbud q k. destruct (rebuild_ok s Hwf) as (pq & pc & dq & dc & -> & Hwf1 & Hq).
  destruct (prefill_ok _ Hwf1 Hq Hbud) as (s2 & Hrun & Hwf2 & _ & _ & _ & _ & _ & Hmv).
  eexists _, s2. split; [done|]. split; [exact Hrun|]. split; [done|]. split; [exact Hmv|].
  intros n ns Hlens Hn. unfold k. rewrite Hlens. cbn [within_budget].
  destruct (Z.ltb_spec (prefill_budget (cfg s)) (0 + n)); [done|lia].
Qed.

(** After the prefills of a pool in which some request waits and every prompt
    fits the budget, some request decodes. *)
Lemma decode_ready {St} {INF : Inference St} `{KL : KernelLib} (s : kllm_batch_scheduler St) rs' :
  settled s -> live_count (requests s) <> 0 ->
  Forall (fun r => live r -> prompt_len r <= prefill_budget (cfg s)) (requests s) ->
  let q := phase_slots KLLM_PHASE_PREFILL (requests s) in
  moved (take (within_budget (prefill_budget (cfg s)) 0 (prompt_lens (requests s) q)) q)
    (requests s) rs' ->
  phase_slots KLLM_PHASE_DECODE rs' <> [].
Proof.
  intros Hset Hlive Hfit q [Hlen Hmv] Hnil.
  assert (Hnone : forall i r, 0 <= i < len rs' -> rs' !! Z.to_nat i = Some r -> live r ->
    phase r <> KLLM_PHASE_DECODE).
  { intros i r Hi Hr Hl Hph. assert (i ∈ phase_slots KLLM_PHASE_DECODE rs') as Hin
      by (apply phase_slots_elem; eauto). rewrite Hnil in Hin. by apply not_elem_of_nil in Hin. }
  destruct q as [|j q'] eqn:Hq.
  - unfold live_count in Hlive. destruct (filter live (requests s)) as [|r l] eqn:Hf; [done|].
    assert (r ∈ filter live (requests s)) as [Hl Hin]%list_elem_of_filter by (rewrite Hf; set_solver).
    unfold settled in Hset. rewrite Forall_forall in Hset. specialize (Hset r Hin Hl).
    apply list_elem_of_lookup in Hin as [i Hi]. pose proof (lookup_lt_Some _ _ _ Hi).
    specialize (Hmv (Z.of_nat i) r ltac:(lia)). rewrite Nat2Z.id, take_nil in Hmv.
    specialize (Hmv Hi). rewrite decide_False in Hmv by apply not_elem_of_nil.
    assert (phase r <> KLLM_PHASE_DECODE) by (apply (Hnone (Z.of_nat i)); rewrite ?Nat2Z.id; done || lia).
    assert (Z.of_nat i ∈ q) as Hiq.
    { apply phase_slots_elem. split; [lia|]. exists r. rewrite Nat2Z.id. by destruct (phase r). }
    rewrite Hq in Hiq. by apply not_elem_of_nil in Hiq.
  - assert (j ∈ q) as (Hj & r & Hr & Hl & Hph)%phase_slots_elem by (rewrite Hq; set_solver).
    rewrite Forall_forall in Hfit. specialize (Hfit r ltac:(by eapply list_elem_of_lookup_2) Hl).
    specialize (Hmv j r ltac:(lia) Hr). cbn [prompt_lens fmap list_fmap within_budget] in Hmv.
    rewrite Hr in Hmv. cbn [default] in Hmv. change (Datatypes.id r) with r in Hmv.
    rewrite (proj2 (Z.ltb_ge _ _)) in Hmv by lia. cbn [take] in Hmv.
    rewrite decide_True in Hmv by set_solver. destruct Hmv as [t Hr'].
    by apply (Hnone j _ ltac:(lia) Hr').
Qed.

Section iteration.
Context {St : Type} {INF : Inference St} `{KL : KernelLib}.
Implicit Types (s : kllm_batch_scheduler St).

(** An iteration with the outcomes [os]: the waiting prompts that fit the budget
    move on to decoding ([rs1]), the first requests that decode, as many as the
    batch takes, do a decode step each ([rs2]), and the finished requests leave.
    The device is offered the words of the outcomes, and the statistics count
    them. *)
Definition iteration (env : Z -> Z * list Z) s (os : list outcome) s' : Prop :=
  let q := phase_slots KLLM_PHASE_PREFILL (requests s) in
  exists rs1 rs2,
    moved (take (within_budget (prefill_budget (cfg s)) 0 (prompt_lens (requests s) q)) q)
      (requests s) rs1 /\
    decode_batch (cfg_eos_token_id (cfg s)) env 0 (infer s) rs1
      (take (Z.to_nat (max_batch_size (cfg s))) (phase_slots KLLM_PHASE_DECODE rs1))
      = Done (os, infer s', rs2) /\
    requests s' = retire_slot <$> rs2 /\
    resp_contents (dev s') = resp_push (resp_mask (dev s)) (resp_contents (dev s)) (all_words os) /\
    counted (tokens_in os) (ends_in os) (bstats s) (bstats s').

(** What else holds after it. *)
Record iteration_keeps s s' : Prop := {
  ik_wf : pool_wf s';
  ik_settled : settled s';
  ik_cfg : cfg s' = cfg s;
  ik_mask : resp_mask (dev s') = resp_mask (dev s);
  ik_gpu : has_gpu (infer s') = has_gpu (infer s);
  ik_advanced : Forall2 advanced (requests s) (requests s');
  ik_progress : settled s -> live_count (requests s) <> 0 -> 0 < max_batch_size (cfg s) ->
    Forall (fun r => live r -> prompt_len r <= prefill_budget (cfg s)) (requests s) ->
    pool_work (requests s') < pool_work (requests s);
}.

(** The slots of the batch are the first ones of the decode queue. *)
Lemma batch_slots s :
  queues_ok s -> 0 <= max_batch_size (cfg s) ->
  let js := take (Z.to_nat (max_batch_size (cfg s))) (phase_slots KLLM_PHASE_DECODE (requests s)) in
  Z.of_nat (length js) = (if decode_count s <? max_batch_size (cfg s) then decode_count s
    else max_batch_size (cfg s)) /\
  take (length js) (decode_queue s) = js.
Proof.
  intros (_ & _ & Hdc & Hdq) Hmb js. unfold js. rewrite length_take. split; [case_cond; lia|].
  rewrite <- Hdq at 2. rewrite take_take. f_equal. lia.
Qed.

(** One iteration. *)
Lemma batch_step_run env s :
  pool_wf s -> (forall k, len (snd (env k)) = 256) -> 0 <= max_batch_size (cfg s) ->
  0 <= prefill_budget (cfg s) < 2 ^ 32 - KLLM_MAX_SEQ_LEN ->
  yields (has_gpu (infer s)) (kllm_batch_step env s) (fun '(n, s') => exists os,
    n = tokens_in os /\ len os <= max_batch_size (cfg s) /\
    iteration env s os s' /\ iteration_keeps s s').
Proof.
  intros Hwf Henv Hmb Hbud. unfold kllm_batch_step.
  destruct (rebuild_ok s Hwf) as (pq & pc & dq & dc & -> & Hwf1 & Hq1). cbn [exec_of exec_bind].
  set (s1 := set_stats _ _). assert (pool_wf s1) as Hw1 by (by apply set_stats_same).
  destruct (prefill_ok s1 Hw1 Hq1 Hbud) as (s2 & -> & Hw2 & Hc2 & _ & Hst2 & Hd2 & Hi2 & Hmv).
  cbn [exec_of exec_bind].
  destruct (rebuild_ok s2 Hw2) as (pq2 & pc2 & dq2 & dc2 & -> & Hw3 & Hq3). cbn [exec_of exec_bind].
  set (s3 := set_queues s2 pq2 pc2 dq2 dc2) in *.
  assert (cfg s3 = cfg s) as Hc3 by (unfold s3; cbn; by rewrite Hc2).
  destruct (batch_slots s3 Hq3) as [Hlim Hjs]; [by rewrite Hc3|]. rewrite <- Hlim, Nat2Z.id.
  set (js := take _ (phase_slots KLLM_PHASE_DECODE (requests s3))) in *.
  set (s4 := set_stats s3 _). assert (pool_wf s4) as Hw4 by (by apply set_stats_same).
  assert (infer s4 = infer s) as Hi4 by exact Hi2. rewrite <- Hi4.
  eapply yields_bind.
  { apply (decode_phase_ok env js 0 s4 0 Hw4 Henv); [done|exact Hjs|]. apply Forall_forall.
    intros j Hj. apply subseteq_take in Hj. apply phase_slots_elem in Hj as (? & r & ? & ? & _).
    split; [lia|by exists r]. }
  intros [n s5] (os & Hb & -> & Hlen & Hw5 & Hk5 & Ht5 & Hlt5).
  destruct (retire_ok s5 Hw5) as (s6 & -> & Hw6 & Hset & Hcf6 & Hst6 & Hd6 & _ & Hadv6 & Hrs6 & Hi6).
  cbn [exec_of exec_bind yields]. exists os. split; [lia|].
  split; [rewrite Hlen; unfold js; rewrite length_take, Hc3; lia|].
  assert (dev s4 = dev s) as Hdv by exact Hd2. pose proof Hk5 as [_ _ Hk_cfg _ Hk_gpu Hk_mask Hk_ring Hk_adv].
  change (requests s4) with (requests s2) in *. split.
  - exists (requests s2), (requests s5). split; [exact Hmv|]. split.
    { rewrite Hi6, <- Hi4, <- Hc3. exact Hb. }
    split; [done|]. rewrite Hd6, Hst6, <- Hdv. split; [done|].
    unfold counted in *. unfold s4, s3 in Ht5. cbn in Ht5. by rewrite Hst2 in Ht5.
  - assert (Forall2 advanced (requests s) (requests s2)) as Hadv2.
    { eapply moved_advanced; [|exact Hmv]. intros i Hi. by apply (subseteq_take _ _ i Hi). }
    split; [done|done|..].
    + rewrite Hcf6, Hk_cfg. exact Hc3.
    + by rewrite Hd6, Hk_mask, Hdv.
    + by rewrite Hi6, Hk_gpu, Hi4.
    + exact (advanced_list_trans _ _ _ Hadv2 (advanced_list_trans _ _ _ Hk_adv Hadv6)).
    + intros Hsettled Hlive Hpos Hfit.
      pose proof (decode_ready s (requests s3) Hsettled Hlive Hfit Hmv) as Hready.
      pose proof (pool_work_le _ _ Hadv2). pose proof (pool_work_le _ _ Hadv6).
      enough (pool_work (requests s5) < pool_work (requests s2)) by lia.
      destruct (phase_slots KLLM_PHASE_DECODE (requests s3)) as [|j js'] eqn:Hjs'; [done|].
      assert (j ∈ phase_slots KLLM_PHASE_DECODE (requests s3)) as (_ & r & Hr & _ & Hph)%phase_slots_elem
        by (rewrite Hjs'; set_solver).
      apply (Hlt5 j r); [|done|by rewrite Hph]. unfold js. rewrite Hc3.
      by replace (Z.to_nat (max_batch_size (cfg s))) with (S (Z.to_nat (max_batch_size (cfg s) - 1))) by lia.
Qed.

End iteration.

(** C9. An iteration on a well-formed pool stays within its arrays and leaves a
    well-formed pool without finished requests.  It is the one of the
    specification: the waiting prompts within the budget start to decode; the
    first [max_batch_size] requests that decode get one inference each, on their
    tokens so far, whose answer is the outcome of the step (a token, the end, or
    a failure); the finished requests leave.  The response device is offered
    exactly the words of these outcomes in order, for each the token and, for a
    request that is completed, the end of sequence (none for a request whose
    inference fails), and keeps what it has room for; the iteration returns and
    counts the tokens and counts the completed requests.  Without a GPU the
    iteration terminates; with one it does unless a call on the GPU has no
    result. *)
Theorem batch_step_ok {St} {INF : Inference St} `{KL : KernelLib} env
    (s : kllm_batch_scheduler St) :
  pool_wf s -> (forall k, len (snd (env k)) = 256) -> 0 <= max_batch_size (cfg s) ->
  0 <= prefill_budget (cfg s) < 2 ^ 32 - KLLM_MAX_SEQ_LEN ->
  match kllm_batch_step env s with
  | Done (n, s') => exists os, n = tokens_in os /\ len os <= max_batch_size (cfg s) /\
      iteration env s os s' /\ pool_wf s' /\ settled s'
  | OutOfFuel | Undef => has_gpu (infer s) = true
  end.
Proof.
  intros Hwf Henv Hmb Hbud. pose proof (batch_step_run env s Hwf Henv Hmb Hbud) as Hrun.
  destruct (kllm_batch_step env s) as [[n s']| |]; [|exact Hrun..].
  destruct Hrun as (os & Hn & Hl & Hit & [Hw Hset _ _ _ _ _]). by exists os.
Qed.

(** ** A pool *)

#[local] Existing Instance linux_kernel_lib.
#[local] Existing Instance demo_sha.
#[local] Existing Instance demo_libm.
#[local] Existing Instance demo_avx512.
#[local] Existing Instance demo_backends.
#[local] Existing Instance demo_inference.

Definition demo_dispatch : kllm_dispatch_ctx :=
  DispatchCtx (DispatchConfig 512 f32_0_8 64) (DispatchState 0 0 0 0 0 0).

Definition free_request : kllm_request :=
  Request 0 KLLM_PHASE_DONE KLLM_TARGET_CPU None 0 0 0 0 0 false 0.

Definition waiting_request : kllm_request :=
  Request 7 KLLM_PHASE_PREFILL KLLM_TARGET_CPU (Some (zeroed KLLM_MAX_SEQ_LEN)) 2 2 0 0 0 false 1.

(** A waiting request and a free slot. *)
Definition demo_pool : kllm_batch_scheduler (server (A := kllm_arena)) :=
  Scheduler (BatchConfig 8 1000 2 2) demo_state demo_dispatch
    [waiting_request; free_request] 2 1 8 (zeroed 2) 0 (zeroed 2) 0
    (BatchStats 1 0 0 0 0 0 0 0) (resp_dev 4).

Lemma waiting_wf : slot_wf waiting_request.
Proof.
  split; [intros _|by intros []]. exists (zeroed KLLM_MAX_SEQ_LEN). split; [reflexivity|].
  split; [apply zeroed_len; unfold KLLM_MAX_SEQ_LEN; lia|].
  unfold KLLM_MAX_SEQ_LEN. cbn [waiting_request prompt_len rq_seq_len]. lia.
Qed.

Lemma demo_pool_wf : pool_wf demo_pool.
Proof.
  split; cbn [demo_pool requests max_requests prefill_queue decode_queue active_count infer dev].
  - reflexivity.
  - lia.
  - reflexivity.
  - reflexivity.
  - constructor; [exact waiting_wf|]. constructor; [|constructor]. split; [|done]. intros Hl. by destruct Hl.
  - reflexivity.
  - exact demo_state_ok.
  - apply resp_dev_wf. lia.
Qed.

Lemma demo_free : Exists free_slot (requests demo_pool).
Proof. apply Exists_cons_tl, Exists_cons_hd. split; reflexivity. Qed.

Lemma demo_env_ok (k : Z) : len (snd ((fun _ : Z => (0, zeroed 256)) k)) = 256.
Proof. reflexivity. Qed.

Definition created_pool : kllm_batch_scheduler (server (A := kllm_arena)) :=
  Scheduler (BatchConfig 8 1000 2 2) demo_state demo_dispatch
    [request0; request0] 2 0 1 (zeroed 2) 0 (zeroed 2) 0
    (BatchStats 0 0 0 0 0 0 0 0) (resp_dev 4).

Lemma fresh_scheduler_rejects_witness :
  exists s', kllm_batch_create true true true true (BatchConfig 8 1000 2 2) demo_state
      demo_dispatch (resp_dev 4) = Some created_pool /\
    batch_run created_pool [BSubmit true 0 [1; 2] 2 1; BStep (fun _ => (0, zeroed 256))]
      = Done ([0; 0], s').
Proof.
  destruct (fresh_scheduler_rejects (BatchConfig 8 1000 2 2) demo_state demo_dispatch
    (resp_dev 4) created_pool [BSubmit true 0 [1; 2] 2 1; BStep (fun _ => (0, zeroed 256))])
    as (s' & Hrun & _); [simpl; lia|simpl; lia|reflexivity|].
  exists s'. split; [reflexivity|exact Hrun].
Defined.

Lemma submit_ok_witness :
  exists s', kllm_batch_submit true 0 demo_pool [1; 2; 3] 3 1 = Some (8, s') /\
    active_count s' = 2.
Proof.
  destruct (submit_ok demo_pool 0 [1; 2; 3] 3 1 demo_pool_wf demo_free) as [Hok _];
    [simpl; lia|simpl; lia|].
  destruct Hok as (i & r & s' & Hrun & _ & Ha & _); [unfold KLLM_MAX_SEQ_LEN; lia|].
  exists s'. split; [exact Hrun|exact Ha].
Defined.

Lemma prefill_in_budget_witness :
  exists s1 s2, rebuild_queues demo_pool = Some s1 /\ prefill_phase s1 = Some s2 /\ pool_wf s2.
Proof.
  destruct (prefill_in_budget demo_pool demo_pool_wf) as (s1 & s2 & H1 & H2 & H3 & _);
    [unfold KLLM_MAX_SEQ_LEN; simpl; lia|].
  exists s1, s2. split; [exact H1|]. split; [exact H2|exact H3].
Defined.

Lemma batch_step_ok_witness :
  exists os s', kllm_batch_step (fun _ => (0, zeroed 256)) demo_pool = Done (tokens_in os, s') /\
    iteration (fun _ => (0, zeroed 256)) demo_pool os s'.
Proof.
  pose proof (batch_step_ok (fun _ => (0, zeroed 256)) demo_pool demo_pool_wf demo_env_ok) as Hrun.
  destruct (kllm_batch_step (fun _ => (0, zeroed 256)) demo_pool) as [[n s']| |].
  - destruct Hrun as (os & -> & _ & Hit & _); [simpl; lia|unfold KLLM_MAX_SEQ_LEN; simpl; lia|].
    exists os, s'. split; [reflexivity|exact Hit].
  - discriminate Hrun; [simpl; lia|unfold KLLM_MAX_SEQ_LEN; simpl; lia].
  - discriminate Hrun; [simpl; lia|unfold KLLM_MAX_SEQ_LEN; simpl; lia].
Defined.
