(* ===== verification/Drain.v ===== *)
(** * Progress of the batching scheduler

    Two facts on runs of [kllm_batch_step] over the model of [Scheduler.v]: a
    pool without a GPU in which every prompt fits the prefill budget drains after
    a number of iterations that its requests bound, and a prompt above the budget that
    waits at the head of the queue keeps every prompt waiting for as long as
    the scheduler runs. *)

From Stdlib Require Import ZArith Lia SpecFloat.
From stdpp Require Import base numbers list gmap.
From S2P Require Import Prelude Floats TokenRing Chardev BlockFormat Arena CacheIndex Dispatch Response Wavefront Gpu InferGpu Attention InferCpu Sampling Decode Scheduler.

#[local] Open Scope Z_scope.

Definition prompts_fit {St} (s : kllm_batch_scheduler St) : Prop :=
  Forall (fun r => live r -> prompt_len r <= prefill_budget (cfg s)) (requests s).

(** A run of iterations, each with its clock and stack contents. *)
Definition iterations {St} {INF : Inference St} `{KL : KernelLib} (s : kllm_batch_scheduler St)
    (envs : list (Z -> Z * list Z)) : exec (list Z * kllm_batch_scheduler St) :=
  batch_run s (BStep <$> envs).

(** Iterations of the specification, one after the other, with the outcomes of
    each. *)
Inductive history {St} {INF : Inference St} `{KL : KernelLib} :
    kllm_batch_scheduler St -> list (Z -> Z * list Z) -> list (list outcome) ->
    kllm_batch_scheduler St -> Prop :=
| history_nil s : history s [] [] s
| history_cons env envs os oss s s1 s' :
    iteration env s os s1 -> history s1 envs oss s' -> history s (env :: envs) (os :: oss) s'.

Definition stacks_ok (env : Z -> Z * list Z) : Prop := forall k, len (snd (env k)) = 256.

(** ** The outcomes of several iterations *)

Lemma tokens_in_app os1 os2 : tokens_in (os1 ++ os2) = tokens_in os1 + tokens_in os2.
Proof.
  induction os1 as [|o os1 IH]; [done|]. cbn. fold (tokens_in (os1 ++ os2)) (tokens_in os1). lia.
Qed.

Lemma ends_in_app os1 os2 : ends_in (os1 ++ os2) = ends_in os1 + ends_in os2.
Proof.
  induction os1 as [|o os1 IH]; [done|]. cbn. fold (ends_in (os1 ++ os2)) (ends_in os1). lia.
Qed.

Lemma all_words_app os1 os2 : all_words (os1 ++ os2) = all_words os1 ++ all_words os2.
Proof. unfold all_words. by rewrite fmap_app, concat_app. Qed.

(** ** The measure *)

Lemma live_count_zero rs : live_count rs = 0 <-> Forall (fun r => ~ live r) rs.
Proof.
  unfold live_count. split.
  - intros Hn. apply Forall_forall. intros r Hr Hl.
    assert (r ∈ filter live rs) as Hin by (by apply list_elem_of_filter).
    destruct (filter live rs); [by apply not_elem_of_nil in Hin|done].
  - induction 1 as [|r rs Hr _ IH]; [done|]. by rewrite filter_cons, decide_False.
Qed.

Lemma pool_work_none rs : Forall (fun r => ~ live r) rs -> pool_work rs = 0.
Proof.
  induction 1 as [|r rs Hr _ IH]; [done|]. cbn. fold (pool_work rs).
  rewrite IH. unfold work. by rewrite decide_False.
Qed.

Lemma work_pos r : slot_wf r -> live r -> phase r <> KLLM_PHASE_DONE -> 0 < work r.
Proof.
  intros Hwf Hl Hph. destruct (proj1 Hwf Hl) as (_ & _ & _ & _ & Hb). unfold work.
  rewrite decide_True by done. destruct (phase r); [lia..|done].
Qed.

Lemma work_nonneg r : slot_wf r -> 0 <= work r.
Proof.
  intros Hwf. destruct (decide (live r)) as [Hl|Hl].
  - destruct (decide (phase r = KLLM_PHASE_DONE)) as [Hd|Hd]; [|by apply Z.lt_le_incl, work_pos].
    unfold work. by rewrite decide_True, Hd.
  - unfold work. by rewrite decide_False.
Qed.

Lemma pool_work_nonneg rs : Forall slot_wf rs -> 0 <= pool_work rs.
Proof.
  induction 1 as [|r rs Hr _ IH]; [done|]. cbn. fold (pool_work rs).
  pose proof (work_nonneg r Hr). lia.
Qed.

Lemma pool_work_empty rs :
  Forall slot_wf rs -> Forall (fun r => live r -> phase r <> KLLM_PHASE_DONE) rs ->
  pool_work rs <= 0 -> Forall (fun r => ~ live r) rs.
Proof.
  induction 1 as [|r rs Hr Hrs IH]; intros Hset Hw; [constructor|].
  apply Forall_cons in Hset as [Hd Hset]. cbn in Hw. fold (pool_work rs) in Hw.
  pose proof (work_nonneg r Hr). pose proof (pool_work_nonneg rs Hrs). constructor.
  - intros Hl. pose proof (work_pos r Hr Hl (Hd Hl)). lia.
  - apply IH; [done|lia].
Qed.

Lemma advanced_fit budget rs rs' :
  Forall2 advanced rs rs' -> Forall (fun r => live r -> prompt_len r <= budget) rs ->
  Forall (fun r => live r -> prompt_len r <= budget) rs'.
Proof.
  induction 1 as [|r r' rs rs' (Hl & Hp & _) _ IH]; intros Hf; [constructor|].
  apply Forall_cons in Hf as [Hr Hf]. constructor; [|auto]. rewrite Hp. auto.
Qed.

Section progress.
Context {St : Type} {INF : Inference St} `{KL : KernelLib}.
Implicit Types (s : kllm_batch_scheduler St).

Lemma iterations_cons s env envs :
  iterations s (env :: envs) =
  exec_bind (kllm_batch_step env s) (fun '(n, s) =>
  exec_bind (iterations s envs) (fun '(ns, s) => Done (n :: ns, s))).
Proof. done. Qed.

(** C11. A pool without a GPU in which every prompt fits the prefill budget
    drains: after as many iterations as [pool_work] counts (for each live
    request, the places left in its sequence and at most three more) the
    scheduler is idle, whatever the inference answers.  Every iteration
    terminates and is the one of the specification, so that the tokens are those
    that the inference answered; the iterations return the numbers of tokens, the
    device has been offered all words of all outcomes in order (the tokens, and an
    end of sequence for each completed request) and kept what it had room for, and
    the statistics count them. *)
Theorem scheduler_drains s envs :
  pool_wf s -> settled s -> has_gpu (infer s) = false -> Forall stacks_ok envs ->
  0 < max_batch_size (cfg s) ->
  0 <= prefill_budget (cfg s) < 2 ^ 32 - KLLM_MAX_SEQ_LEN -> prompts_fit s ->
  pool_work (requests s) <= len envs ->
  exists oss s', iterations s envs = Done (tokens_in <$> oss, s') /\ kllm_batch_idle s' = true /\
    pool_wf s' /\ history s envs oss s' /\
    resp_contents (dev s') =
      resp_push (resp_mask (dev s)) (resp_contents (dev s)) (all_words (concat oss)) /\
    counted (tokens_in (concat oss)) (ends_in (concat oss)) (bstats s) (bstats s').
Proof.
  intros Hwf Hset Hgpu Henv Hmb Hbud Hfit. revert s Hwf Hset Hgpu Hmb Hbud Hfit.
  induction Henv as [|env envs Hk Henv IH]; intros s Hwf Hset Hgpu Hmb Hbud Hfit Hwork.
  { pose proof (pool_work_empty _ (pw_requests _ Hwf) Hset Hwork) as Hnone.
    exists [], s. split; [done|]. split.
    { unfold kllm_batch_idle. rewrite (pw_active _ Hwf), (proj2 (live_count_zero _) Hnone). done. }
    split; [done|]. split; [constructor|]. split; [by rewrite resp_push_nil|apply counted_refl]. }
  pose proof (batch_step_run env s Hwf Hk ltac:(lia) Hbud) as Hrun. rewrite Hgpu in Hrun.
  apply yields_false in Hrun as ([n s1] & Hrun & os & -> & _ & Hit1 & [Hwf1 Hset1 Hcfg Hmask Hgpu1 Hadv Hlt]).
  assert (pool_work (requests s1) <= len envs) as Hwork1.
  { destruct (decide (live_count (requests s) = 0)) as [Hz|Hz].
    - pose proof (pool_work_none _ (proj1 (live_count_zero _) Hz)).
      pose proof (pool_work_le _ _ Hadv). lia.
    - specialize (Hlt Hset Hz Hmb Hfit). cbn [length] in Hwork. lia. }
  destruct (IH s1) as (oss & s' & Hit & Hidle & Hwf' & Hhist & Hdev2 & Hcnt2);
    rewrite ?Hcfg; [done|done|congruence|done|done| |done|].
  { unfold prompts_fit. rewrite Hcfg. by eapply advanced_fit. }
  exists (os :: oss), s'. rewrite iterations_cons, Hrun. cbn [exec_bind]. rewrite Hit.
  split; [done|]. split; [done|]. split; [done|]. split; [by econstructor|].
  destruct Hit1 as (_ & _ & _ & _ & _ & Hdev & Hcnt). cbn [concat].
  rewrite all_words_app, tokens_in_app, ends_in_app.
  split; [|by eapply counted_trans]. by rewrite Hdev2, Hmask, Hdev, resp_push_app.
Qed.

(** ** A prompt above the budget *)

(** Nothing decodes, and the first prompt that waits is above the budget. *)
Definition head_blocked s : Prop :=
  phase_slots KLLM_PHASE_DECODE (requests s) = [] /\
  exists i q r, phase_slots KLLM_PHASE_PREFILL (requests s) = i :: q /\
    requests s !! Z.to_nat i = Some r /\ prefill_budget (cfg s) < prompt_len r.

Lemma moved_nil rs rs' : moved [] rs rs' -> rs' = rs.
Proof.
  intros [Hl Hm]. apply list_eq_same_length with (length rs); [done|done|].
  intros i r' r Hi Hr' Hr. specialize (Hm (Z.of_nat i) r ltac:(lia)).
  rewrite Nat2Z.id in Hm. specialize (Hm Hr). rewrite decide_False in Hm by apply not_elem_of_nil.
  congruence.
Qed.

(** Retirement finds nothing in a settled pool. *)
Lemma retire_settled s :
  pool_wf s -> settled s ->
  retire_phase s = Some (set_active (set_requests s (requests s)) (active_count s)).
Proof.
  intros Hwf Hset. unfold retire_phase.
  edestruct (for_range_rule (R := unit) (fun _ y => y = (requests s, active_count s))
    (fun o => o = inl (requests s, active_count s))) as (o & -> & ->).
  - pose proof (pw_slots _ Hwf). lia.
  - done.
  - intros i y Hi ->. pose proof (pw_slots _ Hwf).
    destruct (lookup_lt_is_Some_2 (requests s) (Z.to_nat i)) as [r Hr]; [lia|].
    rewrite arr_get_lookup, Hr by lia. cbn [mbind option_bind].
    rewrite finished_test, bool_decide_eq_false_2; [by eexists|].
    intros [Hl Hd]. unfold settled in Hset. rewrite Forall_lookup in Hset. by apply (Hset _ _ Hr).
  - by intros y ->.
  - done.
Qed.

Lemma blocked_step s env :
  pool_wf s -> settled s -> 0 <= max_batch_size (cfg s) ->
  0 <= prefill_budget (cfg s) < 2 ^ 32 - KLLM_MAX_SEQ_LEN -> head_blocked s ->
  exists s', kllm_batch_step env s = Done (0, s') /\ requests s' = requests s /\ dev s' = dev s /\
    cfg s' = cfg s /\ pool_wf s' /\ active_count s' = active_count s.
Proof.
  intros Hwf Hset Hmb Hbud (Hnone & i & q & r & Hq & Hr & Hbig). unfold kllm_batch_step.
  destruct (rebuild_ok s Hwf) as (pq & pc & dq & dc & -> & Hwf1 & Hq1). cbn [exec_of exec_bind].
  set (s1 := set_stats _ _). assert (pool_wf s1) as Hw1 by (by apply set_stats_same).
  destruct (prefill_ok s1 Hw1 Hq1 Hbud) as (s2 & -> & Hw2 & Hc2 & _ & _ & Hd2 & _ & Hmv).
  change (requests s1) with (requests s) in Hmv. change (cfg s1) with (cfg s) in Hmv.
  rewrite Hq in Hmv. cbn [prompt_lens fmap list_fmap within_budget] in Hmv. rewrite Hr in Hmv.
  cbn [default] in Hmv. change (Datatypes.id r) with r in Hmv.
  rewrite (proj2 (Z.ltb_lt _ _)) in Hmv by lia. cbn [take] in Hmv. apply moved_nil in Hmv.
  cbn [exec_of exec_bind].
  destruct (rebuild_ok s2 Hw2) as (pq2 & pc2 & dq2 & dc2 & -> & Hw3 & _ & _ & Hdc & _).
  cbn [exec_of exec_bind]. change (requests (set_queues s2 pq2 pc2 dq2 dc2)) with (requests s2) in Hdc.
  change (decode_count (set_queues s2 pq2 pc2 dq2 dc2)) with dc2 in *.
  change (cfg (set_queues s2 pq2 pc2 dq2 dc2)) with (cfg s2).
  rewrite Hmv, Hnone in Hdc. change (len []) with 0 in Hdc. subst dc2. rewrite Hc2.
  change (cfg s1) with (cfg s).
  replace (if 0 <? max_batch_size (cfg s) then 0 else max_batch_size (cfg s)) with 0 by (case_cond; lia).
  change (Z.to_nat 0) with O. cbn [decode_phase exec_bind]. set (s4 := set_stats _ _).
  assert (pool_wf s4) as Hw4 by (by apply set_stats_same).
  rewrite (retire_settled s4 Hw4) by (unfold settled; change (requests s4) with (requests s2); by rewrite Hmv).
  cbn [exec_of exec_bind]. eexists. split; [done|]. cbn.
  split; [done|]. split; [by rewrite Hd2|]. split; [by rewrite Hc2|]. split.
  - destruct Hw4. by split.
  - by rewrite (pw_active _ Hw2), Hmv, (pw_active _ Hwf).
Qed.

(** The prefill loop stops at the first prompt that does not fit the budget.
    When that prompt is above the whole budget and nothing decodes, no number of
    iterations changes any request or writes to the device: the prompt, and every
    prompt behind it, waits forever, and the scheduler is never idle. *)
Theorem oversized_prompt_blocks s envs :
  pool_wf s -> settled s -> 0 <= max_batch_size (cfg s) ->
  0 <= prefill_budget (cfg s) < 2 ^ 32 - KLLM_MAX_SEQ_LEN -> head_blocked s ->
  exists s', iterations s envs = Done (replicate (length envs) 0, s') /\
    requests s' = requests s /\ dev s' = dev s /\ kllm_batch_idle s' = false.
Proof.
  intros Hwf Hset Hmb Hbud Hb. revert s Hwf Hset Hmb Hbud Hb.
  induction envs as [|env envs IH]; intros s Hwf Hset Hmb Hbud Hb.
  { exists s. split; [done|]. split; [done|]. split; [done|].
    destruct Hb as (_ & i & q & r & Hq & Hr & _). unfold kllm_batch_idle.
    rewrite (pw_active _ Hwf). apply Z.eqb_neq. rewrite live_count_zero, Forall_lookup.
    intros Hdead. apply (Hdead _ _ Hr).
    assert (i ∈ phase_slots KLLM_PHASE_PREFILL (requests s)) as (_ & r' & Hr' & Hl & _)%phase_slots_elem
      by (rewrite Hq; set_solver).
    congruence. }
  destruct (blocked_step s env Hwf Hset Hmb Hbud Hb) as (s1 & Hrun & Hrs & Hd & Hc & Hwf1 & _).
  destruct (IH s1) as (s' & Hit & Hrs' & Hd' & Hidle); rewrite ?Hc; try done.
  - unfold settled. by rewrite Hrs.
  - unfold head_blocked. by rewrite Hrs, Hc.
  - exists s'. rewrite iterations_cons, Hrun. cbn [exec_bind]. rewrite Hit. cbn [exec_bind].
    split; [done|]. split; [congruence|]. split; [congruence|done].
Qed.

End progress.

(** ** Runs *)

#[local] Existing Instance linux_kernel_lib.
#[local] Existing Instance demo_sha.
#[local] Existing Instance demo_libm.
#[local] Existing Instance demo_avx512.
#[local] Existing Instance demo_backends.
#[local] Existing Instance demo_inference.

Definition demo_env : Z -> Z * list Z := fun _ => (0, zeroed 256).

Lemma demo_envs_ok n : Forall stacks_ok (replicate n demo_env).
Proof. apply Forall_replicate. intros k. reflexivity. Qed.

Lemma demo_pool_settled : settled demo_pool.
Proof.
  apply Forall_cons_2; [intros _; discriminate|]. apply Forall_singleton. intros Hl. by destruct Hl.
Qed.

Lemma scheduler_drains_witness :
  exists oss s', iterations demo_pool (replicate (Z.to_nat 32769) demo_env)
      = Done (tokens_in <$> oss, s') /\ kllm_batch_idle s' = true.
Proof.
  destruct (scheduler_drains demo_pool (replicate (Z.to_nat 32769) demo_env) demo_pool_wf demo_pool_settled
    eq_refl (demo_envs_ok _)) as (oss & s' & Hrun & Hidle & _).
  - reflexivity.
  - vm_compute. split; [discriminate|reflexivity].
  - apply Forall_cons_2; [|apply Forall_singleton]; intros _; vm_compute; discriminate.
  - rewrite length_replicate. vm_compute. discriminate.
  - exists oss, s'. split; [exact Hrun|exact Hidle].
Defined.

(** The same pool with a budget of one token. *)
Definition starved_pool : kllm_batch_scheduler (server (A := kllm_arena)) :=
  Scheduler (BatchConfig 8 1 2 2) demo_state demo_dispatch
    [waiting_request; free_request] 2 1 8 (zeroed 2) 0 (zeroed 2) 0
    (BatchStats 1 0 0 0 0 0 0 0) (resp_dev 4).

Lemma oversized_prompt_blocks_witness :
  exists s', iterations starved_pool (replicate 5 demo_env) = Done ([0; 0; 0; 0; 0], s') /\
    kllm_batch_idle s' = false.
Proof.
  destruct (oversized_prompt_blocks starved_pool (replicate 5 demo_env)) as (s' & Hrun & _ & _ & Hidle).
  - destruct demo_pool_wf. split; assumption.
  - exact demo_pool_settled.
  - vm_compute. discriminate.
  - vm_compute. split; [discriminate|reflexivity].
  - split; [reflexivity|]. exists 0, [], waiting_request. split; [reflexivity|]. split; reflexivity.
  - exists s'. split; [exact Hrun|exact Hidle].
Defined.
