(* ===== verification/Lifetimes.v ===== *)
(** * Creation and destruction of the contexts

    Models what the create and destroy functions of the userspace components do
    to the heap: [kllm_response.c], [dispatch_policy.c], [decode_loop.c],
    [cache_index.c], [nvme_ep_wavefront.c], [gpu_attention.c] and
    [batch_scheduler.c].  The values that they build are those of the files of
    the components; here each is kept with the addresses of its blocks.

    The heap is the set of allocated blocks.  [malloc] is a parameter that may
    fail at any call and otherwise returns a block that is not in use; [free] of
    a block that is not allocated is undefined, of a null pointer has no effect.

    The class [Lifecycle] states what a pair of functions promises: a creation
    that fails leaves the heap alone, one that succeeds adds the blocks of the
    object, and the destruction takes exactly these away.  Every component has
    an instance, and so have all of them together ([ctx_create] and
    [ctx_destroy]).  A program that creates and destroys contexts in any order
    ([ctx_run]) is proved against the class. *)

From Stdlib Require Import ZArith Lia SpecFloat.
From stdpp Require Import base numbers list gmap sets infinite.
From S2P Require Import Prelude Floats TokenRing Chardev BlockFormat Arena CacheIndex Dispatch Response Wavefront Gpu InferGpu Attention InferCpu Sampling Decode Scheduler.

#[local] Open Scope Z_scope.

(** ** The heap *)

(** [calls] counts the calls of [malloc], so that it can fail at any of them. *)
Record heap : Type := Heap {
  calls : nat;
  blocks : gset Z;
}.

Definition malloc_law (malloc : nat -> gset Z -> option Z) : Prop :=
  forall n h a, malloc n h = Some a -> a ∉ h.

(** [free], of a pointer that may be null. *)
Definition free (p : option Z) (h : heap) : option heap :=
  match p with
  | None => Some h
  | Some a => if decide (a ∈ blocks h) then Some (Heap (calls h) (blocks h ∖ {[a]})) else None
  end.

Definition free_list (ps : list (option Z)) (h : heap) : option heap :=
  foldl (fun h p => h ← h; free p h) (Some h) ps.

Definition is_null (p : option Z) : bool := match p with None => true | Some _ => false end.

(** The blocks behind a pointer, and behind a list of them. *)
Definition block_of (p : option Z) : gset Z := match p with None => ∅ | Some a => {[a]} end.

Definition pointed (ps : list (option Z)) : gset Z := ⋃ (block_of <$> ps).

Section heap.
Context (malloc : nat -> gset Z -> option Z).

Definition alloc (h : heap) : option Z * heap :=
  match malloc (calls h) (blocks h) with
  | None => (None, Heap (S (calls h)) (blocks h))
  | Some a => (Some a, Heap (S (calls h)) ({[a]} ∪ blocks h))
  end.

(** ** The components *)

(** *** Response *)

Record kllm_response_ctx : Type := ResponseCtx { rc_self : Z; rc_fd : Z }.

Definition kllm_response_create (chardev_fd : Z) (h : heap) : option kllm_response_ctx * heap :=
  let '(ctx, h) := alloc h in
  match ctx with
  | None => (None, h)
  | Some a => (Some (ResponseCtx a chardev_fd), h)
  end.

Definition kllm_response_destroy (ctx : option kllm_response_ctx) (h : heap) : option heap :=
  free (rc_self <$> ctx) h.

(** *** Dispatch, decode and the GPU: one block each *)

(** A context with the address of its block. *)
Definition boxed (T : Type) : Type := Z * T.

Definition box_create {T} (build : bool -> option T) (h : heap) : option (boxed T) * heap :=
  let '(ctx, h) := alloc h in
  match ctx, build (negb (is_null ctx)) with
  | Some a, Some v => (Some (a, v), h)
  | _, _ => (None, h)
  end.

Definition dispatch_create (cfg : kllm_dispatch_config) (h : heap)
    : option (boxed kllm_dispatch_ctx) * heap :=
  box_create (fun ok => kllm_dispatch_create ok cfg) h.

Definition decode_create {St} (infer : St) (dispatch : kllm_dispatch_ctx) (dev : kllm_device)
    (h : heap) : option (boxed (kllm_decode_ctx St)) * heap :=
  box_create (fun ok => kllm_decode_create ok infer dispatch dev) h.

Definition gpu_create (has_ze has_cuda has_hip : bool) (h : heap) : option (boxed kllm_gpu_ctx) * heap :=
  box_create (fun ok => kllm_gpu_create ok has_ze has_cuda has_hip) h.

Definition kllm_dispatch_destroy (ctx : option (boxed kllm_dispatch_ctx)) (h : heap) : option heap :=
  free (fst <$> ctx) h.

Definition kllm_decode_destroy {St} (ctx : option (boxed (kllm_decode_ctx St))) (h : heap)
    : option heap :=
  free (fst <$> ctx) h.

Definition kllm_gpu_destroy (ctx : option (boxed kllm_gpu_ctx)) (h : heap) : option heap :=
  match ctx with
  | None => Some h
  | Some c => free (Some (fst c)) h
  end.

(** *** Cache index *)

Record index_object : Type := IndexObject {
  io_self : Z;
  io_entries : option Z;
  io_value : kllm_cache_index kllm_arena;
}.

Definition index_create (capacity : Z) (arena : kllm_arena) (h : heap)
    : option (option index_object * heap) :=
  if negb (Z.land capacity (u32 (capacity - 1)) =? 0) then Some (None, h)
  else
    let '(idx, h) := alloc h in
    match idx with
    | None => Some (None, h)
    | Some a =>
        let '(entries, h) := alloc h in
        match entries with
        | None => h ← free idx h; Some (None, h)
        | Some e =>
            v ← kllm_index_create true true capacity arena;
            Some (match v with None => None | Some v => Some (IndexObject a (Some e) v) end, h)
        end
    end.

Definition kllm_index_destroy (idx : option index_object) (h : heap) : option heap :=
  match idx with
  | None => Some h
  | Some o => h ← free (io_entries o) h; free (Some (io_self o)) h
  end.

(** *** Wavefronts *)

Record wavefront_object : Type := WavefrontObject {
  wo_self : Z;
  wo_path : option Z;
  wo_value : kllm_wavefront_ctx;
}.

(** [strdup] allocates, and its result is not checked. *)
Definition wavefront_create (nvme_ep_dev : list Z) (h : heap) : option wavefront_object * heap :=
  let '(ctx, h) := alloc h in
  match ctx with
  | None => (None, h)
  | Some a =>
      let '(path, h) := alloc h in
      ((fun v => WavefrontObject a path v) <$>
         kllm_wavefront_create true (negb (is_null path)) nvme_ep_dev, h)
  end.

Definition kllm_wavefront_destroy (ctx : option wavefront_object) (h : heap) : option heap :=
  match ctx with
  | None => Some h
  | Some c => h ← free (wo_path c) h; free (Some (wo_self c)) h
  end.

(** *** Batch scheduler *)

(** The token buffers of the slots, behind the pointer to the slots. *)
Record batch_object : Type := BatchObject {
  bo_self : Z;
  bo_requests : option Z;
  bo_tokens : list (option Z);
  bo_prefill : option Z;
  bo_decode : option Z;
}.

Definition kllm_batch_destroy (sched : option batch_object) (h : heap) : option heap :=
  match sched with
  | None => Some h
  | Some s =>
      h ← (if is_null (bo_requests s) then Some h else free_list (bo_tokens s) h);
      h ← free (bo_requests s) h;
      h ← free (bo_prefill s) h;
      h ← free (bo_decode s) h;
      free (Some (bo_self s)) h
  end.

Definition batch_create (max_requests : Z) (h : heap) : option (option batch_object * heap) :=
  let '(s, h) := alloc h in
  match s with
  | None => Some (None, h)
  | Some a =>
      let '(requests, h) := alloc h in
      let '(prefill, h) := alloc h in
      let '(decode, h) := alloc h in
      let s := BatchObject a requests (replicate (Z.to_nat max_requests) None) prefill decode in
      if is_null requests || is_null prefill || is_null decode then
        h ← kllm_batch_destroy (Some s) h; Some (None, h)
      else Some (Some s, h)
  end.

End heap.

(** ** The interface *)

Class Lifecycle (malloc : nat -> gset Z -> option Z) (Args T : Type) : Type := {
  lc_ok : Args -> Prop;
  lc_wf : T -> Prop;
  lc_owned : T -> gset Z;
  lc_create : Args -> heap -> option (option T * heap);
  lc_destroy : option T -> heap -> option heap;
  lc_create_law args h : lc_ok args ->
    exists o h', lc_create args h = Some (o, h') /\
      match o with
      | None => blocks h' = blocks h
      | Some x => lc_wf x /\ lc_owned x ## blocks h /\ blocks h' = lc_owned x ∪ blocks h
      end;
  lc_destroy_law x h : lc_wf x -> lc_owned x ⊆ blocks h ->
    exists h', lc_destroy (Some x) h = Some h' /\ blocks h' = blocks h ∖ lc_owned x;
  lc_destroy_null h : lc_destroy None h = Some h;
}.

(** ** Lemmas on the heap *)

Lemma free_ok p h :
  block_of p ⊆ blocks h -> exists h', free p h = Some h' /\ blocks h' = blocks h ∖ block_of p.
Proof.
  destruct p as [a|]; cbn; intros Hin.
  - rewrite decide_True by set_solver. by eexists.
  - eexists. split; [done|]. set_solver.
Qed.

Lemma pointed_cons p ps : pointed (p :: ps) = block_of p ∪ pointed ps.
Proof. done. Qed.

Lemma pointed_null n : pointed (replicate n None) = ∅.
Proof. induction n as [|n IH]; [done|]. cbn [replicate]. rewrite pointed_cons, IH. set_solver. Qed.

Lemma pointed_app ps qs : pointed (ps ++ qs) = pointed ps ∪ pointed qs.
Proof.
  induction ps as [|p ps IH]; cbn [app]; [change (pointed []) with (∅ : gset Z); set_solver|].
  rewrite !pointed_cons, IH. set_solver.
Qed.

(** No block is pointed to twice. *)
Fixpoint distinct (ps : list (option Z)) : Prop :=
  match ps with [] => True | p :: ps => block_of p ## pointed ps /\ distinct ps end.

Lemma distinct_nulls n ps : distinct ps -> distinct (replicate n None ++ ps).
Proof. intros Hps. induction n as [|n IH]; [done|]. cbn. split; [set_solver|done]. Qed.

Lemma free_list_none ps : foldl (fun h p => h ← h; free p h) None ps = None.
Proof. by induction ps. Qed.

(** Freeing distinct blocks that are all allocated. *)
Lemma free_list_ok ps h :
  distinct ps -> pointed ps ⊆ blocks h ->
  exists h', free_list ps h = Some h' /\ blocks h' = blocks h ∖ pointed ps.
Proof.
  revert h. induction ps as [|p ps IH]; intros h.
  { intros _ _. exists h. split; [done|]. change (pointed []) with (∅ : gset Z). set_solver. }
  rewrite pointed_cons. intros [Hd Hps] Hin.
  destruct (free_ok p h) as (h1 & Hf & Hb); [set_solver|].
  unfold free_list. cbn [foldl mbind option_bind]. rewrite Hf.
  destruct (IH h1 Hps) as (h' & Hrun & Hb'); [set_solver|]. exists h'. split; [exact Hrun|].
  rewrite Hb', Hb. set_solver.
Qed.

Lemma free_list_app ps qs h : free_list (ps ++ qs) h = h ← free_list ps h; free_list qs h.
Proof.
  unfold free_list. rewrite foldl_app. destruct (foldl _ _ ps); [done|]. apply free_list_none.
Qed.

Lemma free_list_four p q r t h :
  free_list [p; q; r; t] h = h ← free p h; h ← free q h; h ← free r h; free t h.
Proof.
  unfold free_list. cbn. destruct (free p h) as [h1|]; [|done]. cbn.
  destruct (free q h1) as [h2|]; [|done]. cbn. by destruct (free r h2).
Qed.

(** ** The components implement the interface *)

Section instances.
Context (malloc : nat -> gset Z -> option Z) (Hmalloc : malloc_law malloc).

Lemma alloc_ok h :
  let '(p, h') := alloc malloc h in
  block_of p ## blocks h /\ blocks h' = block_of p ∪ blocks h.
Proof.
  unfold alloc. destruct (malloc (calls h) (blocks h)) as [a|] eqn:Ha; cbn; [|set_solver].
  apply Hmalloc in Ha. set_solver.
Qed.

(** An object of one block. *)
Lemma box_create_ok {T} (build : bool -> option T) h :
  is_Some (build true) ->
  let '(o, h') := box_create malloc build h in
  match o with
  | None => blocks h' = blocks h
  | Some x => block_of (Some (fst x)) ## blocks h /\ blocks h' = block_of (Some (fst x)) ∪ blocks h
  end.
Proof.
  intros [v Hv]. unfold box_create. pose proof (alloc_ok h) as Ha.
  destruct (alloc malloc h) as [[a|] h']; cbn in *.
  - by rewrite Hv.
  - set_solver.
Qed.

#[export, refine] Instance response_life : Lifecycle malloc Z kllm_response_ctx := {|
  lc_ok _ := True;
  lc_wf _ := True;
  lc_owned x := block_of (Some (rc_self x));
  lc_create fd h := Some (kllm_response_create malloc fd h);
  lc_destroy := kllm_response_destroy;
|}.
Proof.
  - intros fd h _. unfold kllm_response_create. pose proof (alloc_ok h) as Ha.
    destruct (alloc malloc h) as [[a|] h']; do 2 eexists; (split; [done|]); [done|].
    cbn in Ha. set_solver.
  - intros x h _ Hin. by apply free_ok.
  - done.
Defined.

#[export, refine] Instance dispatch_life :
    Lifecycle malloc kllm_dispatch_config (boxed kllm_dispatch_ctx) := {|
  lc_ok _ := True;
  lc_wf _ := True;
  lc_owned x := block_of (Some (fst x));
  lc_create cfg h := Some (dispatch_create malloc cfg h);
  lc_destroy := kllm_dispatch_destroy;
|}.
Proof.
  - intros cfg h _. unfold dispatch_create. pose proof (box_create_ok (fun ok => kllm_dispatch_create ok cfg) h) as Hb.
    destruct (box_create malloc _ h) as [o h']. exists o, h'. split; [done|].
    destruct o; [split; [done|]|]; apply Hb; by eexists.
  - intros x h _ Hin. by apply free_ok.
  - done.
Defined.

#[export, refine] Instance decode_life {St} :
    Lifecycle malloc (St * kllm_dispatch_ctx * kllm_device) (boxed (kllm_decode_ctx St)) := {|
  lc_ok _ := True;
  lc_wf _ := True;
  lc_owned x := block_of (Some (fst x));
  lc_create '(st, d, dev) h := Some (decode_create malloc st d dev h);
  lc_destroy := kllm_decode_destroy;
|}.
Proof.
  - intros [[st d] dev] h _. unfold decode_create.
    pose proof (box_create_ok (fun ok => kllm_decode_create ok st d dev) h) as Hb.
    destruct (box_create malloc _ h) as [o h']. exists o, h'. split; [done|].
    destruct o; [split; [done|]|]; apply Hb; by eexists.
  - intros x h _ Hin. by apply free_ok.
  - done.
Defined.

(** The arguments are the runtime libraries that are found. *)
#[export, refine] Instance gpu_life :
    Lifecycle malloc (bool * bool * bool) (boxed kllm_gpu_ctx) := {|
  lc_ok _ := True;
  lc_wf _ := True;
  lc_owned x := block_of (Some (fst x));
  lc_create '(ze, cuda, hip) h := Some (gpu_create malloc ze cuda hip h);
  lc_destroy := kllm_gpu_destroy;
|}.
Proof.
  - intros [[ze cuda] hip] h _. unfold gpu_create.
    pose proof (box_create_ok (fun ok => kllm_gpu_create ok ze cuda hip) h) as Hb.
    destruct (box_create malloc _ h) as [o h']. exists o, h'. split; [done|].
    destruct o; [split; [done|]|]; apply Hb; by eexists.
  - intros x h _ Hin. by apply free_ok.
  - done.
Defined.

#[export, refine] Instance index_life : Lifecycle malloc (Z * kllm_arena) index_object := {|
  lc_ok '(cap, a) := fits 32 cap /\ ba_wf a;
  lc_wf x := distinct [io_entries x; Some (io_self x)];
  lc_owned x := pointed [io_entries x; Some (io_self x)];
  lc_create '(cap, a) h := index_create malloc cap a h;
  lc_destroy := kllm_index_destroy;
|}.
Proof.
  - intros [cap a] h [Hcap Ha]. unfold index_create.
    destruct (index_create_ok true true cap a Hcap Ha) as (v & Hv & Hr).
    destruct (Z.eqb_spec (Z.land cap (wrap 32 (cap - 1))) 0) as [Hland|Hland]; cbn [negb];
      [|by do 2 eexists].
    pose proof (alloc_ok h) as H1. destruct (alloc malloc h) as [[self|] h1]; cycle 1.
    { do 2 eexists. split; [done|]. destruct H1 as [_ ->]. cbn. set_solver. }
    pose proof (alloc_ok h1) as H2. destruct H1 as [H1 Hb1].
    destruct (alloc malloc h1) as [[es|] h2]; destruct H2 as [H2 Hb2].
    + rewrite Hv. cbn [mbind option_bind]. destruct v as [v|]; [|naive_solver].
      do 2 eexists. split; [done|]. cbn [io_entries io_self].
      rewrite !pointed_cons. cbn [distinct]. rewrite pointed_cons. change (pointed []) with (∅ : gset Z).
      split; [set_solver|]. split; [set_solver|]. rewrite Hb2, Hb1. set_solver.
    + destruct (free_ok (Some self) h2) as (h3 & -> & Hb3); [set_solver|].
      do 2 eexists. split; [done|]. cbn in *. rewrite Hb3, Hb2, Hb1. set_solver.
  - intros x h Hd Hin. exact (free_list_ok [io_entries x; Some (io_self x)] h Hd Hin).
  - done.
Defined.

#[export, refine] Instance wavefront_life : Lifecycle malloc (list Z) wavefront_object := {|
  lc_ok _ := True;
  lc_wf x := distinct [wo_path x; Some (wo_self x)];
  lc_owned x := pointed [wo_path x; Some (wo_self x)];
  lc_create path h := Some (wavefront_create malloc path h);
  lc_destroy := kllm_wavefront_destroy;
|}.
Proof.
  - intros path h _. unfold wavefront_create.
    pose proof (alloc_ok h) as H1. destruct (alloc malloc h) as [[self|] h1]; cycle 1.
    { do 2 eexists. split; [done|]. destruct H1 as [_ ->]. cbn. set_solver. }
    pose proof (alloc_ok h1) as H2. destruct H1 as [H1 Hb1].
    destruct (alloc malloc h1) as [p h2]; destruct H2 as [H2 Hb2].
    do 2 eexists. split; [done|].
    cbn [kllm_wavefront_create negb fmap option_fmap option_map wo_path wo_self]. rewrite !pointed_cons. cbn [distinct]. rewrite pointed_cons. change (pointed []) with (∅ : gset Z).
    split; [set_solver|]. split; [set_solver|]. rewrite Hb2, Hb1. set_solver.
  - intros x h Hd Hin. exact (free_list_ok [wo_path x; Some (wo_self x)] h Hd Hin).
  - done.
Defined.

(** The blocks of a scheduler, in the order in which they are freed. *)
Definition batch_blocks (s : batch_object) : list (option Z) :=
  bo_tokens s ++ [bo_requests s; bo_prefill s; bo_decode s; Some (bo_self s)].

(** The token buffers are only reached through the slots. *)
Definition batch_object_wf (s : batch_object) : Prop :=
  distinct (batch_blocks s) /\ (bo_requests s = None -> pointed (bo_tokens s) = ∅).

Lemma free_list_nulls ps h : pointed ps = ∅ -> free_list ps h = Some h.
Proof.
  induction ps as [|[a|] ps IH]; intros Hp; [done|..]; rewrite pointed_cons in Hp; cbn in Hp.
  - set_solver.
  - apply IH. set_solver.
Qed.

Lemma batch_destroy_ok s h :
  batch_object_wf s -> pointed (batch_blocks s) ⊆ blocks h ->
  exists h', kllm_batch_destroy (Some s) h = Some h' /\
    blocks h' = blocks h ∖ pointed (batch_blocks s).
Proof.
  intros [Hd Hnull] Hin. destruct (free_list_ok (batch_blocks s) h Hd Hin) as (h' & Hrun & Hb).
  exists h'. split; [|done]. rewrite <- Hrun. unfold batch_blocks. rewrite free_list_app.
  unfold kllm_batch_destroy.
  assert ((if is_null (bo_requests s) then Some h else free_list (bo_tokens s) h) =
    free_list (bo_tokens s) h) as ->.
  { destruct (bo_requests s); cbn [is_null]; [done|]. by rewrite free_list_nulls by auto. }
  destruct (free_list (bo_tokens s) h) as [h1|]; [|done]. cbn [mbind option_bind].
  by rewrite !free_list_four.
Qed.

#[export, refine] Instance batch_life : Lifecycle malloc Z batch_object := {|
  lc_ok n := 0 <= n;
  lc_wf := batch_object_wf;
  lc_owned s := pointed (batch_blocks s);
  lc_create n h := batch_create malloc n h;
  lc_destroy := kllm_batch_destroy;
|}.
Proof.
  - intros n h _. unfold batch_create.
    pose proof (alloc_ok h) as H1. destruct (alloc malloc h) as [[self|] h1]; cycle 1.
    { do 2 eexists. split; [done|]. destruct H1 as [_ ->]. cbn. set_solver. }
    pose proof (alloc_ok h1) as H2. destruct (alloc malloc h1) as [r h2].
    pose proof (alloc_ok h2) as H3. destruct (alloc malloc h2) as [p h3].
    pose proof (alloc_ok h3) as H4. destruct (alloc malloc h3) as [d h4].
    destruct H1 as [H1 Hb1], H2 as [H2 Hb2], H3 as [H3 Hb3], H4 as [H4 Hb4].
    set (s := BatchObject self r (replicate (Z.to_nat n) None) p d).
    assert (pointed (batch_blocks s) = block_of r ∪ block_of p ∪ block_of d ∪ block_of (Some self)) as Hp.
    { unfold batch_blocks, s. cbn [bo_tokens bo_requests bo_prefill bo_decode bo_self].
      rewrite pointed_app, pointed_null, !pointed_cons. change (pointed []) with (∅ : gset Z). set_solver. }
    assert (batch_object_wf s) as Hwf.
    { split; [|intros _; apply pointed_null]. apply distinct_nulls. cbn [distinct].
      rewrite !pointed_cons. change (pointed []) with (∅ : gset Z). split_and!; set_solver. }
    assert (blocks h4 = pointed (batch_blocks s) ∪ blocks h) as Hb.
    { rewrite Hp, Hb4, Hb3, Hb2, Hb1. set_solver. }
    destruct (is_null r || is_null p || is_null d).
    + destruct (batch_destroy_ok s h4 Hwf) as (h5 & -> & Hb5); [set_solver|].
      do 2 eexists. split; [done|]. cbn. rewrite Hb5, Hb. rewrite Hp. set_solver.
    + do 2 eexists. split; [done|]. split; [done|]. split; [change (pointed (batch_blocks s) ## blocks h); rewrite Hp; set_solver|done].
  - intros x h. apply batch_destroy_ok.
  - done.
Defined.

End instances.

(** ** A program that uses the contexts *)

Section client.
Context (malloc : nat -> gset Z -> option Z) {St : Type}.

(** A context to create, with the arguments of its function. *)
Inductive request : Type :=
| NewResponse (chardev_fd : Z)
| NewDispatch (cfg : kllm_dispatch_config)
| NewDecode (infer : St) (dispatch : kllm_dispatch_ctx) (dev : kllm_device)
| NewGpu (has_ze has_cuda has_hip : bool)
| NewIndex (capacity : Z) (arena : kllm_arena)
| NewWavefront (nvme_ep_dev : list Z)
| NewBatch (max_requests : Z).

(** A context that has been created. *)
Inductive context : Type :=
| Response (ctx : kllm_response_ctx)
| Dispatch (ctx : boxed kllm_dispatch_ctx)
| DecodeCtx (ctx : boxed (kllm_decode_ctx St))
| Gpu (ctx : boxed kllm_gpu_ctx)
| Index (idx : index_object)
| Wavefront (ctx : wavefront_object)
| Batch (sched : batch_object).

Definition ctx_create (r : request) (h : heap) : option (option context * heap) :=
  match r with
  | NewResponse fd => let '(o, h) := kllm_response_create malloc fd h in Some (option_map Response o, h)
  | NewDispatch cfg => let '(o, h) := dispatch_create malloc cfg h in Some (option_map Dispatch o, h)
  | NewDecode infer d dev =>
      let '(o, h) := decode_create malloc infer d dev h in Some (option_map DecodeCtx o, h)
  | NewGpu ze cuda hip => let '(o, h) := gpu_create malloc ze cuda hip h in Some (option_map Gpu o, h)
  | NewIndex cap a => '(o, h) ← index_create malloc cap a h; Some (option_map Index o, h)
  | NewWavefront dev => let '(o, h) := wavefront_create malloc dev h in Some (option_map Wavefront o, h)
  | NewBatch n => '(o, h) ← batch_create malloc n h; Some (option_map Batch o, h)
  end.

Definition ctx_destroy (c : context) : heap -> option heap :=
  match c with
  | Response x => kllm_response_destroy (Some x)
  | Dispatch x => kllm_dispatch_destroy (Some x)
  | DecodeCtx x => kllm_decode_destroy (Some x)
  | Gpu x => kllm_gpu_destroy (Some x)
  | Index x => kllm_index_destroy (Some x)
  | Wavefront x => kllm_wavefront_destroy (Some x)
  | Batch x => kllm_batch_destroy (Some x)
  end.

(** A program creates contexts and destroys those that it holds, in any order;
    it keeps what a creation returns unless that is null. *)
Inductive ctx_call : Type :=
| Create (r : request)
| Destroy (i : nat).

Definition ctx_step (c : ctx_call) (st : list context * heap) : option (list context * heap) :=
  let '(held, h) := st in
  match c with
  | Create r => '(o, h) ← ctx_create r h; Some (option_list o ++ held, h)
  | Destroy i =>
      match held !! i with
      | None => Some st
      | Some x => h ← ctx_destroy x h; Some (delete i held, h)
      end
  end.

Fixpoint ctx_run (cs : list ctx_call) (st : list context * heap) : option (list context * heap) :=
  match cs with
  | [] => Some st
  | c :: cs => st ← ctx_step c st; ctx_run cs st
  end.

Fixpoint destroy_all (held : list context) (h : heap) : option heap :=
  match held with
  | [] => Some h
  | x :: held => h ← ctx_destroy x h; destroy_all held h
  end.

(** What a creation requires: the capacity of an index is a 32-bit number. *)
Definition request_ok (r : request) : Prop :=
  match r with
  | NewIndex cap a => fits 32 cap /\ ba_wf a
  | NewBatch n => 0 <= n
  | _ => True
  end.

Definition ctx_call_ok (c : ctx_call) : Prop := match c with Create r => request_ok r | Destroy _ => True end.

(** The blocks of a context. *)
Definition ctx_owned (c : context) : gset Z :=
  match c with
  | Response x => block_of (Some (rc_self x))
  | Dispatch x => block_of (Some (fst x))
  | DecodeCtx x => block_of (Some (fst x))
  | Gpu x => block_of (Some (fst x))
  | Index x => pointed [io_entries x; Some (io_self x)]
  | Wavefront x => pointed [wo_path x; Some (wo_self x)]
  | Batch x => pointed (batch_blocks x)
  end.

Definition context_wf (c : context) : Prop :=
  match c with
  | Index x => distinct [io_entries x; Some (io_self x)]
  | Wavefront x => distinct [wo_path x; Some (wo_self x)]
  | Batch x => batch_object_wf x
  | _ => True
  end.

Definition all_owned (held : list context) : gset Z := ⋃ (ctx_owned <$> held).

(** No two contexts share a block. *)
Fixpoint separate (held : list context) : Prop :=
  match held with [] => True | x :: held => ctx_owned x ## all_owned held /\ separate held end.

(** The heap is what the program started with and the blocks of the contexts
    that it holds. *)
Record holds (B : gset Z) (held : list context) (h : heap) : Prop := {
  ho_wf : Forall context_wf held;
  ho_separate : separate held;
  ho_fresh : all_owned held ## B;
  ho_blocks : blocks h = all_owned held ∪ B;
}.

#[local] Instance all_owned_proper : Proper (Permutation ==> eq) all_owned.
Proof.
  intros os os' Hp. unfold all_owned. induction Hp as [|o os os' _ IH|o1 o2 os|]; cbn in *; set_solver.
Qed.

Lemma all_owned_cons x held : all_owned (x :: held) = ctx_owned x ∪ all_owned held.
Proof. done. Qed.

#[local] Instance separate_proper : Proper (Permutation ==> iff) separate.
Proof.
  intros os os' Hp. induction Hp as [|o os os' Hp IH|o1 o2 os|os1 os2 os3 _ IH1 _ IH2]; cbn [separate].
  - done.
  - by rewrite IH, Hp.
  - rewrite !all_owned_cons. set_solver.
  - by rewrite IH1.
Qed.

Lemma union_fresh (X Y B : gset Z) :
  X ## Y ∪ B -> Y ## B -> X ## Y /\ X ∪ Y ## B /\ X ∪ (Y ∪ B) = X ∪ Y ∪ B.
Proof. set_solver. Qed.

Lemma holds_perm B held held' h : Permutation held held' -> holds B held h -> holds B held' h.
Proof.
  intros Hp [H1 H2 H3 H4]. split; [by rewrite <- Hp|by rewrite <- Hp|..]; by rewrite <- Hp.
Qed.

Context (Hmalloc : malloc_law malloc).

(** A creation by the law of its component. *)
Ltac create_of L args h Hok :=
  let o := fresh "o" in let h' := fresh "h" in let Hc := fresh "Hc" in let Ho := fresh "Ho" in
  destruct (lc_create_law (Lifecycle := L) args h Hok) as (o & h' & Hc & Ho);
  cbn in Hc |- *; simplify_eq; rewrite Hc; do 2 eexists; (split; [reflexivity|]); by destruct o.

(** The contexts together implement the interface of each of them. *)
#[export, refine] Instance context_life : Lifecycle malloc request context := {|
  lc_ok := request_ok;
  lc_wf := context_wf;
  lc_owned := ctx_owned;
  lc_create := ctx_create;
  lc_destroy o h := match o with None => Some h | Some c => ctx_destroy c h end;
|}.
Proof.
  - intros r h Hok. destruct r as [fd|cfg|infer d dev|ze cuda hip|cap a|dev|n].
    + create_of (response_life malloc Hmalloc) fd h Hok.
    + create_of (dispatch_life malloc Hmalloc) cfg h Hok.
    + create_of (decode_life (St := St) malloc Hmalloc) (infer, d, dev) h Hok.
    + create_of (gpu_life malloc Hmalloc) (ze, cuda, hip) h Hok.
    + create_of (index_life malloc Hmalloc) (cap, a) h Hok.
    + create_of (wavefront_life malloc Hmalloc) dev h Hok.
    + create_of (batch_life malloc Hmalloc) n h Hok.
  - intros [x|x|x|x|x|x|x] h Hwf Hin;
      [eapply (lc_destroy_law (Lifecycle := response_life malloc Hmalloc))
      |eapply (lc_destroy_law (Lifecycle := dispatch_life malloc Hmalloc))
      |eapply (lc_destroy_law (Lifecycle := decode_life malloc Hmalloc))
      |eapply (lc_destroy_law (Lifecycle := gpu_life malloc Hmalloc))
      |eapply (lc_destroy_law (Lifecycle := index_life malloc Hmalloc))
      |eapply (lc_destroy_law (Lifecycle := wavefront_life malloc Hmalloc))
      |eapply (lc_destroy_law (Lifecycle := batch_life malloc Hmalloc))]; done.
  - done.
Defined.

Lemma destroy_ok B x held h :
  holds B (x :: held) h -> exists h', ctx_destroy x h = Some h' /\ holds B held h'.
Proof.
  intros [Hwf [Hx Hsep] Hdis Hb]. apply Forall_cons in Hwf as [Hxwf Hwf].
  rewrite all_owned_cons in *.
  destruct (lc_destroy_law (Lifecycle := context_life) x h Hxwf) as (h' & Hd & Hb').
  { change (ctx_owned x ⊆ blocks h). set_solver. }
  change (blocks h' = blocks h ∖ ctx_owned x) in Hb'. exists h'. split; [exact Hd|].
  split; [done..|set_solver|]. rewrite Hb', Hb. set_solver.
Qed.

Lemma destroy_all_ok B held h :
  holds B held h -> exists h', destroy_all held h = Some h' /\ blocks h' = B.
Proof.
  revert h. induction held as [|x held IH]; intros h Hh.
  { exists h. split; [done|]. destruct Hh as [_ _ _ ->]. unfold all_owned. cbn. set_solver. }
  destruct (destroy_ok B x held h Hh) as (h1 & Hd & Hh1). cbn [destroy_all]. rewrite Hd. by apply IH.
Qed.

Lemma ctx_step_ok B c held h :
  ctx_call_ok c -> holds B held h ->
  exists held' h', ctx_step c (held, h) = Some (held', h') /\ holds B held' h'.
Proof.
  intros Hok Hh. destruct c as [r|i]; cbn [ctx_step].
  - destruct (lc_create_law (Lifecycle := context_life) r h Hok) as (o & h' & Hc & Ho).
    change (ctx_create r h = Some (o, h')) in Hc. rewrite Hc. do 2 eexists. split; [done|].
    destruct Hh as [H1 H2 H3 H4]. destruct o as [x|]; cbn [option_list app].
    + destruct Ho as (Hx & Hxd & Hxb). change (lc_owned x) with (ctx_owned x) in *.
      rewrite H4 in Hxd, Hxb. destruct (union_fresh _ _ _ Hxd H3) as (? & ? & Hu).
      split; rewrite ?all_owned_cons; [by constructor|done..|]. by rewrite Hxb.
    + split; [done..|]. by rewrite Ho.
  - destruct (held !! i) as [x|] eqn:Hi; [|by do 2 eexists].
    destruct (destroy_ok B x (delete i held) h) as (h' & Hd & Hh').
    { eapply holds_perm; [|done]. by apply delete_Permutation. }
    rewrite Hd. by do 2 eexists.
Qed.

Lemma ctx_run_ok B cs held h :
  Forall ctx_call_ok cs -> holds B held h ->
  exists held' h', ctx_run cs (held, h) = Some (held', h') /\ holds B held' h'.
Proof.
  intros Hok. revert held h. induction Hok as [|c cs Hc _ IH]; intros held h Hh; [by do 2 eexists|].
  destruct (ctx_step_ok B c held h Hc Hh) as (held1 & h1 & Hs & Hh1). cbn [ctx_run]. rewrite Hs. by apply IH.
Qed.

End client.

Arguments request : clear implicits.
Arguments context : clear implicits.
Arguments ctx_call : clear implicits.

(** C28. Lifetimes.  A program creates response, dispatch, decode, GPU, index,
    wavefront and batch contexts and destroys those that it holds, in any
    order.  Whichever allocations fail on the way, every call is defined (no
    block is freed that is not allocated), no block that was there before is
    freed, and when the contexts that are left are destroyed, in any order, the
    heap is the one that the program started with: no creation, failed or not,
    leaks a block, and each block is freed exactly once. *)
Theorem contexts_balanced {St} malloc (cs : list (ctx_call St)) h :
  malloc_law malloc -> Forall ctx_call_ok cs ->
  exists held h1, ctx_run malloc cs ([], h) = Some (held, h1) /\ blocks h ⊆ blocks h1 /\
    forall held', Permutation held' held ->
      exists h2, destroy_all held' h1 = Some h2 /\ blocks h2 = blocks h.
Proof.
  intros Hm Hok. destruct (ctx_run_ok malloc Hm (blocks h) cs [] h Hok) as (held & h1 & Hr & Hh).
  { split; [constructor|done|..]; unfold all_owned; cbn; set_solver. }
  exists held, h1. split; [done|]. split; [destruct Hh as [_ _ _ ->]; apply union_subseteq_r|].
  intros held' Hp.
  apply (destroy_all_ok malloc Hm). by eapply holds_perm; [symmetry|].
Qed.

(** ** A program *)

(** An allocator that fails at its seventh call. *)
Definition demo_malloc (n : nat) (h : gset Z) : option Z :=
  if Nat.eqb n 6 then None else Some (base.fresh h).

Lemma demo_malloc_ok : malloc_law demo_malloc.
Proof.
  intros n h a. unfold demo_malloc. case_match; [done|]. intros [= <-]. apply is_fresh.
Qed.

(** The fourth allocation of the scheduler fails. *)
Definition demo_calls : list (ctx_call unit) :=
  [Create (NewGpu false true false); Create (NewWavefront [47]); Destroy 1;
   Create (NewBatch 4); Create (NewDispatch (DispatchConfig 0 f32_zero 0));
   Create (NewResponse 3); Create (NewIndex 8 demo_arena)].

Lemma demo_held :
  (fun st => length (fst st)) <$> ctx_run demo_malloc demo_calls ([], Heap 0 {[100]}) = Some 4%nat.
Proof. vm_compute. reflexivity. Qed.

Lemma contexts_balanced_witness :
  exists held h1 h2, ctx_run demo_malloc demo_calls ([], Heap 0 {[100]}) = Some (held, h1) /\
    length held = 4%nat /\ destroy_all (reverse held) h1 = Some h2 /\ blocks h2 = {[100]}.
Proof.
  destruct (contexts_balanced demo_malloc demo_calls (Heap 0 {[100]}))
    as (held & h1 & Hc & _ & Hd).
  - exact demo_malloc_ok.
  - do 3 (apply Forall_cons_2; [exact I|]). apply Forall_cons_2; [by cbn|].
    do 2 (apply Forall_cons_2; [exact I|]).
    apply Forall_singleton. split; [unfold fits; lia|]. split; [apply demo_arena_wf|done].
  - destruct (Hd (reverse held)) as (h2 & Hrun & Hb); [apply reverse_Permutation|].
    exists held, h1, h2. split; [exact Hc|]. split; [|exact (conj Hrun Hb)].
    pose proof demo_held as Hl. rewrite Hc in Hl. injection Hl as Hl. exact Hl.
Defined.
