(* ===== verification/WeightLoader.v ===== *)
(** * The model weight loader

    Models [userspace/weights/weight_loader.c]: the sizes of the weight tensors,
    the key of each one, loading through one-block wavefronts, the progress
    counters, the accessors and destruction.  Strings are lists of bytes;
    [malloc] is a function from the number of a call to its result, the process
    heap the set of live allocations, and the world also records the
    descriptors that were submitted.

    The file proves that on a CPU-only configuration loading submits exactly one
    descriptor for each component of each layer, in order and to the place that
    the accessor returns, and none for the embedding table and the LM head,
    whose bytes it counts as loaded all the same; that destruction gives back
    every allocation; that loading to a GPU fails before
    it does anything; and that a model name of 255 bytes or more gives every
    component of every layer the same key. *)

From Stdlib Require Import ZArith Lia.
From stdpp Require Import base numbers list gmap.
From S2P Require Import Prelude Floats BlockFormat Wavefront Gpu.

#[local] Open Scope Z_scope.

(** ** Data *)

Definition COMPONENTS_PER_LAYER : Z := 6.

(** ["wq"], ["wk"], ["wv"], ["wo"], ["ffn_up"], ["ffn_down"] *)
Definition str_wq : list Z := [119; 113].
Definition str_wk : list Z := [119; 107].
Definition str_wv : list Z := [119; 118].
Definition str_wo : list Z := [119; 111].
Definition str_ffn_up : list Z := [102; 102; 110; 95; 117; 112].
Definition str_ffn_down : list Z := [102; 102; 110; 95; 100; 111; 119; 110].

Definition component_names : list (list Z) :=
  [str_wq; str_wk; str_wv; str_wo; str_ffn_up; str_ffn_down].

Record kllm_weight_config : Type := WeightConfig {
  model_name : list Z;
  wc_num_layers : Z;
  hidden_dim : Z;
  wc_num_heads : Z;
  wc_num_kv_heads : Z;
  wc_head_dim : Z;
  intermediate_dim : Z;
  wc_vocab_size : Z;
  load_to_gpu : bool;
}.

Record layer_weights : Type := LayerWeights {
  ptrs : list Z;
  sizes : list Z;
}.

Record kllm_weight_progress : Type := WeightProgress {
  layers_loaded : Z;
  layers_total : Z;
  bytes_loaded : Z;
  bytes_total : Z;
  complete : bool;
}.

(** Null pointers are 0; the last two fields are the addresses of the structure
    itself and of its array [layers]. *)
Record kllm_weight_loader : Type := WeightLoader {
  wl_wf : option kllm_wavefront_ctx;
  wl_gpu : option kllm_gpu_ctx;
  wl_cfg : kllm_weight_config;
  embedding : Z;
  layers : list layer_weights;
  wl_lm_head : Z;
  progress : kllm_weight_progress;
  wl_addr : Z;
  wl_layers_addr : Z;
}.

(** The live allocations, the number of calls of [malloc] and the descriptors
    submitted so far. *)
Record world : Type := World {
  heap : gset Z;
  mallocs : Z;
  submitted : list kllm_wf_block_desc;
}.

(** ** The C library *)

Definition strcmp_eq (a b : list Z) : bool := bool_decide (a = b).

(** [None] is a free of something that is not allocated. *)
Definition free (h : gset Z) (p : Z) : option (gset Z) :=
  if p =? 0 then Some h
  else if bool_decide (p ∈ h) then Some (h ∖ {[p]}) else None.

(** [kllm_gpu_free] is a stub that frees nothing. *)
Definition kllm_gpu_free (ctx : kllm_gpu_ctx) (h : gset Z) (p : Z) : gset Z := h.

(** The string that [snprintf] leaves in a buffer of [size] bytes. *)
Definition c_string (size : Z) (s : list Z) : list Z := take (Z.to_nat (size - 1)) s.

(** ** Operations *)

Definition compute_component_size (cfg : kllm_weight_config) (component : list Z) : Z :=
  let hidden := hidden_dim cfg in
  let kv_dim := u32 (wc_num_kv_heads cfg * wc_head_dim cfg) in
  let inter := intermediate_dim cfg in
  if strcmp_eq component str_wq then u64 (u64 (hidden * hidden) * 2)
  else if strcmp_eq component str_wk then u64 (u64 (hidden * kv_dim) * 2)
  else if strcmp_eq component str_wv then u64 (u64 (hidden * kv_dim) * 2)
  else if strcmp_eq component str_wo then u64 (u64 (hidden * hidden) * 2)
  else if strcmp_eq component str_ffn_up then u64 (u64 (hidden * inter) * 2)
  else if strcmp_eq component str_ffn_down then u64 (u64 (inter * hidden) * 2)
  else 0.

(** [(uint64_t)vocab_size * hidden_dim * 2] *)
Definition embed_bytes (cfg : kllm_weight_config) : Z :=
  u64 (u64 (wc_vocab_size cfg * hidden_dim cfg) * 2).

Definition layer0 : layer_weights :=
  LayerWeights (zeroed COMPONENTS_PER_LAYER) (zeroed COMPONENTS_PER_LAYER).

(** The total of [kllm_weight_loader_create]. *)
Definition total_bytes_of (cfg : kllm_weight_config) : option Z :=
  let total := u64 (embed_bytes cfg + embed_bytes cfg) in
  res ← for_range (R := unit) 0 (wc_num_layers cfg) (fun l total =>
    res ← for_range (R := unit) 0 COMPONENTS_PER_LAYER (fun c total =>
      name ← arr_get component_names c;
      Some (Continue (u64 (total + compute_component_size cfg name)))) total;
    match res with inl total => Some (Continue total) | inr _ => None end) total;
  match res with inl total => Some total | inr _ => None end.

Definition kllm_weight_loader_create (calloc_loader calloc_layers : option Z)
    (wf : option kllm_wavefront_ctx) (gpu : option kllm_gpu_ctx) (cfg : kllm_weight_config)
    (h : gset Z) : option (option kllm_weight_loader * gset Z) :=
  match calloc_loader with
  | None => Some (None, h)
  | Some addr =>
      let h := {[addr]} ∪ h in
      match calloc_layers with
      | None => h ← free h addr; Some (None, h)
      | Some layers_addr =>
          total ← total_bytes_of cfg;
          Some (Some (WeightLoader wf gpu cfg 0
            (replicate (Z.to_nat (wc_num_layers cfg)) layer0) 0
            (WeightProgress 0 (wc_num_layers cfg) 0 total false) addr layers_addr),
            {[layers_addr]} ∪ h)
      end
  end.

(** The loop over the pointers of the layers, in the order of the source. *)
Definition for_ptrs {S} (loader : kllm_weight_loader) (f : S -> Z -> option S) (s : S) : option S :=
  res ← for_range (R := unit) 0 (wc_num_layers (wl_cfg loader)) (fun l s =>
    lw ← arr_get (layers loader) l;
    res ← for_range (R := unit) 0 COMPONENTS_PER_LAYER (fun c s =>
      p ← arr_get (ptrs lw) c;
      s' ← f s p; Some (Continue s')) s;
    match res with inl s => Some (Continue s) | inr _ => None end) s;
  match res with inl s => Some s | inr _ => None end.

(** Returns the heap. *)
Definition kllm_weight_loader_destroy (loader : option kllm_weight_loader) (h : gset Z)
    : option (gset Z) :=
  match loader with
  | None => Some h
  | Some ld =>
      h ← match wl_gpu ld with
          | Some gpu =>
              let h := if negb (embedding ld =? 0) then kllm_gpu_free gpu h (embedding ld) else h in
              let h := if negb (wl_lm_head ld =? 0) then kllm_gpu_free gpu h (wl_lm_head ld) else h in
              for_ptrs ld (fun h p =>
                Some (if negb (p =? 0) then kllm_gpu_free gpu h p else h)) h
          | None =>
              h ← free h (embedding ld);
              h ← free h (wl_lm_head ld);
              for_ptrs ld free h
          end;
      h ← free h (wl_layers_addr ld);
      free h (wl_addr ld)
  end.

Section loading.
Context `{Sha256} (malloc : Z -> option Z).

(** Returns the pointer. *)
Definition alloc_weight (loader : kllm_weight_loader) (size : Z) (w : world) : Z * world :=
  match wl_gpu loader, load_to_gpu (wl_cfg loader) with
  | Some gpu, true => (default 0 (kllm_gpu_malloc gpu size), w)
  | _, _ =>
      match malloc (mallocs w) with
      | Some p => (p, World ({[p]} ∪ heap w) (mallocs w + 1) (submitted w))
      | None => (0, World (heap w) (mallocs w + 1) (submitted w))
      end
  end.

(** The key string, in a buffer of 256 bytes. *)
Definition component_key (cfg : kllm_weight_config) (layer : Z) (component : list Z) : list Z :=
  c_string 256 (model_name cfg ++ str_layer ++ dec_u32 layer ++ [58] ++ component).

Definition component_desc (cfg : kllm_weight_config) (layer : Z) (component : list Z) (dest size : Z)
    : kllm_wf_block_desc :=
  BlockDesc (SHA256 (component_key cfg layer component)) dest (u32 size) layer 1.

Definition load_one_component (loader : kllm_weight_loader) (layer : Z) (component : list Z)
    (dest size : Z) (w : world) : option (Z * world) :=
  let desc := component_desc (wl_cfg loader) layer component dest size in
  bs ← arr_set (blocks wavefront0) 0 desc;
  let wf := Wavefront 1 KLLM_WF_FLAG_WEIGHT_LOAD 0 bs in
  let rc := kllm_wavefront_submit (wl_wf loader) (Some wf) in
  Some (rc, if rc <? 0 then w else World (heap w) (mallocs w) (submitted w ++ [desc])).

Definition with_layers (ld : kllm_weight_loader) (ls : list layer_weights) : kllm_weight_loader :=
  WeightLoader (wl_wf ld) (wl_gpu ld) (wl_cfg ld) (embedding ld) ls (wl_lm_head ld) (progress ld)
    (wl_addr ld) (wl_layers_addr ld).

Definition add_bytes (ld : kllm_weight_loader) (n : Z) : kllm_weight_loader :=
  let p := progress ld in
  WeightLoader (wl_wf ld) (wl_gpu ld) (wl_cfg ld) (embedding ld) (layers ld) (wl_lm_head ld)
    (WeightProgress (layers_loaded p) (layers_total p) (u64 (bytes_loaded p + n)) (bytes_total p)
      (complete p)) (wl_addr ld) (wl_layers_addr ld).

Definition add_layer (ld : kllm_weight_loader) : kllm_weight_loader :=
  let p := progress ld in
  WeightLoader (wl_wf ld) (wl_gpu ld) (wl_cfg ld) (embedding ld) (layers ld) (wl_lm_head ld)
    (WeightProgress (u32 (layers_loaded p + 1)) (layers_total p) (bytes_loaded p) (bytes_total p)
      (complete p)) (wl_addr ld) (wl_layers_addr ld).

(** The body of the loop over the components; [Return] is the return of -1. *)
Definition load_component (l c : Z) (st : kllm_weight_loader * world)
    : option (ctl (kllm_weight_loader * world) (kllm_weight_loader * world)) :=
  let '(ld, w) := st in
  name ← arr_get component_names c;
  let size := compute_component_size (wl_cfg ld) name in
  lw ← arr_get (layers ld) l;
  ss ← arr_set (sizes lw) c size;
  let '(p, w) := alloc_weight ld size w in
  ps ← arr_set (ptrs lw) c p;
  ls ← arr_set (layers ld) l (LayerWeights ps ss);
  let ld := with_layers ld ls in
  if p =? 0 then Some (Return (ld, w))
  else
    '(rc, w) ← load_one_component ld l name p size w;
    if rc <? 0 then Some (Return (ld, w)) else Some (Continue (add_bytes ld size, w)).

Definition load_layer (l : Z) (st : kllm_weight_loader * world)
    : option (ctl (kllm_weight_loader * world) (kllm_weight_loader * world)) :=
  res ← for_range 0 COMPONENTS_PER_LAYER (load_component l) st;
  match res with
  | inl (ld, w) => Some (Continue (add_layer ld, w))
  | inr st => Some (Return st)
  end.

(** Returns the result, the loader and the world. *)
Definition kllm_weight_loader_load_all (ld : kllm_weight_loader) (w : world)
    : option (Z * kllm_weight_loader * world) :=
  let embed_size := embed_bytes (wl_cfg ld) in
  let '(p, w) := alloc_weight ld embed_size w in
  let ld := WeightLoader (wl_wf ld) (wl_gpu ld) (wl_cfg ld) p (layers ld) (wl_lm_head ld) (progress ld)
    (wl_addr ld) (wl_layers_addr ld) in
  if p =? 0 then Some (-1, ld, w)
  else
    res ← for_range 0 (wc_num_layers (wl_cfg ld)) load_layer (add_bytes ld embed_size, w);
    match res with
    | inr (ld, w) => Some (-1, ld, w)
    | inl (ld, w) =>
        let '(p, w) := alloc_weight ld embed_size w in
        let ld := WeightLoader (wl_wf ld) (wl_gpu ld) (wl_cfg ld) (embedding ld) (layers ld) p
          (progress ld) (wl_addr ld) (wl_layers_addr ld) in
        if p =? 0 then Some (-1, ld, w)
        else
          let ld := add_bytes ld embed_size in
          let pr := progress ld in
          Some (0, WeightLoader (wl_wf ld) (wl_gpu ld) (wl_cfg ld) (embedding ld) (layers ld)
            (wl_lm_head ld) (WeightProgress (layers_loaded pr) (layers_total pr) (bytes_loaded pr)
              (bytes_total pr) true)
            (wl_addr ld) (wl_layers_addr ld), w)
    end.

End loading.

Definition kllm_weight_get_embedding (ld : kllm_weight_loader) : Z := embedding ld.

Definition kllm_weight_get_layer (ld : kllm_weight_loader) (layer : Z) (component : list Z)
    : option Z :=
  if wc_num_layers (wl_cfg ld) <=? layer then Some 0
  else
    res ← for_range 0 COMPONENTS_PER_LAYER (fun c _ =>
      name ← arr_get component_names c;
      if strcmp_eq name component then
        lw ← arr_get (layers ld) layer; p ← arr_get (ptrs lw) c; Some (Return p)
      else Some (Continue tt)) tt;
    match res with inr p => Some p | inl _ => Some 0 end.

Definition kllm_weight_get_lm_head (ld : kllm_weight_loader) : Z := wl_lm_head ld.

Definition kllm_weight_loader_progress (ld : kllm_weight_loader) : kllm_weight_progress :=
  progress ld.

(** ** The state along the loops *)

Lemma u64_add_l a b : u64 (u64 a + b) = u64 (a + b).
Proof. unfold wrap. by rewrite Zplus_mod_idemp_l. Qed.

Lemma free_in (X : gset Z) p : p <> 0 -> p ∉ X -> free ({[p]} ∪ X) p = Some X.
Proof.
  intros Hp HX. unfold free. rewrite (proj2 (Z.eqb_neq p 0)), bool_decide_true by set_solver.
  f_equal. set_solver.
Qed.

Lemma component_name c : 0 <= c < 6 -> arr_get component_names c = Some (component_names !!! Z.to_nat c).
Proof. intros Hc. apply arr_get_total. exact Hc. Qed.

Lemma fmap_seqZ_snoc {A} (f : Z -> A) n :
  0 <= n -> f <$> seqZ 0 (n + 1) = (f <$> seqZ 0 n) ++ [f n].
Proof. intros Hn. by rewrite seqZ_app, fmap_app by lia. Qed.

Lemma list_to_set_snoc (f : Z -> Z) n :
  0 <= n -> list_to_set (C := gset Z) (f <$> seqZ 0 (n + 1)) =
    {[f n]} ∪ list_to_set (f <$> seqZ 0 n).
Proof.
  intros Hn. rewrite fmap_seqZ_snoc, list_to_set_app_L by lia. set_solver.
Qed.

Section trace.
Context `{Sha256} (malloc : Z -> option Z).
Context (ctx : kllm_wavefront_ctx) (gpu : option kllm_gpu_ctx) (cfg : kllm_weight_config).
Context (addr layers_addr : Z) (h : gset Z).

Notation L := (wc_num_layers cfg).
Notation name c := (component_names !!! Z.to_nat c).
Notation size c := (compute_component_size cfg (name c)).
Notation ptr k := (default 0 (malloc k)).

(** The bytes of the first [n] components of the model. *)
Fixpoint component_bytes (n : nat) : Z :=
  match n with
  | O => 0
  | S n => component_bytes n + size (Z.of_nat n mod 6)
  end.

Definition row_at (pos l : Z) : layer_weights :=
  LayerWeights ((fun c => if 6 * l + c <? pos then ptr (1 + (6 * l + c)) else 0) <$> seqZ 0 6)
    ((fun c => if 6 * l + c <? pos then size c else 0) <$> seqZ 0 6).

Definition nth_desc (k : Z) : kllm_wf_block_desc :=
  component_desc cfg (k / 6) (name (k mod 6)) (ptr (1 + k)) (size (k mod 6)).

(** The loader and the world when [l] layers and [pos] components are loaded. *)
Definition loader_at (total l pos : Z) : kllm_weight_loader :=
  WeightLoader (Some ctx) gpu cfg (ptr 0) (row_at pos <$> seqZ 0 L) 0
    (WeightProgress l L (u64 (embed_bytes cfg + component_bytes (Z.to_nat pos))) total false)
    addr layers_addr.

Definition world_at (pos : Z) : world :=
  World (list_to_set ((fun k => ptr k) <$> seqZ 0 (1 + pos)) ∪ h) (1 + pos)
    (nth_desc <$> seqZ 0 pos).

(** The results of the first [n] calls of [malloc]. *)
Definition first_ptrs (n : Z) : list Z := (fun k => ptr k) <$> seqZ 0 n.

Lemma component_bytes_step pos :
  0 <= pos -> component_bytes (Z.to_nat (pos + 1)) =
    component_bytes (Z.to_nat pos) + size (pos mod 6).
Proof using Type.
  intros Hp. replace (Z.to_nat (pos + 1)) with (S (Z.to_nat pos)) by lia. simpl.
  by rewrite Z2Nat.id.
Qed.

Lemma total_bytes_sum :
  0 <= L ->
  total_bytes_of cfg = Some (u64 (embed_bytes cfg + embed_bytes cfg
    + component_bytes (Z.to_nat (6 * L)))).
Proof using Type.
  clear malloc. intros HL. unfold total_bytes_of.
  pose (st := fun pos => u64 (embed_bytes cfg + embed_bytes cfg + component_bytes (Z.to_nat pos))).
  replace (u64 (embed_bytes cfg + embed_bytes cfg)) with (st (6 * 0))
    by (unfold st; simpl; f_equal; lia).
  rewrite (for_range_steps (fun l => st (6 * l))); [done|lia|].
  intros l Hl. replace (6 * l) with (6 * l + 0) by lia.
  rewrite (for_range_steps (fun c => st (6 * l + c))); [|unfold COMPONENTS_PER_LAYER; lia|].
  - simpl. do 3 f_equal. unfold COMPONENTS_PER_LAYER. lia.
  - unfold COMPONENTS_PER_LAYER. intros c Hc. rewrite component_name by lia. simpl. unfold st.
    rewrite u64_add_l, Z.add_assoc, component_bytes_step by lia.
    replace ((6 * l + c) mod 6) with c by dlia. do 3 f_equal. lia.
Qed.

(** The first [K] allocations succeed, and do not give a null pointer. *)
Context (K : Z) (HK : 0 <= K <= 2 + 6 * L).
Context (HL : fits 32 L) (Hplace : gpu = None \/ load_to_gpu cfg = false).
Context (Hmalloc : forall k, 0 <= k < K -> is_Some (malloc k)).
Context (Hnull : 0 ∉ first_ptrs K).

Lemma ptr_nonnull k : 0 <= k < K -> malloc k = Some (ptr k) /\ (ptr k =? 0) = false.
Proof.
  intros Hk. destruct (Hmalloc k Hk) as [p Hp]. rewrite Hp. split; [done|]. simpl.
  apply Z.eqb_neq. intros ->. apply Hnull. unfold first_ptrs.
  apply list_elem_of_fmap. exists k. rewrite Hp. split; [done|]. apply elem_of_seqZ. lia.
Qed.

Lemma alloc_cpu ld sz w :
  wl_gpu ld = gpu -> wl_cfg ld = cfg -> 0 <= mallocs w < K ->
  alloc_weight malloc ld sz w =
    (ptr (mallocs w), World ({[ptr (mallocs w)]} ∪ heap w) (mallocs w + 1) (submitted w)).
Proof.
  intros Hg Hc Hm. unfold alloc_weight. rewrite Hg, Hc.
  destruct (ptr_nonnull _ Hm) as [Hp _].
  destruct Hplace as [->|Hl]; [|rewrite Hl; destruct gpu]; by rewrite Hp.
Qed.

Lemma row_step l c :
  0 <= c < 6 ->
  arr_set (sizes (row_at (6 * l + c) l)) c (size c) = Some (sizes (row_at (6 * l + c + 1) l)) /\
  arr_set (ptrs (row_at (6 * l + c) l)) c (ptr (1 + (6 * l + c))) =
    Some (ptrs (row_at (6 * l + c + 1) l)).
Proof using Type.
  intros Hc. unfold row_at, ptrs, sizes. split.
  - rewrite <- (arr_set_tab (fun c0 => if 6 * l + c0 <? 6 * l + c then size c0 else 0)
      (fun c0 => if 6 * l + c0 <? 6 * l + c + 1 then size c0 else 0) 6 c) by
      (intros; repeat case_cond; done || lia).
    f_equal. case_cond; done || lia.
  - rewrite <- (arr_set_tab
      (fun c0 => if 6 * l + c0 <? 6 * l + c then ptr (1 + (6 * l + c0)) else 0)
      (fun c0 => if 6 * l + c0 <? 6 * l + c + 1 then ptr (1 + (6 * l + c0)) else 0) 6 c) by
      (intros; repeat case_cond; done || lia).
    f_equal. case_cond; done || lia.
Qed.

Lemma row_at_other l c j :
  0 <= c < 6 -> j <> l -> row_at (6 * l + c + 1) j = row_at (6 * l + c) j.
Proof using Type.
  intros Hc Hj. unfold row_at. f_equal; apply list_fmap_ext; intros i x Hx;
    apply lookup_seqZ in Hx; repeat case_cond; done || lia.
Qed.

Lemma load_component_step total l c :
  0 <= l < L -> 0 <= c < 6 -> 6 * l + c < K - 1 ->
  load_component malloc l c (loader_at total l (6 * l + c), world_at (6 * l + c)) =
    Some (Continue (loader_at total l (6 * l + c + 1), world_at (6 * l + c + 1))).
Proof.
  intros Hl Hc HlK. unfold load_component. rewrite component_name by lia. cbn [mbind option_bind].
  change (wl_cfg (loader_at _ _ _)) with cfg.
  change (layers (loader_at _ _ _)) with (row_at (6 * l + c) <$> seqZ 0 L).
  rewrite arr_get_tab by lia. cbn [mbind option_bind].
  destruct (row_step l c Hc) as [-> Hps]. cbn [mbind option_bind].
  rewrite alloc_cpu by (done || (unfold world_at, mallocs; lia)).
  change (mallocs (world_at (6 * l + c))) with (1 + (6 * l + c)).
  rewrite Hps. cbn [mbind option_bind].
  replace (LayerWeights _ _) with (row_at (6 * l + c + 1) l) by done.
  rewrite arr_set_tab by (lia || (intros; by apply row_at_other)). cbn [mbind option_bind].
  destruct (ptr_nonnull (1 + (6 * l + c)) ltac:(lia)) as [_ ->].
  unfold load_one_component. rewrite arr_set_in by (simpl; lia). cbn.
  do 3 f_equal.
  - unfold add_bytes, with_layers, loader_at. cbn. do 2 f_equal.
    rewrite u64_add_l, component_bytes_step by lia.
    replace ((6 * l + c) mod 6) with c by dlia. f_equal. lia.
  - unfold world_at. f_equal; [|lia|].
    + replace (1 + (6 * l + c + 1)) with (1 + (6 * l + c) + 1) by lia.
      rewrite list_to_set_snoc by lia. set_solver.
    + rewrite (fmap_seqZ_snoc nth_desc (6 * l + c)) by lia. f_equal. unfold nth_desc.
      replace ((6 * l + c) / 6) with l by dlia.
      by replace ((6 * l + c) mod 6) with c by dlia.
Qed.

Lemma load_layer_step total l :
  0 <= l < L -> 6 * l + 6 <= K - 1 ->
  load_layer malloc l (loader_at total l (6 * l), world_at (6 * l)) =
    Some (Continue (loader_at total (l + 1) (6 * (l + 1)), world_at (6 * (l + 1)))).
Proof.
  intros Hl HlK. unfold load_layer. replace (6 * l) with (6 * l + 0) by lia.
  rewrite (for_range_steps (fun c => (loader_at total l (6 * l + c), world_at (6 * l + c))));
    unfold COMPONENTS_PER_LAYER; [|lia|].
  - cbn [mbind option_bind]. unfold add_layer. cbn. rewrite (wrap_small 32) by (unfold fits in *; lia).
    by replace (6 * l + 6) with (6 * (l + 1)) by lia.
  - intros c Hc. rewrite load_component_step by lia. do 4 f_equal; lia.
Qed.

(** The loader before and after loading. *)
Definition loader_new (total : Z) : kllm_weight_loader :=
  WeightLoader (Some ctx) gpu cfg 0 (replicate (Z.to_nat L) layer0) 0
    (WeightProgress 0 L 0 total false) addr layers_addr.

Definition loader_done (total : Z) : kllm_weight_loader :=
  WeightLoader (Some ctx) gpu cfg (ptr 0) (row_at (6 * L) <$> seqZ 0 L) (ptr (1 + 6 * L))
    (WeightProgress L L
      (u64 (embed_bytes cfg + embed_bytes cfg + component_bytes (Z.to_nat (6 * L)))) total true)
    addr layers_addr.

Lemma rows_start : row_at 0 <$> seqZ 0 L = replicate (Z.to_nat L) layer0.
Proof using Type.
  apply list_eq. intros i. rewrite list_lookup_fmap.
  destruct (decide (Z.of_nat i < L)).
  - rewrite lookup_seqZ_lt, lookup_replicate_2 by lia. simpl. f_equal. unfold row_at, layer0.
    f_equal; simpl; repeat (rewrite (proj2 (Z.ltb_ge _ _)) by lia); done.
  - rewrite lookup_seqZ_ge by lia. symmetry. apply lookup_replicate_None. lia.
Qed.

Lemma start_state total :
  (add_bytes (WeightLoader (Some ctx) gpu cfg (ptr 0) (replicate (Z.to_nat L) layer0) 0
      (WeightProgress 0 L 0 total false) addr layers_addr) (embed_bytes cfg),
    World ({[ptr 0]} ∪ h) (0 + 1) []) = (loader_at total 0 (6 * 0), world_at (6 * 0)).
Proof.
  unfold loader_at, world_at, add_bytes. cbn. rewrite <- rows_start, Z.add_0_r.
  do 2 f_equal. set_solver.
Qed.

Lemma load_all_run total :
  K = 2 + 6 * L ->
  kllm_weight_loader_load_all malloc (loader_new total) (World h 0 []) =
    Some (0, loader_done total,
      World (list_to_set (first_ptrs (2 + 6 * L)) ∪ h) (2 + 6 * L) (nth_desc <$> seqZ 0 (6 * L))).
Proof.
  unfold fits in HL. intros HKL. unfold kllm_weight_loader_load_all.
  rewrite alloc_cpu by (done || simpl; lia).
  cbn [mallocs heap submitted wl_wf wl_gpu wl_cfg layers wl_lm_head progress wl_addr
    wl_layers_addr loader_new].
  destruct (ptr_nonnull 0 ltac:(lia)) as [_ ->].
  rewrite (start_state total).
  rewrite (for_range_steps (fun l => (loader_at total l (6 * l), world_at (6 * l))));
    [|lia|intros; apply load_layer_step; lia].
  cbn [mbind option_bind]. rewrite alloc_cpu by (done || simpl; lia).
  cbn [mallocs heap submitted world_at wl_cfg loader_at].
  destruct (ptr_nonnull (1 + 6 * L) ltac:(lia)) as [_ ->].
  do 2 f_equal; [f_equal|].
  - unfold loader_done, add_bytes. cbn. do 2 f_equal. rewrite u64_add_l. f_equal. lia.
  - f_equal; [|lia]. unfold first_ptrs. replace (2 + 6 * L) with (1 + 6 * L + 1) by lia.
    rewrite list_to_set_snoc by lia. set_solver.
Qed.

(** *** Allocation failure *)

Lemma alloc_fails ld sz w :
  wl_gpu ld = gpu -> wl_cfg ld = cfg -> malloc (mallocs w) = None ->
  alloc_weight malloc ld sz w = (0, World (heap w) (mallocs w + 1) (submitted w)).
Proof.
  intros Hg Hc Hm. unfold alloc_weight. rewrite Hg, Hc, Hm.
  destruct Hplace as [-> | ->]; [|destruct gpu]; done.
Qed.

Lemma row_fails l c :
  0 <= c < 6 -> arr_set (ptrs (row_at (6 * l + c) l)) c 0 = Some (ptrs (row_at (6 * l + c) l)).
Proof using Type.
  intros Hc. unfold row_at, ptrs.
  rewrite <- (arr_set_tab
    (fun c0 => if 6 * l + c0 <? 6 * l + c then ptr (1 + (6 * l + c0)) else 0)
    (fun c0 => if 6 * l + c0 <? 6 * l + c then ptr (1 + (6 * l + c0)) else 0) 6 c) by done.
  f_equal. case_cond; done || lia.
Qed.

(** The loader keeps the first [n] allocations where destruction looks. *)
Definition keeps (ld : kllm_weight_loader) (n : Z) : Prop :=
  wl_gpu ld = gpu /\ wl_cfg ld = cfg /\ wl_addr ld = addr /\ wl_layers_addr ld = layers_addr /\
  embedding ld = (if 0 <? n then ptr 0 else 0) /\
  wl_lm_head ld = (if 1 + 6 * L <? n then ptr (1 + 6 * L) else 0) /\
  forall l, 0 <= l < L -> exists lw, arr_get (layers ld) l = Some lw /\
    ptrs lw = ptrs (row_at (n - 1) l).

Lemma keeps_done total : keeps (loader_done total) (2 + 6 * L).
Proof.
  clear Hnull Hmalloc HK K. unfold fits in HL. unfold keeps. cbn.
  rewrite (proj2 (Z.ltb_lt 0 _)), (proj2 (Z.ltb_lt (1 + 6 * L) _)) by lia.
  repeat (split; [done|]). intros l Hl. exists (row_at (6 * L) l).
  rewrite arr_get_tab by done. split; [done|]. unfold row_at, ptrs.
  apply list_fmap_ext. intros i c Hc. apply lookup_seqZ in Hc. by repeat case_cond; try lia.
Qed.

Lemma component_fails total l c :
  0 <= l < L -> 0 <= c < 6 -> 6 * l + c = K - 1 -> malloc K = None ->
  exists ld, load_component malloc l c (loader_at total l (6 * l + c), world_at (6 * l + c)) =
    Some (Return (ld, World (heap (world_at (K - 1))) (K + 1) (submitted (world_at (K - 1))))) /\
    keeps ld K /\ complete (progress ld) = false.
Proof.
  intros Hl Hc HlK HN. unfold load_component. rewrite component_name by lia.
  cbn [mbind option_bind].
  change (layers (loader_at _ _ _)) with (row_at (6 * l + c) <$> seqZ 0 L).
  rewrite arr_get_tab by lia. cbn [mbind option_bind].
  destruct (row_step l c Hc) as [Hss _]. change (wl_cfg (loader_at _ _ _)) with cfg.
  rewrite Hss. cbn [mbind option_bind].
  rewrite alloc_fails by (try done; simpl; by replace (1 + (6 * l + c)) with K by lia).
  rewrite row_fails by done. cbn [mbind option_bind].
  rewrite arr_set_in by (rewrite length_fmap, length_seqZ; lia). cbn [mbind option_bind].
  rewrite HlK. eexists. split; [simpl; do 4 f_equal; lia|].
  split; [|done]. unfold keeps, with_layers, loader_at. cbn.
  rewrite (proj2 (Z.ltb_lt 0 K)), (proj2 (Z.ltb_ge (1 + 6 * L) K)) by lia.
  repeat (split; [done|]). intros j Hj. destruct (decide (j = l)) as [->|Hne].
  - eexists. rewrite arr_get_lookup, list_lookup_insert_eq by
      (rewrite ?length_fmap, ?length_seqZ; lia). split; [done|]. simpl.
    by rewrite <- HlK.
  - exists (row_at (K - 1) j). split; [|done].
    rewrite arr_get_lookup, list_lookup_insert_ne, <- arr_get_lookup by lia.
    by apply arr_get_tab.
Qed.

Lemma layer_fails total l :
  0 <= l < L -> 6 * l < K <= 6 * l + 6 -> malloc K = None ->
  exists ld, load_layer malloc l (loader_at total l (6 * l), world_at (6 * l)) =
    Some (Return (ld, World (heap (world_at (K - 1))) (K + 1) (submitted (world_at (K - 1))))) /\
    keeps ld K /\ complete (progress ld) = false.
Proof.
  intros Hl HlK HN. pose (c := K - 1 - 6 * l).
  destruct (component_fails total l c) as (ld & Hrun & Hld); [lia..|done|].
  exists ld. split; [|done]. unfold load_layer.
  replace (loader_at total l (6 * l), world_at (6 * l))
    with (loader_at total l (6 * l + 0), world_at (6 * l + 0)) by (do 2 f_equal; lia).
  erewrite (for_range_return (fun c => (loader_at total l (6 * l + c), world_at (6 * l + c)))
    _ 0 COMPONENTS_PER_LAYER c); [| |intros i Hi|exact Hrun];
    [done|unfold COMPONENTS_PER_LAYER; lia|].
  rewrite load_component_step by lia. do 4 f_equal; lia.
Qed.

Lemma load_all_oom total :
  K < 2 + 6 * L -> malloc K = None ->
  exists ld, kllm_weight_loader_load_all malloc (loader_new total) (World h 0 []) =
    Some (-1, ld, World (list_to_set (first_ptrs K) ∪ h) (K + 1) (nth_desc <$> seqZ 0 (K - 1))) /\
    keeps ld K /\ complete (progress ld) = false.
Proof.
  unfold fits in HL. intros HKL HN. unfold kllm_weight_loader_load_all.
  destruct (decide (K = 0)) as [HK0|HK0].
  { rewrite alloc_fails by (try done; simpl; congruence). rewrite HK0.
    eexists. split; [simpl; do 3 f_equal; set_solver|]. split; [|done].
    repeat (split; [done || (simpl; case_cond; done || lia)|]).
    intros l Hl. exists layer0. split.
    - simpl. rewrite <- rows_start, arr_get_tab by lia. f_equal.
      unfold row_at, layer0. f_equal; simpl; repeat (rewrite (proj2 (Z.ltb_ge _ _)) by lia); done.
    - unfold row_at, layer0. simpl. repeat (rewrite (proj2 (Z.ltb_ge _ _)) by lia). done. }
  rewrite alloc_cpu by (done || simpl; lia).
  cbn [mallocs heap submitted wl_wf wl_gpu wl_cfg layers wl_lm_head progress wl_addr
    wl_layers_addr loader_new].
  destruct (ptr_nonnull 0 ltac:(lia)) as [_ ->].
  rewrite (start_state total). destruct (decide (K = 1 + 6 * L)) as [HK1|HK1].
  - rewrite (for_range_steps (fun l => (loader_at total l (6 * l), world_at (6 * l))));
      [|lia|intros; apply load_layer_step; lia].
    cbn [mbind option_bind]. rewrite alloc_fails by (try done; simpl; by rewrite <- HK1).
    rewrite HK1. unfold keeps. replace (1 + 6 * L - 1) with (6 * L) by lia.
    eexists. split; [done|]. split; [|done]. cbn. rewrite (proj2 (Z.ltb_lt 0 _)), Z.ltb_irrefl by lia.
    repeat (split; [done|]). intros l Hl. eexists. by rewrite arr_get_tab.
  - destruct (layer_fails total ((K - 1) / 6)) as (ld & Hrun & Hld); [dlia|dlia|done|].
    exists ld. split; [|done].
    erewrite (for_range_return (fun l => (loader_at total l (6 * l), world_at (6 * l)))
      _ 0 L ((K - 1) / 6)); [|dlia|intros l Hl; apply load_layer_step; dlia|exact Hrun].
    simpl. do 3 f_equal. unfold first_ptrs. by replace (1 + (K - 1)) with K by lia.
Qed.

(** *** Destruction *)

Lemma row_ptr pos l c :
  0 <= c < 6 -> arr_get (ptrs (row_at pos l)) c =
    Some (if 6 * l + c <? pos then ptr (1 + (6 * l + c)) else 0).
Proof using Type. intros Hc. unfold row_at, ptrs. by rewrite arr_get_tab. Qed.

Lemma for_ptrs_steps {S} (ld : kllm_weight_loader) (f : S -> Z -> option S) (st : Z -> S) n :
  keeps ld n ->
  (forall k, 0 <= k < 6 * L ->
    f (st k) (if k <? n - 1 then ptr (1 + k) else 0) = Some (st (k + 1))) ->
  for_ptrs ld f (st 0) = Some (st (6 * L)).
Proof.
  clear Hnull Hmalloc HK K. unfold fits in HL. intros (_ & Hc & _ & _ & _ & _ & Hrows) Hf. unfold for_ptrs. rewrite Hc.
  replace (st 0) with (st (6 * 0)) by (f_equal; lia).
  rewrite (for_range_steps (fun l => st (6 * l))); [done|lia|].
  intros l Hl. destruct (Hrows l Hl) as (lw & -> & Hlw). cbn [mbind option_bind].
  replace (6 * l) with (6 * l + 0) by lia.
  rewrite (for_range_steps (fun c => st (6 * l + c))); unfold COMPONENTS_PER_LAYER; [|lia|].
  - cbn. do 3 f_equal. lia.
  - intros c Hcc. rewrite Hlw, row_ptr by done. cbn [mbind option_bind].
    rewrite Hf by lia. cbn. do 3 f_equal. lia.
Qed.

Context (Hdup : NoDup (first_ptrs K)) (Hfresh : forall p, p ∈ first_ptrs K -> p ∉ h).

Lemma ptr_inj i j : 0 <= i < K -> 0 <= j < K -> ptr i = ptr j -> i = j.
Proof.
  intros Hi Hj Heq.
  assert (Hat : forall k, 0 <= k < K -> first_ptrs K !! Z.to_nat k = Some (ptr k)).
  { intros k Hk. unfold first_ptrs. rewrite <- arr_get_lookup by lia.
    by apply (arr_get_tab (fun k => ptr k)). }
  assert (Z.to_nat i = Z.to_nat j); [|lia].
  apply (NoDup_lookup _ _ _ (ptr i) Hdup); [by apply Hat|]. rewrite Heq. by apply Hat.
Qed.

(** The allocations [lo], ..., [lo + n - 1] beside the heap [h]. *)
Definition held (lo n : Z) : gset Z := list_to_set ((fun k => ptr k) <$> seqZ lo n) ∪ h.

Lemma not_held k lo n :
  0 <= k < K -> 0 <= lo -> lo + n <= K -> ~ (lo <= k < lo + n) -> ptr k <> 0 /\ ptr k ∉ held lo n.
Proof.
  intros Hk Hlo Hn Hout. destruct (ptr_nonnull k Hk) as [_ H0%Z.eqb_neq]. split; [done|].
  unfold held. rewrite elem_of_union, elem_of_list_to_set, list_elem_of_fmap.
  intros [(j & Heq & Hj%elem_of_seqZ)|Hh].
  - apply ptr_inj in Heq; lia.
  - revert Hh. apply Hfresh. unfold first_ptrs. apply list_elem_of_fmap. exists k.
    split; [done|]. apply elem_of_seqZ. lia.
Qed.

Lemma free_first lo n :
  0 <= lo -> 0 < n -> lo + n <= K -> free (held lo n) (ptr lo) = Some (held (lo + 1) (n - 1)).
Proof.
  intros Hlo Hn HnK. destruct (not_held lo (lo + 1) (n - 1)) as [Hp Hout]; [lia..|].
  rewrite <- (free_in _ _ Hp Hout). f_equal. unfold held.
  rewrite seqZ_cons by lia. replace (Z.succ lo) with (lo + 1) by lia.
  replace (Z.pred n) with (n - 1) by lia. simpl. set_solver.
Qed.

Lemma free_last lo n :
  0 <= lo -> 0 <= n -> lo + n < K -> free (held lo (n + 1)) (ptr (lo + n)) = Some (held lo n).
Proof.
  intros Hlo Hn HnK. destruct (not_held (lo + n) lo n) as [Hp Hout]; [lia..|].
  rewrite <- (free_in _ _ Hp Hout). f_equal. unfold held.
  rewrite seqZ_app, fmap_app, list_to_set_app_L by lia. simpl. set_solver.
Qed.

Lemma held_none lo n : n <= 0 -> held lo n = h.
Proof.
  intros Hn. unfold held. destruct n; [|lia|]; simpl; set_solver.
Qed.

Lemma destroy_frees ld :
  keeps ld K -> gpu = None -> addr <> 0 -> layers_addr <> 0 ->
  kllm_weight_loader_destroy (Some ld) (held 0 K) = (h ← free h layers_addr; free h addr).
Proof.
  unfold fits in HL. intros Hk Hg Ha Hla. unfold kllm_weight_loader_destroy.
  pose proof Hk as (-> & _ & -> & -> & -> & -> & _). rewrite Hg.
  assert (Hemb : free (held 0 K) (if 0 <? K then ptr 0 else 0) = Some (held 1 (K - 1))).
  { case_cond; [by rewrite free_first by lia|]. cbn. by rewrite !held_none by lia. }
  assert (Hlm : free (held 1 (K - 1)) (if 1 + 6 * L <? K then ptr (1 + 6 * L) else 0)
    = Some (held (1 + 0) (Z.min (K - 1) (6 * L) - 0))).
  { case_cond.
    - replace (K - 1) with (6 * L + 1) by lia. rewrite free_last by lia. do 2 f_equal. lia.
    - cbn. do 2 f_equal. lia. }
  rewrite Hemb. cbn [mbind option_bind]. rewrite Hlm. cbn [mbind option_bind].
  rewrite (for_ptrs_steps ld free
    (fun k => held (1 + k) (Z.min (K - 1) (6 * L) - k)) K Hk); cycle 1.
  { intros k Hkk. case_cond.
    - rewrite free_first by lia. do 2 f_equal; lia.
    - cbn. by rewrite !held_none by lia. }
  cbn [mbind option_bind]. by rewrite held_none by lia.
Qed.

Lemma destroy_gpu ld g X :
  keeps ld K -> gpu = Some g ->
  kllm_weight_loader_destroy (Some ld) X = (h ← free X layers_addr; free h addr).
Proof.
  intros Hk Hg. unfold kllm_weight_loader_destroy, kllm_gpu_free.
  pose proof Hk as (-> & _ & -> & -> & _ & _ & _). rewrite Hg.
  replace (if negb (embedding ld =? 0) then X else X) with X by (by case_cond).
  replace (if negb (wl_lm_head ld =? 0) then X else X) with X by (by case_cond).
  rewrite (for_ptrs_steps ld _ (fun _ => X) K Hk); [done|].
  intros k Hkk. f_equal. by destruct (negb _).
Qed.

Lemma component_names_distinct i c :
  0 <= i < 6 -> 0 <= c < 6 -> strcmp_eq (name i) (name c) = true -> i = c.
Proof using Type.
  intros Hi Hc Heq%bool_decide_eq_true.
  assert (NoDup component_names) as Hnd by (apply (bool_decide_unpack _); by vm_compute).
  pose proof (component_name i Hi) as Hni. pose proof (component_name c Hc) as Hnc.
  rewrite arr_get_lookup in Hni, Hnc by lia. rewrite Heq in Hni.
  pose proof (NoDup_lookup _ _ _ _ Hnd Hni Hnc). lia.
Qed.

Lemma get_layer_ptr ld l c lw p :
  wl_cfg ld = cfg -> 0 <= l < L -> 0 <= c < 6 ->
  arr_get (layers ld) l = Some lw -> arr_get (ptrs lw) c = Some p ->
  kllm_weight_get_layer ld l (name c) = Some p.
Proof using Type.
  intros Hcfg Hl Hc Hlw Hp. unfold kllm_weight_get_layer.
  rewrite Hcfg, (proj2 (Z.leb_gt L l)) by lia.
  erewrite (for_range_return (fun _ => tt) _ 0 COMPONENTS_PER_LAYER c); [done|exact Hc|..].
  - intros i Hi. rewrite component_name by lia. cbn [mbind option_bind].
    destruct (strcmp_eq _ _) eqn:He; [|done].
    apply component_names_distinct in He; lia.
  - rewrite component_name by lia. cbn [mbind option_bind]. unfold strcmp_eq.
    rewrite bool_decide_true by done. rewrite Hlw. cbn [mbind option_bind]. by rewrite Hp.
Qed.

End trace.

(** ** Main theorems *)

(** What [malloc] and [calloc] promise: the first [n] allocations of the load
    and the two of the constructor succeed, give distinct addresses that are not
    null, and none that is live. *)
Definition allocations (malloc : Z -> option Z) (addr layers_addr n : Z) (h : gset Z) : Prop :=
  (forall k, 0 <= k < n -> is_Some (malloc k)) /\
  NoDup (addr :: layers_addr :: first_ptrs malloc n) /\
  forall p, p ∈ addr :: layers_addr :: first_ptrs malloc n -> p <> 0 /\ p ∉ h.

Lemma allocations_free malloc addr layers_addr n h :
  allocations malloc addr layers_addr n h ->
  addr <> 0 /\ layers_addr <> 0 /\ (0 ∉ first_ptrs malloc n) /\ NoDup (first_ptrs malloc n) /\
  (forall p, p ∈ first_ptrs malloc n -> p ∉ {[layers_addr]} ∪ ({[addr]} ∪ h)) /\
  forall X, (X ⊆ h ∪ list_to_set (first_ptrs malloc n)) ->
    (Y ← free ({[layers_addr]} ∪ ({[addr]} ∪ X)) layers_addr; free Y addr) = Some X.
Proof.
  intros (_ & Hnd & Hp).
  apply NoDup_cons in Hnd as [Ha Hnd]. apply NoDup_cons in Hnd as [Hla Hnd].
  assert (Hnz : forall p, p ∈ addr :: layers_addr :: first_ptrs malloc n -> p <> 0)
    by (intros p; apply Hp).
  assert (Hnh : forall p, p ∈ addr :: layers_addr :: first_ptrs malloc n -> p ∉ h)
    by (intros p; apply Hp).
  split; [apply Hnz; set_solver|]. split; [apply Hnz; set_solver|].
  split; [intros H0; apply (Hnz 0); [set_solver|done]|]. split; [done|].
  split; [intros p Hin; specialize (Hnh p); set_solver|].
  intros X HX. rewrite free_in; cbn [mbind option_bind].
  - apply free_in; [apply Hnz; set_solver|]. specialize (Hnh addr). set_solver.
  - apply Hnz; set_solver.
  - specialize (Hnh layers_addr). set_solver.
Qed.

Lemma destroy_run malloc gpu cfg addr layers_addr h n ld :
  let h1 := {[layers_addr]} ∪ ({[addr]} ∪ h) in
  fits 32 (wc_num_layers cfg) -> 0 <= n <= 2 + 6 * wc_num_layers cfg ->
  allocations malloc addr layers_addr n h -> keeps malloc gpu cfg addr layers_addr ld n ->
  kllm_weight_loader_destroy (Some ld) (list_to_set (first_ptrs malloc n) ∪ h1) =
    Some (match gpu with
          | None => h
          | Some _ => list_to_set (first_ptrs malloc n) ∪ h
          end).
Proof.
  intros h1 HL Hn Hal Hk.
  destruct (allocations_free _ _ _ _ _ Hal) as (Ha & Hla & Hnull & Hnd & Hfresh & Hfree).
  destruct Hal as (Hmalloc & _ & _). destruct gpu as [g|] eqn:Hg.
  - rewrite (destroy_gpu malloc (Some g) cfg addr layers_addr n HL ld g _ Hk eq_refl).
    replace (list_to_set (first_ptrs malloc n) ∪ h1) with
      ({[layers_addr]} ∪ ({[addr]} ∪ (list_to_set (first_ptrs malloc n) ∪ h)) : gset Z)
      by set_solver.
    apply Hfree. set_solver.
  - change (list_to_set (first_ptrs malloc n) ∪ h1) with (held malloc h1 0 n).
    rewrite (destroy_frees malloc None cfg addr layers_addr h1 n Hn HL (or_introl eq_refl)
      Hmalloc Hnull Hnd Hfresh ld Hk
      eq_refl Ha Hla).
    apply Hfree. set_solver.
Qed.

Lemma create_run ctx gpu cfg addr layers_addr h :
  0 <= wc_num_layers cfg ->
  kllm_weight_loader_create (Some addr) (Some layers_addr) (Some ctx) gpu cfg h =
    Some (Some (loader_new ctx gpu cfg addr layers_addr
      (u64 (embed_bytes cfg + embed_bytes cfg
         + component_bytes cfg (Z.to_nat (6 * wc_num_layers cfg))))),
      {[layers_addr]} ∪ ({[addr]} ∪ h)).
Proof.
  intros HL. unfold kllm_weight_loader_create. rewrite (total_bytes_sum cfg HL).
  done.
Qed.

Lemma first_ptrs_inj malloc n i j :
  NoDup (first_ptrs malloc n) -> 0 <= i < n -> 0 <= j < n -> i <> j ->
  default 0 (malloc i) <> default 0 (malloc j).
Proof.
  intros Hnd Hi Hj Hne Heq. apply Hne.
  assert (forall k, 0 <= k < n -> first_ptrs malloc n !! Z.to_nat k = Some (default 0 (malloc k))) as Hat.
  { intros k Hk. unfold first_ptrs. rewrite list_lookup_fmap, lookup_seqZ_lt by lia. simpl.
    do 3 f_equal. lia. }
  rewrite <- (Z2Nat.id i), <- (Z2Nat.id j) by lia. f_equal.
  eapply NoDup_lookup; [exact Hnd|by apply Hat|]. rewrite Hat by done. by rewrite Heq.
Qed.

(** C22. The life of a weight loader.  When the wavefront engine is there and
    the weights go to host memory, the constructor gives a loader whose load
    returns 0 and reports completion, with every layer and every byte of the
    total that it computed counted as loaded.  It submits one descriptor for each
    component of each layer, in order, with the key of that component and the
    address that the accessor then returns for it, and no other descriptor: the
    embedding table and the LM head are allocated and counted, but nothing is ever
    read into them.  Destroying the loader leaves the heap as it was before the
    constructor, without freeing anything twice, when there is no GPU context.
    With a GPU context every weight stays allocated, because the weights in host
    memory are given to the GPU's deallocator. *)
Theorem weight_load_ok `{Sha256} malloc ctx gpu cfg addr layers_addr h :
  let L := wc_num_layers cfg in
  fits 32 L -> gpu = None \/ load_to_gpu cfg = false ->
  allocations malloc addr layers_addr (2 + 6 * L) h ->
  exists ld h1 ld' w,
    kllm_weight_loader_create (Some addr) (Some layers_addr) (Some ctx) gpu cfg h
      = Some (Some ld, h1) /\
    kllm_weight_loader_load_all malloc ld (World h1 0 []) = Some (0, ld', w) /\
    let pr := kllm_weight_loader_progress ld' in
    layers_loaded pr = L /\ layers_total pr = L /\ bytes_loaded pr = bytes_total pr /\
    complete pr = true /\
    len (submitted w) = 6 * L /\
    (forall l c, 0 <= l < L -> 0 <= c < 6 -> exists name p,
      component_names !! Z.to_nat c = Some name /\ malloc (1 + (6 * l + c)) = Some p /\
      arr_get (submitted w) (6 * l + c) =
        Some (BlockDesc (SHA256 (take 255 (model_name cfg ++ str_layer ++ dec_u32 l ++ [58] ++ name)))
          p (u32 (compute_component_size cfg name)) l 1) /\
      kllm_weight_get_layer ld' l name = Some p) /\
    malloc 0 = Some (kllm_weight_get_embedding ld') /\
    malloc (1 + 6 * L) = Some (kllm_weight_get_lm_head ld') /\
    Forall (fun d => vram_dest_addr d <> kllm_weight_get_embedding ld' /\
      vram_dest_addr d <> kllm_weight_get_lm_head ld') (submitted w) /\
    kllm_weight_loader_destroy (Some ld') (heap w) =
      Some (match gpu with
            | None => h
            | Some _ => list_to_set (first_ptrs malloc (2 + 6 * L)) ∪ h
            end).
Proof.
  intros L HL Hplace Hal.
  destruct (allocations_free _ _ _ _ _ Hal) as (_ & _ & Hnull & Hnd & _).
  pose proof Hal as (Hmalloc & _). pose proof HL as [HL0 _].
  pose proof (fun total => load_all_run malloc ctx gpu cfg addr layers_addr
    ({[layers_addr]} ∪ ({[addr]} ∪ h)) (2 + 6 * L) ltac:(lia) HL Hplace
    Hmalloc Hnull total eq_refl) as Hrun.
  do 4 eexists. split; [by apply create_run|]. split; [apply Hrun|].
  cbn [kllm_weight_loader_progress progress loader_done layers_loaded layers_total bytes_loaded
    bytes_total complete submitted heap].
  do 4 (split; [done|]).
  split; [rewrite length_fmap, length_seqZ; lia|].
  assert (forall k, 0 <= k < 2 + 6 * L -> malloc k = Some (default 0 (malloc k))) as Hget
    by (intros k Hk; by destruct (Hmalloc k Hk) as [p ->]).
  split; [|split; [apply Hget; lia|split; [apply Hget; lia|split;
    [|apply (destroy_run _ _ cfg); [done|lia|done|by apply keeps_done]]]]]; cycle 1.
  { apply Forall_forall. intros d (k & -> & Hk%elem_of_seqZ)%list_elem_of_fmap.
    split; apply (first_ptrs_inj malloc _ _ _ Hnd); lia. }
  intros l c Hl Hc. exists (component_names !!! Z.to_nat c), (default 0 (malloc (1 + (6 * l + c)))).
  destruct (Hmalloc (1 + (6 * l + c)) ltac:(lia)) as [p Hp]. rewrite Hp. cbn [default].
  split; [rewrite <- arr_get_lookup by lia; by apply component_name|]. split; [done|].
  split.
  - rewrite arr_get_tab by lia. unfold nth_desc.
    replace ((6 * l + c) / 6) with l by dlia. replace ((6 * l + c) mod 6) with c by dlia.
    by rewrite Hp.
  - eapply get_layer_ptr; [done|done|done|by apply arr_get_tab|].
    rewrite (row_ptr malloc cfg), (proj2 (Z.ltb_lt _ _)) by lia. by rewrite Hp.
Qed.

(** Running out of memory.  When the [k]-th allocation of a load fails, the
    load returns -1 and does not report completion; exactly the components
    allocated before it were submitted; and destroying the loader then gives
    back everything the constructor and the load allocated. *)
Theorem weight_load_oom `{Sha256} malloc ctx cfg addr layers_addr h k :
  let L := wc_num_layers cfg in
  fits 32 L -> 0 <= k < 2 + 6 * L ->
  allocations malloc addr layers_addr k h -> malloc k = None ->
  exists ld h1 ld' w,
    kllm_weight_loader_create (Some addr) (Some layers_addr) (Some ctx) None cfg h
      = Some (Some ld, h1) /\
    kllm_weight_loader_load_all malloc ld (World h1 0 []) = Some (-1, ld', w) /\
    complete (kllm_weight_loader_progress ld') = false /\
    len (submitted w) = Z.max 0 (k - 1) /\
    kllm_weight_loader_destroy (Some ld') (heap w) = Some h.
Proof.
  intros L HL Hk Hal HN.
  destruct (allocations_free _ _ _ _ _ Hal) as (_ & _ & Hnull & _).
  pose proof Hal as (Hmalloc & _). pose proof HL as [HL0 _].
  destruct (load_all_oom malloc ctx None cfg addr layers_addr
    ({[layers_addr]} ∪ ({[addr]} ∪ h)) k ltac:(lia) HL (or_introl eq_refl) Hmalloc Hnull
    (u64 (embed_bytes cfg + embed_bytes cfg
         + component_bytes cfg (Z.to_nat (6 * wc_num_layers cfg)))))
    as (ld' & Hrun & Hkeeps & Hc); [lia|done|].
  do 4 eexists. split; [by apply create_run|]. split; [apply Hrun|].
  split; [done|]. split; [cbn; rewrite length_fmap, length_seqZ; lia|].
  cbn [heap]. apply (destroy_run malloc None cfg); [done|lia|done|done].
Qed.

(** Loading to a GPU fails at its first allocation: the GPU allocator is a stub
    that returns a null pointer. *)
Lemma weight_load_gpu `{Sha256} malloc ld g w :
  wl_gpu ld = Some g -> load_to_gpu (wl_cfg ld) = true ->
  exists ld', kllm_weight_loader_load_all malloc ld w = Some (-1, ld', w) /\
    progress ld' = progress ld.
Proof.
  intros Hg Hl. unfold kllm_weight_loader_load_all, alloc_weight. rewrite Hg, Hl. simpl.
  by eexists.
Qed.

(** A model name of 255 bytes or more leaves no room for the layer and the
    component in the key: all components of all layers then have one key. *)
Lemma weight_keys_collide cfg l l' c c' :
  255 <= len (model_name cfg) -> component_key cfg l c = component_key cfg l' c'.
Proof.
  intros Hn. unfold component_key, c_string.
  rewrite !take_app_le by lia. done.
Qed.

(** ** Witnesses *)

#[local] Existing Instance demo_sha.

Definition demo_cfg : kllm_weight_config := WeightConfig [109] 2 64 4 2 16 256 1000 false.

(** Call [k] of [malloc] gives the address [1000 + k], up to the call [n]. *)
Definition demo_malloc (n k : Z) : option Z := if k <? n then Some (1000 + k) else None.

Lemma demo_allocations n : 0 <= n <= 14 -> allocations (demo_malloc n) 10 20 n {[7]}.
Proof.
  intros Hn. split; [intros k Hk; unfold demo_malloc; by rewrite (proj2 (Z.ltb_lt k n)) by lia|].
  assert (Hin : forall p, p ∈ first_ptrs (demo_malloc n) n -> 1000 <= p).
  { intros p. unfold first_ptrs, demo_malloc. rewrite list_elem_of_fmap.
    intros (k & -> & Hk%elem_of_seqZ). case_cond; simpl; lia. }
  split.
  - repeat (apply NoDup_cons; split; [intros Hx; repeat (apply elem_of_cons in Hx as [Hx|Hx]);
      lia || (apply Hin in Hx; lia)|]).
    apply NoDup_fmap_2_strong; [|apply NoDup_seqZ].
    intros i j Hi%elem_of_seqZ Hj%elem_of_seqZ. unfold demo_malloc.
    rewrite !(proj2 (Z.ltb_lt _ n)) by lia. simpl. lia.
  - intros p Hp. repeat (apply elem_of_cons in Hp as [->|Hp]); [set_solver..|].
    apply Hin in Hp. split; [lia|]. rewrite elem_of_singleton. lia.
Qed.

Lemma weight_load_ok_witness :
  exists ld h1 ld' w,
    kllm_weight_loader_create (Some 10) (Some 20) (Some (WavefrontCtx None 1)) None demo_cfg {[7]}
      = Some (Some ld, h1) /\
    kllm_weight_loader_load_all (demo_malloc 14) ld (World h1 0 []) = Some (0, ld', w) /\
    layers_loaded (kllm_weight_loader_progress ld') = 2 /\
    kllm_weight_loader_destroy (Some ld') (heap w) = Some {[7]}.
Proof.
  destruct (weight_load_ok (demo_malloc 14) (WavefrontCtx None 1) None demo_cfg 10 20 {[7]})
    as (ld & h1 & ld' & w & Hc & Hl & Hp & _ & _ & _ & _ & _ & _ & _ & _ & Hd).
  - split; vm_compute; congruence.
  - by left.
  - apply (demo_allocations 14). lia.
  - by exists ld, h1, ld', w.
Defined.

Lemma weight_load_oom_witness :
  exists ld h1 ld' w,
    kllm_weight_loader_create (Some 10) (Some 20) (Some (WavefrontCtx None 1)) None demo_cfg {[7]}
      = Some (Some ld, h1) /\
    kllm_weight_loader_load_all (demo_malloc 9) ld (World h1 0 []) = Some (-1, ld', w) /\
    len (submitted w) = 8 /\
    kllm_weight_loader_destroy (Some ld') (heap w) = Some {[7]}.
Proof.
  destruct (weight_load_oom (demo_malloc 9) (WavefrontCtx None 1) demo_cfg 10 20 {[7]} 9)
    as (ld & h1 & ld' & w & Hc & Hl & _ & Hs & Hd).
  - split; vm_compute; congruence.
  - cbn. lia.
  - apply (demo_allocations 9). lia.
  - done.
  - by exists ld, h1, ld', w.
Defined.
