(* ===== verification/Reactor.v ===== *)
(** * The reactor

    Models [userspace/reactor/kllm_reactor.c]: mapping the token ring, creating
    the KV cache and the dispatch policy, the poller that drains the ring, and
    shutdown.  The components are those of the other files; the operating
    system's and SPDK's answers during start are the fields of [boot].  The
    process records which objects are alive, so that destroying one twice is
    undefined, which descriptors are open and whether the ring is mapped.

    The file proves that a started reactor serves every interleaving of tokens
    arriving and polls without undefined behaviour, taking the tokens in batches
    as the queue of [TokenRing] prescribes, and what it then counts; that
    shutdown releases everything exactly once; and what each failing start
    leaves for shutdown. *)

From Stdlib Require Import ZArith Lia.
From stdpp Require Import base numbers list sets.
From S2P Require Import Prelude TokenRing BlockFormat Arena Floats CacheIndex Dispatch.

#[local] Open Scope Z_scope.

(** ** Data *)

Definition KLLM_RING_SIZE : Z := 2 * 1024 * 1024.
Definition KLLM_POLL_BATCH : Z := 256.
Definition KLLM_ARENA_SIZE_GB : Z := 4.
Definition KLLM_INDEX_CAPACITY : Z := 64 * 1024.

Definition index : Type := kllm_cache_index kllm_arena.

(** Null pointers are [None]; [ring] is the mapped ring, which the kernel writes
    too. *)
Record kllm_reactor_ctx : Type := ReactorCtx {
  chardev_fd : Z;
  r_ring : option ring;
  poller : bool;
  tokens_consumed : Z;
  prompts_dispatched : Z;
  r_arena : option kllm_arena;
  cache_idx : option index;
  dispatch : option kllm_dispatch_ctx;
  r_model : kllm_model_config;
}.

(** The context in static memory. *)
Definition g_ctx : kllm_reactor_ctx :=
  ReactorCtx 0 None false 0 0 None None None (ModelConfig 0 0 0 0).

Inductive object : Type := OArena | OIndex | ODispatch.

#[export] Instance object_eq_dec : EqDecision object.
Proof. solve_decision. Defined.

(** The process: live objects, open descriptors, mappings of the ring and the
    arguments of the calls of [spdk_app_stop]. *)
Record process : Type := Process {
  live : list object;
  open_fds : list Z;
  ring_maps : Z;
  app_stops : list Z;
}.

(** What the calls of start return: [open], [mmap] of the ring, the allocations
    of the components and the registration of the poller. *)
Record boot : Type := Boot {
  b_open : Z;
  b_mmap : option ring;
  b_os : os;
  b_calloc_idx : bool;
  b_calloc_entries : bool;
  b_calloc_dispatch : bool;
  b_poller : bool;
}.

Inductive poll_rc : Type := SPDK_POLLER_IDLE | SPDK_POLLER_BUSY.

(** ** Operations *)

Definition with_ring (ctx : kllm_reactor_ctx) (r : option ring) : kllm_reactor_ctx :=
  ReactorCtx (chardev_fd ctx) r (poller ctx) (tokens_consumed ctx) (prompts_dispatched ctx)
    (r_arena ctx) (cache_idx ctx) (dispatch ctx) (r_model ctx).

Definition open_fd (p : process) (fd : Z) : process :=
  Process (live p) (fd :: open_fds p) (ring_maps p) (app_stops p).

Definition close_fd (p : process) (fd : Z) : process :=
  Process (live p) (filter (fun x => x <> fd) (open_fds p)) (ring_maps p) (app_stops p).

Definition map_ring (p : process) (n : Z) : process :=
  Process (live p) (open_fds p) (ring_maps p + n) (app_stops p).

Definition create (p : process) (x : object) : process :=
  Process (x :: live p) (open_fds p) (ring_maps p) (app_stops p).

(** [None] when the object is not alive. *)
Definition destroy (p : process) (x : object) : option process :=
  if bool_decide (x ∈ live p)
  then Some (Process (filter (fun y => y <> x) (live p)) (open_fds p) (ring_maps p) (app_stops p))
  else None.

Definition spdk_app_stop (p : process) (rc : Z) : process :=
  Process (live p) (open_fds p) (ring_maps p) (app_stops p ++ [rc]).

(** [now] is the clock that the lookup reads. *)
Definition kllm_ring_poll (ctx : kllm_reactor_ctx) (p : process) (now : Z)
    : option (poll_rc * kllm_reactor_ctx) :=
  r ← r_ring ctx;
  '(count, _, r) ← kllm_ring_consume_batch r (zeroed KLLM_POLL_BATCH) KLLM_POLL_BATCH;
  if count =? 0 then Some (SPDK_POLLER_IDLE, with_ring ctx (Some r))
  else
    let consumed := u64 (tokens_consumed ctx + count) in
    let seq_hash := zeroed 32 in
    if negb (bool_decide (OIndex ∈ live p) && bool_decide (ODispatch ∈ live p)) then None
    else
      idx ← cache_idx ctx;
      '(kv_block, idx) ← kllm_index_lookup idx seq_hash now;
      let cache_hit := match kv_block with Some _ => true | None => false end in
      d ← dispatch ctx;
      let '(target, d) := kllm_dispatch_decide d count cache_hit in
      let prompts :=
        if bool_decide (target = KLLM_TARGET_CPU) && cache_hit
        then u64 (prompts_dispatched ctx + 1)
        else u64 (prompts_dispatched ctx + 1) in
      Some (SPDK_POLLER_BUSY, ReactorCtx (chardev_fd ctx) (Some r) (poller ctx) consumed prompts
        (r_arena ctx) (Some idx) (Some d) (r_model ctx)).

Definition kllm_map_token_ring (b : boot) (ctx : kllm_reactor_ctx) (p : process)
    : Z * kllm_reactor_ctx * process :=
  let fd := b_open b in
  if fd <? 0 then (-1, ctx, p)
  else
    let p := open_fd p fd in
    match b_mmap b with
    | None => (-1, ctx, close_fd p fd)
    | Some hdr =>
        let p := map_ring p 1 in
        if negb (magic hdr =? KLLM_TOKEN_RING_MAGIC)
        then (-1, ctx, close_fd (map_ring p (-1)) fd)
        else (0, ReactorCtx fd (Some hdr) (poller ctx) (tokens_consumed ctx)
                (prompts_dispatched ctx) (r_arena ctx) (cache_idx ctx) (dispatch ctx)
                (r_model ctx), p)
    end.

Definition with_kvcache (ctx : kllm_reactor_ctx) (a : option kllm_arena) (i : option index)
    (d : option kllm_dispatch_ctx) : kllm_reactor_ctx :=
  ReactorCtx (chardev_fd ctx) (r_ring ctx) (poller ctx) (tokens_consumed ctx)
    (prompts_dispatched ctx) a i d (r_model ctx).

Definition reactor_arena_cfg (ctx : kllm_reactor_ctx) : kllm_arena_config :=
  ArenaConfig (KLLM_ARENA_SIZE_GB * 1024 * 1024 * 1024) 2 (-1) (r_model ctx).

Definition reactor_dispatch_cfg : kllm_dispatch_config := DispatchConfig 512 f32_0_8 64.

(** Each failing branch destroys what it created, and leaves the pointers. *)
Definition kllm_init_kvcache (b : boot) (ctx : kllm_reactor_ctx) (p : process)
    : option (Z * kllm_reactor_ctx * process) :=
  '(a, _) ← kllm_arena_create (b_os b) (reactor_arena_cfg ctx);
  let ctx := with_kvcache ctx a (cache_idx ctx) (dispatch ctx) in
  match a with
  | None => Some (-1, ctx, p)
  | Some ar =>
      let p := create p OArena in
      i ← kllm_index_create (b_calloc_idx b) (b_calloc_entries b) KLLM_INDEX_CAPACITY ar;
      let ctx := with_kvcache ctx a i (dispatch ctx) in
      match i with
      | None => p ← destroy p OArena; Some (-1, ctx, p)
      | Some _ =>
          let p := create p OIndex in
          let d := kllm_dispatch_create (b_calloc_dispatch b) reactor_dispatch_cfg in
          let ctx := with_kvcache ctx a i d in
          match d with
          | None => p ← destroy p OIndex; p ← destroy p OArena; Some (-1, ctx, p)
          | Some _ => Some (0, ctx, create p ODispatch)
          end
      end
  end.

Definition default_model : kllm_model_config := ModelConfig 80 8 128 128.

Definition kllm_reactor_start (b : boot) (ctx : kllm_reactor_ctx) (p : process)
    : option (kllm_reactor_ctx * process) :=
  let ctx := ReactorCtx (chardev_fd ctx) (r_ring ctx) (poller ctx) (tokens_consumed ctx)
    (prompts_dispatched ctx) (r_arena ctx) (cache_idx ctx) (dispatch ctx) default_model in
  let '(rc, ctx, p) := kllm_map_token_ring b ctx p in
  if negb (rc =? 0) then Some (ctx, spdk_app_stop p (-1))
  else
    '(rc, ctx, p) ← kllm_init_kvcache b ctx p;
    if negb (rc =? 0) then Some (ctx, spdk_app_stop p (-1))
    else
      let ctx := ReactorCtx (chardev_fd ctx) (r_ring ctx) (b_poller b) (tokens_consumed ctx)
        (prompts_dispatched ctx) (r_arena ctx) (cache_idx ctx) (dispatch ctx) (r_model ctx) in
      if negb (poller ctx) then Some (ctx, spdk_app_stop p (-1)) else Some (ctx, p).

(** The statistics that it logs are reads of live objects. *)
Definition kllm_reactor_shutdown (ctx : kllm_reactor_ctx) (p : process)
    : option (kllm_reactor_ctx * process) :=
  p ← match dispatch ctx with Some _ => destroy p ODispatch | None => Some p end;
  p ← match cache_idx ctx with Some _ => destroy p OIndex | None => Some p end;
  p ← match r_arena ctx with Some _ => destroy p OArena | None => Some p end;
  let p := match r_ring ctx with Some _ => map_ring p (-1) | None => p end in
  let '(fd, p) :=
    if 0 <=? chardev_fd ctx then (-1, close_fd p (chardev_fd ctx)) else (chardev_fd ctx, p) in
  Some (ReactorCtx fd None false (tokens_consumed ctx) (prompts_dispatched ctx) (r_arena ctx)
    (cache_idx ctx) (dispatch ctx) (r_model ctx), spdk_app_stop p 0).

(** ** A session

    Between the start and shutdown of the reactor the kernel produces tokens
    into the shared ring and SPDK calls the poller. *)
Inductive event : Type :=
| EvProduce (token_id : Z)
| EvPoll (now : Z).

Definition reactor_event (p : process) (ctx : kllm_reactor_ctx) (ev : event)
    : option kllm_reactor_ctx :=
  match ev with
  | EvProduce x =>
      r ← r_ring ctx; '(_, r) ← kllm_ring_produce r x; Some (with_ring ctx (Some r))
  | EvPoll now => '(_, ctx) ← kllm_ring_poll ctx p now; Some ctx
  end.

Fixpoint reactor_run (p : process) (ctx : kllm_reactor_ctx) (evs : list event)
    : option kllm_reactor_ctx :=
  match evs with
  | [] => Some ctx
  | ev :: evs => ctx ← reactor_event p ctx ev; reactor_run p ctx evs
  end.

(** ** Specification *)

(** The tokens waiting, the number consumed and the number of prompts. *)
Record session : Type := Session {
  waiting : list Z;
  consumed : Z;
  prompts : Z;
}.

(** A poll of a ring with tokens takes at most 256 of them as one prompt. *)
Definition session_event (cap : Z) (s : session) (ev : event) : session :=
  match ev with
  | EvProduce x => Session (snd (queue_push cap (waiting s) x)) (consumed s) (prompts s)
  | EvPoll _ =>
      match waiting s with
      | [] => s
      | _ :: _ => Session (drop 256 (waiting s)) (consumed s + Z.min (len (waiting s)) 256)
                    (prompts s + 1)
      end
  end.

Definition session_run (cap : Z) (s : session) (evs : list event) : session :=
  foldl (session_event cap) s evs.

Definition event_ok (ev : event) : Prop :=
  match ev with EvPoll now => now < UINT64_MAX | EvProduce _ => True end.

(** The counters of the dispatch policy after [n] prompts: all are misses, 64
    are queued for the GPU, which never completes, and the others overflow to
    the CPU. *)
Definition session_state (n : Z) : kllm_dispatch_state :=
  DispatchState n (n - Z.min n 64) (Z.min n 64) 0 n (Z.min n 64).

Record serving (cap : Z) (p : process) (s : session) (ctx : kllm_reactor_ctx) : Prop := {
  sv_index_live : OIndex ∈ live p;
  sv_dispatch_live : ODispatch ∈ live p;
  sv_ring : exists r, r_ring ctx = Some r /\ ring_wf r /\ ring_contents r = waiting s /\
    ring_capacity r = cap;
  sv_index : exists idx, cache_idx ctx = Some idx /\ index_wf idx /\ slots_of (entries idx) = [];
  sv_dispatch : dispatch ctx =
    Some (DispatchCtx reactor_dispatch_cfg (session_state (prompts s)));
  sv_consumed : tokens_consumed ctx = u64 (consumed s);
  sv_prompts : prompts_dispatched ctx = prompts s /\ 0 <= prompts s;
}.

(** ** Lemmas *)

Lemma lookup_empty (idx : index) now :
  index_wf idx -> slots_of (entries idx) = [] -> now < UINT64_MAX ->
  exists idx', kllm_index_lookup idx (zeroed 32) now = Some (None, idx') /\ index_wf idx' /\
    slots_of (entries idx') = [].
Proof.
  intros Hwf Hs Hnow.
  destruct (lookup_ok idx (zeroed 32) now Hwf eq_refl Hnow) as (q & idx' & Hl & Hwf' & Hres).
  destruct Hres as [(-> & -> & _)|(i & e & (_ & He & _) & Hlive & _)]; [by eauto|].
  exfalso. unfold slots_of in Hs. apply fmap_nil_inv in Hs.
  assert (e ∈ filter is_live (entries idx)) as Hin.
  { apply list_elem_of_filter. split; [done|]. by apply list_elem_of_lookup_2 in He. }
  rewrite Hs in Hin. by apply not_elem_of_nil in Hin.
Qed.

Lemma decide_session n count :
  0 <= n < 2 ^ 64 - 1 -> count <= 512 ->
  snd (kllm_dispatch_decide (DispatchCtx reactor_dispatch_cfg (session_state n)) count false) =
    DispatchCtx reactor_dispatch_cfg (session_state (n + 1)).
Proof.
  intros Hn Hc. unfold kllm_dispatch_decide, session_state, reactor_dispatch_cfg. cbn.
  rewrite (proj2 (Z.leb_le count 512)), (proj2 (Z.ltb_ge 512 count)) by lia. cbn.
  rewrite (bool_decide_true (KLLM_TARGET_GPU = KLLM_TARGET_GPU)) by done.
  destruct (Z.leb_spec 64 (Z.min n 64)); cbn;
    repeat (rewrite wrap_small by (unfold fits; lia)); do 2 f_equal; lia.
Qed.

Lemma serving_event cap p s ctx ev :
  serving cap p s ctx -> event_ok ev -> prompts s < 2 ^ 64 - 1 ->
  exists ctx', reactor_event p ctx ev = Some ctx' /\ serving cap p (session_event cap s ev) ctx' /\
    chardev_fd ctx' = chardev_fd ctx /\ r_arena ctx' = r_arena ctx.
Proof.
  intros [Hi Hd (r & Hr & Hwf & Hq & Hcap) (idx & Hx & Hiwf & Hs) Hdisp Hcons [Hpr Hpr0]] Hev Hn.
  destruct ev as [x|now]; cbn [reactor_event].
  - rewrite Hr. cbn [mbind option_bind].
    destruct (ring_produce_ok r x Hwf) as (r' & -> & Hwf' & Hsc & Hc').
    cbn [mbind option_bind]. eexists. split; [done|]. split; [|done].
    split; cbn; eauto 10. exists r'. rewrite Hc', Hq, Hcap. unfold ring_capacity in *.
    rewrite Hsc. auto.
  - unfold kllm_ring_poll. rewrite Hr. cbn [mbind option_bind].
    destruct (ring_consume_batch_ok r (zeroed KLLM_POLL_BATCH) KLLM_POLL_BATCH)
      as (r' & -> & Hwf' & Hsc & Hc'); [done|split; vm_compute; congruence|done|].
    cbn [mbind option_bind]. pose proof (ring_contents_length r Hwf) as Hlen.
    rewrite Hq in Hlen, Hc'. rewrite <- Hlen.
    assert (exists r, r_ring (with_ring ctx (Some r')) = Some r /\ ring_wf r /\
      ring_contents r = drop 256 (waiting s) /\ ring_capacity r = cap) as Hring.
    { exists r'. unfold ring_capacity in *. rewrite Hsc. auto. }
    unfold KLLM_POLL_BATCH in *. cbn [session_event]. destruct (waiting s) as [|t q] eqn:Hw.
    { cbn. eexists. split; [done|]. split; [|done]. split; rewrite ?Hw; eauto. }
    destruct (Z.eqb_spec (Z.min (len (t :: q)) 256) 0); [simpl in *; lia|].
    rewrite !bool_decide_true by done. cbn [andb negb]. rewrite Hx. cbn [mbind option_bind].
    destruct (lookup_empty idx now Hiwf Hs Hev) as (idx' & -> & Hiwf' & Hs').
    cbn [mbind option_bind]. rewrite Hdisp. cbn [mbind option_bind].
    pose proof (decide_session (prompts s) (Z.min (len (t :: q)) 256)) as Hdec.
    destruct (kllm_dispatch_decide _ _ _) as [target d]. cbn [snd] in Hdec.
    rewrite Hdec by lia. eexists. split; [by rewrite andb_false_r|]. split; [|done].
    rewrite Hcons, Hpr. split; cbn [r_ring cache_idx dispatch tokens_consumed prompts_dispatched
      waiting consumed prompts]; eauto.
    + unfold wrap. by rewrite Zplus_mod_idemp_l.
    + split; [apply wrap_small; unfold fits; lia|lia].
Qed.

Lemma serving_run cap p evs s ctx :
  serving cap p s ctx -> Forall event_ok evs -> prompts s + len evs < 2 ^ 64 ->
  exists ctx', reactor_run p ctx evs = Some ctx' /\ serving cap p (session_run cap s evs) ctx' /\
    chardev_fd ctx' = chardev_fd ctx /\ r_arena ctx' = r_arena ctx.
Proof.
  revert s ctx. induction evs as [|ev evs IH]; intros s ctx Hs Hok Hn.
  { by exists ctx. }
  apply Forall_cons in Hok as [Hev Hok]. cbn [reactor_run].
  destruct (serving_event cap p s ctx ev Hs Hev) as (ctx1 & -> & Hs1 & Hfd & Ha);
    [simpl in Hn; lia|]. cbn [mbind option_bind].
  destruct (IH _ _ Hs1 Hok) as (ctx' & -> & Hs' & Hfd' & Ha').
  - assert (prompts (session_event cap s ev) <= prompts s + 1).
    { destruct ev; simpl; [lia|]. destruct (waiting s); simpl; lia. }
    simpl in Hn. lia.
  - exists ctx'. split; [done|]. split; [done|]. by rewrite Hfd', Ha'.
Qed.

(** The first process: the standard descriptors are open. *)
Definition process0 : process := Process [] [0; 1; 2] 0 [].

Definition serving_process (p : process) : process :=
  Process [ODispatch; OIndex; OArena] (open_fds p) (ring_maps p) (app_stops p).

Definition fresh_dispatch : kllm_dispatch_ctx :=
  DispatchCtx reactor_dispatch_cfg (session_state 0).

(** The results of [kllm_init_kvcache]: everything created, or -1 with nothing
    left alive. *)
Lemma init_kvcache_cases b ctx p :
  mmap_law (b_os b) -> r_model ctx = default_model -> live p = [] ->
  cache_idx ctx = None -> dispatch ctx = None ->
  exists a i d rc p', kllm_init_kvcache b ctx p = Some (rc, with_kvcache ctx a i d, p') /\
    match a with
    | None => i = None /\ d = None /\ rc = -1 /\ p' = p /\
        (os_calloc_arena (b_os b) = false \/ os_calloc_bitmap (b_os b) = false \/
         os_mmap (b_os b) (4 * 2 ^ 30) (mmap_flags 4) = None)
    | Some _ =>
        if b_calloc_idx b && b_calloc_entries b && b_calloc_dispatch b
        then rc = 0 /\ p' = serving_process p /\ d = Some fresh_dispatch /\
          exists idx, i = Some idx /\ index_wf idx /\ slots_of (entries idx) = []
        else d = None /\ rc = -1 /\ p' = p
    end.
Proof.
  intros Hlaw Hm Hl Hi Hd. unfold kllm_init_kvcache. rewrite Hi, Hd.
  destruct (arena_create_run (b_os b) (reactor_arena_cfg ctx)) as (a & held & -> & _ & Ha);
    [done|split; vm_compute; congruence|vm_compute; congruence
    |unfold reactor_arena_cfg; rewrite Hm; split; vm_compute; congruence|].
  cbn [mbind option_bind]. destruct a as [ar|].
  2:{ exists None, None, None, (-1), p. split; [done|]. do 4 (split; [done|]).
      destruct Ha as [_ Ha]. unfold reactor_arena_cfg in Ha. rewrite Hm in Ha.
      destruct Ha as [?|[?|[?|Hbad]]]; [by auto..|]. exfalso. revert Hbad. vm_compute. done. }
  exists (Some ar). destruct Ha as (Hwf & _ & _ & Hss & Ht).
  destruct (index_create_ok (b_calloc_idx b) (b_calloc_entries b) KLLM_INDEX_CAPACITY ar)
    as (i & -> & Hres); [split; vm_compute; congruence| |].
  { split; [done|]. rewrite Ht. unfold reactor_arena_cfg in *. rewrite Hm in Hss.
    cbn [cfg_total_bytes cfg_model] in *.
    assert (2 <= slot_size ar) by (etransitivity; [|exact Hss]; vm_compute; congruence).
    unfold UINT32_MAX, KLLM_ARENA_SIZE_GB. apply Z.div_le_upper_bound; lia. }
  cbn [mbind option_bind]. destruct p as [lv fds maps stops]. cbn [live] in Hl. subst lv.
  destruct i as [idx|].
  - destruct Hres as (-> & -> & _ & _ & [Hbad|(_ & Hiwf & _ & Hs)]); [done|].
    destruct (b_calloc_dispatch b); do 4 eexists; cbn; (split; [done|]); [|done].
    do 3 (split; [done|]). by eauto.
  - do 4 eexists. cbn. split; [done|].
    destruct Hres as [-> | [-> | Hbad]]; [done|by rewrite andb_false_r|done].
Qed.

Lemma destroy_first x l fds maps stops :
  x ∉ l -> destroy (Process (x :: l) fds maps stops) x = Some (Process l fds maps stops).
Proof.
  intros Hx. unfold destroy. cbn [live]. rewrite bool_decide_true by set_solver.
  do 2 f_equal. cbn [live]. rewrite filter_cons_False by tauto.
  induction l as [|y l IH]; [done|].
  rewrite filter_cons_True, IH by set_solver. done.
Qed.

Lemma close_new_fd fd : 3 <= fd -> filter (fun x => x <> fd) [fd; 0; 1; 2] = [0; 1; 2].
Proof.
  intros Hfd. rewrite filter_cons_False by tauto.
  by rewrite !filter_cons_True by lia.
Qed.

(** ** Theorems *)

(** The operating system grants what start asks for: a descriptor that is not
    in use, a ring with the right magic number, the memory and the poller. *)
Definition boot_ok (b : boot) (r : ring) : Prop :=
  3 <= b_open b /\ b_mmap b = Some r /\ magic r = KLLM_TOKEN_RING_MAGIC /\
  os_calloc_arena (b_os b) = true /\ os_calloc_bitmap (b_os b) = true /\
  is_Some (os_mmap (b_os b) (4 * 2 ^ 30) (mmap_flags 4)) /\
  b_calloc_idx b = true /\ b_calloc_entries b = true /\ b_calloc_dispatch b = true /\
  b_poller b = true.

(** Start with all its resources leaves the reactor serving, and shutdown from
    any later point of the session undoes it. *)
Lemma start_serving b r :
  mmap_law (b_os b) -> boot_ok b r -> ring_wf r ->
  exists ctx p, kllm_reactor_start b g_ctx process0 = Some (ctx, p) /\ app_stops p = [] /\
    serving (ring_capacity r) p (Session (ring_contents r) 0 0) ctx /\
    forall s ctx1, serving (ring_capacity r) p s ctx1 -> chardev_fd ctx1 = chardev_fd ctx ->
      r_arena ctx1 = r_arena ctx ->
      exists ctx2, kllm_reactor_shutdown ctx1 p = Some (ctx2, Process [] [0; 1; 2] 0 [0]).
Proof.
  intros Hlaw (Hfd & Hmap & Hmagic & Hca & Hcb & [x Hmm] & Hci & Hce & Hcd & Hpo) Hwf.
  unfold kllm_reactor_start, kllm_map_token_ring.
  rewrite (proj2 (Z.ltb_ge (b_open b) 0)), Hmap, Hmagic, Z.eqb_refl by lia. cbn [negb].
  change (0 =? 0) with true. cbn [negb].
  match goal with |- context [kllm_init_kvcache b ?c ?q] =>
    destruct (init_kvcache_cases b c q Hlaw eq_refl eq_refl eq_refl eq_refl)
      as (a & i & d & rc & p' & -> & Hcase)
  end.
  cbn [mbind option_bind]. destruct a as [ar|]; [|intuition congruence].
  rewrite Hci, Hce, Hcd in Hcase. destruct Hcase as (-> & -> & -> & idx & -> & Hiwf & Hs).
  change (0 =? 0) with true. rewrite Hpo. cbn. do 2 eexists. split; [done|]. split; [done|]. split.
  { split; cbn; solve [set_solver | eauto 10 | done]. }
  intros s ctx1 [_ _ (r1 & Hr1 & _) (idx1 & Hx1 & _) Hd1 _ _] Hfd1 Ha1. eexists.
  unfold kllm_reactor_shutdown. rewrite Hd1, Hx1, Ha1, Hr1, Hfd1. cbn.
  unfold serving_process. do 3 (rewrite destroy_first by set_solver; cbn [mbind option_bind]).
  rewrite (proj2 (Z.leb_le 0 (b_open b))) by lia. unfold close_fd, spdk_app_stop. cbn -[filter].
  by rewrite close_new_fd by lia.
Qed.

(** C10. A session of the reactor.  When start gets its resources, every
    interleaving of tokens arriving in the ring and polls is defined and refines
    the session specification: each poll of a ring with tokens takes the oldest
    ones, at most 256, as one prompt.  Since nothing is ever inserted into the
    cache index and no GPU completion is ever reported, all prompts count as
    misses, the first 64 as GPU dispatches and all later ones as CPU
    dispatches.  Shutdown then leaves the process as it was before start, each
    object destroyed exactly once. *)
Theorem reactor_session_ok b r evs :
  mmap_law (b_os b) -> boot_ok b r -> ring_wf r ->
  Forall event_ok evs -> len evs < 2 ^ 64 ->
  let s := session_run (ring_capacity r) (Session (ring_contents r) 0 0) evs in
  exists ctx p ctx1 r1 ctx2,
    kllm_reactor_start b g_ctx process0 = Some (ctx, p) /\ app_stops p = [] /\
    reactor_run p ctx evs = Some ctx1 /\
    r_ring ctx1 = Some r1 /\ ring_contents r1 = waiting s /\
    tokens_consumed ctx1 = u64 (consumed s) /\ prompts_dispatched ctx1 = prompts s /\
    kllm_dispatch_get_state <$> dispatch ctx1 = Some (session_state (prompts s)) /\
    kllm_reactor_shutdown ctx1 p = Some (ctx2, Process [] [0; 1; 2] 0 [0]).
Proof.
  intros Hlaw Hboot Hwf Hok Hn s.
  destruct (start_serving b r Hlaw Hboot Hwf) as (ctx & p & Hstart & Hstops & Hserve & Hdown).
  destruct (serving_run _ p evs _ ctx Hserve Hok) as (ctx1 & Hrun & Hs1 & Hfd & Ha); [cbn; lia|].
  destruct (Hdown _ _ Hs1 Hfd Ha) as [ctx2 Hshut].
  destruct Hs1 as [_ _ (r1 & Hr1 & _ & Hq & _) _ Hd1 Hc1 [Hp1 _]]. fold s in Hq, Hd1, Hc1, Hp1.
  exists ctx, p, ctx1, r1, ctx2. rewrite Hd1. by repeat (split; [done|]).
Qed.


(** What start leaves, and what a shutdown then does. *)
Definition start_outcome (b : boot) (ctx : kllm_reactor_ctx) (p : process) : Prop :=
  app_stops p = (if poller ctx then [] else [-1]) /\
  (kllm_reactor_shutdown ctx p = None <->
     is_Some (r_arena ctx) /\
     b_calloc_idx b && b_calloc_entries b && b_calloc_dispatch b = false) /\
  (forall ctx' p', kllm_reactor_shutdown ctx p = Some (ctx', p') ->
     live p' = [] /\ ring_maps p' = 0 /\
     open_fds p' = match r_ring ctx with Some _ => [0; 1; 2] | None => [1; 2] end).

Lemma unmapped_outcome b p :
  p = process0 ->
  start_outcome b (ReactorCtx 0 None false 0 0 None None None default_model)
    (spdk_app_stop p (-1)).
Proof.
  intros ->. split; [done|]. split; [split; [done|]; intros [[? ?] _]; done|].
  intros ctx' p'. cbn. intros [= <- <-]. done.
Qed.

(** The process with the ring mapped at the descriptor [fd]. *)
Definition mapped_process (fd : Z) : process := map_ring (open_fd process0 fd) 1.

Definition mapped_ctx (fd : Z) (r : ring) : kllm_reactor_ctx :=
  ReactorCtx fd (Some r) false 0 0 None None None default_model.

(** A shutdown that finds every object it knows alive. *)
Lemma shutdown_alive b ctx p :
  3 <= chardev_fd ctx -> open_fds p = [chardev_fd ctx; 0; 1; 2] -> ring_maps p = 1 ->
  is_Some (r_ring ctx) ->
  app_stops p = (if poller ctx then [] else [-1]) ->
  (r_arena ctx = None /\ cache_idx ctx = None /\ dispatch ctx = None /\ live p = []) \/
  (is_Some (cache_idx ctx) /\ is_Some (dispatch ctx) /\ is_Some (r_arena ctx) /\
   live p = [ODispatch; OIndex; OArena] /\
   b_calloc_idx b && b_calloc_entries b && b_calloc_dispatch b = true) ->
  start_outcome b ctx p.
Proof.
  intros Hfd Hf Hm [r Hr] Hst Hlive. unfold start_outcome.
  assert (exists ctx' p', kllm_reactor_shutdown ctx p = Some (ctx', p') /\ live p' = [] /\
    ring_maps p' = 0 /\ open_fds p' = [0; 1; 2]) as (ctx' & p' & -> & Hp').
  { unfold kllm_reactor_shutdown. rewrite (proj2 (Z.leb_le 0 (chardev_fd ctx))), Hr by lia.
    destruct p as [lv fds maps stops]. cbn in Hf, Hm, Hlive. subst fds maps.
    destruct Hlive as [(-> & -> & -> & ->)|([i ->] & [d ->] & [a ->] & -> & _)].
    - do 2 eexists. split; [done|]. cbn -[filter]. by rewrite close_new_fd.
    - do 3 (rewrite destroy_first by set_solver; cbn [mbind option_bind]).
      do 2 eexists. split; [done|]. cbn -[filter]. by rewrite close_new_fd. }
  split; [done|]. rewrite Hr. split.
  - split; [done|]. intros [[a Ha] Hb]. destruct Hlive as [(? & _)|(_ & _ & _ & _ & ?)]; congruence.
  - by intros ? ? [= <- <-].
Qed.

Lemma kvcache_outcome b fd r a i d rc p' :
  3 <= fd ->
  match a with
  | None => i = None /\ d = None /\ rc = -1 /\ p' = mapped_process fd
  | Some _ =>
      if b_calloc_idx b && b_calloc_entries b && b_calloc_dispatch b
      then rc = 0 /\ p' = serving_process (mapped_process fd) /\ is_Some d /\ is_Some i
      else d = None /\ rc = -1 /\ p' = mapped_process fd
  end ->
  let ctx := with_kvcache (mapped_ctx fd r) a i d in
  if negb (rc =? 0) then start_outcome b ctx (spdk_app_stop p' (-1))
  else
    let ctx := ReactorCtx fd (Some r) (b_poller b) 0 0 a i d default_model in
    if negb (b_poller b) then start_outcome b ctx (spdk_app_stop p' (-1))
    else start_outcome b ctx p'.
Proof.
  intros Hfd Hcase. cbn zeta. destruct a as [ar|].
  - destruct (b_calloc_idx b && b_calloc_entries b && b_calloc_dispatch b) eqn:Hc.
    + destruct Hcase as (-> & -> & [d' ->] & [i' ->]). change (negb (0 =? 0)) with false.
      cbn match. destruct (b_poller b) eqn:Hpo; cbn match; apply shutdown_alive; cbn; eauto 10.
    + destruct Hcase as (-> & -> & ->). cbn -[kllm_reactor_shutdown].
      unfold start_outcome. rewrite Hc. split; [done|]. destruct i; split; try done;
        split; intros; simpl in *; eauto.
  - destruct Hcase as (-> & -> & -> & ->). cbn match. apply shutdown_alive; cbn; eauto 10.
Qed.

(** C40. Every outcome of start, and of a shutdown after it.  Start always
    returns; it stops the application with -1 exactly when it has not
    registered the poller.  A shutdown after it destroys something that is
    already destroyed exactly when the arena was created and then an allocation
    of the index or of the dispatch policy failed, since that failure leaves the
    pointers in the context.  Otherwise it leaves no object and no mapping; but
    when the ring was never mapped it closes the standard input, because the
    descriptor in the zeroed context is 0. *)
Theorem reactor_start_outcomes b :
  mmap_law (b_os b) -> b_open b < 0 \/ 3 <= b_open b ->
  exists ctx p, kllm_reactor_start b g_ctx process0 = Some (ctx, p) /\
    start_outcome b ctx p.
Proof.
  intros Hlaw Hfd. unfold kllm_reactor_start, kllm_map_token_ring.
  destruct (Z.ltb_spec (b_open b) 0) as [Hneg|Hpos]; [|destruct Hfd as [|Hfd]; [lia|]].
  { do 2 eexists. split; [done|]. by apply unmapped_outcome. }
  destruct (b_mmap b) as [r|].
  2:{ do 2 eexists. split; [done|]. apply unmapped_outcome. unfold close_fd. cbn -[filter].
      by rewrite close_new_fd. }
  destruct (magic r =? KLLM_TOKEN_RING_MAGIC); cbn [negb].
  2:{ do 2 eexists. split; [done|]. apply unmapped_outcome. unfold close_fd. cbn -[filter].
      by rewrite close_new_fd. }
  change (negb (0 =? 0)) with false. cbn match. cbn [poller g_ctx tokens_consumed
    prompts_dispatched r_arena cache_idx dispatch r_model].
  fold (mapped_ctx (b_open b) r). fold (mapped_process (b_open b)).
  destruct (init_kvcache_cases b (mapped_ctx (b_open b) r) (mapped_process (b_open b)))
    as (a & i & d & rc & p' & -> & Hcase); [done..|].
  cbn [mbind option_bind].
  assert (Hout := kvcache_outcome b (b_open b) r a i d rc p' Hfd).
  cbn zeta in Hout. cbn [poller]. 
  destruct (negb (rc =? 0)); [do 2 eexists; split; [done|]; apply Hout|
    destruct (negb (b_poller b)); do 2 eexists; (split; [done|]); apply Hout];
    destruct a; repeat case_match; naive_solver.
Qed.

(** ** Witnesses *)

Definition demo_boot (dispatch_ok : bool) : boot :=
  Boot 3 (Some (ring_empty 2)) demo_os true true dispatch_ok true.

Lemma demo_mmap_law : mmap_law demo_os.
Proof. intros n flags p. simpl. case_cond; intros; simplify_eq. lia. Qed.

Lemma reactor_session_ok_witness :
  exists ctx p ctx1 r1 ctx2,
    kllm_reactor_start (demo_boot true) g_ctx process0 = Some (ctx, p) /\
    reactor_run p ctx [EvProduce 7; EvPoll 1; EvPoll 2; EvProduce 8; EvProduce 9] = Some ctx1 /\
    r_ring ctx1 = Some r1 /\ ring_contents r1 = [8; 9] /\ tokens_consumed ctx1 = 1 /\
    kllm_reactor_shutdown ctx1 p = Some (ctx2, Process [] [0; 1; 2] 0 [0]).
Proof.
  destruct (reactor_session_ok (demo_boot true) (ring_empty 2)
    [EvProduce 7; EvPoll 1; EvPoll 2; EvProduce 8; EvProduce 9])
    as (ctx & p & ctx1 & r1 & ctx2 & Hs & _ & Hr & Hr1 & Hq & Hc & _ & _ & Hd).
  - exact demo_mmap_law.
  - unfold boot_ok. split; [vm_compute; congruence|]. do 4 (split; [reflexivity|]).
    split; [by exists 4096|]. do 3 (split; [reflexivity|]). reflexivity.
  - apply fresh_ring_ok; [lia|vm_compute; congruence].
  - repeat constructor.
  - done.
  - exists ctx, p, ctx1, r1, ctx2. exact (conj Hs (conj Hr (conj Hr1 (conj Hq (conj Hc Hd))))).
Defined.

(** Start without memory for the dispatch policy: a shutdown destroys the index
    twice. *)
Lemma reactor_start_outcomes_witness :
  exists ctx p, kllm_reactor_start (demo_boot false) g_ctx process0 = Some (ctx, p) /\
    start_outcome (demo_boot false) ctx p.
Proof.
  destruct (reactor_start_outcomes (demo_boot false)) as (ctx & p & Hs & Ho).
  - exact demo_mmap_law.
  - right. vm_compute. congruence.
  - exists ctx, p. exact (conj Hs Ho).
Defined.
