(* ===== verification/EndToEnd.v ===== *)
(** * The two paths of a request

    Composes the components along the paths that a request takes.  A prompt is
    tokenized into the shared ring ([Tokenizer.v]), which the poller of the
    reactor drains ([Reactor.v]); an answer is decoded into the response ring of
    the device ([Decode.v], [Response.v]), from which the client reads it
    ([Chardev.v]).

    The tokenizer and the reactor work on the same ring, here one value that
    the events of a run hand on; a run of the tokenizer and a poll are atomic.
    [WeakRing.v] has their interleavings. *)

From Stdlib Require Import ZArith Lia SpecFloat.
From stdpp Require Import base numbers list gmap.
From S2P Require Import Prelude Floats TokenRing Chardev Tokenizer BlockFormat Arena CacheIndex Dispatch Response Wavefront Gpu InferGpu Attention InferCpu Sampling Decode Reactor.

#[local] Open Scope Z_scope.

(** ** The prompt path *)

(** A prompt of [n] bytes that the tokenizer gets, and a poll at a time. *)
Inductive sys_event : Type :=
| EvPrompt (buf : list Z) (n : Z)
| EvTick (now : Z).

Definition sys_state : Type := kllm_reactor_ctx * option token_seq.

Section prompts.
Context (mt : merge_table) (byte_to_token : list Z) (p : process).

Definition sys_call (st : sys_state) (ev : sys_event) : option sys_state :=
  let '(ctx, scratch) := st in
  match ev with
  | EvPrompt buf n =>
      r ← r_ring ctx;
      '(_, r, scratch) ← kllm_tokenize mt byte_to_token buf n (Some r) scratch;
      Some (with_ring ctx r, scratch)
  | EvTick now => '(_, ctx) ← kllm_ring_poll ctx p now; Some (ctx, scratch)
  end.

Fixpoint sys_run (st : sys_state) (evs : list sys_event) : option sys_state :=
  match evs with
  | [] => Some st
  | ev :: evs => st ← sys_call st ev; sys_run st evs
  end.

End prompts.

(** *** Specification *)

Definition sys_event_ok (ev : sys_event) : Prop :=
  match ev with
  | EvPrompt buf n => 1 <= n <= MAX_PROMPT_LEN /\ n <= len buf
  | EvTick now => now < UINT64_MAX
  end.

Definition prompts_of (evs : list sys_event) : list (list Z * Z) :=
  omap (fun ev => match ev with EvPrompt buf n => Some (buf, n) | EvTick _ => None end) evs.

(** The tokens [ts] that the tokenizer makes of a prompt: those of its first 2048
    bytes after 128 merge steps, or fewer when no merge applies any more.  The
    bytes after these are dropped. *)
Definition tokenized (mt : merge_table) (bt : list Z) (x : list Z * Z) (ts : list Z) : Prop :=
  bpe_run mt 128 (initial_tokens bt (fst x) (snd x)) ts.

(** The events of the ring when the prompts have the tokens [tss]: each token of
    a prompt is produced by itself. *)
Fixpoint ring_events (evs : list sys_event) (tss : list (list Z)) : list event :=
  match evs, tss with
  | EvPrompt _ _ :: evs', ts :: tss' => (EvProduce <$> ts) ++ ring_events evs' tss'
  | EvTick now :: evs', _ => EvPoll now :: ring_events evs' tss
  | _, _ => []
  end.

(** *** Lemmas *)

Lemma session_run_app cap s evs1 evs2 :
  session_run cap s (evs1 ++ evs2) = session_run cap (session_run cap s evs1) evs2.
Proof. apply foldl_app. Qed.

(** Producing tokens one by one keeps those that fit. *)
Lemma session_produce cap s ts :
  session_run cap s (EvProduce <$> ts) =
  Session (waiting s ++ take (Z.to_nat (cap - len (waiting s))) ts) (consumed s) (prompts s).
Proof.
  revert s. induction ts as [|t ts IH]; intros [q c n]; cbn [fmap list_fmap].
  { by rewrite take_nil, app_nil_r. }
  change (session_run cap (Session q c n) (EvProduce t :: (EvProduce <$> ts))) with
    (session_run cap (session_event cap (Session q c n) (EvProduce t)) (EvProduce <$> ts)).
  rewrite IH. cbn [session_event waiting consumed prompts]. unfold queue_push.
  destruct (Z.ltb_spec (len q) cap); cbn [snd].
  - rewrite length_app. cbn [length]. rewrite <- app_assoc. f_equal. f_equal.
    replace (Z.to_nat (cap - len q)) with (S (Z.to_nat (cap - Z.of_nat (length q + 1)))) by lia.
    done.
  - by replace (Z.to_nat (cap - len q)) with O by lia.
Qed.

Lemma with_ring_serving cap p s ctx r q :
  serving cap p s ctx -> ring_wf r -> ring_contents r = q -> ring_capacity r = cap ->
  serving cap p (Session q (consumed s) (prompts s)) (with_ring ctx (Some r)).
Proof. intros [Hi Hd _ Hx Hdi Hc Hp] Hwf Hq Hcap. split; cbn; eauto 10. Qed.

Section lemmas.
Context (mt : merge_table) (bt : list Z) (p : process) (Hbt : len bt = 256).

(** One prompt is the production of its tokens. *)
Lemma prompt_event cap s ctx sc buf n :
  serving cap p s ctx -> len (tokens sc) = MAX_SEQ_LEN -> 1 <= n <= MAX_PROMPT_LEN -> n <= len buf ->
  exists ts ctx' sc', sys_call mt bt p (ctx, Some sc) (EvPrompt buf n) = Some (ctx', Some sc') /\
    tokenized mt bt (buf, n) ts /\ len (tokens sc') = MAX_SEQ_LEN /\
    serving cap p (session_run cap s (EvProduce <$> ts)) ctx' /\
    chardev_fd ctx' = chardev_fd ctx /\ r_arena ctx' = r_arena ctx.
Proof.
  intros Hs Hsc Hn Hbuf. pose proof Hs as [_ _ (r & Hr & Hwf & Hq & Hcap) _ _ _ _].
  destruct (tokenize_run mt bt buf n r sc Hbt Hn Hbuf Hwf Hsc)
    as (ts & r' & sc' & Htok & Hbpe & Hwf' & Hq' & _ & Hcap' & Hsc').
  exists ts, (with_ring ctx (Some r')), sc'. cbn [sys_call]. rewrite Hr. cbn [mbind option_bind].
  rewrite Htok. cbn [mbind option_bind]. split; [done|]. split; [done|]. split; [done|]. split; [|done].
  rewrite session_produce. eapply with_ring_serving; [done|done| |congruence].
  by rewrite Hq', ring_free_spec, Hq, Hcap.
Qed.

Lemma polls_le evs s cap :
  prompts (session_run cap s evs) <= prompts s + len evs.
Proof.
  revert s. induction evs as [|ev evs IH]; intros s; [cbn; lia|].
  change (session_run cap s (ev :: evs)) with (session_run cap (session_event cap s ev) evs).
  specialize (IH (session_event cap s ev)).
  assert (prompts (session_event cap s ev) <= prompts s + 1).
  { destruct ev; cbn; [lia|]. destruct (waiting s); cbn; lia. }
  cbn [length]. lia.
Qed.

Lemma session_produce_prompts cap s ts :
  prompts (session_run cap s (EvProduce <$> ts)) = prompts s.
Proof. by rewrite session_produce. Qed.

(** A whole run. *)
Lemma sys_run_ok cap evs s ctx sc :
  serving cap p s ctx -> len (tokens sc) = MAX_SEQ_LEN -> Forall sys_event_ok evs ->
  prompts s + len evs < 2 ^ 64 ->
  exists tss ctx' sc', sys_run mt bt p (ctx, Some sc) evs = Some (ctx', Some sc') /\
    Forall2 (tokenized mt bt) (prompts_of evs) tss /\
    serving cap p (session_run cap s (ring_events evs tss)) ctx' /\
    chardev_fd ctx' = chardev_fd ctx /\ r_arena ctx' = r_arena ctx.
Proof.
  revert s ctx sc. induction evs as [|ev evs IH]; intros s ctx sc Hs Hsc Hok Hn.
  { exists [], ctx, sc. split; [done|]. split; [constructor|done]. }
  apply Forall_cons in Hok as [Hev Hok]. cbn [length] in Hn. cbn [sys_run].
  destruct ev as [buf n|now].
  - destruct Hev as [Hn1 Hbuf].
    destruct (prompt_event cap s ctx sc buf n Hs Hsc Hn1 Hbuf)
      as (ts & ctx1 & sc1 & -> & Hts & Hsc1 & Hs1 & Hfd1 & Ha1). cbn [mbind option_bind].
    destruct (IH _ ctx1 sc1 Hs1 Hsc1 Hok) as (tss & ctx' & sc' & Hrun & Htss & Hs' & Hfd & Ha).
    { rewrite session_produce_prompts. lia. }
    exists (ts :: tss), ctx', sc'. split; [done|]. split; [by constructor|].
    split; [cbn [ring_events]; by rewrite session_run_app|]. split; congruence.
  - destruct (serving_event cap p s ctx (EvPoll now) Hs Hev) as (ctx1 & Hp1 & Hs1 & Hfd1 & Ha1); [lia|].
    cbn [reactor_event] in Hp1. cbn [sys_call].
    destruct (kllm_ring_poll ctx p now) as [[rc ctx0]|]; [|done].
    cbn [mbind option_bind] in *. simplify_eq.
    destruct (IH _ ctx1 sc Hs1 Hsc Hok) as (tss & ctx' & sc' & Hrun & Htss & Hs' & Hfd & Ha).
    { pose proof (polls_le [EvPoll now] s cap) as Hle. cbn in Hle. cbn. lia. }
    exists tss, ctx', sc'. split; [done|]. split; [done|]. split; [done|]. split; congruence.
Qed.

End lemmas.

(** *** No token is lost while the ring has room *)

Definition produced (evs : list event) : Z :=
  foldr (fun ev n => match ev with EvProduce _ => 1 + n | EvPoll _ => n end) 0 evs.

Lemma produced_nonneg evs : 0 <= produced evs.
Proof. induction evs as [|[x|now] evs IH]; [done|..]; cbn; fold (produced evs); lia. Qed.

Lemma produced_app evs1 evs2 : produced (evs1 ++ evs2) = produced evs1 + produced evs2.
Proof.
  induction evs1 as [|[x|now] evs1 IH]; [done|..]; cbn; fold (produced (evs1 ++ evs2));
    fold (produced evs1); lia.
Qed.

Lemma produced_tokens ts : produced (EvProduce <$> ts) = len ts.
Proof. induction ts as [|t ts IH]; cbn; [done|]. fold (produced (EvProduce <$> ts)). lia. Qed.

Lemma ring_events_produced evs tss mt bt :
  Forall2 (tokenized mt bt) (prompts_of evs) tss ->
  produced (ring_events evs tss) = len (concat tss).
Proof.
  revert tss. induction evs as [|[buf n|now] evs IH]; intros tss Htss; cbn [prompts_of omap] in Htss.
  - by inversion Htss.
  - inversion Htss as [|x ts xs tss' _ Htss']; subst. cbn [ring_events concat].
    rewrite produced_app, produced_tokens, length_app, (IH tss') by done. lia.
  - cbn [ring_events]. exact (IH tss Htss).
Qed.

Lemma session_conserves cap s evs :
  len (waiting s) + produced evs <= cap ->
  let s' := session_run cap s evs in
  consumed s' + len (waiting s') = consumed s + len (waiting s) + produced evs.
Proof.
  revert s. induction evs as [|ev evs IH]; intros s Hfit s'; [cbn; lia|].
  unfold s'. change (session_run cap s (ev :: evs)) with (session_run cap (session_event cap s ev) evs).
  pose proof (produced_nonneg evs). specialize (IH (session_event cap s ev)). cbn zeta in IH.
  destruct ev as [x|now]; cbn [produced foldr] in *; fold (produced evs) in *.
  - cbn [session_event] in IH. unfold queue_push in IH. rewrite (proj2 (Z.ltb_lt _ _)) in IH by lia.
    cbn [snd waiting consumed] in IH. rewrite length_app in IH. cbn [length] in IH.
    specialize (IH ltac:(lia)). cbn [session_event]. unfold queue_push.
    rewrite (proj2 (Z.ltb_lt _ _)) by lia. cbn [snd]. lia.
  - cbn [session_event] in *. destruct (waiting s) as [|t q] eqn:Hq; [by rewrite Hq in IH; apply IH|].
    cbn [waiting consumed] in IH. rewrite length_drop in IH. specialize (IH ltac:(lia)). lia.
Qed.

(** C16. The prompt path.  From the start of the reactor, every sequence of
    prompts of 1 to 4096 bytes and of polls is defined.  The tokens of each
    prompt are those that at most 128 merge steps make of its first 2048 bytes
    (the rest of a longer prompt does not reach the ring), and the ring, the
    counts of consumed tokens and of dispatched prompts are those of the session
    in which these tokens arrive one by one and every poll takes the oldest 256
    as one prompt.  While the ring has room for all these tokens, each of them
    has been consumed or is still in the ring.  Shutdown then leaves the process
    as it was. *)
Theorem prompt_path mt bt sc b r evs :
  mmap_law (b_os b) -> boot_ok b r -> ring_wf r -> len bt = 256 -> len (tokens sc) = MAX_SEQ_LEN ->
  Forall sys_event_ok evs -> len evs < 2 ^ 64 ->
  exists ctx p tss ctx1 sc1 r1 ctx2,
    kllm_reactor_start b g_ctx process0 = Some (ctx, p) /\
    sys_run mt bt p (ctx, Some sc) evs = Some (ctx1, Some sc1) /\
    Forall2 (tokenized mt bt) (prompts_of evs) tss /\
    (let s := session_run (ring_capacity r) (Session (ring_contents r) 0 0) (ring_events evs tss) in
     r_ring ctx1 = Some r1 /\ ring_contents r1 = waiting s /\
     tokens_consumed ctx1 = u64 (consumed s) /\ prompts_dispatched ctx1 = prompts s /\
     (len (ring_contents r) + len (concat tss) <= ring_capacity r ->
      consumed s + len (waiting s) = len (ring_contents r) + len (concat tss))) /\
    kllm_reactor_shutdown ctx1 p = Some (ctx2, Process [] [0; 1; 2] 0 [0]).
Proof.
  intros Hlaw Hboot Hwf Hbt Hsc Hok Hn.
  destruct (start_serving b r Hlaw Hboot Hwf) as (ctx & p & Hstart & _ & Hserve & Hdown).
  destruct (sys_run_ok mt bt p Hbt _ evs _ ctx sc Hserve Hsc Hok)
    as (tss & ctx1 & sc1 & Hrun & Htss & Hs1 & Hfd & Ha); [cbn; lia|].
  destruct (Hdown _ _ Hs1 Hfd Ha) as [ctx2 Hshut].
  destruct Hs1 as [_ _ (r1 & Hr1 & _ & Hq & _) _ _ Hc1 [Hp1 _]].
  exists ctx, p, tss, ctx1, sc1, r1, ctx2. split; [done|]. split; [done|]. split; [done|].
  split; [|done]. cbn zeta. split; [done|]. split; [done|]. split; [done|]. split; [done|].
  intros Hfit. rewrite <- (ring_events_produced evs tss mt bt Htss) in *.
  by apply (session_conserves _ (Session (ring_contents r) 0 0)).
Qed.

(** ** The answer path *)

(** The words of an answer that a response ring of that capacity keeps. *)
Definition answer_words (capacity : Z) (toks : list Z) : list Z :=
  take (Z.to_nat capacity) (toks ++ [EOS_SENTINEL]).

(** What a client with a buffer as large as the ring reads from it after the
    words [ws] have arrived on an empty ring. *)
Lemma push_then_read `{KL : KernelLib} mask dev ws count wait :
  resp_wf dev -> 0 < mask -> resp_contents dev = resp_push mask [] ws -> ws <> [] ->
  fits 31 count -> 4 * mask <= count ->
  exists dev', kllm_read dev count true wait false =
    Some (4 * len (take (Z.to_nat mask) ws), take (Z.to_nat mask) ws, dev') /\
    resp_wf dev' /\ resp_contents dev' = [].
Proof.
  intros Hwf Hmask Hc Hne Hcount Hfit.
  assert (resp_contents dev = take (Z.to_nat mask) ws) as Hc'.
  { rewrite Hc. unfold resp_push. cbn [length app]. by rewrite Z.sub_0_r. }
  destruct (read_all_ok dev count wait Hwf Hcount) as (dev' & Hrd & Hwf' & He).
  - rewrite Hc', length_take. lia.
  - rewrite Hc'. destruct ws as [|w ws]; [done|].
    by replace (Z.to_nat mask) with (S (Z.to_nat (mask - 1))) by lia.
  - rewrite Hc' in Hrd. eauto.
Qed.

Lemma eos_in_prefix (toks : list Z) n :
  (EOS_SENTINEL ∉ toks) -> (EOS_SENTINEL ∈ take n (toks ++ [EOS_SENTINEL]) <-> (length toks < n)%nat).
Proof.
  intros Hno. split.
  - intros Hin. destruct (decide (length toks < n)%nat) as [|Hge]; [done|]. exfalso. apply Hno.
    rewrite take_app_le in Hin by lia. by apply (subseteq_take n toks).
  - intros Hlt. rewrite take_ge by (rewrite length_app; cbn; lia). set_solver.
Qed.

(** C17. The answer path, on a device whose response ring is empty, with a client
    whose buffer is as large as the ring and who reads after the run.  When the
    decode run over a valid prompt returns, which it does without a GPU, the
    client reads the tokens of the answer, which sampling picked from the logits
    of the inference on the sequence so far, in order, with one end of sequence
    after them, cut at the capacity of the ring: it sees the end of the sequence,
    the very last word, exactly when the tokens leave room for it, and otherwise
    the end is lost.  All tokens are of the vocabulary, and the ring is empty
    again. *)
Theorem answer_path {St} {INF : Inference St} `{Libm} `{KL : KernelLib}
    env (ctx : kllm_decode_ctx St) prompt prompt_len params count wait :
  (exists r, inf_wf (dc_infer ctx) r) -> resp_wf (dc_dev ctx) ->
  resp_contents (dc_dev ctx) = [] -> 0 < resp_mask (dc_dev ctx) ->
  1 <= prompt_len <= len prompt -> 0 <= max_tokens params < 2 ^ 32 -> 0 <= top_k params ->
  (forall i, len (se_stack (env i)) = 256) -> fits 31 count -> 4 * resp_mask (dc_dev ctx) <= count ->
  match kllm_decode_run true env (Some ctx) (Some prompt) prompt_len (Some params) with
  | Done (n, stats, ctx') => exists toks why c words dev',
      answered env ctx prompt prompt_len params toks why /\ n = len toks /\ ctx' = Some c /\
      kllm_read (dc_dev c) count true wait false = Some (4 * len words, words, dev') /\
      words = answer_words (resp_mask (dc_dev ctx)) toks /\
      (EOS_SENTINEL ∈ words <-> len toks < resp_mask (dc_dev ctx)) /\
      Forall (fun t => 0 <= t < inf_vocab) toks /\ len toks <= max_tokens params /\
      resp_contents dev' = []
  | OutOfFuel | Undef => has_gpu (dc_infer ctx) = true
  end.
Proof.
  intros Hinf Hresp Hempty Hmask Hp Hmax Hk Hst Hcount Hfit.
  pose proof (decode_run_stream env ctx prompt prompt_len params Hinf Hresp Hp Hmax Hk Hst) as Hrun.
  destruct (kllm_decode_run true env (Some ctx) (Some prompt) prompt_len (Some params))
    as [[[n stats] ctx']| |]; [|exact Hrun..].
  destruct Hrun as (toks & why & st & c & Hans & Hn & _ & Hc' & _ & _ & Hc & Htok & Hno & Hlim & _ & Hwf').
  rewrite Hempty in Hc.
  destruct (push_then_read _ (dc_dev c) (toks ++ [EOS_SENTINEL]) count wait Hwf' Hmask Hc)
    as (dev' & Hrd & _ & He); [by destruct toks|done|done|].
  exists toks, why, c. do 2 eexists. split; [done|]. split; [done|]. split; [done|].
  split; [exact Hrd|]. split; [done|].
  split; [rewrite (eos_in_prefix toks) by done; lia|]. split; [|by split].
  eapply Forall_impl; [exact Htok|]. by intros t [Ht _].
Qed.

(** ** Runs *)

#[local] Existing Instance linux_kernel_lib.
#[local] Existing Instance demo_sha.
#[local] Existing Instance demo_libm.
#[local] Existing Instance demo_avx512.
#[local] Existing Instance demo_backends.
#[local] Existing Instance demo_inference.

(** Two prompts before the first poll, which the reactor takes as one. *)
Lemma prompt_path_witness :
  exists ctx p ctx1 sc1 r1,
    kllm_reactor_start (demo_boot true) g_ctx process0 = Some (ctx, p) /\
    sys_run {[ MergeKey 97 97 := MergeVal 300 0 ]} (Z.of_nat <$> seq 0 256) p (ctx, Some (TokenSeq (zeroed 2048) 0))
      [EvPrompt [97; 97] 2; EvPrompt [98] 1; EvTick 1; EvPrompt [99] 1] = Some (ctx1, Some sc1) /\
    r_ring ctx1 = Some r1.
Proof.
  destruct (prompt_path {[ MergeKey 97 97 := MergeVal 300 0 ]} (Z.of_nat <$> seq 0 256) (TokenSeq (zeroed 2048) 0)
    (demo_boot true) (ring_empty 2) [EvPrompt [97; 97] 2; EvPrompt [98] 1; EvTick 1; EvPrompt [99] 1])
    as (ctx & p & tss & ctx1 & sc1 & r1 & ctx2 & Hs & Hr & _ & (Hr1 & _) & _).
  - exact demo_mmap_law.
  - unfold boot_ok. split; [vm_compute; congruence|]. do 4 (split; [reflexivity|]).
    split; [by exists 4096|]. do 3 (split; [reflexivity|]). reflexivity.
  - apply fresh_ring_ok; [lia|vm_compute; congruence].
  - reflexivity.
  - reflexivity.
  - repeat constructor; vm_compute; congruence.
  - reflexivity.
  - exists ctx, p, ctx1, sc1, r1. exact (conj Hs (conj Hr Hr1)).
Defined.

Lemma answer_path_witness :
  exists (toks : list Z) why stats ctx' (words : list Z) dev',
    kllm_decode_run true demo_steps (Some demo_decode) (Some [1; 2]) 2 (Some demo_decode_params)
      = Done (len toks, stats, Some ctx') /\
    answered demo_steps demo_decode [1; 2] 2 demo_decode_params toks why /\
    kllm_read (dc_dev ctx') 64 true (fun d => (0, d)) false = Some (4 * len words, words, dev') /\
    (EOS_SENTINEL ∈ words <-> len toks < 15).
Proof.
  pose proof (answer_path demo_steps demo_decode [1; 2] 2 demo_decode_params 64 (fun d => (0, d))
    demo_state_ok (resp_dev_wf 4 ltac:(lia)) eq_refl eq_refl ltac:(simpl; lia) ltac:(simpl; lia)
    ltac:(simpl; lia) (fun _ => eq_refl) ltac:(unfold fits; lia) ltac:(vm_compute; congruence)) as Hrun.
  destruct (kllm_decode_run true demo_steps (Some demo_decode) (Some [1; 2]) 2 (Some demo_decode_params))
    as [[[n stats] ctx']| |].
  - destruct Hrun as (toks & why & c & words & dev' & Hans & -> & -> & Hrd & _ & Heos & _).
    exists toks, why, stats, c, words, dev'. split; [reflexivity|]. split; [exact Hans|].
    split; [exact Hrd|exact Heos].
  - discriminate Hrun.
  - discriminate Hrun.
Defined.
