(* ===== verification/Trace.v ===== *)
(** * Request tracing

    Models [bpf/kllm_trace.bpf.c], the tracing probes and their maps, and the
    event handler and the summary of [userspace/tools/kllm_trace.c], whose [main]
    is in [TraceTool].

    The hash map of requests is a [gmap] whose updates fail when it is full, the
    per-CPU statistics a list indexed by the CPU, and the ring buffer the list of
    the events submitted to it.  The clock [ktime] gives the result of each call
    of [bpf_ktime_get_ns]; [reserve] tells whether a reservation in the ring
    buffer succeeds.  Probes run one after the other.  Of the output of the tool
    the model keeps the values, not their formatting.

    The file proves that all sequences of probes are defined and keep the maps
    within their bounds, that the statistics agree with the events, that the
    latencies of a request add up to the time it took, and that with the process
    id as request id no request ever completes when the prompt is written and
    answered by different processes. *)

From Stdlib Require Import ZArith Lia.
From Stdlib Require Import String SpecFloat.
From stdpp Require Import base numbers list gmap.
From S2P Require Import Prelude Floats.

#[local] Open Scope Z_scope.

(** ** Data *)

Definition KLLM_MAX_TRACKED : nat := 1024.

Definition KLLM_STAGE_CHARDEV_WRITE : Z := 0.
Definition KLLM_STAGE_TOKENIZE_START : Z := 1.
Definition KLLM_STAGE_TOKENIZE_END : Z := 2.
Definition KLLM_STAGE_RING_PRODUCE : Z := 3.
Definition KLLM_STAGE_REACTOR_CONSUME : Z := 4.
Definition KLLM_STAGE_DISPATCH_DECIDE : Z := 5.
Definition KLLM_STAGE_CACHE_LOOKUP : Z := 6.
Definition KLLM_STAGE_ATTENTION_START : Z := 7.
Definition KLLM_STAGE_ATTENTION_END : Z := 8.
Definition KLLM_STAGE_SAMPLE : Z := 9.
Definition KLLM_STAGE_RESPONSE_EMIT : Z := 10.
Definition KLLM_STAGE_GPU_SUBMIT : Z := 11.
Definition KLLM_STAGE_GPU_COMPLETE : Z := 12.
Definition KLLM_STAGE_EOS : Z := 13.
Definition KLLM_STAGE_MAX : Z := 14.

Record kllm_trace_event : Type := TraceEvent {
  timestamp_ns : Z;
  request_id : Z;
  stage : Z;
  ev_seq_len : Z;
  token_count : Z;
  latency_ns : Z;
}.

Record kllm_request_trace : Type := RequestTrace {
  stage_ts : list Z;
  last_stage : Z;
  rt_seq_len : Z;
}.

Record kllm_trace_stats : Type := TraceStats {
  total_requests : Z;
  total_tokens : Z;
  total_latency_ns : Z;
  max_latency_ns : Z;
  stage_totals : list Z;
}.

(** The maps and the number of calls of the clock. *)
Record maps : Type := Maps {
  request_state : gmap Z kllm_request_trace;
  global_stats : list kllm_trace_stats;
  trace_events : list kllm_trace_event;
  ticks : Z;
}.

Definition stats0 : kllm_trace_stats := TraceStats 0 0 0 0 (zeroed KLLM_STAGE_MAX).

(** The maps after loading, on a machine with [ncpu] CPUs. *)
Definition maps0 (ncpu : nat) : maps := Maps ∅ (replicate ncpu stats0) [] 0.

Definition set_requests (m : maps) (rs : gmap Z kllm_request_trace) : maps :=
  Maps rs (global_stats m) (trace_events m) (ticks m).

Definition set_stats (m : maps) (c : nat) (s : kllm_trace_stats) : maps :=
  Maps (request_state m) (<[c := s]> (global_stats m)) (trace_events m) (ticks m).

Definition submit_event (m : maps) (e : kllm_trace_event) : maps :=
  Maps (request_state m) (global_stats m) (trace_events m ++ [e]) (ticks m).

(** [bpf_map_update_elem] with [BPF_ANY]: it fails on a new key of a full map,
    and the callers ignore that. *)
Definition bpf_map_update (rs : gmap Z kllm_request_trace) (k : Z) (v : kllm_request_trace)
    : gmap Z kllm_request_trace :=
  if bool_decide (is_Some (rs !! k)) || bool_decide (size rs < KLLM_MAX_TRACKED)%nat
  then <[k := v]> rs else rs.

(** ** The probes *)

Section probes.
Context (ktime : Z -> Z) (reserve : Z -> bool).

Definition tick (m : maps) : Z * maps :=
  (ktime (ticks m), Maps (request_state m) (global_stats m) (trace_events m) (ticks m + 1)).

(** The update of the request in flight: the delta and the maps. *)
Definition track (id stg seq_len now : Z) (m : maps) : option (Z * maps) :=
  match request_state m !! id with
  | None => Some (0, m)
  | Some rt =>
      delta ← (if last_stage rt <? KLLM_STAGE_MAX
               then t ← arr_get (stage_ts rt) (last_stage rt); Some (u64 (now - t))
               else Some 0);
      ts ← (if stg <? KLLM_STAGE_MAX then arr_set (stage_ts rt) stg now else Some (stage_ts rt));
      Some (delta, set_requests m (<[id := RequestTrace ts stg seq_len]> (request_state m)))
  end.

(** The per-stage total of the CPU [c]. *)
Definition add_stage (c : nat) (stg delta : Z) (m : maps) : option maps :=
  match global_stats m !! c with
  | None => Some m
  | Some s =>
      if stg <? KLLM_STAGE_MAX then
        t ← arr_get (stage_totals s) stg;
        ts ← arr_set (stage_totals s) stg (u64 (t + delta));
        Some (set_stats m c (TraceStats (total_requests s) (total_tokens s)
          (total_latency_ns s) (max_latency_ns s) ts))
      else Some m
  end.

(** [c] is the CPU on which the probe runs. *)
Definition emit_trace (c : nat) (id stg seq_len tokens : Z) (m : maps) : option maps :=
  let '(now, m) := tick m in
  '(delta, m) ← track id stg seq_len now m;
  if negb (reserve (ticks m)) then Some m
  else
    add_stage c stg delta (submit_event m (TraceEvent now id stg seq_len tokens delta)).

Definition start_request (c : nat) (id : Z) (m : maps) : option maps :=
  let '(now, m) := tick m in
  ts ← arr_set (zeroed KLLM_STAGE_MAX) KLLM_STAGE_CHARDEV_WRITE now;
  let m := set_requests m
    (bpf_map_update (request_state m) id (RequestTrace ts KLLM_STAGE_CHARDEV_WRITE 0)) in
  match global_stats m !! c with
  | None => Some m
  | Some s =>
      Some (set_stats m c (TraceStats (u64 (total_requests s + 1)) (total_tokens s)
        (total_latency_ns s) (max_latency_ns s) (stage_totals s)))
  end.

Definition end_request (c : nat) (id : Z) (m : maps) : option maps :=
  m ← match request_state m !! id with
      | None => Some m
      | Some rt =>
          let '(now, m) := tick m in
          t ← arr_get (stage_ts rt) KLLM_STAGE_CHARDEV_WRITE;
          let total := u64 (now - t) in
          match global_stats m !! c with
          | None => Some m
          | Some s =>
              Some (set_stats m c (TraceStats (total_requests s) (total_tokens s)
                (u64 (total_latency_ns s + total))
                (if max_latency_ns s <? total then total else max_latency_ns s)
                (stage_totals s)))
          end
      end;
  Some (set_requests m (delete id (request_state m))).

(** [pid] is the upper half of [bpf_get_current_pid_tgid]. *)
Definition trace_chardev_write (c : nat) (pid count : Z) (m : maps) : option maps :=
  m ← start_request c pid m;
  emit_trace c pid KLLM_STAGE_CHARDEV_WRITE 0 (u32 count) m.

Definition trace_chardev_write_exit (c : nat) (pid : Z) (m : maps) : option maps :=
  emit_trace c pid KLLM_STAGE_TOKENIZE_END 0 0 m.

Definition trace_reactor_consume (c : nat) (pid : Z) (m : maps) : option maps :=
  emit_trace c pid KLLM_STAGE_REACTOR_CONSUME 0 0 m.

Definition trace_dispatch_decide (c : nat) (pid : Z) (m : maps) : option maps :=
  emit_trace c pid KLLM_STAGE_DISPATCH_DECIDE 0 0 m.

Definition trace_attention_start (c : nat) (pid : Z) (m : maps) : option maps :=
  emit_trace c pid KLLM_STAGE_ATTENTION_START 0 0 m.

Definition trace_attention_end (c : nat) (pid : Z) (m : maps) : option maps :=
  emit_trace c pid KLLM_STAGE_ATTENTION_END 0 0 m.

Definition trace_response_emit (c : nat) (pid : Z) (m : maps) : option maps :=
  let m := match global_stats m !! c with
           | None => m
           | Some s => set_stats m c (TraceStats (total_requests s) (u64 (total_tokens s + 1))
               (total_latency_ns s) (max_latency_ns s) (stage_totals s))
           end in
  emit_trace c pid KLLM_STAGE_RESPONSE_EMIT 0 1 m.

Definition trace_eos (c : nat) (pid : Z) (m : maps) : option maps :=
  m ← emit_trace c pid KLLM_STAGE_EOS 0 0 m;
  end_request c pid m.

(** A firing of a probe: which one, where and in which process. *)
Inductive probe : Type :=
| PWrite (count : Z)
| PWriteExit
| PReactorConsume
| PDispatchDecide
| PAttentionStart
| PAttentionEnd
| PResponseEmit
| PEos.

Definition fire (c : nat) (pid : Z) (pr : probe) (m : maps) : option maps :=
  match pr with
  | PWrite count => trace_chardev_write c pid count m
  | PWriteExit => trace_chardev_write_exit c pid m
  | PReactorConsume => trace_reactor_consume c pid m
  | PDispatchDecide => trace_dispatch_decide c pid m
  | PAttentionStart => trace_attention_start c pid m
  | PAttentionEnd => trace_attention_end c pid m
  | PResponseEmit => trace_response_emit c pid m
  | PEos => trace_eos c pid m
  end.

Fixpoint fire_all (l : list (nat * Z * probe)) (m : maps) : option maps :=
  match l with
  | [] => Some m
  | (c, pid, pr) :: l => m ← fire c pid pr m; fire_all l m
  end.

End probes.

(** ** The tracing tool *)

Definition STAGE_MAX : Z := 14.

Definition stage_names : list string :=
  ["chardev_write"; "tokenize_start"; "tokenize_end"; "ring_produce"; "reactor_consume";
   "dispatch_decide"; "cache_lookup"; "attention_start"; "attention_end"; "sample";
   "response_emit"; "gpu_submit"; "gpu_complete"; "eos"]%string.

(** What [handle_event] prints: the fields of a JSON object or of a line. *)
Inductive output : Type :=
| OutJson (ts req : Z) (name : string) (seq_len : Z) (delta_us : spec_float)
| OutText (ts_us req : Z) (name : string) (seq_len : Z) (delta_us : spec_float).

Definition handle_event (summary_only output_json : bool) (evt : kllm_trace_event)
    : option (list output) :=
  if summary_only then Some []
  else
    name ← (if stage evt <? STAGE_MAX then arr_get stage_names (stage evt)
            else Some "unknown"%string);
    let delta := f64_div (f64_of_Z (latency_ns evt)) (f64_of_Z 1000) in
    if output_json
    then Some [OutJson (timestamp_ns evt) (request_id evt) name (ev_seq_len evt) delta]
    else Some [OutText (timestamp_ns evt / 1000) (request_id evt) name (ev_seq_len evt) delta].

(** The lines of the summary. *)
Inductive line : Type :=
| LCount (label : string) (n : Z)
| LValue (label : string) (x : spec_float).

(** [bpf_map_lookup_elem] on a per-CPU map copies one value for every CPU to a
    buffer that holds one: with a second CPU it writes behind the buffer. *)
Definition lookup_stats (percpu : list kllm_trace_stats) : option kllm_trace_stats :=
  match percpu with
  | [s] => Some s
  | _ => None
  end.

Definition stage_lines (stats : kllm_trace_stats) : option (list line) :=
  res ← for_range (R := unit) 0 STAGE_MAX (fun i out =>
    t ← arr_get (stage_totals stats) i;
    if t =? 0 then Some (Continue out)
    else
      name ← arr_get stage_names i;
      let avg_us := f64_div (f64_div (f64_of_Z t) (f64_of_Z (total_requests stats)))
        (f64_of_Z 1000) in
      Some (Continue (out ++ [LValue name avg_us]))) [];
  match res with inl out => Some out | inr _ => None end.

Definition print_summary (percpu : list kllm_trace_stats) : option (list line) :=
  stats ← lookup_stats percpu;
  let counts := [LCount "total requests" (total_requests stats);
                 LCount "total tokens" (total_tokens stats)] in
  let latencies :=
    if 0 <? total_requests stats then
      [LValue "avg latency" (f64_div (f64_div (f64_of_Z (total_latency_ns stats))
          (f64_of_Z (total_requests stats))) (f64_of_Z (10 ^ 6)));
       LValue "max latency" (f64_div (f64_of_Z (max_latency_ns stats)) (f64_of_Z (10 ^ 6)))] ++
      (if 0 <? total_tokens stats then
         [LValue "tokens/sec" (f64_div (f64_mul (f64_of_Z (total_tokens stats)) (f64_of_Z (10 ^ 9)))
            (f64_of_Z (total_latency_ns stats)))]
       else [])
    else [] in
  stages ← stage_lines stats;
  Some (counts ++ latencies ++ stages).

(** ** The effect of the probes in closed form *)

Definition bump_stage (stg delta : Z) (s : kllm_trace_stats) : kllm_trace_stats :=
  TraceStats (total_requests s) (total_tokens s) (total_latency_ns s) (max_latency_ns s)
    (<[Z.to_nat stg := u64 (stage_totals s !!! Z.to_nat stg + delta)]> (stage_totals s)).

Definition bump_requests (s : kllm_trace_stats) : kllm_trace_stats :=
  TraceStats (u64 (total_requests s + 1)) (total_tokens s) (total_latency_ns s)
    (max_latency_ns s) (stage_totals s).

Definition bump_tokens (s : kllm_trace_stats) : kllm_trace_stats :=
  TraceStats (total_requests s) (u64 (total_tokens s + 1)) (total_latency_ns s)
    (max_latency_ns s) (stage_totals s).

Definition bump_latency (total : Z) (s : kllm_trace_stats) : kllm_trace_stats :=
  TraceStats (total_requests s) (total_tokens s) (u64 (total_latency_ns s + total))
    (Z.max (max_latency_ns s) total) (stage_totals s).

(** When the last probe of a request fired. *)
Definition last_time (rt : kllm_request_trace) : Z := stage_ts rt !!! Z.to_nat (last_stage rt).

Definition delta_of (m : maps) (id now : Z) : Z :=
  match request_state m !! id with Some rt => u64 (now - last_time rt) | None => 0 end.

Definition emit_result (ktime : Z -> Z) (reserve : Z -> bool) (c : nat) (id stg seq tokens : Z)
    (m : maps) : maps :=
  let now := ktime (ticks m) in
  let delta := delta_of m id now in
  let kept := reserve (ticks m + 1) in
  Maps (alter (fun rt => RequestTrace (<[Z.to_nat stg := now]> (stage_ts rt)) stg seq) id
          (request_state m))
    (if kept then alter (bump_stage stg delta) c (global_stats m) else global_stats m)
    (trace_events m ++ if kept then [TraceEvent now id stg seq tokens delta] else [])
    (ticks m + 1).

Definition start_result (ktime : Z -> Z) (c : nat) (id : Z) (m : maps) : maps :=
  Maps (bpf_map_update (request_state m) id
          (RequestTrace (<[0%nat := ktime (ticks m)]> (zeroed KLLM_STAGE_MAX)) 0 0))
    (alter bump_requests c (global_stats m)) (trace_events m) (ticks m + 1).

Definition end_result (ktime : Z -> Z) (c : nat) (id : Z) (m : maps) : maps :=
  match request_state m !! id with
  | None => m
  | Some rt =>
      Maps (delete id (request_state m))
        (alter (bump_latency (u64 (ktime (ticks m) - stage_ts rt !!! 0%nat))) c (global_stats m))
        (trace_events m) (ticks m + 1)
  end.

(** ** Invariant *)

Definition request_wf (rt : kllm_request_trace) : Prop :=
  len (stage_ts rt) = 14 /\ 0 <= last_stage rt < 14.

Record trace_wf (ncpu : nat) (m : maps) : Prop := {
  tw_cpus : length (global_stats m) = ncpu;
  tw_requests : map_Forall (fun _ => request_wf) (request_state m);
  tw_size : (size (request_state m) <= KLLM_MAX_TRACKED)%nat;
  tw_totals : Forall (fun s => len (stage_totals s) = 14) (global_stats m);
  tw_events : Forall (fun e => 0 <= stage e < 14) (trace_events m);
}.

Section results.
Context (ktime : Z -> Z) (reserve : Z -> bool) (ncpu : nat).

Lemma list_alter_insert {A} (f : A -> A) (l : list A) i x :
  l !! i = Some x -> alter f i l = <[i := f x]> l.
Proof.
  intros Hx. apply list_eq. intros j. destruct (decide (i = j)) as [<-|Hne].
  - rewrite list_lookup_alter_eq, list_lookup_insert_eq, Hx by (by eapply lookup_lt_Some). done.
  - by rewrite list_lookup_alter_ne, list_lookup_insert_ne by done.
Qed.

Lemma add_stage_run c stg delta m m' :
  trace_wf ncpu m -> global_stats m' = global_stats m -> (c < ncpu)%nat -> 0 <= stg < 14 ->
  add_stage c stg delta m' =
    Some (Maps (request_state m') (alter (bump_stage stg delta) c (global_stats m'))
      (trace_events m') (ticks m')).
Proof.
  intros [Hcpus _ _ Htot _] Hm' Hc Hs. unfold add_stage.
  destruct (lookup_lt_is_Some_2 (global_stats m) c ltac:(lia)) as [s Hst].
  pose proof (Forall_lookup_1 _ _ _ _ Htot Hst) as Hlen. cbn beta in Hlen.
  rewrite Hm', Hst. unfold KLLM_STAGE_MAX.
  rewrite (proj2 (Z.ltb_lt stg 14)), arr_get_total by lia. cbn [mbind option_bind].
  rewrite arr_set_in by lia. cbn [mbind option_bind]. unfold set_stats.
  by rewrite Hm', (list_alter_insert _ _ _ _ Hst).
Qed.

Lemma emit_trace_run c id stg seq tokens m :
  trace_wf ncpu m -> (c < ncpu)%nat -> 0 <= stg < 14 ->
  emit_trace ktime reserve c id stg seq tokens m =
    Some (emit_result ktime reserve c id stg seq tokens m).
Proof.
  intros Hwf Hc Hs. pose proof (tw_requests _ _ Hwf) as Hreq.
  unfold emit_trace, tick, track, emit_result, delta_of. cbn [request_state ticks].
  destruct (request_state m !! id) as [rt|] eqn:Hrt.
  - destruct (Hreq id rt Hrt) as [Hl Hls]. unfold KLLM_STAGE_MAX.
    rewrite (proj2 (Z.ltb_lt (last_stage rt) 14)), (proj2 (Z.ltb_lt stg 14)) by lia.
    rewrite arr_get_total by lia. cbn [mbind option_bind].
    rewrite arr_set_in by lia. cbn [mbind option_bind ticks set_requests].
    rewrite (alter_alt_Some _ _ _ _ Hrt).
    destruct (reserve (ticks m + 1)); cbn [negb].
    + by rewrite (add_stage_run _ _ _ m) by done.
    + unfold set_requests. cbn. by rewrite app_nil_r.
  - cbn [mbind option_bind ticks]. rewrite (alter_id' _ _ _ Hrt).
    destruct (reserve (ticks m + 1)); cbn [negb].
    + by rewrite (add_stage_run _ _ _ m) by done.
    + by rewrite app_nil_r.
Qed.

Lemma start_request_run c id m :
  trace_wf ncpu m -> (c < ncpu)%nat ->
  start_request ktime c id m = Some (start_result ktime c id m).
Proof.
  intros [Hcpus _ _ _ _] Hc. unfold start_request, start_result, tick. cbn.
  destruct (lookup_lt_is_Some_2 (global_stats m) c ltac:(lia)) as [s Hst].
  rewrite Hst. unfold set_stats. cbn. by rewrite (list_alter_insert _ _ _ _ Hst).
Qed.

Lemma end_request_run c id m :
  trace_wf ncpu m -> (c < ncpu)%nat ->
  end_request ktime c id m = Some (end_result ktime c id m).
Proof.
  intros [Hcpus Hreq _ _ _] Hc. unfold end_request, end_result.
  destruct (request_state m !! id) as [rt|] eqn:Hrt.
  - destruct (Hreq id rt Hrt) as [Hl _]. unfold tick. cbn [request_state].
    rewrite arr_get_total by (unfold KLLM_STAGE_CHARDEV_WRITE; lia).
    cbn [mbind option_bind]. unfold set_stats, set_requests.
    cbn [global_stats request_state trace_events ticks].
    destruct (lookup_lt_is_Some_2 (global_stats m) c ltac:(lia)) as [s Hst].
    rewrite Hst. cbn [mbind option_bind global_stats request_state trace_events ticks].
    rewrite (list_alter_insert _ _ _ _ Hst). unfold bump_latency.
    assert (forall a b, Z.max a b = if a <? b then b else a) as Hmax by (intros; case_cond; lia).
    by rewrite Hmax.
  - cbn [mbind option_bind]. unfold set_requests. rewrite delete_id by done. by destruct m.
Qed.

(** The size of the map of requests. *)
Lemma update_size rs id v :
  (size rs <= KLLM_MAX_TRACKED)%nat -> (size (bpf_map_update rs id v) <= KLLM_MAX_TRACKED)%nat.
Proof.
  intros Hs. unfold bpf_map_update.
  destruct (rs !! id) as [x|] eqn:Hx.
  - rewrite bool_decide_true by eauto. cbn. rewrite map_size_insert_Some by eauto. done.
  - rewrite bool_decide_false by (intros [? ?]; congruence). cbn.
    case_bool_decide; [|done]. rewrite map_size_insert_None by done. lia.
Qed.

Lemma alter_stats_wf f c l :
  Forall (fun s => len (stage_totals s) = 14) l ->
  (forall s, len (stage_totals s) = 14 -> len (stage_totals (f s)) = 14) ->
  Forall (fun s => len (stage_totals s) = 14) (alter f c l).
Proof. intros Hl Hf. apply Forall_alter; [done|]. auto. Qed.

Lemma emit_wf c id stg seq tokens m :
  trace_wf ncpu m -> 0 <= stg < 14 -> trace_wf ncpu (emit_result ktime reserve c id stg seq tokens m).
Proof.
  intros [Hcpus Hreq Hsz Htot Hevs] Hs. split; unfold emit_result; cbn.
  - case_match; [by rewrite length_alter|done].
  - intros k rt Hk. destruct (decide (id = k)) as [<-|Hne].
    + rewrite lookup_alter_eq in Hk. destruct (request_state m !! id) as [x|] eqn:Hx; [|done].
      simplify_eq/=. destruct (Hreq _ _ Hx). split; cbn; [by rewrite length_insert|lia].
    + rewrite lookup_alter_ne in Hk by done. by eapply Hreq.
  - by rewrite <- size_dom, dom_alter_L, size_dom.
  - case_match; [|done]. apply alter_stats_wf; [done|]. intros s Hl. cbn. by rewrite length_insert.
  - apply Forall_app. split; [done|]. case_match; [|done]. by apply Forall_singleton.
Qed.

Lemma start_wf c id m : trace_wf ncpu m -> trace_wf ncpu (start_result ktime c id m).
Proof.
  intros [Hcpus Hreq Hsz Htot Hevs]. split; unfold start_result; cbn.
  - by rewrite length_alter.
  - unfold bpf_map_update. case_match; [|done]. apply map_Forall_insert_2; [|done].
    split; cbn; [done|lia].
  - by apply update_size.
  - by apply alter_stats_wf.
  - done.
Qed.

Lemma end_wf c id m : trace_wf ncpu m -> trace_wf ncpu (end_result ktime c id m).
Proof.
  intros [Hcpus Hreq Hsz Htot Hevs]. unfold end_result.
  destruct (request_state m !! id) as [rt|] eqn:Hrt; [|by split].
  split; cbn.
  - by rewrite length_alter.
  - by apply map_Forall_delete.
  - rewrite map_size_delete, Hrt. lia.
  - by apply alter_stats_wf.
  - done.
Qed.

Definition tokens_result (c : nat) (m : maps) : maps :=
  Maps (request_state m) (alter bump_tokens c (global_stats m)) (trace_events m) (ticks m).

Lemma tokens_wf c m : trace_wf ncpu m -> trace_wf ncpu (tokens_result c m).
Proof.
  intros [Hcpus Hreq Hsz Htot Hevs]. split; cbn; [by rewrite length_alter|done|done| |done].
  by apply alter_stats_wf.
Qed.

Definition stage_of (pr : probe) : Z :=
  match pr with
  | PWrite _ => 0
  | PWriteExit => 2
  | PReactorConsume => 4
  | PDispatchDecide => 5
  | PAttentionStart => 7
  | PAttentionEnd => 8
  | PResponseEmit => 10
  | PEos => 13
  end.

Definition tokens_of (pr : probe) : Z :=
  match pr with PWrite n => u32 n | PResponseEmit => 1 | _ => 0 end.

(** A probe first counts, then emits its event, then ends the request. *)
Definition before_emit (c : nat) (pid : Z) (pr : probe) (m : maps) : maps :=
  match pr with
  | PWrite _ => start_result ktime c pid m
  | PResponseEmit => tokens_result c m
  | _ => m
  end.

Definition after_emit (c : nat) (pid : Z) (pr : probe) (m : maps) : maps :=
  match pr with PEos => end_result ktime c pid m | _ => m end.

Definition fire_result (c : nat) (pid : Z) (pr : probe) (m : maps) : maps :=
  after_emit c pid pr
    (emit_result ktime reserve c pid (stage_of pr) 0 (tokens_of pr) (before_emit c pid pr m)).

Lemma stage_of_range pr : 0 <= stage_of pr < 14.
Proof. destruct pr; cbn; lia. Qed.

Lemma before_emit_wf c pid pr m : trace_wf ncpu m -> trace_wf ncpu (before_emit c pid pr m).
Proof. destruct pr; cbn; auto using start_wf, tokens_wf. Qed.

Lemma fire_run c pid pr m :
  trace_wf ncpu m -> (c < ncpu)%nat ->
  fire ktime reserve c pid pr m = Some (fire_result c pid pr m) /\
  trace_wf ncpu (fire_result c pid pr m).
Proof.
  intros Hwf Hc. pose proof (stage_of_range pr) as Hs.
  pose proof (before_emit_wf c pid pr m Hwf) as Hwf1.
  pose proof (emit_wf c pid (stage_of pr) 0 (tokens_of pr) _ Hwf1 Hs) as Hwf2.
  pose proof (emit_trace_run c pid (stage_of pr) 0 (tokens_of pr) _ Hwf1 Hc Hs) as Hrun.
  split; [|destruct pr; cbn; auto using end_wf].
  destruct pr; cbn [fire stage_of tokens_of before_emit] in *; try exact Hrun.
  - unfold trace_chardev_write. by rewrite start_request_run.
  - unfold trace_response_emit. fold (tokens_result c m) in Hrun.
    destruct (lookup_lt_is_Some_2 (global_stats m) c) as [s Hst];
      [rewrite (tw_cpus _ _ Hwf); lia|].
    rewrite Hst. unfold fire_result, after_emit. cbn [stage_of tokens_of before_emit].
    unfold KLLM_STAGE_RESPONSE_EMIT. rewrite <- Hrun. f_equal.
    unfold set_stats, tokens_result. by rewrite (list_alter_insert _ _ _ _ Hst).
  - unfold trace_eos. unfold KLLM_STAGE_EOS. rewrite Hrun. cbn [mbind option_bind].
    by rewrite end_request_run.
Qed.

(** *** Sums over the CPUs and over the events, modulo the word size *)

Definition sumZ {A} (f : A -> Z) (l : list A) : Z := foldr (fun x a => f x + a) 0 l.

Lemma sumZ_app {A} (f : A -> Z) l k : sumZ f (l ++ k) = sumZ f l + sumZ f k.
Proof. induction l as [|x l IH]; cbn; [done|]. fold (sumZ f (l ++ k)) (sumZ f l). lia. Qed.

Lemma sumZ_alter {A} (f : A -> Z) (g : A -> A) d c l :
  (forall x, l !! c = Some x -> u64 (f (g x)) = u64 (f x + d)) -> (c < length l)%nat ->
  u64 (sumZ f (alter g c l)) = u64 (sumZ f l + d).
Proof.
  unfold wrap. revert c. induction l as [|x l IH]; intros c Hx Hc; [cbn in Hc; lia|].
  destruct c as [|c]; cbn.
  - rewrite <- Zplus_mod_idemp_l, Hx, Zplus_mod_idemp_l by done. f_equal. fold (sumZ f l). lia.
  - fold (sumZ f (alter g c l)) (sumZ f l).
    rewrite <- Zplus_mod_idemp_r, IH, Zplus_mod_idemp_r by (done || (cbn in Hc; lia)).
    f_equal. lia.
Qed.

Definition stage_latency (stg : Z) (e : kllm_trace_event) : Z :=
  if stage e =? stg then latency_ns e else 0.

(** The statistics agree with the events, the number [w] of prompts written
    and the number [t] of tokens. *)
Record accounted (m : maps) (w t : Z) : Prop := {
  ac_stage : forall stg, 0 <= stg < 14 ->
    u64 (sumZ (fun s => stage_totals s !!! Z.to_nat stg) (global_stats m)) =
    u64 (sumZ (stage_latency stg) (trace_events m));
  ac_requests : u64 (sumZ total_requests (global_stats m)) = u64 w;
  ac_tokens : u64 (sumZ total_tokens (global_stats m)) = u64 t;
}.

Definition is_write (pr : probe) : bool := match pr with PWrite _ => true | _ => false end.
Definition is_emit (pr : probe) : bool := match pr with PResponseEmit => true | _ => false end.

Lemma sumZ_alter_same {A} (f : A -> Z) (g : A -> A) c l :
  (forall x, f (g x) = f x) -> sumZ f (alter g c l) = sumZ f l.
Proof.
  intros Hg. revert c. induction l as [|x l IH]; intros c; [done|].
  destruct c as [|c]; cbn; [by rewrite Hg|].
  fold (sumZ f (alter g c l)) (sumZ f l). by rewrite IH.
Qed.

Lemma u64_plus_l a b c : u64 a = u64 b -> u64 (a + c) = u64 (b + c).
Proof. unfold wrap. intros He. by rewrite <- Zplus_mod_idemp_l, He, Zplus_mod_idemp_l. Qed.

Lemma emit_accounted c id stg seq tokens m w t :
  trace_wf ncpu m -> (c < ncpu)%nat -> 0 <= stg < 14 -> accounted m w t ->
  accounted (emit_result ktime reserve c id stg seq tokens m) w t.
Proof.
  intros Hwf Hc Hs [Hst Hr Ht]. unfold emit_result.
  destruct (reserve (ticks m + 1)); split; cbn -[sumZ]; intros;
    rewrite ?app_nil_r, ?sumZ_alter_same by done; auto.
  rewrite sumZ_app. cbn [sumZ foldr]. unfold stage_latency at 2. cbn [stage latency_ns].
  set (d := delta_of m id (ktime (ticks m))).
  rewrite (sumZ_alter _ _ (if stg =? stg0 then d else 0)); cycle 1.
  - intros x Hx. cbn [bump_stage stage_totals].
    pose proof (Forall_lookup_1 _ _ _ _ (tw_totals _ _ Hwf) Hx) as Hlen. cbn beta in Hlen.
    destruct (Z.eqb_spec stg stg0) as [<-|Hne].
    + rewrite list_lookup_total_insert_eq by lia. unfold wrap. by rewrite Zmod_mod.
    + rewrite list_lookup_total_insert_ne by lia. by rewrite Z.add_0_r.
  - rewrite (tw_cpus _ _ Hwf). lia.
  - rewrite (Z.add_0_r (if stg =? stg0 then d else 0)). apply u64_plus_l. auto.
Qed.

Lemma before_accounted c pid pr m w t :
  trace_wf ncpu m -> (c < ncpu)%nat -> accounted m w t ->
  accounted (before_emit c pid pr m) (w + if is_write pr then 1 else 0)
    (t + if is_emit pr then 1 else 0).
Proof.
  intros Hwf Hc [Hst Hr Ht]. pose proof (tw_cpus _ _ Hwf) as Hl.
  destruct pr; cbn [before_emit is_write is_emit]; rewrite ?Z.add_0_r; try by split.
  - split; cbn -[sumZ]; intros; rewrite ?sumZ_alter_same by done; auto.
    rewrite (sumZ_alter _ _ 1); [by apply u64_plus_l| |lia].
    intros x _. cbn. unfold wrap. by rewrite Zmod_mod.
  - split; cbn -[sumZ]; intros; rewrite ?sumZ_alter_same by done; auto.
    rewrite (sumZ_alter _ _ 1); [by apply u64_plus_l| |lia].
    intros x _. cbn. unfold wrap. by rewrite Zmod_mod.
Qed.

Lemma after_accounted c pid pr m w t :
  accounted m w t -> accounted (after_emit c pid pr m) w t.
Proof.
  intros Hac. destruct pr; cbn [after_emit]; try done. unfold end_result.
  destruct (request_state m !! pid); [|done]. destruct Hac as [Hst Hr Ht].
  split; cbn -[sumZ]; intros; rewrite ?sumZ_alter_same by done; auto.
Qed.

Lemma fire_accounted c pid pr m w t :
  trace_wf ncpu m -> (c < ncpu)%nat -> accounted m w t ->
  accounted (fire_result c pid pr m) (w + if is_write pr then 1 else 0)
    (t + if is_emit pr then 1 else 0).
Proof.
  intros Hwf Hc Hac. apply after_accounted, emit_accounted;
    auto using before_emit_wf, stage_of_range, before_accounted.
Qed.

End results.

Definition writes (l : list (nat * Z * probe)) : Z :=
  sumZ (fun x => if is_write (snd x) then 1 else 0) l.
Definition emits (l : list (nat * Z * probe)) : Z :=
  sumZ (fun x => if is_emit (snd x) then 1 else 0) l.

Lemma fire_all_run ktime reserve ncpu l m w t :
  trace_wf ncpu m -> accounted m w t -> Forall (fun x => (fst (fst x) < ncpu)%nat) l ->
  exists m', fire_all ktime reserve l m = Some m' /\ trace_wf ncpu m' /\
    accounted m' (w + writes l) (t + emits l).
Proof.
  revert m w t. induction l as [|[[c pid] pr] l IH]; intros m w t Hwf Hac Hl.
  { exists m. unfold writes, emits. cbn. by rewrite !Z.add_0_r. }
  apply Forall_cons in Hl as [Hc Hl]. cbn in Hc. cbn [fire_all].
  destruct (fire_run ktime reserve ncpu c pid pr m Hwf Hc) as [-> Hwf'].
  cbn [mbind option_bind].
  destruct (IH _ _ _ Hwf' (fire_accounted _ _ _ c pid pr m w t Hwf Hc Hac) Hl)
    as (m' & Hrun & Hwf'' & Hac').
  exists m'. split; [done|]. split; [done|]. unfold writes, emits in *. cbn [sumZ foldr snd].
  fold (sumZ (fun x : nat * Z * probe => if is_write (snd x) then 1 else 0) l)
    (sumZ (fun x : nat * Z * probe => if is_emit (snd x) then 1 else 0) l).
  by rewrite !Z.add_assoc.
Qed.

Lemma maps0_ok ncpu : trace_wf ncpu (maps0 ncpu) /\ accounted (maps0 ncpu) 0 0.
Proof.
  assert (Hz : forall f : kllm_trace_stats -> Z, f stats0 = 0 -> sumZ f (replicate ncpu stats0) = 0).
  { intros f Hf. induction ncpu as [|n IH]; [done|]. cbn. fold (sumZ f (replicate n stats0)). lia. }
  split.
  - split; cbn; [by rewrite length_replicate|by apply map_Forall_empty|
      |by apply Forall_replicate|done].
    unfold KLLM_MAX_TRACKED. rewrite map_size_empty. lia.
  - split; cbn -[sumZ]; [|by rewrite Hz..]. intros stg Hs. rewrite Hz; [done|].
    apply list_lookup_total_correct, lookup_replicate_2. unfold KLLM_STAGE_MAX. lia.
Qed.

(** ** Requests that no probe ends *)

(** The processes that wrote a prompt. *)
Definition writers (l : list (nat * Z * probe)) : gset Z :=
  list_to_set (snd ∘ fst <$> filter (fun x => is_write (snd x) = true) l).

Record unfinished (m : maps) (W : gset Z) : Prop := {
  un_known : dom (request_state m) ⊆ W;
  un_all : (size (request_state m) < KLLM_MAX_TRACKED)%nat -> dom (request_state m) = W;
  un_stats : Forall (fun s => total_latency_ns s = 0 /\ max_latency_ns s = 0) (global_stats m);
}.

Section unfinished.
Context (ktime : Z -> Z) (reserve : Z -> bool).

Lemma emit_unfinished c id stg seq tokens m W :
  unfinished m W -> unfinished (emit_result ktime reserve c id stg seq tokens m) W.
Proof.
  intros [Hk Ha Hs]. split; cbn.
  - by rewrite dom_alter_L.
  - intros Hsz. rewrite <- size_dom, dom_alter_L, size_dom in Hsz. rewrite dom_alter_L. auto.
  - case_match; [|done]. apply Forall_alter; [done|]. auto.
Qed.

Lemma update_unfinished rs id v W :
  dom rs ⊆ W -> ((size rs < KLLM_MAX_TRACKED)%nat -> dom rs = W) ->
  dom (bpf_map_update rs id v) ⊆ {[id]} ∪ W /\
  ((size (bpf_map_update rs id v) < KLLM_MAX_TRACKED)%nat ->
    dom (bpf_map_update rs id v) = {[id]} ∪ W).
Proof.
  intros Hk Ha. unfold bpf_map_update. destruct (rs !! id) as [x|] eqn:Hx.
  - assert (id ∈ dom rs) by (by apply elem_of_dom_2 in Hx).
    rewrite bool_decide_true by eauto. cbn [orb]. rewrite dom_insert_L.
    split; [set_solver|]. rewrite map_size_insert_Some by eauto. intros Hsz.
    rewrite (Ha Hsz). done.
  - rewrite bool_decide_false by (intros [? ?]; congruence). cbn [orb].
    case_bool_decide as Hsz; [|split; [set_solver|lia]].
    rewrite dom_insert_L, (Ha Hsz). done.
Qed.

Lemma fire_unfinished c pid pr m W :
  unfinished m W -> (pr = PEos -> pid ∉ W) ->
  unfinished (fire_result ktime reserve c pid pr m) (if is_write pr then {[pid]} ∪ W else W).
Proof.
  intros Hun Heos.
  assert (Hb : unfinished (before_emit ktime c pid pr m) (if is_write pr then {[pid]} ∪ W else W)).
  { destruct Hun as [Hk Ha Hs]. destruct pr; cbn [before_emit is_write]; try by split.
    - destruct (update_unfinished (request_state m) pid (RequestTrace
        (<[0%nat := ktime (ticks m)]> (zeroed KLLM_STAGE_MAX)) 0 0) W Hk Ha).
      split; cbn; [done|done|]. apply Forall_alter; [done|]. auto.
    - split; cbn; [done|done|]. apply Forall_alter; [done|]. auto. }
  unfold fire_result. apply (emit_unfinished c pid (stage_of pr) 0 (tokens_of pr)) in Hb.
  destruct pr; cbn [after_emit]; try done. unfold end_result.
  destruct (request_state _ !! pid) eqn:Hp; [|done]. exfalso.
  apply elem_of_dom_2 in Hp. apply (un_known _ _ Hb) in Hp. by apply Heos.
Qed.

End unfinished.

Lemma unfinished_run ktime reserve ncpu l A W m :
  trace_wf ncpu m -> unfinished m W -> W ∪ writers l ⊆ A ->
  Forall (fun x => (fst (fst x) < ncpu)%nat) l ->
  Forall (fun x => snd x = PEos -> snd (fst x) ∉ A) l ->
  exists m', fire_all ktime reserve l m = Some m' /\ trace_wf ncpu m' /\
    unfinished m' (W ∪ writers l).
Proof.
  revert W m. induction l as [|[[c pid] pr] l IH]; intros W m Hwf Hun HA Hc He.
  { exists m. unfold writers. cbn. by rewrite union_empty_r_L. }
  apply Forall_cons in Hc as [Hc0 Hc]. apply Forall_cons in He as [He0 He]. cbn in Hc0, He0.
  cbn [fire_all]. destruct (fire_run ktime reserve ncpu c pid pr m Hwf Hc0) as [-> Hwf'].
  cbn [mbind option_bind].
  assert (Hw : W ∪ writers ((c, pid, pr) :: l) =
    (if is_write pr then {[pid]} ∪ W else W) ∪ writers l).
  { unfold writers. rewrite filter_cons. cbn. destruct (is_write pr); cbn; set_solver. }
  rewrite Hw in *. apply IH; [done| |done|done|done].
  apply fire_unfinished; [done|]. intros ->. specialize (He0 eq_refl). cbn in HA. set_solver.
Qed.

(** ** The latency of one request *)

Definition request_latency (pid : Z) (e : kllm_trace_event) : Z :=
  if request_id e =? pid then latency_ns e else 0.

(** The request of [pid] was started at [t0] and announced at [t1]; since then
    the events [evs] were submitted. *)
Record in_flight (ktime : Z -> Z) (pid t0 t1 : Z) (base evs : list kllm_trace_event) (m : maps)
    : Prop := {
  fl_request : exists rt, request_state m !! pid = Some rt /\ stage_ts rt !!! 0%nat = t1 /\
    sumZ (request_latency pid) evs = last_time rt - t0 /\
    exists k, 0 <= k < ticks m /\ last_time rt = ktime k;
  fl_events : trace_events m = base ++ evs;
}.

Section latency.
Context (ktime : Z -> Z) (ncpu : nat).
Context (Hmono : forall i j, 0 <= i <= j -> ktime i <= ktime j) (Hfit : forall i, fits 64 (ktime i)).
Notation all := (fun _ : Z => true).

Lemma emit_in_flight c pid stg seq tokens t0 t1 base evs m :
  trace_wf ncpu m -> 0 < stg < 14 -> in_flight ktime pid t0 t1 base evs m ->
  exists e, in_flight ktime pid t0 t1 base (evs ++ [e])
    (emit_result ktime all c pid stg seq tokens m).
Proof.
  intros Hwf Hs [(rt & Hrt & H1 & Hsum & k & Hk & Hlast) Hev].
  destruct (tw_requests _ _ Hwf _ _ Hrt) as [Hlen Hls].
  pose proof (Hmono k (ticks m) ltac:(lia)). pose proof (Hfit k) as Hf.
  pose proof (Hfit (ticks m)) as Hf'.
  eexists. split.
  - exists (RequestTrace (<[Z.to_nat stg := ktime (ticks m)]> (stage_ts rt)) stg seq).
    unfold emit_result. cbn [request_state ticks]. rewrite lookup_alter_eq, Hrt.
    split; [done|]. unfold last_time at 1. cbn [stage_ts last_stage].
    split; [by rewrite list_lookup_total_insert_ne by lia|].
    rewrite list_lookup_total_insert_eq by lia. split.
    + rewrite sumZ_app, Hsum. cbn [sumZ foldr]. unfold request_latency. cbn [request_id latency_ns].
      instantiate (1 := TraceEvent (ktime (ticks m)) pid stg seq tokens
        (delta_of m pid (ktime (ticks m)))).
      cbn [request_id latency_ns]. rewrite Z.eqb_refl. unfold delta_of. rewrite Hrt, Hlast.
      rewrite wrap_small by (unfold fits in *; lia). lia.
    + exists (ticks m). unfold last_time. cbn [stage_ts last_stage].
      rewrite list_lookup_total_insert_eq by lia. split; [lia|done].
  - cbn. by rewrite Hev, app_assoc.
Qed.

Lemma emit_last_time c pid stg seq tokens m rt :
  trace_wf ncpu m -> 0 <= stg < 14 ->
  request_state (emit_result ktime all c pid stg seq tokens m) !! pid = Some rt ->
  last_time rt = ktime (ticks m).
Proof.
  intros Hwf Hs. cbn [emit_result request_state]. rewrite lookup_alter_eq.
  destruct (request_state m !! pid) as [rt0|] eqn:Hrt; cbn; [|done]. intros [= <-].
  destruct (tw_requests _ _ Hwf _ _ Hrt) as [Hlen _]. unfold last_time. cbn [stage_ts last_stage].
  by rewrite list_lookup_total_insert_eq by lia.
Qed.

(** What happens to other requests does not matter. *)
Lemma frame_in_flight pid t0 t1 base evs evs' m m' :
  in_flight ktime pid t0 t1 base evs m ->
  request_state m' !! pid = request_state m !! pid -> ticks m <= ticks m' ->
  trace_events m' = trace_events m ++ evs' -> sumZ (request_latency pid) evs' = 0 ->
  in_flight ktime pid t0 t1 base (evs ++ evs') m'.
Proof.
  intros [(rt & Hrt & H1 & Hsum & k & Hk & Hlast) Hev] Hsame Ht Hev' H0. split.
  - exists rt. rewrite Hsame, sumZ_app, H0. split_and!; [done|done|lia|].
    exists k. split; [lia|done].
  - by rewrite Hev', Hev, app_assoc.
Qed.

Lemma update_other rs id v pid :
  id <> pid -> bpf_map_update rs id v !! pid = rs !! pid.
Proof. intros Hne. unfold bpf_map_update. case_match; [by rewrite lookup_insert_ne|done]. Qed.

Lemma before_in_flight c pid' pr pid t0 t1 base evs m :
  (pid' = pid -> is_write pr = false) -> in_flight ktime pid t0 t1 base evs m ->
  in_flight ktime pid t0 t1 base evs (before_emit ktime c pid' pr m).
Proof.
  intros Hpr Hfl. rewrite <- (app_nil_r evs).
  destruct pr; cbn [before_emit]; (apply (frame_in_flight _ _ _ _ _ _ m)); try done;
    cbn; rewrite ?app_nil_r; try done; try lia.
  apply update_other. intros ->. by specialize (Hpr eq_refl).
Qed.

Lemma after_in_flight c pid' pr pid t0 t1 base evs m :
  (pid' = pid -> pr <> PEos) -> in_flight ktime pid t0 t1 base evs m ->
  in_flight ktime pid t0 t1 base evs (after_emit ktime c pid' pr m).
Proof.
  intros Hpr Hfl. destruct pr; cbn [after_emit]; try done. unfold end_result.
  destruct (request_state m !! pid') as [rt|] eqn:Hrt; [|done].
  rewrite <- (app_nil_r evs). apply (frame_in_flight _ _ _ _ _ _ m); try done; cbn.
  - apply lookup_delete_ne. intros ->. by apply Hpr.
  - lia.
  - by rewrite app_nil_r.
Qed.

Lemma fire_in_flight c pid' pr pid t0 t1 base evs m :
  trace_wf ncpu m -> (pid' = pid -> is_write pr = false /\ pr <> PEos) ->
  in_flight ktime pid t0 t1 base evs m ->
  exists evs', in_flight ktime pid t0 t1 base evs' (fire_result ktime all c pid' pr m).
Proof.
  intros Hwf Hpr Hfl. pose proof (before_emit_wf ktime ncpu c pid' pr m Hwf) as Hwf1.
  assert (Hfl1 : in_flight ktime pid t0 t1 base evs (before_emit ktime c pid' pr m))
    by (apply before_in_flight; [tauto|done]).
  destruct (decide (pid' = pid)) as [->|Hne].
  - destruct (Hpr eq_refl) as [Hw He].
    destruct (emit_in_flight c pid (stage_of pr) 0 (tokens_of pr) t0 t1 base evs _ Hwf1)
      as (e & Hfl2); [by destruct pr; cbn in *; lia|done|].
    eexists. apply after_in_flight; [done|exact Hfl2].
  - eexists. apply after_in_flight; [done|].
    eapply frame_in_flight; [exact Hfl1| |cbn; lia|cbn; done|].
    + cbn. by apply lookup_alter_ne.
    + cbn. unfold request_latency. cbn. by rewrite (proj2 (Z.eqb_neq pid' pid)).
Qed.

Lemma fire_all_in_flight l pid t0 t1 base evs m :
  trace_wf ncpu m -> Forall (fun x => (fst (fst x) < ncpu)%nat) l ->
  Forall (fun x => snd (fst x) = pid -> is_write (snd x) = false /\ snd x <> PEos) l ->
  in_flight ktime pid t0 t1 base evs m ->
  exists evs' m', fire_all ktime all l m = Some m' /\ trace_wf ncpu m' /\
    in_flight ktime pid t0 t1 base evs' m'.
Proof.
  revert evs m. induction l as [|[[c pid'] pr] l IH]; intros evs m Hwf Hc Hl Hfl.
  { by exists evs, m. }
  apply Forall_cons in Hc as [Hc0 Hc]. apply Forall_cons in Hl as [Hp Hl]. cbn in Hc0, Hp.
  cbn [fire_all]. destruct (fire_run ktime all ncpu c pid' pr m Hwf Hc0) as [-> Hwf'].
  cbn [mbind option_bind].
  destruct (fire_in_flight c pid' pr pid t0 t1 base evs m Hwf Hp Hfl) as (evs' & Hfl').
  by apply (IH evs').
Qed.

Lemma start_in_flight c pid count m :
  trace_wf ncpu m -> 0 <= ticks m ->
  is_Some (request_state m !! pid) \/ (size (request_state m) < KLLM_MAX_TRACKED)%nat ->
  exists evs, in_flight ktime pid (ktime (ticks m)) (ktime (ticks m + 1)) (trace_events m) evs
    (fire_result ktime all c pid (PWrite count) m).
Proof.
  intros Hwf Ht Hroom. unfold fire_result. cbn [after_emit before_emit stage_of tokens_of].
  pose proof (Hmono (ticks m) (ticks m + 1) ltac:(lia)).
  pose proof (Hfit (ticks m)). pose proof (Hfit (ticks m + 1)).
  assert (Hin : request_state (start_result ktime c pid m) !! pid =
    Some (RequestTrace (<[0%nat := ktime (ticks m)]> (zeroed KLLM_STAGE_MAX)) 0 0)).
  { cbn [start_result request_state]. unfold bpf_map_update.
    replace (bool_decide _ || bool_decide _) with true; [by rewrite lookup_insert_eq|].
    symmetry. apply orb_true_iff. rewrite !bool_decide_eq_true. exact Hroom. }
  set (m1 := start_result ktime c pid m) in *.
  exists [TraceEvent (ktime (ticks m1)) pid 0 0 (u32 count) (delta_of m1 pid (ktime (ticks m1)))].
  split; [|done]. eexists. unfold emit_result. cbn [request_state ticks].
  rewrite lookup_alter_eq, Hin. split; [done|]. split; [done|]. split.
  - cbn [sumZ foldr]. unfold request_latency. cbn [request_id latency_ns].
    rewrite Z.eqb_refl. unfold delta_of. rewrite Hin.
    change (last_time (RequestTrace (<[0%nat := ktime (ticks m)]> (zeroed KLLM_STAGE_MAX)) 0 0))
      with (ktime (ticks m)).
    change (ticks m1) with (ticks m + 1).
    rewrite wrap_small by (unfold fits in *; lia). unfold last_time. cbn [stage_ts last_stage].
    rewrite list_lookup_total_insert_eq by (vm_compute; lia). lia.
  - exists (ticks m + 1). split; [unfold m1; cbn; lia|done].
Qed.

End latency.

(** ** Main theorems *)

(** C30. Any sequence of probe firings on any CPUs and in any processes is
    defined and keeps the maps within their bounds; the per-stage totals, summed
    over the CPUs, are the sums of the latencies of the events that reached the
    ring buffer, and the numbers of requests and tokens are those of the prompts
    written and of the tokens emitted, all modulo the word size. *)
Theorem trace_accounting ktime reserve ncpu l :
  Forall (fun x => (fst (fst x) < ncpu)%nat) l ->
  exists m, fire_all ktime reserve l (maps0 ncpu) = Some m /\ trace_wf ncpu m /\
    accounted m (writes l) (emits l).
Proof.
  intros Hl. destruct (maps0_ok ncpu) as [Hwf Hac]. by apply (fire_all_run _ _ _ l _ 0 0).
Qed.

(** C29. The latencies of a request.  When process [pid] writes a prompt while
    the map has room for it, any probes of other processes and any but writes
    and ends of [pid] fire, and [pid] ends the request, no event being dropped
    and the clock being monotone, then the latencies of the events of [pid] add
    up to the time from the start of the request to its last event; the request
    is removed from the map, and the CPU of the last probe counts the time
    since the first event. *)
Theorem trace_request_latency ktime ncpu m c pid count l c' s :
  let reserve := fun _ => true in
  (forall i j, 0 <= i <= j -> ktime i <= ktime j) -> (forall i, fits 64 (ktime i)) ->
  trace_wf ncpu m -> 0 <= ticks m -> (c < ncpu)%nat -> (c' < ncpu)%nat ->
  is_Some (request_state m !! pid) \/ (size (request_state m) < KLLM_MAX_TRACKED)%nat ->
  Forall (fun x => (fst (fst x) < ncpu)%nat) l ->
  Forall (fun x => snd (fst x) = pid -> is_write (snd x) = false /\ snd x <> PEos) l ->
  exists m1 m2 m3 evs,
    fire ktime reserve c pid (PWrite count) m = Some m1 /\
    fire_all ktime reserve l m1 = Some m2 /\
    fire ktime reserve c' pid PEos m2 = Some m3 /\
    trace_events m3 = trace_events m ++ evs /\
    sumZ (request_latency pid) evs = ktime (ticks m2) - ktime (ticks m) /\
    request_state m3 !! pid = None /\
    (global_stats m2 !! c' = Some s -> exists s', global_stats m3 !! c' = Some s' /\
       total_latency_ns s' =
         u64 (total_latency_ns s + (ktime (ticks m2 + 1) - ktime (ticks m + 1)))).
Proof.
  intros reserve Hmono Hfit Hwf Ht Hc Hc' Hroom Hl Hp.
  destruct (fire_run ktime reserve ncpu c pid (PWrite count) m Hwf Hc) as [Hrun1 Hwf1].
  destruct (start_in_flight ktime ncpu Hmono Hfit c pid count m Hwf Ht Hroom) as (e1 & Hfl1).
  destruct (fire_all_in_flight ktime ncpu Hmono Hfit l _ _ _ _ _ _ Hwf1 Hl Hp Hfl1)
    as (e2 & m2 & Hrun2 & Hwf2 & Hfl2).
  destruct (fire_run ktime reserve ncpu c' pid PEos m2 Hwf2 Hc') as [Hrun3 _].
  destruct (emit_in_flight ktime ncpu Hmono Hfit c' pid 13 0 0 _ _ _ _ _ Hwf2 ltac:(lia) Hfl2)
    as (e & [(rt & Hrt & H1 & Hsum & _) Hev]).
  exists (fire_result ktime reserve c pid (PWrite count) m), m2. do 2 eexists.
  split; [exact Hrun1|]. split; [exact Hrun2|]. split; [exact Hrun3|].
  unfold fire_result. cbn [after_emit before_emit stage_of tokens_of]. unfold end_result.
  pose proof (emit_last_time ktime ncpu c' pid 13 0 0 m2 rt Hwf2 ltac:(lia) Hrt) as Hlast.
  fold reserve in Hrt, Hev. rewrite Hrt. cbn [trace_events request_state global_stats].
  split; [exact Hev|]. split; [by rewrite Hsum, Hlast|]. split; [apply lookup_delete_eq|].
  intros Hs. cbn [emit_result global_stats reserve]. rewrite !list_lookup_alter_eq, Hs.
  eexists. split; [done|]. cbn. rewrite H1. unfold wrap. by rewrite Zplus_mod_idemp_r.
Qed.

(** The request id is the process id.  When the processes that write prompts
    are not those in which a request ends (the client and the reactor), no
    request is ever completed: the total and the maximal latency stay 0, and
    every writer stays in the map until its 1024 entries are taken, after which
    no further one is tracked. *)
Theorem trace_never_completes ktime reserve ncpu l :
  Forall (fun x => (fst (fst x) < ncpu)%nat) l ->
  Forall (fun x => snd x = PEos -> snd (fst x) ∉ writers l) l ->
  exists m, fire_all ktime reserve l (maps0 ncpu) = Some m /\
    Forall (fun s => total_latency_ns s = 0 /\ max_latency_ns s = 0) (global_stats m) /\
    size (request_state m) = Nat.min KLLM_MAX_TRACKED (size (writers l)).
Proof.
  intros Hc He. destruct (maps0_ok ncpu) as [Hwf0 _].
  destruct (unfinished_run ktime reserve ncpu l (writers l) ∅ (maps0 ncpu))
    as (m & Hrun & Hwf & [Hk Ha Hs]); [done| |set_solver|done|done|].
  { split; cbn; [set_solver|intros _; apply dom_empty_L|by apply Forall_replicate]. }
  exists m. split; [done|]. split; [done|].
  rewrite union_empty_l_L in Hk, Ha. pose proof (tw_size _ _ Hwf).
  pose proof (subseteq_size _ _ Hk) as Hsz. rewrite size_dom in Hsz.
  destruct (decide (size (request_state m) < KLLM_MAX_TRACKED)%nat) as [Hlt|Hge].
  - rewrite <- (Ha Hlt), size_dom. lia.
  - lia.
Qed.

Lemma stage_lines_total s : len (stage_totals s) = 14 -> is_Some (stage_lines s).
Proof.
  intros Hl. unfold stage_lines.
  edestruct (for_range_rule (R := unit) (fun _ (_ : list line) => True)
    (fun o => exists out, o = inl out)) as (o & -> & out & ->); [done|done| |by eauto|by eauto].
  intros i out Hi _. unfold STAGE_MAX in Hi. cbv beta.
  rewrite (arr_get_total (stage_totals s)) by lia. cbn [mbind option_bind].
  case_cond; [by eexists; split|]. rewrite (arr_get_total stage_names) by (cbn; lia).
  cbn [mbind option_bind]. by eexists; split.
Qed.

(** What the tool prints.  Every event that the probes submit can be
    printed; the summary of the statistics is defined exactly on a machine with
    one CPU, since reading a per-CPU map writes the values of all CPUs to a
    buffer for one. *)
Theorem tool_output ktime reserve ncpu l :
  (0 < ncpu)%nat -> Forall (fun x => (fst (fst x) < ncpu)%nat) l ->
  exists m, fire_all ktime reserve l (maps0 ncpu) = Some m /\
    (forall e summary_only json, e ∈ trace_events m ->
       is_Some (handle_event summary_only json e)) /\
    (is_Some (print_summary (global_stats m)) <-> ncpu = 1%nat).
Proof.
  intros Hn Hl. destruct (maps0_ok ncpu) as [Hwf0 Hac0].
  destruct (fire_all_run ktime reserve ncpu l _ 0 0 Hwf0 Hac0 Hl) as (m & Hrun & Hwf & _).
  exists m. split; [done|]. split.
  - intros e so js He. pose proof (tw_events _ _ Hwf) as Hev. rewrite Forall_forall in Hev.
    specialize (Hev e He). unfold handle_event. destruct so; [by eauto|].
    unfold STAGE_MAX. rewrite (proj2 (Z.ltb_lt (stage e) 14)) by lia.
    rewrite (arr_get_total stage_names) by (cbn; lia). cbn [mbind option_bind].
    destruct js; by eauto.
  - pose proof (tw_cpus _ _ Hwf) as Hlen. pose proof (tw_totals _ _ Hwf) as Htot.
    unfold print_summary. destruct (global_stats m) as [|s [|s' rest]]; cbn in Hlen; [lia| |].
    + apply Forall_cons in Htot as [Hs _].
      destruct (stage_lines_total s Hs) as [out Hout].
      cbn [lookup_stats mbind option_bind]. rewrite Hout. cbn. split; [lia|by eauto].
    + cbn. split; [intros [? ?]; done|lia].
Qed.

(** ** Witnesses *)

(** Two prompts of process 7, one of which ends, and a client 8 whose answer
    comes from process 9. *)
Definition demo_probes : list (nat * Z * probe) :=
  [(0%nat, 7, PWrite 5); (1%nat, 8, PWrite 6); (1%nat, 7, PResponseEmit); (0%nat, 9, PResponseEmit);
   (0%nat, 9, PEos)].

Definition demo_clock (i : Z) : Z := Z.max 0 (Z.min i (2 ^ 64 - 1)).

Lemma trace_accounting_witness :
  exists m, fire_all demo_clock (fun i => i <? 3) demo_probes (maps0 2) = Some m /\
    accounted m 2 2.
Proof.
  destruct (trace_accounting demo_clock (fun i => i <? 3) 2 demo_probes) as (m & Hr & _ & Ha).
  - repeat constructor.
  - exists m. exact (conj Hr Ha).
Defined.

Lemma trace_request_latency_witness :
  exists m1 m2 m3 evs,
    fire demo_clock (fun _ => true) 0 7 (PWrite 5) (maps0 1) = Some m1 /\
    fire_all demo_clock (fun _ => true) [(0%nat, 7, PResponseEmit); (0%nat, 9, PEos)] m1 = Some m2 /\
    fire demo_clock (fun _ => true) 0 7 PEos m2 = Some m3 /\
    sumZ (request_latency 7) evs = demo_clock (ticks m2) - demo_clock 0.
Proof.
  destruct (trace_request_latency demo_clock 1 (maps0 1) 0 7 5
    [(0%nat, 7, PResponseEmit); (0%nat, 9, PEos)] 0 stats0)
    as (m1 & m2 & m3 & evs & H1 & H2 & H3 & _ & Hs & _).
  - intros i j Hij. unfold demo_clock. lia.
  - intros i. unfold fits, demo_clock. lia.
  - apply maps0_ok.
  - done.
  - lia.
  - lia.
  - right. by apply Nat.ltb_lt.
  - repeat constructor.
  - apply Forall_cons. split; [by cbn|]. apply Forall_singleton. cbn. lia.
  - by exists m1, m2, m3, evs.
Defined.

Lemma trace_never_completes_witness :
  exists m, fire_all demo_clock (fun _ => true) demo_probes (maps0 2) = Some m /\
    size (request_state m) = 2%nat.
Proof.
  destruct (trace_never_completes demo_clock (fun _ => true) 2 demo_probes) as (m & Hr & _ & Hs).
  - repeat constructor.
  - repeat constructor; cbn; try congruence. intros _. by vm_compute.
  - exists m. split; [done|]. by rewrite Hs.
Defined.

Lemma tool_output_witness :
  exists m, fire_all demo_clock (fun _ => true) demo_probes (maps0 2) = Some m /\
    ~ is_Some (print_summary (global_stats m)).
Proof.
  destruct (tool_output demo_clock (fun _ => true) 2 demo_probes) as (m & Hr & _ & Hs).
  - lia.
  - repeat constructor.
  - exists m. split; [done|]. rewrite Hs. lia.
Defined.
