(* ===== verification/TraceTool.v ===== *)
(** * The main function of the tracing tool

    Models [main] of [userspace/tools/kllm_trace.c] over the handler and the
    summary of [Trace.v]: the options, the loading of the program through
    libbpf, the poll loop, and the release of what was acquired.

    The answers of libbpf are parameters: whether the object opens and the ring
    buffer is created, the results of loading and of the lookups of the two
    maps, and for every poll the events it delivers, its result and whether a
    signal arrives before it returns.  The run is recorded as the list of the
    calls and of the output.

    The call that attaches the programs passes the object where libbpf expects a
    skeleton, and the result of opening it, a number, where libbpf expects a
    skeleton again.  Neither C nor libbpf says what happens, so the result of the
    call is a parameter as well: [None] when it has no defined behaviour, and the
    run is undefined from there on.

    The file proves that a run which has opened and loaded the object is
    undefined unless the attaching call happens to return; that every run that
    ends has released the ring buffer and the object exactly once and in that
    order, that the tool fails exactly when a step of the setup fails, that it
    prints the events in the order of their delivery, and that it ends once a
    signal or a failed poll arrives. *)

From Stdlib Require Import ZArith Lia.
From Stdlib Require Import String SpecFloat.
From stdpp Require Import base numbers list gmap.
From S2P Require Import Prelude Floats InferGpu Trace.

#[local] Open Scope Z_scope.

(** ** The environment *)

Definition EINTR : Z := 4.

Record libbpf : Type := Libbpf {
  open_file : bool;
  load_rc : Z;
  attach_rc : option Z;
  trace_events_fd : Z;
  global_stats_fd : Z;
  ring_new : bool;
  early_signal : bool;
}.

Record poll_answer : Type := PollAnswer {
  p_events : list kllm_trace_event;
  p_rc : Z;
  p_signal : bool;
}.

(** *** The structs that the tool shares with the probes

    Both are declared again in the tool. *)

Definition bpf_trace_event : list Z * Z :=
  layout false [m_u64; m_u32; m_u32; m_u32; m_u32; m_u64].

Definition tool_trace_event : list Z * Z :=
  layout false [m_u64; m_u32; m_u32; m_u32; m_u32; m_u64].

Definition bpf_trace_stats : list Z * Z :=
  layout false [m_u64; m_u64; m_u64; m_u64; Member (8 * KLLM_STAGE_MAX) 8 1].

Definition tool_trace_stats : list Z * Z :=
  layout false [m_u64; m_u64; m_u64; m_u64; Member (8 * STAGE_MAX) 8 1].

Lemma trace_layouts_agree :
  bpf_trace_event = tool_trace_event /\ bpf_trace_stats = tool_trace_stats /\
  snd tool_trace_event = 32 /\ snd tool_trace_stats = 144.
Proof. by vm_compute. Qed.

(** ** The run *)

Inductive message : Type := MOpen | MLoad (rc : Z) | MMaps | MRing.

Inductive action : Type :=
| AOpen (ok : bool)
| ALoad
| AAttach
| AFindMap (name : string)
| ARingNew (ok : bool)
| ABanner
| APoll
| APrint (o : output)
| ASummary (l : list line)
| AError (m : message)
| ARingFree
| AClose.

Definition parse_arg (opts : bool * bool) (arg : string) : bool * bool :=
  let '(output_json, summary_only) := opts in
  if String.eqb arg "--json" then (true, summary_only)
  else if String.eqb arg "--summary" then (output_json, true)
  else opts.

Definition parse_args (argv : list string) : bool * bool :=
  fold_left parse_arg (tail argv) (false, false).

(** The callback on every delivered event; it returns 0, so a poll goes on. *)
Fixpoint handle_events (summary_only output_json : bool) (evs : list kllm_trace_event)
    : option (list action) :=
  match evs with
  | [] => Some []
  | e :: evs' =>
      out ← handle_event summary_only output_json e;
      rest ← handle_events summary_only output_json evs';
      Some ((APrint <$> out) ++ rest)
  end.

Definition fatal (rc : Z) : bool := (rc <? 0) && negb (rc =? - EINTR).

Section main.
Context (lb : libbpf) (polls : nat -> poll_answer) (percpu : list kllm_trace_stats).

(** Poll [k] and the ones after it. *)
Fixpoint poll_loop (fuel : nat) (k : nat) (summary_only output_json running : bool)
    (log : list action) : exec (list action) :=
  match fuel with
  | O => OutOfFuel
  | S fuel' =>
      if negb running then Done log
      else
        exec_bind (exec_of (handle_events summary_only output_json (p_events (polls k)))) (fun out =>
        let log := log ++ APoll :: out in
        if fatal (p_rc (polls k)) then Done log
        else poll_loop fuel' (S k) summary_only output_json (negb (p_signal (polls k))) log)
  end.

Definition main (fuel : nat) (argv : list string) : exec (Z * list action) :=
  let '(output_json, summary_only) := parse_args argv in
  if negb (open_file lb) then Done (1, [AOpen false; AError MOpen])
  else if negb (load_rc lb =? 0) then
    Done (1, [AOpen true; ALoad; AError (MLoad (load_rc lb)); AClose])
  else
    exec_bind (exec_of (attach_rc lb)) (fun _ =>
    let log := [AOpen true; ALoad; AAttach; AFindMap "trace_events"; AFindMap "global_stats"] in
    if (trace_events_fd lb <? 0) || (global_stats_fd lb <? 0) then
      Done (1, log ++ [AError MMaps; AClose])
    else if negb (ring_new lb) then Done (1, log ++ [ARingNew false; AError MRing; AClose])
    else
      let log := log ++ ARingNew true :: (if summary_only then [] else [ABanner]) in
      exec_bind (poll_loop fuel 0 summary_only output_json (negb (early_signal lb)) log) (fun log =>
      exec_bind (exec_of (print_summary percpu)) (fun lines =>
      Done (0, log ++ [ASummary lines; ARingFree; AClose])))).

End main.

(** ** Specification *)

(** The protocol of the two resources: whether the object and the ring buffer
    are held, and [None] after a misuse. *)
Definition use (st : option (bool * bool)) (a : action) : option (bool * bool) :=
  st ← st;
  let '(obj, rb) := (st : bool * bool) in
  match a with
  | AOpen ok => if obj then None else Some (ok, rb)
  | ALoad | AAttach | AFindMap _ => if obj then Some (obj, rb) else None
  | ARingNew ok => if obj && negb rb then Some (obj, ok) else None
  | APoll => if obj && rb then Some (obj, rb) else None
  | ARingFree => if obj && rb then Some (obj, false) else None
  | AClose => if obj && negb rb then Some (false, rb) else None
  | ABanner | APrint _ | ASummary _ | AError _ => Some (obj, rb)
  end.

Definition held (log : list action) : option (bool * bool) := fold_left use log (Some (false, false)).

Definition loaded (lb : libbpf) : bool := open_file lb && (load_rc lb =? 0).

Definition setup_ok (lb : libbpf) : bool :=
  loaded lb && (0 <=? trace_events_fd lb) && (0 <=? global_stats_fd lb) &&
  ring_new lb.

Definition prints (a : action) : list output := match a with APrint o => [o] | _ => [] end.

Definition printed (log : list action) : list output := log ≫= prints.

(** What the tool prints of one event. *)
Definition event_output (summary_only output_json : bool) (e : kllm_trace_event) : list output :=
  default [] (handle_event summary_only output_json e).

(** The loop is over after poll [k]. *)
Definition stops (p : poll_answer) : bool := p_signal p || fatal (p_rc p).

(** The events of the first [n] polls. *)
Definition delivered (polls : nat -> poll_answer) (n : nat) : list kllm_trace_event :=
  seq 0 n ≫= (fun k => p_events (polls k)).

(** ** Lemmas *)

Lemma held_app log1 log2 : held (log1 ++ log2) = fold_left use log2 (held log1).
Proof. apply fold_left_app. Qed.

Lemma printed_app log1 log2 : printed (log1 ++ log2) = printed log1 ++ printed log2.
Proof. apply bind_app. Qed.

Lemma handle_event_total so js e : 0 <= stage e -> is_Some (handle_event so js e).
Proof.
  intros He. unfold handle_event. destruct so; [by eauto|]. unfold STAGE_MAX.
  destruct (Z.ltb_spec (stage e) 14).
  - rewrite (arr_get_total stage_names) by (cbn; lia). cbn [mbind option_bind]. destruct js; by eauto.
  - cbn [mbind option_bind]. destruct js; by eauto.
Qed.

Lemma fold_use_prints (out : list output) st :
  fold_left use (APrint <$> out) (Some st) = Some st.
Proof. induction out as [|o out IH]; [done|]. cbn. destruct st. exact IH. Qed.

Lemma printed_prints (out : list output) : printed (APrint <$> out) = out.
Proof. induction out as [|o out IH]; [done|]. cbn. f_equal. exact IH. Qed.

(** The callbacks print and do nothing else. *)
Lemma handle_events_ok so js evs :
  Forall (fun e => 0 <= stage e) evs ->
  exists out, handle_events so js evs = Some out /\ printed out = evs ≫= event_output so js /\
    forall st, fold_left use out (Some st) = Some st.
Proof.
  induction 1 as [|e evs He _ (out & Hout & Hp & Hu)]; [by exists []|].
  destruct (handle_event_total so js e He) as [o Ho]. exists ((APrint <$> o) ++ out).
  cbn [handle_events]. rewrite Ho. cbn [mbind option_bind]. rewrite Hout. cbn [mbind option_bind].
  split; [done|]. split.
  - rewrite printed_app, printed_prints, Hp. cbn. unfold event_output. by rewrite Ho.
  - intros st. by rewrite fold_left_app, fold_use_prints.
Qed.

Section lemmas.
Context (polls : nat -> poll_answer).
Hypothesis stages : forall k, Forall (fun e => 0 <= stage e) (p_events (polls k)).

Lemma delivered_S n : delivered polls (S n) = delivered polls n ++ p_events (polls n).
Proof. unfold delivered. rewrite seq_S, bind_app. cbn. by rewrite app_nil_r. Qed.

(** The loop, entered after [k] polls; it is over with the first poll that stops
    it. *)
Lemma poll_loop_ok fuel k so js running log :
  held log = Some (true, true) -> printed log = delivered polls k ≫= event_output so js ->
  (running = true -> forall j, (j < k)%nat -> stops (polls j) = false) ->
  match poll_loop polls fuel k so js running log with
  | Done log' => held log' = Some (true, true) /\
      exists n, printed log' = delivered polls n ≫= event_output so js /\
        if running then (exists m, n = S m /\ stops (polls m) = true /\
          forall j, (j < m)%nat -> stops (polls j) = false) else n = k
  | OutOfFuel => if running then forall j, (S j < k + fuel)%nat -> stops (polls j) = false
      else fuel = O
  | Undef => False
  end.
Proof.
  revert k running log. induction fuel as [|fuel IH]; intros k running log Hh Hp Hr; cbn [poll_loop].
  { destruct running; [|done]. intros j Hlt. apply Hr; [done|lia]. }
  destruct running; cbn [negb]; [|by eauto]. specialize (Hr eq_refl).
  destruct (handle_events_ok so js (p_events (polls k)) (stages k)) as (out & -> & Hout & Hu).
  cbn [exec_of exec_bind]. set (log' := log ++ APoll :: out).
  assert (held log' = Some (true, true)) as Hh'.
  { unfold log'. rewrite held_app, Hh. cbn. apply Hu. }
  assert (printed log' = delivered polls (S k) ≫= event_output so js) as Hp'.
  { unfold log'. rewrite printed_app, delivered_S, bind_app, Hp. f_equal. exact Hout. }
  destruct (fatal (p_rc (polls k))) eqn:Hf.
  { split; [done|]. exists (S k). split; [done|]. exists k. unfold stops. rewrite Hf, orb_true_r. done. }
  assert (stops (polls k) = p_signal (polls k)) as Hs by (unfold stops; by rewrite Hf, orb_false_r).
  specialize (IH (S k) (negb (p_signal (polls k))) log' Hh' Hp'). rewrite <- Hs in *.
  assert (negb (stops (polls k)) = true -> forall j, (j < S k)%nat -> stops (polls j) = false) as Hgo.
  { intros Hk%negb_true_iff j Hlt. destruct (decide (j = k)) as [->|Hne]; [done|apply Hr; lia]. }
  specialize (IH Hgo).
  destruct (poll_loop polls fuel (S k) so js (negb (stops (polls k))) log') as [l| |]; [|..|done].
  - destruct IH as [H1 (n & H2 & H3)]. split; [done|]. exists n. split; [done|].
    destruct (stops (polls k)) eqn:Hst; cbn in H3; [|done]. exists k. by rewrite H3.
  - intros j Hlt. destruct (stops (polls k)); cbn in IH; [apply Hr; lia|apply IH; lia].
Qed.

End lemmas.

(** ** Main theorem *)

Lemma print_summary_defined percpu :
  Forall (fun s => len (stage_totals s) = 14) percpu ->
  match print_summary percpu with Some _ => length percpu = 1%nat | None => length percpu <> 1%nat end.
Proof.
  intros Hl. unfold print_summary. destruct percpu as [|s [|s' rest]]; [done| |done].
  apply Forall_cons in Hl as [Hs _]. destruct (stage_lines_total s Hs) as [out Hout].
  cbn [lookup_stats mbind option_bind]. rewrite Hout. done.
Qed.

(** C27. A run of the tool that has opened and loaded the object is undefined if
    the call that attaches the programs is, which passes arguments of the wrong
    types.  Where that call returns, every run of the tool that ends has used the
    object and the ring buffer only while it held them and has released both, the
    ring buffer first.  It exits with 1, having printed no event, exactly when
    the object, its maps or the ring buffer could not be set up, and otherwise
    with 0, having printed the events of the polls in the order of their
    delivery, up to and including the first poll that fails or during which a
    signal arrives.  It goes on only while no poll has failed and no signal has
    arrived; and it is undefined only in the summary, on a machine with more
    than one CPU. *)
Theorem tool_main_ok lb polls percpu fuel argv :
  (forall k, Forall (fun e => 0 <= stage e) (p_events (polls k))) ->
  Forall (fun s => len (stage_totals s) = 14) percpu ->
  let '(output_json, summary_only) := parse_args argv in
  match main lb polls percpu fuel argv with
  | Done (rc, log) =>
      (loaded lb = true -> is_Some (attach_rc lb)) /\
      held log = Some (false, false) /\ rc = (if setup_ok lb then 0 else 1) /\
      (setup_ok lb = false -> printed log = []) /\
      (setup_ok lb = true -> length percpu = 1%nat /\
        exists n, printed log = delivered polls n ≫= event_output summary_only output_json /\
          if early_signal lb then n = 0%nat
          else exists m, n = S m /\ stops (polls m) = true /\
            forall j, (j < m)%nat -> stops (polls j) = false)
  | OutOfFuel => setup_ok lb = true /\ is_Some (attach_rc lb) /\
      (fuel = 0%nat \/ early_signal lb = false /\ forall j, (S j < fuel)%nat -> stops (polls j) = false)
  | Undef => loaded lb = true /\
      (attach_rc lb = None \/ setup_ok lb = true /\ length percpu <> 1%nat)
  end.
Proof.
  intros Hst Hlen. destruct (parse_args argv) as [js so] eqn:Ha. unfold main, setup_ok, loaded.
  rewrite Ha. destruct (open_file lb); cbn [negb andb]; [|done].
  destruct (Z.eqb_spec (load_rc lb) 0) as [Hl|Hl]; cbn [negb andb]; [|done].
  destruct (attach_rc lb); cbn [exec_of exec_bind]; [|by auto].
  rewrite !Z.leb_antisym. destruct (trace_events_fd lb <? 0); cbn [negb orb andb]; [by eauto|].
  destruct (global_stats_fd lb <? 0); cbn [negb andb]; [by eauto|].
  destruct (ring_new lb); cbn [negb andb]; [|by eauto].
  set (log0 := _ ++ ARingNew true :: _).
  pose proof (poll_loop_ok polls Hst fuel 0 so js (negb (early_signal lb)) log0) as Hloop.
  assert (held log0 = Some (true, true)) as Hh by (unfold log0; by destruct so).
  specialize (Hloop Hh ltac:(unfold log0; by destruct so) ltac:(lia)).
  pose proof (print_summary_defined percpu Hlen) as Hsum.
  destruct (poll_loop polls fuel 0 so js (negb (early_signal lb)) log0) as [log| |]; cbn [exec_bind].
  - destruct Hloop as (Hh' & n & Hp & Hn). destruct (print_summary percpu) as [lines|];
      cbn [exec_of exec_bind]; [|by auto].
    rewrite held_app, Hh', printed_app, app_nil_r. split; [by eauto|]. split_and!; [done..|].
    intros _. split; [done|]. exists n. split; [done|]. by destruct (early_signal lb).
  - split; [done|]. split; [by eauto|]. destruct (early_signal lb); [by left|]. right. by split.
  - done.
Qed.

(** ** Runs *)

Definition demo_libbpf : libbpf := Libbpf true 0 (Some 0) 3 4 true false.

(** A poll with two events, an interrupted one, and the signal. *)
Definition demo_polls (k : nat) : poll_answer :=
  match k with
  | O => PollAnswer [TraceEvent 1000 7 0 0 0 0; TraceEvent 9000 7 10 0 1 8000] 2 false
  | S O => PollAnswer [] (- EINTR) false
  | _ => PollAnswer [TraceEvent 9500 7 99 0 0 500] 1 true
  end.

Lemma demo_stages k : Forall (fun e => 0 <= stage e) (p_events (demo_polls k)).
Proof. destruct k as [|[|k]]; repeat constructor; cbn; lia. Qed.

Lemma tool_main_ok_witness :
  exists log, main demo_libbpf demo_polls [stats0] 4 ["kllm_trace"; "--json"]%string = Done (0, log) /\
    held log = Some (false, false) /\ length (printed log) = 3%nat.
Proof.
  assert (Forall (fun s => len (stage_totals s) = 14) [stats0]) as Hl by (repeat constructor).
  pose proof (tool_main_ok demo_libbpf demo_polls [stats0] 4 ["kllm_trace"; "--json"]%string
    demo_stages Hl) as H.
  destruct (main demo_libbpf demo_polls [stats0] 4 ["kllm_trace"; "--json"]%string)
    as [[rc log]| |] eqn:Hm.
  - exists log. destruct H as (_ & Hh & Hrc & _). cbn in Hrc. subst rc.
    split; [reflexivity|]. split; [exact Hh|]. vm_compute in Hm. injection Hm as <-. reflexivity.
  - vm_compute in Hm. discriminate.
  - vm_compute in Hm. discriminate.
Defined.
