(* ===== verification/PagedAttention.v ===== *)
(** * The paged-attention kernels

    Models the device kernels [paged_attention_kernel_cuda]
    ([userspace/gpu/paged_attention.cu]), [paged_attention_v2_kernel]
    ([userspace/gpu/paged_attention.hip]) and [PagedAttentionKernel]
    ([userspace/gpu/paged_attention_xe.cpp]) and their launchers.  The three
    kernels are one program for a number of lanes, a stride and a reduction
    across the lanes; the lanes of a group run in lockstep, one state each, and
    meet in the reduction and the broadcasts.

    The arithmetic of the device (which may fuse a multiplication and an
    addition), its conversions and the reduction over a SYCL sub-group are
    parameters ([Device]).  An [int] computation that overflows, a division by
    zero and an access outside of a buffer are undefined ([None]).

    The file proves, for every shape, which elements a launch writes and what it
    writes: an online softmax whose accumulator only lane 0 rescales.  It follows
    that the elements of the other lanes are not the softmax average when the
    maximum grows, and that the SYCL launch, whose groups have one work item,
    writes only every sixteenth element. *)

From Stdlib Require Import ZArith Lia SpecFloat.
From stdpp Require Import base numbers list.
From S2P Require Import Prelude Floats.

#[local] Open Scope Z_scope.

(** ** The device *)

Class Device (F : Type) : Type := {
  fzero : F;
  fone : F;
  neg_large : F;
  fmadd : F -> F -> F -> F;
  fmul : F -> F -> F;
  fsub : F -> F -> F;
  fadd : F -> F -> F;
  fdiv : F -> F -> F;
  fmax : F -> F -> F;
  fgt0 : F -> bool;
  dexp : F -> F;
  of_bf16 : Z -> F;
  to_bf16 : F -> Z;
  reduce_over_group : list F -> F;
}.

(** The [int] arithmetic of the host and device language. *)
Definition int (x : Z) : option Z :=
  if (- (2 ^ 31) <=? x) && (x <? 2 ^ 31) then Some x else None.

Definition int_div (a b : Z) : option Z := if b =? 0 then None else Some (Z.quot a b).

(** ** Data *)

Definition BLOCK_SIZE : Z := 128.
Definition HEAD_DIM : Z := 128.

(** Device memory that a kernel reads; null pointers are [None]. *)
Definition buffer : Type := Z -> option Z.

Record block_table_entry : Type := BlockTableEntry {
  k_ptr : option buffer;
  v_ptr : option buffer;
  valid : Z;
}.

Section kernels.
Context {F : Type} `{Device F}.

(** The arguments of a launch. *)
Record launch : Type := Launch {
  query : buffer;
  block_tables : list block_table_entry;
  seq_lens : list Z;
  num_seqs : Z;
  num_heads : Z;
  num_kv_heads : Z;
  head_dim : Z;
  max_blocks_per_seq : Z;
  scale : F;
}.

(** The local variables of a lane that live across tokens. *)
Record lane : Type := Lane {
  max_score : F;
  exp_sum : F;
  acc : list F;
}.

(** A kernel: the lanes of a group, the stride of its loops and what each lane
    holds after the reduction. *)
Record kernel : Type := Kernel {
  lanes : Z;
  width : Z;
  reduce : list F -> list F;
}.

(** ** The reductions *)

(** One [__shfl_down]: a lane whose source is out of range reads itself. *)
Definition shfl_down (l : list F) (offset : nat) : list F :=
  imap (fun i x => fadd x (default x (l !! (i + offset)%nat))) l.

(** [for (offset = n; offset > 0; offset >>= 1)], for a power of two [2^k]. *)
Fixpoint shfl_reduce (k : nat) (l : list F) : list F :=
  match k with
  | O => shfl_down l 1
  | S k' => shfl_reduce k' (shfl_down l (2 ^ k))
  end.

Definition cuda_kernel : kernel := Kernel 32 32 (shfl_reduce 4).
Definition hip_kernel : kernel := Kernel 64 64 (shfl_reduce 5).

(** The launch gives each group one work item. *)
Definition xe_kernel : kernel :=
  Kernel 1 16 (fun l => replicate (length l) (reduce_over_group l)).

(** ** The kernel *)

(** [for (d = tid; d < n; d += width)] *)
Definition for_stride {S} (tid w n : Z) (body : Z -> S -> option S) (s : S) : option S :=
  res ← for_range (R := unit) 0 (Z.max 0 ((n - tid + w - 1) / w)) (fun i s =>
    s' ← body (tid + w * i) s; Some (Continue s')) s;
  match res with inl s => Some s | inr _ => None end.

Definition tids (k : kernel) : list Z := seqZ 0 (lanes k).

(** The partial dot product of a lane. *)
Definition lane_dot (w hd : Z) (q k_vec : buffer) (qo ko tid : Z) : option F :=
  for_stride tid w hd (fun d dot =>
    a ← q (qo + d); b ← k_vec (ko + d);
    Some (fmadd (of_bf16 a) (of_bf16 b) dot)) fzero.

(** The update that only lane 0 does. *)
Definition online_softmax (score : F) (l : lane) : lane :=
  let old_max := max_score l in
  let max_score := fmax old_max score in
  let correction := dexp (fsub old_max max_score) in
  Lane max_score (fmadd (exp_sum l) correction (dexp (fsub score max_score)))
    ((fun a => fmul a correction) <$> acc l).

(** [acc[d / width] += weight * v_vec[d]] over the elements of a lane. *)
Definition accumulate (w hd : Z) (weight : F) (v_vec : buffer) (vo tid : Z) (a : list F)
    : option (list F) :=
  for_stride tid w hd (fun d a =>
    let acc_idx := d / w in
    if acc_idx <? HEAD_DIM / w then
      x ← v_vec (vo + d);
      y ← arr_get a acc_idx;
      arr_set a acc_idx (fmadd weight (of_bf16 x) y)
    else Some a) a.

(** One token: the body of the inner loop for all lanes. *)
Definition token_step (kn : kernel) (p : launch) (qo : Z) (k_block v_block : buffer)
    (kv_off t : Z) (ls : list lane) : option (list lane) :=
  row ← int (t * head_dim p);
  dots ← mapM (lane_dot (width kn) (head_dim p) (query p) k_block qo (kv_off + row)) (tids kn);
  let scores := (fun d => fmul d (scale p)) <$> reduce kn dots in
  score0 ← arr_get scores 0;
  lane0 ← arr_get ls 0;
  ls ← arr_set ls 0 (online_softmax score0 lane0);
  lane0 ← arr_get ls 0;
  let weight := dexp (fsub score0 (max_score lane0)) in
  mapM (fun '(tid, l) =>
    a ← accumulate (width kn) (head_dim p) weight v_block (kv_off + row) tid (acc l);
    Some (Lane (max_score lane0) (exp_sum l) a)) (zip (tids kn) ls).

(** One block of the table. *)
Definition block_step (kn : kernel) (p : launch) (qo seq_idx kv_head_idx seq_len block_idx : Z)
    (ls : list lane) : option (list lane) :=
  row ← int (seq_idx * max_blocks_per_seq p);
  i ← int (row + block_idx);
  entry ← arr_get (block_tables p) i;
  match k_ptr entry with
  | None => Some ls
  | Some k_block =>
      if valid entry =? 0 then Some ls
      else
        head_off ← int (kv_head_idx * BLOCK_SIZE);
        kv_off ← int (head_off * head_dim p);
        block_start ← int (block_idx * BLOCK_SIZE);
        rest ← int (seq_len - block_start);
        let block_tokens := Z.min BLOCK_SIZE rest in
        v_block ← v_ptr entry;
        res ← for_range (R := unit) 0 block_tokens (fun t ls =>
          ls' ← token_step kn p qo k_block v_block kv_off t ls; Some (Continue ls')) ls;
        match res with inl ls => Some ls | inr _ => None end
  end.

(** The elements a lane writes. *)
Definition write_lane (w hd : Z) (inv_sum : F) (oo tid : Z) (a : list F) (out : list Z)
    : option (list Z) :=
  for_stride tid w hd (fun d out =>
    let acc_idx := d / w in
    val ← (if acc_idx <? HEAD_DIM / w then x ← arr_get a acc_idx; Some (fmul x inv_sum)
           else Some fzero);
    arr_set out (oo + d) (to_bf16 val)) out.

Definition lane_init (w : Z) : lane :=
  Lane neg_large fzero (replicate (Z.to_nat (HEAD_DIM / w)) fzero).

(** The kernel for one group. *)
Definition paged_attention_kernel (kn : kernel) (p : launch) (seq_idx head_idx : Z) (out : list Z)
    : option (list Z) :=
  if num_seqs p <=? seq_idx then Some out
  else
    seq_len ← arr_get (seq_lens p) seq_idx;
    up ← int (seq_len + BLOCK_SIZE);
    let num_blocks := Z.quot (up - 1) BLOCK_SIZE in
    group ← int_div (num_heads p) (num_kv_heads p);
    kv_head_idx ← int_div head_idx group;
    row ← int (seq_idx * num_heads p);
    vec ← int (row + head_idx);
    qo ← int (vec * head_dim p);
    res ← for_range (R := unit) 0 num_blocks (fun block_idx ls =>
      ls' ← block_step kn p qo seq_idx kv_head_idx seq_len block_idx ls; Some (Continue ls'))
      (replicate (Z.to_nat (lanes kn)) (lane_init (width kn)));
    match res with
    | inr _ => None
    | inl ls =>
        lane0 ← arr_get ls 0;
        let inv_sum := if fgt0 (exp_sum lane0) then fdiv fone (exp_sum lane0) else fzero in
        res ← for_range (R := unit) 0 (lanes kn) (fun tid out =>
          l ← arr_get ls tid;
          out' ← write_lane (width kn) (head_dim p) inv_sum qo tid (acc l) out;
          Some (Continue out')) out;
        match res with inl out => Some out | inr _ => None end
    end.

(** The three kernels of the sources. *)
Definition paged_attention_kernel_cuda : launch -> Z -> Z -> list Z -> option (list Z) :=
  paged_attention_kernel cuda_kernel.

Definition paged_attention_v2_kernel : launch -> Z -> Z -> list Z -> option (list Z) :=
  paged_attention_kernel hip_kernel.

Definition PagedAttentionKernel : launch -> Z -> Z -> list Z -> option (list Z) :=
  paged_attention_kernel xe_kernel.

(** The launchers: a grid of one group for each sequence and head.  [ok] tells
    whether the runtime accepts the launch; the result is the output when the
    stream has completed. *)
Definition run_grid (group : launch -> Z -> Z -> list Z -> option (list Z)) (p : launch)
    (out : list Z) : option (list Z) :=
  res ← for_range (R := unit) 0 (num_seqs p) (fun s out =>
    res ← for_range (R := unit) 0 (num_heads p) (fun h out =>
      out' ← group p s h out; Some (Continue out')) out;
    match res with inl out => Some (Continue out) | inr _ => None end) out;
  match res with inl out => Some out | inr _ => None end.

Definition launch_kernel (group : launch -> Z -> Z -> list Z -> option (list Z)) (ok : bool)
    (p : launch) (out : list Z) : option (Z * list Z) :=
  if ok then out' ← run_grid group p out; Some (0, out') else Some (-1, out).

Definition kllm_gpu_paged_attention_cuda (ok : bool) (p : launch) (out : list Z)
    : option (Z * list Z) := launch_kernel paged_attention_kernel_cuda ok p out.

Definition kllm_gpu_paged_attention_hip (ok : bool) (p : launch) (out : list Z)
    : option (Z * list Z) := launch_kernel paged_attention_v2_kernel ok p out.

Definition kllm_gpu_paged_attention_xe (ok : bool) (p : launch) (out : list Z)
    : option (Z * list Z) := launch_kernel PagedAttentionKernel ok p out.

End kernels.

Arguments launch : clear implicits.
Arguments lane : clear implicits.
Arguments kernel : clear implicits.

(** ** Specification *)

Section spec.
Context {F : Type} `{Device F}.
Context (kn : kernel F) (p : launch F) (qf : Z -> Z) (kf vf : Z -> Z -> Z).

Notation w := (width kn).
Notation hd := (head_dim p).

(** The running softmax of a group: the maximum, the sum, and the weighted sum
    of each element, which is rescaled only where lane 0 computes it. *)
Record online : Type := Online {
  om : F;
  oe : F;
  oa : Z -> F;
}.

Definition online0 : online := Online neg_large fzero (fun _ => fzero).

Definition online_step (score : F) (v : Z -> F) (st : online) : online :=
  let m := fmax (om st) score in
  let correction := dexp (fsub (om st) m) in
  let weight := dexp (fsub score m) in
  Online m (fmadd (oe st) correction weight)
    (fun d => fmadd weight (v d)
       (if d mod w =? 0 then fmul (oa st d) correction else oa st d)).

(** The elements of a lane. *)
Definition stride (tid : Z) : list Z :=
  (fun i => tid + w * i) <$> seqZ 0 (Z.max 0 ((hd - tid + w - 1) / w)).

(** The score that lane 0 holds. *)
Definition score_ref (q k : Z -> F) : F :=
  let dots := (fun tid => foldl (fun dot d => fmadd (q d) (k d) dot) fzero (stride tid)) <$> tids kn in
  fmul (default fzero (reduce kn dots !! 0%nat)) (scale p).

Definition seq_len_of (s : Z) : Z := seq_lens p !!! Z.to_nat s.

Definition kv_head (h : Z) : Z := h / (num_heads p / num_kv_heads p).

Definition usable (e : block_table_entry) : bool :=
  match k_ptr e with Some _ => negb (valid e =? 0) | None => false end.

(** The tokens of block [b] of sequence [s]. *)
Definition block_tokens (s b : Z) : list (Z * Z) :=
  match arr_get (block_tables p) (s * max_blocks_per_seq p + b) with
  | Some e => if usable e
              then (fun t => (b, t)) <$> seqZ 0 (Z.min 128 (seq_len_of s - b * 128)) else []
  | None => []
  end.

Definition token_ref (s h : Z) (st : online) (bt : Z * Z) : online :=
  let idx := s * max_blocks_per_seq p + fst bt in
  let qo := (s * num_heads p + h) * hd in
  let ko := kv_head h * 128 * hd + snd bt * hd in
  online_step (score_ref (fun d => of_bf16 (qf (qo + d))) (fun d => of_bf16 (kf idx (ko + d))))
    (fun d => of_bf16 (vf idx (ko + d))) st.

(** The state after the first [n] blocks. *)
Definition online_ref (s h n : Z) : online :=
  foldl (token_ref s h) online0 (seqZ 0 n ≫= block_tokens s).

Definition num_blocks (s : Z) : Z := (seq_len_of s + 127) / 128.

(** The value of element [d] of a group. *)
Definition value_ref (s h d : Z) : Z :=
  let st := online_ref s h (num_blocks s) in
  let inv_sum := if fgt0 (oe st) then fdiv fone (oe st) else fzero in
  to_bf16 (if d / w <? 128 / w then fmul (oa st d) inv_sum else fzero).

(** A group has lanes, at most as many as the stride, and its reduction gives
    each of them a value. *)
Definition kernel_ok : Prop :=
  1 <= lanes kn <= w /\ forall l, length (reduce kn l) = length l.

(** The buffers have the sizes that the shape says, and the offsets fit [int]. *)
Record launch_ok : Prop := {
  lo_shape : 0 <= num_seqs p /\ 0 < num_kv_heads p <= num_heads p /\ 0 < hd /\
    num_heads p mod num_kv_heads p = 0 /\ 0 <= max_blocks_per_seq p;
  lo_int : num_seqs p * num_heads p * hd < 2 ^ 31 /\ num_kv_heads p * 128 * hd < 2 ^ 31 /\
    num_seqs p * max_blocks_per_seq p < 2 ^ 31;
  lo_seqs : num_seqs p <= len (seq_lens p) /\ forall s, 0 <= s < num_seqs p ->
    0 <= seq_len_of s < 2 ^ 31 - 128 /\ num_blocks s <= max_blocks_per_seq p;
  lo_query : forall i, 0 <= i < num_seqs p * num_heads p * hd -> query p i = Some (qf i);
  lo_table : num_seqs p * max_blocks_per_seq p <= len (block_tables p);
  lo_blocks : forall idx e kb, arr_get (block_tables p) idx = Some e -> valid e <> 0 ->
    k_ptr e = Some kb -> exists vb, v_ptr e = Some vb /\
    forall i, 0 <= i < num_kv_heads p * 128 * hd ->
      kb i = Some (kf idx i) /\ vb i = Some (vf idx i);
}.

End spec.

(** ** Lemmas *)

Lemma int_ok x : - (2 ^ 31) <= x < 2 ^ 31 -> int x = Some x.
Proof. intros Hx. unfold int. by rewrite (proj2 (Z.leb_le _ _)), (proj2 (Z.ltb_lt _ _)) by lia. Qed.

(** The indices of a strided loop. *)
Lemma stride_bound n tid w i :
  0 < w -> 0 <= i -> (i < Z.max 0 ((n - tid + w - 1) / w) <-> tid + w * i < n).
Proof.
  intros Hw Hi. pose proof (Z.mul_div_le (n - tid + w - 1) w Hw) as Hle.
  pose proof (Z.mul_succ_div_gt (n - tid + w - 1) w Hw) as Hgt.
  split; intros Hx; nia.
Qed.

Lemma stride_div tid w i : 0 <= tid < w -> (tid + w * i) / w = i.
Proof. intros Ht. rewrite Z.mul_comm, Z.div_add, Z.div_small by lia. lia. Qed.

Lemma stride_mod tid w i : 0 <= tid < w -> (tid + w * i) mod w = tid.
Proof. intros Ht. rewrite Z.mul_comm, Z.mod_add, Z.mod_small by lia. lia. Qed.

(** A strided loop with an invariant. *)
Lemma for_stride_rule {S} (I : Z -> S -> Prop) tid w n (body : Z -> S -> option S) s :
  0 < w -> I 0 s ->
  (forall i s, 0 <= i -> tid + w * i < n -> I i s ->
    exists s', body (tid + w * i) s = Some s' /\ I (i + 1) s') ->
  exists s', for_stride tid w n body s = Some s' /\
    I (Z.max 0 ((n - tid + w - 1) / w)) s'.
Proof.
  intros Hw H0 Hstep. unfold for_stride.
  edestruct (for_range_rule (R := unit) I
    (fun o => exists s', o = inl s' /\ I (Z.max 0 ((n - tid + w - 1) / w)) s'))
    as (o & -> & s' & -> & Hs'); [lia|exact H0| |by eauto|by eauto].
  intros i t Hi Ht. destruct (Hstep i t) as (t' & -> & Ht'); [lia|by apply stride_bound; lia|done|].
  by eauto.
Qed.

(** A map over the lanes. *)
Lemma mapM_ex {A B} (f : A -> option B) (Q : A -> B -> Prop) l :
  (forall x, x ∈ l -> exists y, f x = Some y /\ Q x y) ->
  exists l', mapM f l = Some l' /\ Forall2 Q l l'.
Proof.
  intros Hf. induction l as [|x l IH]; [by exists []|].
  destruct (Hf x) as (y & Hy & HQ); [by left|].
  destruct IH as (l' & Hl' & HF); [intros z Hz; apply Hf; by right|].
  exists (y :: l'). simpl. rewrite Hy. cbn [mbind option_bind]. rewrite Hl'.
  split; [done|by constructor].
Qed.

Lemma mapM_total {A B} (f : A -> option B) (g : A -> B) l :
  (forall x, x ∈ l -> f x = Some (g x)) -> mapM f l = Some (g <$> l).
Proof.
  intros Hf. induction l as [|x l IH]; [done|]. simpl. rewrite Hf by (by left).
  cbn [mbind option_bind]. rewrite IH; [done|]. intros y Hy. apply Hf. by right.
Qed.

Lemma zip_seqZ_lookup {A} (l : list A) n i x :
  zip (seqZ 0 n) l !! i = Some x -> fst x = Z.of_nat i /\ l !! i = Some (snd x).
Proof.
  intros Hx. destruct x as [t y]. apply lookup_zip_Some in Hx as [Ht Hy].
  apply lookup_seqZ in Ht as [-> _]. split; [simpl; lia|done].
Qed.

Section kernel.
Context {F : Type} `{Device F}.

(** The partial dot product. *)
Lemma lane_dot_run w hd (q k : buffer) (qf kf : Z -> Z) qo ko tid :
  0 < w -> 0 <= tid ->
  (forall d, 0 <= d < hd -> q (qo + d) = Some (qf (qo + d)) /\ k (ko + d) = Some (kf (ko + d))) ->
  lane_dot w hd q k qo ko tid =
    Some (foldl (fun dot d => fmadd (of_bf16 (qf (qo + d))) (of_bf16 (kf (ko + d))) dot) fzero
      ((fun i => tid + w * i) <$> seqZ 0 (Z.max 0 ((hd - tid + w - 1) / w)))).
Proof.
  intros Hw Ht Hmem. unfold lane_dot, for_stride.
  rewrite (for_range_fold (R := unit) (fun i dot =>
    fmadd (of_bf16 (qf (qo + (tid + w * i)))) (of_bf16 (kf (ko + (tid + w * i)))) dot)); [|lia|].
  - cbn [mbind option_bind]. rewrite Z.sub_0_r. f_equal.
    generalize (seqZ 0 (Z.max 0 ((hd - tid + w - 1) / w))). intros l.
    generalize (fzero : F). induction l as [|i l IH]; intros x; [done|]. simpl. by rewrite IH.
  - intros i x Hi. assert (tid + w * i < hd) by (apply stride_bound; lia).
    destruct (Hmem (tid + w * i)) as [-> ->]; [nia|]. done.
Qed.

Lemma accumulate_run w hd weight (v : buffer) (vf : Z -> Z) vo tid (a : list F) (af : Z -> F) :
  0 <= tid < w -> len a = 128 / w ->
  (forall d, 0 <= d < hd -> v (vo + d) = Some (vf (vo + d))) ->
  (forall j, 0 <= j < 128 / w -> tid + w * j < hd -> arr_get a j = Some (af j)) ->
  exists a', accumulate w hd weight v vo tid a = Some a' /\ len a' = 128 / w /\
    forall j, 0 <= j < 128 / w -> tid + w * j < hd ->
      arr_get a' j = Some (fmadd weight (of_bf16 (vf (vo + (tid + w * j)))) (af j)).
Proof.
  intros Ht Hlen Hmem Ha. unfold accumulate.
  edestruct (for_stride_rule (fun i a' => len a' = 128 / w /\
    forall j, 0 <= j < 128 / w -> tid + w * j < hd -> arr_get a' j =
      Some (if j <? i then fmadd weight (of_bf16 (vf (vo + (tid + w * j)))) (af j) else af j)))
    as (a' & -> & Hl' & Ha').
  - lia.
  - split; [done|]. intros j Hj Hd. rewrite (proj2 (Z.ltb_ge j 0)) by lia. by apply Ha.
  - intros i b Hi Hd [Hl Hb]. cbv beta. rewrite stride_div by done. unfold HEAD_DIM.
    destruct (Z.ltb_spec i (128 / w)) as [Hlt|Hge].
    + rewrite Hmem by nia. cbn [mbind option_bind]. rewrite Hb by lia.
      rewrite Z.ltb_irrefl. cbn [mbind option_bind]. rewrite arr_set_in by lia.
      eexists. split; [done|]. split; [by rewrite length_insert|]. intros j Hj Hjd.
      destruct (decide (j = i)) as [->|Hne].
      * rewrite arr_get_lookup, list_lookup_insert_eq, (proj2 (Z.ltb_lt i (i + 1))) by lia. done.
      * rewrite arr_get_lookup, list_lookup_insert_ne, <- arr_get_lookup, Hb by lia.
        f_equal. repeat case_cond; done || lia.
    + eexists. split; [done|]. split; [done|]. intros j Hj Hjd. rewrite Hb by done.
      f_equal. repeat case_cond; done || lia.
  - exists a'. split; [done|]. split; [done|]. intros j Hj Hd. rewrite Ha' by done.
    rewrite (proj2 (Z.ltb_lt _ _)); [done|]. apply stride_bound; lia.
Qed.

Lemma write_lane_run w hd inv (oo tid : Z) (a : list F) (af : Z -> F) out :
  0 <= tid < w -> len a = 128 / w -> 0 <= oo -> oo + hd <= len out ->
  (forall j, 0 <= j < 128 / w -> tid + w * j < hd -> arr_get a j = Some (af j)) ->
  exists out', write_lane w hd inv oo tid a out = Some out' /\ length out' = length out /\
    forall i, 0 <= i < len out -> arr_get out' i =
      if (oo <=? i) && (i <? oo + hd) && ((i - oo) mod w =? tid)
      then Some (to_bf16 (if (i - oo) / w <? 128 / w then fmul (af ((i - oo) / w)) inv else fzero))
      else arr_get out i.
Proof.
  intros Ht Hlen Hoo Hout Ha. unfold write_lane.
  set (val := fun j => to_bf16 (if j <? 128 / w then fmul (af j) inv else fzero)).
  edestruct (for_stride_rule (fun i o => length o = length out /\
    forall x, 0 <= x < len out -> arr_get o x =
      if (oo <=? x) && (x <? oo + hd) && ((x - oo) mod w =? tid) && ((x - oo) / w <? i)
      then Some (val ((x - oo) / w)) else arr_get out x)) as (o & -> & Hl & Ho).
  - lia.
  - split; [done|]. intros x Hx. pose proof (Z.div_le_mono 0 (x - oo) w ltac:(lia)).
    rewrite Z.div_0_l in * by lia. repeat case_cond; done || lia.
  - intros i o Hi Hd [Hl Ho]. cbv beta. rewrite stride_div by done. unfold HEAD_DIM.
    assert (Hv : (if i <? 128 / w then x ← arr_get a i; Some (fmul x inv) else Some fzero)
      = Some (if i <? 128 / w then fmul (af i) inv else fzero)).
    { destruct (Z.ltb_spec i (128 / w)); [|done]. by rewrite Ha by lia. }
    rewrite Hv. cbn [mbind option_bind]. fold (val i).
    assert (0 <= w * i) by nia. rewrite arr_set_in by lia.
    eexists. split; [done|]. split; [by rewrite length_insert|]. intros x Hx.
    destruct (decide (x = oo + (tid + w * i))) as [->|Hne].
    + rewrite arr_get_lookup, list_lookup_insert_eq by lia.
      replace (oo + (tid + w * i) - oo) with (tid + w * i) by lia.
      rewrite stride_mod, stride_div by done. repeat case_cond; done || lia.
    + rewrite arr_get_lookup, list_lookup_insert_ne, <- arr_get_lookup, Ho by lia.
      destruct ((x - oo) mod w =? tid) eqn:Hm; rewrite ?andb_true_r, ?andb_false_r; [|done].
      apply Z.eqb_eq in Hm. pose proof (Z.div_mod (x - oo) w ltac:(lia)) as Hdm.
      assert ((x - oo) / w <> i) by (intros Hq; rewrite Hq in Hdm; lia).
      repeat case_cond; done || lia.
  - exists o. split; [done|]. split; [done|]. intros x Hx. rewrite Ho by done.
    destruct (Z.leb_spec oo x); [|done]. destruct (Z.ltb_spec x (oo + hd)); [|done].
    destruct (Z.eqb_spec ((x - oo) mod w) tid) as [Hm|]; [|done]. cbn [andb].
    rewrite (proj2 (Z.ltb_lt _ _)); [done|].
    pose proof (Z.div_mod (x - oo) w ltac:(lia)).
    apply stride_bound; [lia|apply Z.div_pos; lia|lia].
Qed.

(** The lanes hold the running softmax, spread over them. *)
Definition lanes_rel (kn : kernel F) (hd : Z) (ls : list (lane F)) (st : online) : Prop :=
  len ls = lanes kn /\
  forall tid l, arr_get ls tid = Some l ->
    max_score l = om st /\ (tid = 0 -> exp_sum l = oe st) /\ len (acc l) = 128 / width kn /\
    forall j, 0 <= j < 128 / width kn -> tid + width kn * j < hd ->
      arr_get (acc l) j = Some (oa st (tid + width kn * j)).

(** The lanes after the update of lane 0, as far as the accumulation needs. *)
Lemma lane0_update kn hd score ls l0 st :
  1 <= lanes kn <= width kn -> lanes_rel kn hd ls st -> arr_get ls 0 = Some l0 ->
  let m := fmax (om st) score in
  let c := dexp (fsub (om st) m) in
  exists ls1, arr_set ls 0 (online_softmax score l0) = Some ls1 /\ len ls1 = lanes kn /\
    arr_get ls1 0 = Some (online_softmax score l0) /\ max_score (online_softmax score l0) = m /\
    forall tid l, arr_get ls1 tid = Some l ->
      (tid = 0 -> exp_sum l = fmadd (oe st) c (dexp (fsub score m))) /\
      len (acc l) = 128 / width kn /\
      forall j, 0 <= j < 128 / width kn -> tid + width kn * j < hd ->
        arr_get (acc l) j = Some (let d := tid + width kn * j in
          if d mod width kn =? 0 then fmul (oa st d) c else oa st d).
Proof.
  intros Hk [Hlen Hrel] H0 m c. destruct (Hrel 0 l0 H0) as (Hm & He & Hl & Ha).
  rewrite arr_set_in by lia. eexists. split; [done|]. split; [by rewrite length_insert|].
  split; [rewrite arr_get_lookup, list_lookup_insert_eq by lia; done|].
  split; [unfold online_softmax, m; cbn; by rewrite Hm|]. intros tid l Hget.
  pose proof (arr_get_range _ _ _ Hget) as Hr. rewrite length_insert in Hr.
  destruct (decide (tid = 0)) as [->|Hne].
  - rewrite arr_get_lookup, list_lookup_insert_eq in Hget by lia. simplify_eq/=.
    unfold online_softmax. cbn [exp_sum acc]. rewrite Hm, He by done.
    split; [done|]. split; [by rewrite length_fmap|]. intros j Hj Hd.
    rewrite stride_mod by lia. cbn. rewrite arr_get_lookup, list_lookup_fmap by lia.
    rewrite <- arr_get_lookup, Ha by lia. done.
  - rewrite arr_get_lookup, list_lookup_insert_ne, <- arr_get_lookup in Hget by lia.
    destruct (Hrel tid l Hget) as (_ & _ & Hl' & Ha'). split; [done|]. split; [done|].
    intros j Hj Hd. cbn zeta. rewrite stride_mod, (proj2 (Z.eqb_neq tid 0)) by lia. by apply Ha'.
Qed.

Lemma token_step_run kn (p : launch F) qf kf vf (kb vb : buffer) qo ko t ls st :
  1 <= lanes kn <= width kn -> (forall l, length (reduce kn l) = length l) ->
  - (2 ^ 31) <= t * head_dim p < 2 ^ 31 ->
  (forall d, 0 <= d < head_dim p -> query p (qo + d) = Some (qf (qo + d)) /\
     kb (ko + t * head_dim p + d) = Some (kf (ko + t * head_dim p + d)) /\
     vb (ko + t * head_dim p + d) = Some (vf (ko + t * head_dim p + d))) ->
  lanes_rel kn (head_dim p) ls st ->
  exists ls', token_step kn p qo kb vb ko t ls = Some ls' /\
    lanes_rel kn (head_dim p) ls' (online_step kn
      (score_ref kn p (fun d => of_bf16 (qf (qo + d)))
         (fun d => of_bf16 (kf (ko + t * head_dim p + d))))
      (fun d => of_bf16 (vf (ko + t * head_dim p + d))) st).
Proof.
  intros Hk Hred Hint Hmem Hrel. unfold token_step. rewrite int_ok by done. cbn [mbind option_bind].
  set (g := fun tid => foldl (fun dot d => fmadd (of_bf16 (qf (qo + d)))
    (of_bf16 (kf (ko + t * head_dim p + d))) dot) fzero (stride kn p tid)).
  rewrite (mapM_total _ g); cycle 1.
  { intros tid Htid%elem_of_seqZ. apply lane_dot_run; [lia|lia|].
    intros d Hd. by destruct (Hmem d Hd) as (? & ? & _). }
  cbn [mbind option_bind].
  assert (exists x, reduce kn (g <$> tids kn) !! 0%nat = Some x) as [x Hx].
  { apply lookup_lt_is_Some_2. rewrite Hred, length_fmap. unfold tids. rewrite length_seqZ. lia. }
  set (score := score_ref kn p _ _).
  assert (Hscore : arr_get ((fun d => fmul d (scale p)) <$> reduce kn (g <$> tids kn)) 0 = Some score).
  { rewrite arr_get_lookup by lia. rewrite list_lookup_fmap. change (Z.to_nat 0) with 0%nat.
    rewrite Hx. unfold score, score_ref. fold g. by rewrite Hx. }
  rewrite Hscore. cbn [mbind option_bind].
  destruct (proj1 (arr_get_is_Some ls 0)) as [l0 Hl0]; [destruct Hrel; lia|].
  rewrite Hl0. cbn [mbind option_bind].
  destruct (lane0_update kn (head_dim p) score ls l0 st Hk Hrel Hl0)
    as (ls1 & -> & Hlen1 & Hget & Hm & Hls1).
  cbn [mbind option_bind]. rewrite Hget. cbn [mbind option_bind]. rewrite Hm.
  destruct (mapM_ex (fun '(tid, l) =>
    a ← accumulate (width kn) (head_dim p) (dexp (fsub score (fmax (om st) score))) vb
          (ko + t * head_dim p) tid (acc l);
    Some (Lane (fmax (om st) score) (exp_sum l) a))
    (fun x y => max_score y = fmax (om st) score /\ exp_sum y = exp_sum (snd x) /\
      len (acc y) = 128 / width kn /\
      forall j, 0 <= j < 128 / width kn -> fst x + width kn * j < head_dim p ->
        arr_get (acc y) j = Some (oa (online_step kn score
          (fun d => of_bf16 (vf (ko + t * head_dim p + d))) st) (fst x + width kn * j)))
    (zip (tids kn) ls1)) as (ls' & -> & HF).
  - intros [tid l] Hin. apply list_elem_of_lookup in Hin as [i Hi].
    apply zip_seqZ_lookup in Hi as [Htid Hli]. simpl in Htid, Hli. subst tid.
    pose proof (lookup_lt_Some _ _ _ Hli) as Hilt.
    destruct (Hls1 (Z.of_nat i) l) as (_ & Hla & Hacc);
      [rewrite arr_get_lookup, Nat2Z.id by lia; done|].
    destruct (accumulate_run (width kn) (head_dim p) (dexp (fsub score (fmax (om st) score))) vb vf
      (ko + t * head_dim p) (Z.of_nat i) (acc l) _ ltac:(lia) Hla
      ltac:(intros d Hd; by destruct (Hmem d Hd) as (_ & _ & ?)) Hacc) as (a' & Ha' & Hl' & Hget').
    rewrite Ha'. cbn [mbind option_bind]. eexists. split; [done|]. cbn. auto.
  - exists ls'. split; [done|]. pose proof (Forall2_length _ _ _ HF) as HlF.
    rewrite length_zip_with in HlF. unfold tids in HlF. rewrite length_seqZ in HlF.
    split; [lia|]. intros tid y Hy. pose proof (arr_get_range _ _ _ Hy) as Hr.
    rewrite arr_get_lookup in Hy by lia.
    destruct (Forall2_lookup_r _ _ _ _ _ HF Hy) as ([tid' l] & Hzip & Hmy & Hey & Hly & Hay).
    apply zip_seqZ_lookup in Hzip as [Htid Hli]. simpl in Htid, Hli, Hey, Hay.
    rewrite Z2Nat.id in Htid by lia. subst tid'.
    destruct (Hls1 tid l) as (He & _ & _); [rewrite arr_get_lookup by lia; done|].
    split; [done|]. split; [intros H0; rewrite Hey; by apply He|]. split; [done|]. exact Hay.
Qed.

(** The running softmax at the start. *)
Lemma lanes_rel_init kn hd :
  1 <= lanes kn <= width kn ->
  lanes_rel kn hd (replicate (Z.to_nat (lanes kn)) (lane_init (width kn))) online0.
Proof.
  intros Hk. split; [rewrite length_replicate; lia|]. intros tid l Hget.
  pose proof (arr_get_range _ _ _ Hget). rewrite arr_get_lookup in Hget by lia.
  apply lookup_replicate in Hget as [-> _]. cbn.
  assert (0 <= 128 / width kn) by (apply Z.div_pos; lia).
  rewrite length_replicate. split; [done|]. split; [done|]. unfold HEAD_DIM.
  split; [lia|]. intros j Hj Hd. rewrite arr_get_lookup, lookup_replicate_2 by lia. done.
Qed.

End kernel.

Section grid.
Context {F : Type} `{Device F}.
Context (kn : kernel F) (p : launch F) (qf : Z -> Z) (kf vf : Z -> Z -> Z).
Context (Hkn : kernel_ok kn) (Hok : launch_ok p qf kf vf).

Notation group_off s h := ((s * num_heads p + h) * head_dim p).

Lemma kv_head_range h : 0 <= h < num_heads p -> 0 <= kv_head p h < num_kv_heads p.
Proof.
  intros Hh. destruct (lo_shape _ _ _ _ Hok) as (_ & Hkv & _ & Hmod & _). unfold kv_head.
  pose proof (Z.div_mod (num_heads p) (num_kv_heads p) ltac:(lia)) as Hdm.
  assert (0 < num_heads p / num_kv_heads p) by (apply Z.div_str_pos; lia).
  split; [apply Z.div_pos; lia|]. apply Z.div_lt_upper_bound; lia.
Qed.

(** The rows of the query and of the blocks lie in their buffers. *)
Lemma row_range n i d : 0 <= i < n -> 0 <= d < head_dim p -> 0 <= i * head_dim p + d < n * head_dim p.
Proof. nia. Qed.

Lemma group_range s h :
  0 <= s < num_seqs p -> 0 <= h < num_heads p ->
  0 <= s * num_heads p + h < num_seqs p * num_heads p.
Proof. nia. Qed.

Lemma block_row_range h t :
  0 <= h < num_heads p -> 0 <= t < 128 -> 0 <= kv_head p h * 128 + t < num_kv_heads p * 128.
Proof. intros Hh Ht. pose proof (kv_head_range h Hh). lia. Qed.

Lemma block_step_run s h b ls st :
  0 <= s < num_seqs p -> 0 <= h < num_heads p -> 0 <= b < num_blocks p s ->
  lanes_rel kn (head_dim p) ls st ->
  exists ls', block_step kn p (group_off s h) s (kv_head p h) (seq_len_of p s) b ls = Some ls' /\
    lanes_rel kn (head_dim p) ls' (foldl (token_ref kn p qf kf vf s h) st (block_tokens p s b)).
Proof.
  intros Hs Hh Hb Hrel. destruct Hkn as [Hk Hred]. destruct Hok as [Hshape Hint [_ Hseqs] Hq Htab Hblk].
  destruct Hshape as (Hns & Hkv & Hhd & _ & Hmb). destruct Hint as (Hi1 & Hi2 & Hi3).
  destruct (Hseqs s Hs) as [Hsl Hnb]. pose proof (kv_head_range h Hh) as Hkh.
  assert (Hidx : 0 <= s * max_blocks_per_seq p + b < num_seqs p * max_blocks_per_seq p) by nia.
  assert (Hrow : 0 <= s * max_blocks_per_seq p) by nia.
  unfold block_step. rewrite (int_ok (s * max_blocks_per_seq p)) by lia. cbn [mbind option_bind].
  rewrite (int_ok (s * max_blocks_per_seq p + b)) by lia. cbn [mbind option_bind].
  destruct (proj1 (arr_get_is_Some (block_tables p) (s * max_blocks_per_seq p + b)))
    as [e He]; [lia|].
  rewrite He. cbn [mbind option_bind]. unfold block_tokens. rewrite He. unfold usable.
  destruct (k_ptr e) as [kb|] eqn:Hkb; [|by exists ls].
  destruct (Z.eqb_spec (valid e) 0) as [|Hv]; [by exists ls|]. cbn [negb].
  destruct (Hblk _ _ _ He Hv Hkb) as (vb & -> & Hmem).
  assert (Hb' : b * 128 < seq_len_of p s) by (unfold num_blocks in Hb; dlia).
  assert (Hko : kv_head p h * 128 <= kv_head p h * 128 * head_dim p < 2 ^ 31) by nia.
  unfold BLOCK_SIZE. rewrite (int_ok (kv_head p h * 128)) by lia. cbn [mbind option_bind].
  rewrite (int_ok (kv_head p h * 128 * head_dim p)) by lia. cbn [mbind option_bind].
  rewrite (int_ok (b * 128)) by lia. cbn [mbind option_bind].
  rewrite (int_ok (seq_len_of p s - b * 128)) by lia. cbn [mbind option_bind].
  set (n := Z.min 128 (seq_len_of p s - b * 128)).
  edestruct (for_range_rule (R := unit) (fun t ls => lanes_rel kn (head_dim p) ls
      (foldl (token_ref kn p qf kf vf s h) st ((fun t => (b, t)) <$> seqZ 0 t)))
    (fun o => exists ls', o = inl ls' /\ lanes_rel kn (head_dim p) ls'
      (foldl (token_ref kn p qf kf vf s h) st ((fun t => (b, t)) <$> seqZ 0 n))))
    as (o & -> & ls' & -> & Hls'); [lia|exact Hrel| |by eauto|by exists ls'].
  intros t l Ht Hl.
  edestruct (token_step_run kn p qf (kf (s * max_blocks_per_seq p + b))
    (vf (s * max_blocks_per_seq p + b)) kb vb (group_off s h) (kv_head p h * 128 * head_dim p) t)
    as (l' & -> & Hl'); [done|done| | |exact Hl|].
  - pose proof (block_row_range h t Hh ltac:(lia)). nia.
  - intros d Hd. pose proof (row_range _ _ d (group_range s h Hs Hh) Hd).
    pose proof (row_range _ _ d (block_row_range h t Hh ltac:(lia)) Hd) as Hr.
    split; [apply Hq; lia|]. rewrite <- Z.mul_add_distr_r. split; apply Hmem; lia.
  - cbn [mbind option_bind]. eexists. split; [done|]. cbv beta iota.
    rewrite seqZ_app, fmap_app, foldl_app by lia. exact Hl'.
Qed.

(** The state after all blocks of the sequence. *)
Lemma blocks_run s h :
  0 <= s < num_seqs p -> 0 <= h < num_heads p ->
  exists ls, for_range (R := unit) 0 (num_blocks p s) (fun block_idx ls =>
      ls' ← block_step kn p (group_off s h) s (kv_head p h) (seq_len_of p s) block_idx ls;
      Some (Continue ls'))
      (replicate (Z.to_nat (lanes kn)) (lane_init (width kn))) = Some (inl ls) /\
    lanes_rel kn (head_dim p) ls (online_ref kn p qf kf vf s h (num_blocks p s)).
Proof.
  intros Hs Hh. destruct Hkn as [Hk _].
  destruct (lo_seqs _ _ _ _ Hok) as [_ Hseqs]. destruct (Hseqs s Hs) as [Hsl _].
  edestruct (for_range_rule (R := unit) (fun b ls => lanes_rel kn (head_dim p) ls
      (online_ref kn p qf kf vf s h b))
    (fun o => exists ls', o = inl ls' /\ lanes_rel kn (head_dim p) ls'
      (online_ref kn p qf kf vf s h (num_blocks p s))))
    as (o & -> & ls' & -> & Hls'); [unfold num_blocks; dlia|by apply lanes_rel_init| |by eauto|by eauto].
  intros b l Hb Hl. destruct (block_step_run s h b l _ Hs Hh Hb Hl) as (l' & -> & Hl').
  cbn [mbind option_bind]. eexists. split; [done|]. cbv beta iota. unfold online_ref in *.
  rewrite seqZ_app, bind_app, foldl_app by lia.
  assert (Hone : seqZ (0 + b) 1 ≫= block_tokens p s = block_tokens p s b)
    by (rewrite seqZ_cons by lia; cbn; by rewrite app_nil_r).
  by rewrite Hone.
Qed.

(** The element [i] of the output after the group of [s] and [h]. *)
Definition group_out (s h : Z) (out : list Z) (i : Z) : option Z :=
  let d := i - group_off s h in
  if (0 <=? d) && (d <? head_dim p) && (d mod width kn <? lanes kn)
  then Some (value_ref kn p qf kf vf s h d) else arr_get out i.

Lemma write_lanes_run s h ls out :
  let st := online_ref kn p qf kf vf s h (num_blocks p s) in
  let inv := if fgt0 (oe st) then fdiv fone (oe st) else fzero in
  lanes_rel kn (head_dim p) ls st -> 0 <= group_off s h -> group_off s h + head_dim p <= len out ->
  exists out', for_range (R := unit) 0 (lanes kn) (fun tid out =>
      l ← arr_get ls tid;
      out' ← write_lane (width kn) (head_dim p) inv (group_off s h) tid (acc l) out;
      Some (Continue out')) out = Some (inl out') /\ length out' = length out /\
    forall i, 0 <= i < len out -> arr_get out' i = group_out s h out i.
Proof.
  intros st inv [Hlen Hrel] Hgo Hout. destruct Hkn as [Hk _].
  edestruct (for_range_rule (R := unit) (fun tid o => length o = length out /\
      forall i, 0 <= i < len out -> arr_get o i =
        let d := i - group_off s h in
        if (0 <=? d) && (d <? head_dim p) && (d mod width kn <? tid)
        then Some (value_ref kn p qf kf vf s h d) else arr_get out i)
    (fun o => exists o', o = inl o' /\ length o' = length out /\
      forall i, 0 <= i < len out -> arr_get o' i = group_out s h out i))
    as (o & -> & o' & -> & Ho'); [lia| | |by eauto|by eauto].
  - split; [done|]. intros i Hi. cbn zeta.
    pose proof (Z.mod_pos_bound (i - group_off s h) (width kn) ltac:(lia)).
    rewrite (proj2 (Z.ltb_ge (_ mod _) 0)) by lia. by rewrite andb_false_r.
  - intros tid o Ht [Hl Ho]. destruct (proj1 (arr_get_is_Some ls tid)) as [l Hget]; [lia|].
    destruct (Hrel tid l Hget) as (_ & _ & Hla & Hacc). rewrite Hget. cbn [mbind option_bind].
    destruct (write_lane_run (width kn) (head_dim p) inv (group_off s h) tid (acc l)
      (fun j => oa st (tid + width kn * j)) o) as (o' & -> & Hl' & Ho'); [lia|done|lia|lia|done|].
    cbn [mbind option_bind]. eexists. split; [done|]. cbv beta iota.
    split; [lia|]. intros i Hi. rewrite Ho', Ho by lia. cbn zeta.
    pose proof (Z.div_mod (i - group_off s h) (width kn) ltac:(lia)) as Hdm.
    replace (group_off s h <=? i) with (0 <=? i - group_off s h) by (repeat case_cond; done || lia).
    replace (i <? group_off s h + head_dim p) with (i - group_off s h <? head_dim p)
      by (repeat case_cond; done || lia).
    destruct (Z.eqb_spec ((i - group_off s h) mod width kn) tid) as [Hm|Hm].
    + rewrite andb_true_r, (proj2 (Z.ltb_lt _ (tid + 1))), andb_true_r by lia.
      destruct (_ && _); [|by rewrite andb_false_l].
      unfold value_ref. fold st. fold inv.
      by replace (tid + width kn * ((i - group_off s h) / width kn)) with (i - group_off s h) by lia.
    + rewrite andb_false_r.
      replace ((i - group_off s h) mod width kn <? tid + 1) with
        ((i - group_off s h) mod width kn <? tid); [done|].
      repeat case_cond; done || lia.
Qed.

Lemma group_run s h out :
  0 <= s < num_seqs p -> 0 <= h < num_heads p ->
  num_seqs p * num_heads p * head_dim p <= len out ->
  exists out', paged_attention_kernel kn p s h out = Some out' /\ length out' = length out /\
    forall i, 0 <= i < len out -> arr_get out' i = group_out s h out i.
Proof.
  intros Hs Hh Hout. pose proof (group_range s h Hs Hh) as Hg.
  destruct Hkn as [Hk _].
  destruct (lo_shape _ _ _ _ Hok) as (Hns & Hkv & Hhd & _ & _).
  destruct (lo_int _ _ _ _ Hok) as (Hi1 & _ & _).
  destruct (lo_seqs _ _ _ _ Hok) as [Hlens Hseqs]. destruct (Hseqs s Hs) as [Hsl _].
  unfold paged_attention_kernel. rewrite (proj2 (Z.leb_gt (num_seqs p) s)) by lia.
  rewrite arr_get_total by lia. cbn [mbind option_bind]. fold (seq_len_of p s).
  unfold BLOCK_SIZE. rewrite (int_ok (seq_len_of p s + 128)) by lia. cbn [mbind option_bind].
  assert (0 < num_heads p / num_kv_heads p) by (apply Z.div_str_pos; lia).
  unfold int_div. rewrite (proj2 (Z.eqb_neq (num_kv_heads p) 0)) by lia. cbn [mbind option_bind].
  rewrite (Z.quot_div_nonneg (num_heads p)) by lia.
  rewrite (proj2 (Z.eqb_neq (num_heads p / num_kv_heads p) 0)) by lia. cbn [mbind option_bind].
  rewrite (Z.quot_div_nonneg h) by lia. fold (kv_head p h).
  assert (0 <= s * num_heads p) by nia.
  assert (0 <= group_off s h /\ group_off s h + head_dim p <= num_seqs p * num_heads p * head_dim p)
    as [Hgo0 Hgo1] by (revert Hg Hhd; generalize (s * num_heads p + h), (num_seqs p * num_heads p); nia).
  assert (s * num_heads p + h <= group_off s h)
    by (revert Hg Hhd; generalize (s * num_heads p + h), (num_seqs p * num_heads p); nia).
  rewrite (int_ok (s * num_heads p)) by lia. cbn [mbind option_bind].
  rewrite (int_ok (s * num_heads p + h)) by lia. cbn [mbind option_bind].
  rewrite (int_ok (group_off s h)) by lia. cbn [mbind option_bind].
  rewrite Z.quot_div_nonneg by lia.
  replace (seq_len_of p s + 128 - 1) with (seq_len_of p s + 127) by lia.
  fold (num_blocks p s). destruct (blocks_run s h Hs Hh) as (ls & -> & Hrel).
  cbn [mbind option_bind]. pose proof Hrel as [Hlen Hr].
  destruct (proj1 (arr_get_is_Some ls 0)) as [l0 Hl0]; [lia|].
  rewrite Hl0. cbn [mbind option_bind]. destruct (Hr 0 l0 Hl0) as (_ & -> & _); [|done].
  destruct (write_lanes_run s h ls out Hrel Hgo0 ltac:(lia)) as (out' & -> & Hl' & Ho').
  by exists out'.
Qed.

(** The element [i] of the output of a launch. *)
Definition grid_out (n : Z) (out : list Z) (i : Z) : option Z :=
  let g := i / head_dim p in
  if g <? n then group_out (g / num_heads p) (g mod num_heads p) out i else arr_get out i.

Lemma group_of s h i :
  0 < head_dim p -> 0 < num_heads p -> 0 <= h < num_heads p ->
  (i / head_dim p = s * num_heads p + h <-> 0 <= i - group_off s h < head_dim p).
Proof.
  intros Hhd Hnh Hh. split.
  - intros Hg. pose proof (Z.div_mod i (head_dim p) ltac:(lia)).
    pose proof (Z.mod_pos_bound i (head_dim p) Hhd). rewrite Hg in *. lia.
  - intros Hd. symmetry. apply (Z.div_unique _ _ _ (i - group_off s h)); lia.
Qed.

Lemma grid_step s h out o o' :
  0 <= s -> 0 <= h < num_heads p -> 0 < head_dim p ->
  (forall i, 0 <= i < len out -> arr_get o i = grid_out (s * num_heads p + h) out i) ->
  (forall i, 0 <= i < len out -> arr_get o' i = group_out s h o i) ->
  forall i, 0 <= i < len out -> arr_get o' i = grid_out (s * num_heads p + h + 1) out i.
Proof.
  intros Hs Hh Hhd Ho Ho' i Hi. rewrite Ho' by done. pose proof (group_of s h i Hhd ltac:(lia) Hh) as Hg.
  unfold grid_out. cbn zeta.
  destruct (Z.eq_dec (i / head_dim p) (s * num_heads p + h)) as [He|Hne].
  - rewrite He, (proj2 (Z.ltb_lt _ _)) by lia.
    rewrite Z.div_add_l, Z.div_small, Z.add_0_r by lia.
    rewrite (Z.add_comm (s * _)), Z.mod_add, Z.mod_small by lia.
    unfold group_out. cbn zeta. rewrite Ho by done. unfold grid_out. cbn zeta.
    rewrite He, Z.ltb_irrefl. done.
  - assert (Hout : ~ (0 <= i - group_off s h < head_dim p)) by tauto.
    unfold group_out at 1. cbn zeta.
    replace ((0 <=? i - group_off s h) && (i - group_off s h <? head_dim p)) with false
      by (repeat case_cond; done || lia).
    cbn [andb]. rewrite Ho by done. unfold grid_out. cbn zeta.
    replace (i / head_dim p <? s * num_heads p + h + 1) with (i / head_dim p <? s * num_heads p + h)
      by (repeat case_cond; done || lia).
    done.
Qed.

Lemma grid_run out :
  num_seqs p * num_heads p * head_dim p <= len out ->
  exists out', run_grid (paged_attention_kernel kn) p out = Some out' /\ length out' = length out /\
    forall i, 0 <= i < len out -> arr_get out' i = grid_out (num_seqs p * num_heads p) out i.
Proof.
  intros Hout. destruct (lo_shape _ _ _ _ Hok) as (Hns & Hkv & Hhd & _ & _).
  pose (I := fun n o => length o = length out /\
    forall i, 0 <= i < len out -> arr_get o i = grid_out n out i).
  unfold run_grid.
  edestruct (for_range_rule (R := unit) (fun s o => I (s * num_heads p) o)
    (fun o => exists o', o = inl o' /\ I (num_seqs p * num_heads p) o'))
    as (o & -> & o' & -> & Ho'); [lia| | |by eauto|by eauto].
  - split; [done|]. intros i Hi. unfold grid_out. cbn zeta.
    rewrite (proj2 (Z.ltb_ge _ _)); [done|]. apply Z.div_pos; lia.
  - intros s o Hs Ho.
    edestruct (for_range_rule (R := unit) (fun h o => I (s * num_heads p + h) o)
      (fun o => exists o', o = inl o' /\ I ((s + 1) * num_heads p) o'))
      as (x & -> & o' & -> & Ho'); [lia|by rewrite Z.add_0_r| | |].
    + intros h o1 Hh [Hl1 Ho1].
      destruct (group_run s h o1 Hs ltac:(lia)) as (o2 & -> & Hl2 & Ho2); [lia|].
      cbn [mbind option_bind]. eexists. split; [done|]. cbv beta iota. split; [lia|].
      rewrite Z.add_assoc. rewrite Hl1 in Ho2. by apply (grid_step s h out o1); [lia|lia|lia|..].
    + intros o1 Ho1. exists o1. split; [done|]. by replace ((s + 1) * num_heads p)
        with (s * num_heads p + num_heads p) by lia.
    + cbn [mbind option_bind]. by eexists.
Qed.

End grid.

(** ** Main theorems *)

(** What a launch leaves in the output: the lanes' elements of every group, and
    the old contents elsewhere. *)
Definition written {F} `{Device F} (kn : kernel F) (p : launch F) (qf : Z -> Z) (kf vf : Z -> Z -> Z)
    (out out' : list Z) : Prop :=
  length out' = length out /\
  (forall s h d, 0 <= s < num_seqs p -> 0 <= h < num_heads p -> 0 <= d < head_dim p ->
    let i := (s * num_heads p + h) * head_dim p + d in
    arr_get out' i = if d mod width kn <? lanes kn then Some (value_ref kn p qf kf vf s h d)
                     else arr_get out i) /\
  (forall i, num_seqs p * num_heads p * head_dim p <= i < len out ->
    arr_get out' i = arr_get out i).

Lemma launch_kernel_run {F} `{Device F} kn (p : launch F) qf kf vf out :
  kernel_ok kn -> launch_ok p qf kf vf -> num_seqs p * num_heads p * head_dim p <= len out ->
  exists out', launch_kernel (paged_attention_kernel kn) true p out = Some (0, out') /\
    written kn p qf kf vf out out'.
Proof.
  intros Hkn Hok Hout. destruct (grid_run kn p qf kf vf Hkn Hok out Hout) as (out' & Hrun & Hl & Ho).
  destruct (lo_shape _ _ _ _ Hok) as (Hns & Hkv & Hhd & _ & _).
  exists out'. unfold launch_kernel. rewrite Hrun. split; [done|]. split; [done|]. split.
  - intros s h d Hs Hh Hd. cbn zeta.
    pose proof (group_range p s h Hs Hh) as Hg. pose proof (row_range p _ _ d Hg Hd) as Hr.
    rewrite Ho by lia. unfold grid_out. cbn zeta.
    rewrite (proj2 (group_of p s h _ Hhd ltac:(lia) Hh)) by lia.
    rewrite (proj2 (Z.ltb_lt _ _)) by lia.
    rewrite Z.div_add_l, Z.div_small, Z.add_0_r by lia.
    rewrite (Z.add_comm (s * _)), Z.mod_add, Z.mod_small by lia.
    unfold group_out. cbn zeta. rewrite (Z.add_comm h).
    replace ((s * num_heads p + h) * head_dim p + d - (s * num_heads p + h) * head_dim p) with d by lia.
    rewrite (proj2 (Z.leb_le 0 d)), (proj2 (Z.ltb_lt d _)) by lia. done.
  - intros i Hi. assert (0 <= num_seqs p * num_heads p * head_dim p)
      by (repeat apply Z.mul_nonneg_nonneg; lia).
    rewrite Ho by lia. unfold grid_out. cbn zeta.
    rewrite (proj2 (Z.ltb_ge _ _)); [done|]. apply Z.div_le_lower_bound; lia.
Qed.

Lemma shfl_reduce_length {F} `{Device F} k (l : list F) : length (shfl_reduce k l) = length l.
Proof.
  revert l. induction k as [|k IH]; intros l; simpl; [by apply length_imap|].
  rewrite IH. by apply length_imap.
Qed.

(** C6. The launches.  For every shape whose buffers are large enough, the three
    launches are defined and change nothing outside of the output vectors.  The
    CUDA and the HIP launch write every element; the SYCL launch, whose groups
    have a single work item, writes only the elements whose index is a multiple
    of 16.  An element is the online softmax of its group over the valid blocks
    of its sequence, in which only the elements of lane 0 are rescaled when the
    maximum grows. *)
Theorem paged_attention_ok {F} `{Device F} (p : launch F) qf kf vf out :
  launch_ok p qf kf vf -> num_seqs p * num_heads p * head_dim p <= len out ->
  (exists out', kllm_gpu_paged_attention_cuda true p out = Some (0, out') /\
     written cuda_kernel p qf kf vf out out') /\
  (exists out', kllm_gpu_paged_attention_hip true p out = Some (0, out') /\
     written hip_kernel p qf kf vf out out') /\
  (exists out', kllm_gpu_paged_attention_xe true p out = Some (0, out') /\
     written xe_kernel p qf kf vf out out').
Proof.
  intros Hok Hout. split_and!; (apply launch_kernel_run; [split; [simpl; lia|]; intros l|exact Hok|exact Hout]).
  - apply shfl_reduce_length.
  - apply shfl_reduce_length.
  - by apply length_replicate.
Qed.

(** ** Witness *)

(** A device that computes with integers. *)
#[local] Instance demo_device : Device Z := {
  fzero := 0; fone := 1; neg_large := - (10 ^ 20); fmadd a b c := a * b + c; fmul := Z.mul;
  fsub := Z.sub; fadd := Z.add; fdiv := Z.div; fmax := Z.max; fgt0 x := 0 <? x;
  dexp x := if x <? 0 then 0 else 1; of_bf16 x := x; to_bf16 x := u16 x;
  reduce_over_group := foldr Z.add 0;
}.

(** One sequence of two tokens, one head of 4 elements. *)
Definition demo_launch {F} (one : F) : launch F :=
  Launch (fun i => if (0 <=? i) && (i <? 4) then Some 1 else None)
    [BlockTableEntry (Some (fun i => if (0 <=? i) && (i <? 512) then Some (i / 4) else None))
       (Some (fun i => if (0 <=? i) && (i <? 512) then Some 3 else None)) 1]
    [2] 1 1 1 4 1 one.

Lemma demo_launch_ok {F} (one : F) :
  launch_ok (demo_launch one) (fun _ => 1) (fun _ i => i / 4) (fun _ _ => 3).
Proof.
  split; cbn [demo_launch num_seqs num_heads num_kv_heads head_dim max_blocks_per_seq seq_lens
    block_tables query].
  - repeat split; vm_compute; congruence.
  - repeat split; vm_compute; congruence.
  - split; [done|]. intros s Hs. assert (s = 0) as -> by lia. split; vm_compute; [split|]; congruence.
  - intros i Hi. by rewrite (proj2 (Z.leb_le 0 i)), (proj2 (Z.ltb_lt i 4)) by lia.
  - done.
  - intros idx e kb He _ Hkb. apply arr_get_range in He as Hr. cbn in Hr.
    assert (idx = 0) as -> by lia. cbn in He. simplify_eq/=. eexists. split; [done|].
    intros i Hi. cbv beta. rewrite (proj2 (Z.leb_le 0 i)), (proj2 (Z.ltb_lt i 512)) by lia.
    split; reflexivity.
Qed.

Lemma paged_attention_ok_witness :
  exists out', kllm_gpu_paged_attention_xe true (demo_launch 1) [9; 9; 9; 9] = Some (0, out') /\
    arr_get out' 1 = Some 9.
Proof.
  destruct (paged_attention_ok (demo_launch 1) _ _ _ [9; 9; 9; 9] (demo_launch_ok 1))
    as (_ & _ & out' & Hrun & _ & Hw & _).
  - vm_compute. congruence.
  - exists out'. split; [exact Hrun|].
    exact (Hw 0 0 1 (conj (Z.le_refl 0) Z.lt_0_1) (conj (Z.le_refl 0) Z.lt_0_1)
      (conj Z.le_0_1 eq_refl)).
Defined.
