(* ===== verification/OnlineSoftmax.v ===== *)
(** * The online softmax over the real numbers

    The paged-attention kernels ([PagedAttention]) on a device with exact
    arithmetic: the real numbers.  The conversions from and to the bit formats
    are arbitrary.

    The file proves that the shuffles of the CUDA and the HIP kernel leave the
    dot product of query and key in lane 0; that the recurrence with the
    rescaling step, which is what lane 0 of a group computes, is exactly the
    softmax average of these scores, for every number of tokens and every order
    of the scores; and that without that step, which is what all other lanes
    compute, it is not when a second token raises the maximum. *)

From Stdlib Require Import ZArith Reals Lra Lia.
From stdpp Require Import base list.
From S2P Require Import Prelude PagedAttention.

#[local] Open Scope R_scope.

(** The real numbers as a device, with any conversions and any reduction over a
    sub-group, which the CUDA and the HIP kernel do not use. *)
Definition real_device (floor : R) (of_bits : Z -> R) (to_bits : R -> Z) (red : list R -> R)
    : Device R := {|
  fzero := 0; fone := 1; neg_large := floor; fmadd a b c := a * b + c; fmul := Rmult;
  fsub := Rminus; fadd := Rplus; fdiv := Rdiv; fmax := Rmax;
  fgt0 x := if Rlt_dec 0 x then true else false; dexp := exp; of_bf16 := of_bits;
  to_bf16 := to_bits; reduce_over_group := red;
|}.

Section softmax.
Context (floor : R) (of_bits : Z -> R) (to_bits : R -> Z) (red : list R -> R).
#[local] Instance device : Device R := real_device floor of_bits to_bits red.
Context (kn : kernel R).

(** A token: its score and its value vector. *)
Definition run_tokens (tokens : list (R * (Z -> R))) : online :=
  foldl (fun st tok => online_step kn (fst tok) (snd tok) st) online0 tokens.

(** What a kernel writes for element [d], before the conversion. *)
Definition normalized (st : online) (d : Z) : R :=
  oa st d * (if fgt0 (oe st) then fdiv fone (oe st) else fzero).

Definition sumR (f : R * (Z -> R) -> R) (tokens : list (R * (Z -> R))) : R :=
  foldr (fun tok a => f tok + a) 0 tokens.

(** The average of the values, weighted with the exponentials of the scores. *)
Definition softmax_average (tokens : list (R * (Z -> R))) (d : Z) : R :=
  sumR (fun tok => exp (fst tok) * snd tok d) tokens / sumR (fun tok => exp (fst tok)) tokens.

Lemma sumR_nil f : sumR f [] = 0.
Proof. reflexivity. Qed.

Lemma sumR_cons f x l : sumR f (x :: l) = f x + sumR f l.
Proof. reflexivity. Qed.

Lemma sumR_app f l k : sumR f (l ++ k) = sumR f l + sumR f k.
Proof.
  induction l as [|x l IH]; [rewrite sumR_nil; simpl app; lra|].
  rewrite <- app_comm_cons, !sumR_cons, IH. lra.
Qed.

(** The invariant of the recurrence: both sums are scaled by [exp (- om)]. *)
Lemma online_invariant tokens d :
  let st := run_tokens tokens in
  oe st * exp (om st) = sumR (fun tok => exp (fst tok)) tokens /\
  ((d mod width kn =? 0)%Z = true ->
   oa st d * exp (om st) = sumR (fun tok => exp (fst tok) * snd tok d) tokens).
Proof.
  induction tokens as [|tok tokens IH] using rev_ind; cbn zeta.
  { rewrite !sumR_nil. split; [|intros _]; apply Rmult_0_l. }
  unfold run_tokens in *. rewrite foldl_app. cbn [foldl].
  set (st := foldl _ online0 tokens) in *. destruct IH as [He Ha].
  rewrite !sumR_app, !sumR_cons, !sumR_nil, <- He. unfold online_step. cbn [om oe oa].
  change (@fmax R device) with Rmax. set (m := Rmax (om st) (fst tok)).
  change (@fmadd R device) with (fun a b c => a * b + c).
  change (@dexp R device) with exp. change (@fsub R device) with Rminus.
  change (@fmul R device) with Rmult. cbv beta.
  assert (Hm : forall x, exp (x - m) * exp m = exp x).
  { intros x. rewrite <- exp_plus. f_equal. lra. }
  split.
  - rewrite Rmult_plus_distr_r, Rmult_assoc, !Hm. lra.
  - intros Hd. rewrite Hd, <- (Ha Hd).
    replace ((exp (fst tok - m) * snd tok d + oa st d * exp (om st - m)) * exp m) with
      (snd tok d * (exp (fst tok - m) * exp m) + oa st d * (exp (om st - m) * exp m)) by lra.
    rewrite !Hm. lra.
Qed.

Lemma sum_exp_pos tokens : tokens <> [] -> 0 < sumR (fun tok => exp (fst tok)) tokens.
Proof.
  intros Hne. destruct tokens as [|tok l]; [done|]. rewrite sumR_cons. pose proof (exp_pos (fst tok)).
  assert (0 <= sumR (fun tok => exp (fst tok)) l); [|lra].
  clear. induction l as [|x l IH]; [rewrite sumR_nil; lra|]. rewrite sumR_cons.
  pose proof (exp_pos (fst x)). lra.
Qed.

Lemma normalized_pos st d : 0 < oe st -> normalized st d = oa st d / oe st.
Proof.
  intros He. unfold normalized. cbn. destruct (Rlt_dec 0 (oe st)); [|done]. lra.
Qed.

Lemma oe_pos tokens : tokens <> [] -> 0 < oe (run_tokens tokens).
Proof.
  intros Hne. destruct (online_invariant tokens 0) as [He _].
  pose proof (sum_exp_pos tokens Hne) as Hp. rewrite <- He in Hp.
  pose proof (exp_pos (om (run_tokens tokens))).
  destruct (Rlt_dec 0 (oe (run_tokens tokens))); [done|]. nra.
Qed.

Lemma lane0_average tokens d :
  tokens <> [] -> (d mod width kn = 0)%Z ->
  normalized (run_tokens tokens) d = softmax_average tokens d.
Proof.
  intros Hne Hd. destruct (online_invariant tokens d) as [He Ha].
  pose proof (oe_pos tokens Hne) as Hpos.
  rewrite normalized_pos by done. unfold softmax_average.
  rewrite <- He, <- Ha by (by apply Z.eqb_eq).
  set (st := run_tokens tokens) in *. pose proof (exp_pos (om st)).
  field. split; lra.
Qed.

(** Two tokens of which the second has the larger score, outside of lane 0. *)
Lemma other_lane_value s1 s2 v1 v2 d :
  floor <= s1 -> s1 < s2 -> (d mod width kn <> 0)%Z ->
  normalized (run_tokens [(s1, v1); (s2, v2)]) d = (v1 d + v2 d) / (1 + exp (s1 - s2)).
Proof.
  intros Hf Hs Hd. rewrite normalized_pos by by apply oe_pos.
  unfold run_tokens. cbn [foldl fst snd]. unfold online_step, online0. cbn [om oe oa].
  cbn [fmax fmadd dexp fsub fmul fzero neg_large real_device device].
  rewrite (Rmax_right floor s1), (Rmax_right s1 s2) by lra.
  apply Z.eqb_neq in Hd. rewrite Hd. rewrite !Rminus_diag, exp_0.
  pose proof (exp_pos (s1 - s2)). field. lra.
Qed.

End softmax.

Lemma other_lane_not_average s1 s2 v1 v2 d :
  s1 < s2 -> v1 d <> 0 ->
  (v1 d + v2 d) / (1 + exp (s1 - s2)) <> softmax_average [(s1, v1); (s2, v2)] d.
Proof.
  intros Hs Hv. unfold softmax_average. rewrite !sumR_cons, !sumR_nil. cbn [fst snd].
  pose proof (exp_pos (s1 - s2)) as Hr0. pose proof (exp_pos s2) as Hb.
  assert (Hr1 : exp (s1 - s2) < 1) by (rewrite <- exp_0; apply exp_increasing; lra).
  assert (Ha : exp s1 = exp (s1 - s2) * exp s2) by (rewrite <- exp_plus; f_equal; lra).
  rewrite Ha. set (r := exp (s1 - s2)) in *. intros Heq.
  assert (Hq : (v1 d + v2 d) / (1 + r) * (1 + r) = v1 d + v2 d) by (field; lra).
  rewrite Heq in Hq.
  assert (Hq' : (r * exp s2 * v1 d + (exp s2 * v2 d + 0)) / (r * exp s2 + (exp s2 + 0)) * (1 + r) =
    r * v1 d + v2 d) by (field; nra).
  rewrite Hq' in Hq. apply Hv. nra.
Qed.

(** ** The dot product *)

Definition sum_over (f : Z -> R) (l : list Z) : R := foldr (fun d a => f d + a) 0 l.

(** The dot product of two vectors of [n] elements. *)
Definition dot_product (n : Z) (q k : Z -> R) : R := sum_over (fun d => q d * k d) (seqZ 0 n).

Definition sum_list (l : list R) : R := foldr Rplus 0 l.

Lemma sum_list_cons x l : sum_list (x :: l) = x + sum_list l.
Proof. reflexivity. Qed.

Lemma sum_over_cons f x l : sum_over f (x :: l) = f x + sum_over f l.
Proof. reflexivity. Qed.

Lemma sum_list_app l k : sum_list (l ++ k) = sum_list l + sum_list k.
Proof.
  induction l as [|x l IH]; [change (sum_list k = 0 + sum_list k); lra|].
  rewrite <- app_comm_cons, !sum_list_cons, IH. lra.
Qed.

Lemma sum_over_app f l k : sum_over f (l ++ k) = sum_over f l + sum_over f k.
Proof.
  induction l as [|x l IH]; [change (sum_over f k = 0 + sum_over f k); lra|].
  rewrite <- app_comm_cons, !sum_over_cons, IH. lra.
Qed.

Lemma sum_over_perm f l k : l ≡ₚ k -> sum_over f l = sum_over f k.
Proof.
  induction 1 as [| | |l1 l2 l3 _ IH1 _ IH2]; rewrite ?sum_over_cons; [done|congruence|lra|congruence].
Qed.

Lemma sum_over_bind f (g : Z -> list Z) l :
  sum_list ((fun x => sum_over f (g x)) <$> l) = sum_over f (l ≫= g).
Proof.
  induction l as [|x l IH]; [done|]. rewrite fmap_cons, bind_cons, sum_list_cons, sum_over_app, IH. done.
Qed.

Lemma sum_list_zip l k :
  length l = length k -> sum_list (zip_with Rplus l k) = sum_list l + sum_list k.
Proof.
  revert k. induction l as [|x l IH]; intros [|y k] Hl; try discriminate Hl.
  - change (0 = 0 + 0). lra.
  - cbn [zip_with]. rewrite !sum_list_cons, IH by (by injection Hl). lra.
Qed.

Section dots.
Context (floor : R) (of_bits : Z -> R) (to_bits : R -> Z) (red : list R -> R).
#[local] Instance device' : Device R := real_device floor of_bits to_bits red.

Lemma shfl_down_take (l : list R) n :
  (n + n <= length l)%nat ->
  take n (shfl_down l n) = zip_with Rplus (take n l) (take n (drop n l)).
Proof.
  intros Hl. apply list_eq. intros i. unfold shfl_down. rewrite lookup_zip_with.
  destruct (decide (i < n)%nat) as [Hi|Hi].
  - rewrite !lookup_take_lt, list_lookup_imap, lookup_drop by done.
    destruct (lookup_lt_is_Some_2 l i ltac:(lia)) as [x Hx].
    destruct (lookup_lt_is_Some_2 l (n + i)%nat ltac:(lia)) as [y Hy].
    rewrite Hx, Hy. cbn. rewrite (Nat.add_comm i n), Hy. done.
  - rewrite !lookup_take_ge by lia. done.
Qed.

(** The shuffles leave the sum over all lanes in lane 0. *)
Lemma shfl_reduce_sum k (l : list R) :
  (2 ^ S k <= length l)%nat ->
  shfl_reduce k l !! 0%nat = Some (sum_list (take (2 ^ S k) l)).
Proof.
  revert l. induction k as [|k IH]; intros l Hl.
  - destruct l as [|x [|y l]]; cbn in Hl; [lia|lia|].
    change (Some (x + y) = Some (x + (y + 0))). f_equal. lra.
  - assert (Hp : (2 ^ S (S k) = 2 ^ S k + 2 ^ S k)%nat) by (cbn; lia).
    cbn [shfl_reduce]. rewrite IH by (unfold shfl_down; rewrite length_imap; lia).
    rewrite shfl_down_take, sum_list_zip by (rewrite ?length_take, ?length_drop; lia).
    by rewrite Hp, <- take_take_drop, sum_list_app.
Qed.

(** The strides of the lanes cover every element once. *)
Lemma strides_perm (kn : kernel R) (p : launch R) :
  (0 < width kn)%Z -> seqZ 0 (width kn) ≫= stride kn p ≡ₚ seqZ 0 (head_dim p).
Proof.
  intros Hw.
  assert (Hin : forall tid d, (0 <= tid < width kn)%Z -> d ∈ stride kn p tid <->
    ((0 <= d < head_dim p)%Z /\ (d mod width kn = tid)%Z)).
  { intros tid d Ht. unfold stride. rewrite list_elem_of_fmap. setoid_rewrite elem_of_seqZ. split.
    - intros (i & -> & Hi). rewrite stride_mod by done.
      pose proof (proj1 (stride_bound (head_dim p) tid (width kn) i Hw ltac:(lia)) ltac:(lia)). nia.
    - intros [Hd <-]. exists (d / width kn)%Z. pose proof (Z_div_mod_eq_full d (width kn)).
      assert (Hi : (0 <= d / width kn)%Z) by (apply Z.div_pos; lia).
      split; [lia|]. split; [done|]. apply (stride_bound _ _ _ _ Hw Hi). lia. }
  apply NoDup_Permutation; [|apply NoDup_seqZ|].
  - apply NoDup_bind; [| |apply NoDup_seqZ].
    + intros t1 t2 d Ht1%elem_of_seqZ Ht2%elem_of_seqZ H1 H2.
      apply Hin in H1; [|lia]. apply Hin in H2; [|lia]. lia.
    + intros t Ht%elem_of_seqZ. apply NoDup_fmap_2_strong; [|apply NoDup_seqZ]. intros; nia.
  - intros d. rewrite list_elem_of_bind, elem_of_seqZ. split.
    + intros (t & Hd & Ht%elem_of_seqZ). apply Hin in Hd; lia.
    + intros Hd. pose proof (Z.mod_pos_bound d (width kn) Hw). exists (d mod width kn)%Z.
      rewrite elem_of_seqZ, Hin; lia.
Qed.

(** A kernel of [2^(k+1)] lanes that reduces with shuffles. *)
Definition shuffles (k : nat) (kn : kernel R) : Prop :=
  lanes kn = (2 ^ Z.of_nat (S k))%Z /\ width kn = lanes kn /\ reduce kn = shfl_reduce k.

Lemma dot_fold (q k : Z -> R) l a :
  foldl (fun dot d => fmadd (q d) (k d) dot) a l = a + sum_over (fun d => q d * k d) l.
Proof.
  revert a. induction l as [|x l IH]; intros a; [change (a = a + 0); lra|].
  cbn [foldl]. rewrite IH, sum_over_cons. change (fmadd (q x) (k x) a) with (q x * k x + a). lra.
Qed.

(** The score of such a kernel is the scaled dot product. *)
Lemma score_exact k (kn : kernel R) (p : launch R) q kv :
  shuffles k kn -> score_ref kn p q kv = dot_product (head_dim p) q kv * scale p.
Proof.
  intros (Hl & Hw & Hr). unfold score_ref. cbn zeta. rewrite Hr.
  assert (Hlen : length (tids kn) = (2 ^ S k)%nat).
  { unfold tids. rewrite length_seqZ, Hl, <- (Nat2Z.id (2 ^ S k)). f_equal. by rewrite Nat2Z.inj_pow. }
  rewrite shfl_reduce_sum by (rewrite length_fmap; lia).
  cbn [default Datatypes.id]. rewrite take_ge by (rewrite length_fmap; lia).
  change (fmul ?x ?y) with (x * y). f_equal. unfold dot_product, tids.
  rewrite <- (sum_over_perm _ _ _ (strides_perm kn p ltac:(lia))), <- sum_over_bind, Hw.
  f_equal. apply list_fmap_ext. intros _ t _. rewrite dot_fold. change (@fzero R device') with 0. lra.
Qed.

(** The tokens of a group of a launch: the scaled dot product of the query and
    the key of each cached token, and its value. *)
Definition group_tokens (p : launch R) (qf : Z -> Z) (kf vf : Z -> Z -> Z) (s h : Z)
    : list (R * (Z -> R)) :=
  (fun bt => let idx := (s * max_blocks_per_seq p + fst bt)%Z in
     let qo := ((s * num_heads p + h) * head_dim p)%Z in
     let ko := (kv_head p h * 128 * head_dim p + snd bt * head_dim p)%Z in
     (dot_product (head_dim p) (fun d => of_bits (qf (qo + d)%Z))
        (fun d => of_bits (kf idx (ko + d)%Z)) * scale p,
      fun d => of_bits (vf idx (ko + d)%Z)))
  <$> (seqZ 0 (num_blocks p s) ≫= block_tokens p s).

Lemma online_ref_tokens k kn p qf kf vf s h :
  shuffles k kn ->
  online_ref kn p qf kf vf s h (num_blocks p s) =
    run_tokens floor of_bits to_bits red kn (group_tokens p qf kf vf s h).
Proof.
  intros Hk. unfold online_ref, run_tokens, group_tokens.
  generalize (seqZ 0 (num_blocks p s) ≫= block_tokens p s) as l.
  change (device floor of_bits to_bits red) with device'. generalize (@online0 R device'). intros st l. revert st.
  induction l as [|bt l IH]; intros st; [reflexivity|]. cbn [fmap list_fmap foldl fst snd].
  rewrite <- IH. f_equal. unfold token_ref. cbn zeta. by rewrite (score_exact k) by done.
Qed.

(** What a launch of such a kernel writes for an element. *)
Lemma launch_value k kn (p : launch R) qf kf vf out s h d :
  shuffles k kn -> launch_ok p qf kf vf ->
  (num_seqs p * num_heads p * head_dim p <= len out)%Z ->
  (0 <= s < num_seqs p)%Z -> (0 <= h < num_heads p)%Z -> (0 <= d < head_dim p)%Z ->
  (d / width kn < 128 / width kn)%Z ->
  exists out', launch_kernel (paged_attention_kernel kn) true p out = Some (0%Z, out') /\
    arr_get out' ((s * num_heads p + h) * head_dim p + d) =
      Some (to_bits (normalized floor of_bits to_bits red
        (run_tokens floor of_bits to_bits red kn (group_tokens p qf kf vf s h)) d)).
Proof.
  intros Hk Hok Hout Hs Hh Hd Hacc. pose proof Hk as (Hl & Hw & Hr).
  destruct (launch_kernel_run kn p qf kf vf out) as (out' & Hrun & _ & Hwr & _); [|done|done|].
  { split; [lia|]. rewrite Hr. apply shfl_reduce_length. }
  exists out'. split; [done|]. rewrite Hwr by done.
  rewrite (proj2 (Z.ltb_lt _ _)) by (rewrite <- Hw; apply Z.mod_pos_bound; lia).
  unfold value_ref. rewrite (proj2 (Z.ltb_lt _ _)) by done.
  by rewrite (online_ref_tokens k) by done.
Qed.

End dots.

(** What both launches write to the elements of lane 0. *)
Lemma lane0_launches floor of_bits to_bits red (p : launch R) qf kf vf out s h d :
  let _ := real_device floor of_bits to_bits red in
  let tokens := group_tokens of_bits p qf kf vf s h in
  let i := ((s * num_heads p + h) * head_dim p + d)%Z in
  launch_ok p qf kf vf -> (num_seqs p * num_heads p * head_dim p <= len out)%Z ->
  (0 <= s < num_seqs p)%Z -> (0 <= h < num_heads p)%Z -> (0 <= d < Z.min 128 (head_dim p))%Z ->
  tokens <> [] ->
  exists out1 out2,
    kllm_gpu_paged_attention_cuda true p out = Some (0%Z, out1) /\
    kllm_gpu_paged_attention_hip true p out = Some (0%Z, out2) /\
    ((d mod 32 = 0)%Z -> arr_get out1 i = Some (to_bits (softmax_average tokens d))) /\
    ((d mod 64 = 0)%Z -> arr_get out2 i = Some (to_bits (softmax_average tokens d))).
Proof.
  intros dev tokens i Hok Hout Hs Hh Hd Hne.
  destruct (launch_value floor of_bits to_bits red 4 cuda_kernel p qf kf vf out s h d)
    as (out1 & H1 & Hv1); [done|done|done|done|done|lia|
    change (d / 32 < 4)%Z; apply Z.div_lt_upper_bound; lia|].
  destruct (launch_value floor of_bits to_bits red 5 hip_kernel p qf kf vf out s h d)
    as (out2 & H2 & Hv2); [done|done|done|done|done|lia|
    change (d / 64 < 2)%Z; apply Z.div_lt_upper_bound; lia|].
  exists out1, out2. split; [exact H1|]. split; [exact H2|].
  split; intros Hmod; [rewrite lane0_average in Hv1 by done|rewrite lane0_average in Hv2 by done]; done.
Qed.

(** ** Theorems *)

(** C7. In exact arithmetic lane 0 computes attention: for a group with at least
    one cached token, the CUDA launch writes to every element that is a multiple
    of 32, and the HIP launch to every one that is a multiple of 64, the
    conversion of the average of the values of the tokens, weighted with the
    exponentials of the scaled dot products of the query and the keys, whatever
    their order and number. *)
Theorem lane0_softmax floor of_bits to_bits red (p : launch R) qf kf vf out s h d :
  let _ := real_device floor of_bits to_bits red in
  let tokens := group_tokens of_bits p qf kf vf s h in
  let i := ((s * num_heads p + h) * head_dim p + d)%Z in
  launch_ok p qf kf vf -> (num_seqs p * num_heads p * head_dim p <= len out)%Z ->
  (0 <= s < num_seqs p)%Z -> (0 <= h < num_heads p)%Z -> (0 <= d < Z.min 128 (head_dim p))%Z ->
  tokens <> [] ->
  exists out1 out2,
    kllm_gpu_paged_attention_cuda true p out = Some (0%Z, out1) /\
    kllm_gpu_paged_attention_hip true p out = Some (0%Z, out2) /\
    ((d mod 32 = 0)%Z -> arr_get out1 i = Some (to_bits (softmax_average tokens d))) /\
    ((d mod 64 = 0)%Z -> arr_get out2 i = Some (to_bits (softmax_average tokens d))).
Proof. apply lane0_launches. Qed.

(** The other lanes do not: for a group of two tokens of which the second has
    the larger score, the CUDA launch writes to every element that is not a
    multiple of 32 the conversion of [(v1 + v2) / (1 + exp (s1 - s2))], which is
    not the softmax average unless the first value is zero. *)
Theorem other_lanes_wrong floor of_bits to_bits red (p : launch R) qf kf vf out s h d s1 s2 v1 v2 :
  let _ := real_device floor of_bits to_bits red in
  let i := ((s * num_heads p + h) * head_dim p + d)%Z in
  launch_ok p qf kf vf -> (num_seqs p * num_heads p * head_dim p <= len out)%Z ->
  (0 <= s < num_seqs p)%Z -> (0 <= h < num_heads p)%Z -> (0 <= d < Z.min 128 (head_dim p))%Z ->
  group_tokens of_bits p qf kf vf s h = [(s1, v1); (s2, v2)] ->
  floor <= s1 -> s1 < s2 -> (d mod 32 <> 0)%Z -> v1 d <> 0 ->
  let written := (v1 d + v2 d) / (1 + exp (s1 - s2)) in
  (exists out', kllm_gpu_paged_attention_cuda true p out = Some (0%Z, out') /\
     arr_get out' i = Some (to_bits written)) /\
  written <> softmax_average [(s1, v1); (s2, v2)] d.
Proof.
  intros dev i Hok Hout Hs Hh Hd Htok Hf Hlt Hmod Hv written.
  split; [|by apply other_lane_not_average].
  destruct (launch_value floor of_bits to_bits red 4 cuda_kernel p qf kf vf out s h d)
    as (out1 & H1 & Hv1); [done|done|done|done|done|lia|
    change (d / 32 < 4)%Z; apply Z.div_lt_upper_bound; lia|].
  rewrite Htok, other_lane_value in Hv1 by done. by exists out1.
Qed.

(** ** Witnesses *)

(** The launch of two tokens with the scores 0 and 4 and the values 3 and 3. *)
Lemma lane0_softmax_witness :
  let dev := real_device (-1) IZR (fun _ => 7%Z) (fun _ => 0) in
  exists out1, kllm_gpu_paged_attention_cuda true (demo_launch 1) [9%Z; 9%Z; 9%Z; 9%Z]
      = Some (0%Z, out1) /\ arr_get out1 0 = Some 7%Z.
Proof.
  destruct (lane0_softmax (-1) IZR (fun _ => 7%Z) (fun _ => 0) (demo_launch 1) (fun _ => 1%Z)
    (fun _ i => (i / 4)%Z) (fun _ _ => 3%Z) [9%Z; 9%Z; 9%Z; 9%Z] 0 0 0 (demo_launch_ok 1))
    as (out1 & out2 & H1 & _ & Hv & _); cbn [demo_launch num_seqs num_heads head_dim].
  - vm_compute. congruence.
  - lia.
  - lia.
  - lia.
  - intros Hnil%fmap_nil_inv. discriminate Hnil.
  - exists out1. split; [exact H1|]. exact (Hv eq_refl).
Defined.

Lemma other_lanes_wrong_witness :
  let dev := real_device (-1) IZR (fun _ => 7%Z) (fun _ => 0) in
  exists out1, kllm_gpu_paged_attention_cuda true (demo_launch 1) [9%Z; 9%Z; 9%Z; 9%Z]
      = Some (0%Z, out1) /\ arr_get out1 1 = Some 7%Z.
Proof.
  destruct (other_lanes_wrong (-1) IZR (fun _ => 7%Z) (fun _ => 0) (demo_launch 1) (fun _ => 1%Z)
    (fun _ i => (i / 4)%Z) (fun _ _ => 3%Z) [9%Z; 9%Z; 9%Z; 9%Z] 0 0 1
    (dot_product 4 (fun _ => 1) (fun d => IZR ((0 + d) / 4)) * 1)
    (dot_product 4 (fun _ => 1) (fun d => IZR ((4 + d) / 4)) * 1)
    (fun _ => 3) (fun _ => 3) (demo_launch_ok 1))
    as [(out1 & H1 & Hv) _]; cbn [demo_launch num_seqs num_heads head_dim].
  - vm_compute. congruence.
  - lia.
  - lia.
  - lia.
  - reflexivity.
  - change (-1 <= (1 * 0 + (1 * 0 + (1 * 0 + (1 * 0 + 0)))) * 1). lra.
  - change ((1 * 0 + (1 * 0 + (1 * 0 + (1 * 0 + 0)))) * 1 <
      (1 * 1 + (1 * 1 + (1 * 1 + (1 * 1 + 0)))) * 1). lra.
  - done.
  - lra.
  - exists out1. split; [exact H1|exact Hv].
Defined.
