(* ===== verification/ExactAttention.v ===== *)
(** * CPU attention over the real numbers, and the two paths compared

    The kernels of [Attention] with exact arithmetic: the real numbers, with any
    conversions from and to BF16, and the AVX-512 instructions as their manual
    defines them, without rounding.

    The file proves that every kernel of [ace_attention.c] computes the softmax
    average of the values under the scaled dot products of the query and the
    keys, so that its results lie between the smallest and the largest value;
    and that a request gets the same result from the CPU and, in the elements
    of lane 0, from the CUDA and the HIP kernel, when the blocks of the GPU hold
    the keys and values head by head.  A block that both read in place gives
    different results for all heads but the first: the CPU reads it token by
    token. *)

From Stdlib Require Import ZArith Reals Lra Lia.
From stdpp Require Import base list.
From S2P Require Import Prelude Attention PagedAttention OnlineSoftmax.

#[local] Open Scope R_scope.

(** ** The real numbers as an arithmetic *)

Definition real_arith (floor : R) (of_bits : Z -> R) : Arith R := {|
  a_zero := 0; a_neg_inf := floor; a_add := Rplus; a_sub := Rminus; a_mul := Rmult;
  a_div := Rdiv; a_gt x y := if Rlt_dec y x then true else false; a_of_bf16 := of_bits;
|}.

Definition real_fns (to_bits : R -> Z) : ArithFns R := {| a_exp := exp; a_to_bf16 := to_bits |}.

(** [VDPBF16PS]: each lane adds the products of its two pairs. *)
Definition real_dpbf16 (of_bits : Z -> R) (acc : list R) (a b : list Z) : list R :=
  imap (fun i x => x + (of_bits (a !!! (2 * i)%nat) * of_bits (b !!! (2 * i)%nat) +
    of_bits (a !!! (2 * i + 1)%nat) * of_bits (b !!! (2 * i + 1)%nat))) acc.

Definition real_avx512 (of_bits : Z -> R) : Avx512 R :=
  {| dpbf16_ps := real_dpbf16 of_bits; reduce_add_ps := sum_list |}.

(** ** Sums *)

Lemma sum_over_nil f : sum_over f [] = 0.
Proof. reflexivity. Qed.

Lemma sum_over_ext f g l : (forall i, i ∈ l -> f i = g i) -> sum_over f l = sum_over g l.
Proof.
  induction l as [|x l IH]; intros Hfg; [done|]. rewrite !sum_over_cons.
  rewrite Hfg by (by left). rewrite IH; [done|]. intros i Hi. apply Hfg. by right.
Qed.

Lemma sum_over_scale c f l : sum_over (fun i => c * f i) l = c * sum_over f l.
Proof.
  induction l as [|x l IH]; [rewrite !sum_over_nil; lra|]. rewrite !sum_over_cons, IH. lra.
Qed.

Lemma sum_over_le f g l : (forall i, i ∈ l -> f i <= g i) -> sum_over f l <= sum_over g l.
Proof.
  induction l as [|x l IH]; intros Hfg; [rewrite !sum_over_nil; lra|]. rewrite !sum_over_cons.
  apply Rplus_le_compat; [apply Hfg; by left|]. apply IH. intros i Hi. apply Hfg. by right.
Qed.

Lemma sum_over_pos f l : l <> [] -> (forall i, 0 < f i) -> 0 < sum_over f l.
Proof.
  intros Hne Hf. destruct l as [|x l]; [done|]. clear Hne. revert x.
  induction l as [|y l IH]; intros x; rewrite sum_over_cons; pose proof (Hf x).
  - rewrite sum_over_nil. lra.
  - pose proof (IH y). lra.
Qed.

Lemma sum_over_fmap f (g : Z -> Z) l : sum_over f (g <$> l) = sum_over (fun i => f (g i)) l.
Proof.
  induction l as [|x l IH]; [done|]. rewrite fmap_cons, !sum_over_cons. by rewrite IH.
Qed.

(** A loop that adds up a term for each index. *)
Lemma fold_sum f l a : foldl (fun acc i => acc + f i) a l = a + sum_over f l.
Proof.
  revert a. induction l as [|x l IH]; intros a; cbn [foldl]; [rewrite sum_over_nil; lra|].
  rewrite IH, sum_over_cons. lra.
Qed.

Lemma sumR_fmap f (g : Z -> R * (Z -> R)) l : sumR f (g <$> l) = sum_over (fun i => f (g i)) l.
Proof.
  induction l as [|x l IH]; [done|]. rewrite fmap_cons, sumR_cons, sum_over_cons. by rewrite IH.
Qed.

(** The elements [o], ..., [o + n - 1], in two parts. *)
Lemma sum_over_split f o m n :
  (0 <= m)%Z -> (0 <= n)%Z ->
  sum_over f (seqZ o (m + n)) = sum_over f (seqZ o m) + sum_over f (seqZ (o + m) n).
Proof. intros Hm Hn. by rewrite seqZ_app, sum_over_app. Qed.

Lemma sum_over_shift f o n : sum_over f (seqZ o n) = sum_over (fun i => f (o + i)%Z) (seqZ 0 n).
Proof. by rewrite <- (sum_over_fmap f (Z.add o)), fmap_add_seqZ, Z.add_0_r. Qed.

Section exact.
Context (floor : R) (of_bits : Z -> R) (to_bits : R -> Z).
#[local] Instance arith : Arith R := real_arith floor of_bits.
#[local] Instance fns : ArithFns R := real_fns to_bits.
#[local] Instance avx : Avx512 R := real_avx512 of_bits.

(** ** The score *)

(** The product of the elements [i] of a query and a key. *)
Definition pair_product (q k : Z -> Z) (qo ko i : Z) : R :=
  of_bits (q (qo + i)%Z) * of_bits (k (ko + i)%Z).

Lemma scalar_score_exact (p : kllm_attention_params R) q k qo ko :
  scalar_score p q k qo ko = sum_over (pair_product q k qo ko) (seqZ 0 (at_head_dim p)) * at_scale p.
Proof.
  unfold scalar_score. rewrite !slice_shift, dot_fmap. change (a_mul ?x ?y) with (x * y). f_equal.
  rewrite <- (Rplus_0_l (sum_over _ _)). apply (fold_sum (pair_product q k qo ko)).
Qed.

(** One instruction adds 32 products to the sum of the lanes. *)
Lemma dpbf16_sum (acc : list R) a b n :
  length acc = n ->
  sum_list (real_dpbf16 of_bits acc a b) = sum_list acc +
    sum_over (fun i => of_bits (a !!! Z.to_nat i) * of_bits (b !!! Z.to_nat i))
      (seqZ 0 (2 * Z.of_nat n)).
Proof.
  revert acc. induction n as [|n IH]; intros acc Hl.
  { apply nil_length_inv in Hl as ->. change (0 = 0 + 0). lra. }
  destruct acc as [|x acc _] using rev_ind; [done|]. rewrite length_app in Hl. simpl in Hl.
  unfold real_dpbf16 in *. rewrite imap_app, !sum_list_app, IH by lia. cbn [imap].
  replace (2 * Z.of_nat (S n))%Z with (2 * Z.of_nat n + 2)%Z by lia.
  rewrite sum_over_split by lia. rewrite (seqZ_cons (0 + _)%Z 2), (seqZ_cons _ (Z.pred 2)) by lia.
  replace (length acc + 0)%nat with n by lia.
  cbn [Z.pred]. change (seqZ _ (Z.pred (Z.pred 2))) with (@nil Z).
  rewrite !sum_list_cons, !sum_over_cons, sum_over_nil. change (sum_list []) with 0.
  replace (Z.to_nat (0 + 2 * Z.of_nat n)) with (2 * n)%nat by lia.
  replace (Z.to_nat (Z.succ (0 + 2 * Z.of_nat n))) with (2 * n + 1)%nat by lia. lra.
Qed.

Lemma dpbf16_length acc a b : length (real_dpbf16 of_bits acc a b) = length acc.
Proof. apply length_imap. Qed.

Lemma lookup_total_seq (f : Z -> Z) o n i :
  (0 <= i < n)%Z -> (f <$> seqZ o n) !!! Z.to_nat i = f (o + i)%Z.
Proof.
  intros Hi. apply list_lookup_total_correct. rewrite list_lookup_fmap, lookup_seqZ_lt by lia.
  simpl. do 2 f_equal. lia.
Qed.

(** The chunks of 32 elements. *)
Lemma chunks_sum q k qo ko n acc :
  (0 <= n)%Z -> length acc = 16%nat ->
  let chunk acc c := dpbf16_ps acc (q <$> seqZ (qo + 32 * c) 32) (k <$> seqZ (ko + 32 * c) 32) in
  sum_list (foldl chunk acc (seqZ 0 n)) =
    sum_list acc + sum_over (pair_product q k qo ko) (seqZ 0 (32 * n)) /\
  length (foldl chunk acc (seqZ 0 n)) = 16%nat.
Proof.
  intros Hn Hl chunk. revert n Hn. apply natlike_ind.
  { split; [change (sum_list acc = sum_list acc + 0); lra|done]. }
  intros n Hn [IHs IHl]. rewrite <- Z.add_1_r, (seqZ_app 0 n 1), foldl_app by lia.
  set (acc' := foldl chunk acc (seqZ 0 n)) in *. clearbody acc'.
  rewrite Z.add_0_l. change (seqZ n 1) with [n].
  cbn [foldl]. unfold chunk. cbn [dpbf16_ps avx real_avx512].
  rewrite dpbf16_length. split; [|done].
  rewrite (dpbf16_sum _ _ _ 16), IHs by done.
  replace (32 * (n + 1))%Z with (32 * n + 32)%Z by lia. rewrite sum_over_split, Rplus_assoc by lia.
  do 2 f_equal. change (2 * Z.of_nat 16)%Z with 32%Z.
  rewrite (sum_over_shift _ (0 + 32 * n)).
  apply sum_over_ext. intros i Hi%elem_of_seqZ. rewrite !lookup_total_seq by lia.
  unfold pair_product. by rewrite Z.add_0_l, !Z.add_assoc.
Qed.

(** The AVX-512 kernel computes the same scores. *)
Lemma avx512_score_exact (p : kllm_attention_params R) q k qo ko :
  (1 <= at_head_dim p)%Z ->
  avx512_score p q k qo ko = sum_over (pair_product q k qo ko) (seqZ 0 (at_head_dim p)) * at_scale p.
Proof.
  intros Hd. unfold avx512_score. set (c := (at_head_dim p / 32)%Z).
  assert (0 <= c /\ 0 <= at_head_dim p - 32 * c)%Z as [Hc Hr] by (unfold c; dlia).
  destruct (chunks_sum q k qo ko c (replicate 16 a_zero)) as [Hs _]; [done|done|].
  rewrite (fold_sum (fun d => a_mul (a_mul (a_of_bf16 (q (qo + d)%Z)) (a_of_bf16 (k (ko + d)%Z)))
    (at_scale p))).
  cbn [reduce_add_ps avx real_avx512]. rewrite Hs. change (a_mul ?x ?y) with (x * y).
  replace (seqZ 0 (at_head_dim p)) with (seqZ 0 (32 * c + (at_head_dim p - 32 * c)))
    by (f_equal; lia).
  rewrite (sum_over_split _ 0 (32 * c)), Z.add_0_l by lia.
  rewrite (Rmult_plus_distr_r (sum_over _ _)). f_equal.
  - change (sum_list (replicate 16 a_zero)) with (sum_list (replicate 16 0)).
    cbn [replicate]. rewrite !sum_list_cons. change (sum_list []) with 0. lra.
  - rewrite (Rmult_comm (sum_over _ _)), <- sum_over_scale. apply sum_over_ext. intros i _.
    unfold pair_product. cbn [a_mul a_of_bf16 arith real_arith]. lra.
Qed.

Lemma score_of_exact bd g (p : kllm_attention_params R) q k qo ko :
  (1 <= at_head_dim p)%Z ->
  score_of bd g p q k qo ko = sum_over (pair_product q k qo ko) (seqZ 0 (at_head_dim p)) * at_scale p.
Proof.
  intros Hd. unfold score_of.
  destruct g, (has_amx_bf16 bd), (has_avx512_bf16 bd);
    first [by apply avx512_score_exact | apply scalar_score_exact].
Qed.

(** ** The softmax average *)

(** The softmax is the same for every shift of the scores, so that the weighted
    sum does not depend on where the maximum starts. *)
Lemma softmax_weighted (sc val : Z -> R) l :
  l <> [] ->
  dot (softmax (sc <$> l)) (val <$> l) =
    sum_over (fun i => exp (sc i) * val i) l / sum_over (fun i => exp (sc i)) l.
Proof.
  intros Hne. unfold softmax. set (m := max_of (sc <$> l)).
  set (es := (fun x => a_exp (a_sub x m)) <$> (sc <$> l)).
  assert (Hes : es = (fun i => exp (- m) * exp (sc i)) <$> l).
  { unfold es. rewrite <- list_fmap_compose. apply list_fmap_ext. intros _ i _. cbn.
    rewrite <- exp_plus. f_equal. lra. }
  assert (Hsum : foldl a_add a_zero es = exp (- m) * sum_over (fun i => exp (sc i)) l).
  { rewrite Hes, foldl_fmap. rewrite (fold_sum (fun i => exp (- m) * exp (sc i))), sum_over_scale.
    apply Rplus_0_l. }
  rewrite Hsum, Hes, <- list_fmap_compose, dot_fmap.
  etransitivity; [apply (fold_sum (fun i => exp (- m) * exp (sc i) /
    (exp (- m) * sum_over (fun i => exp (sc i)) l) * val i))|].
  pose proof (sum_over_pos (fun i => exp (sc i)) l Hne (fun i => exp_pos (sc i))) as Hpos.
  set (S := sum_over (fun i => exp (sc i)) l) in *. pose proof (exp_pos (- m)).
  cbn [a_zero arith real_arith]. rewrite Rplus_0_l.
  replace (_ / S) with (/ S * sum_over (fun i => exp (sc i) * val i) l) by (unfold Rdiv; lra).
  rewrite <- sum_over_scale. apply sum_over_ext. intros i _. field. lra.
Qed.

(** The tokens of a head and query position of the CPU kernels: the scaled dot
    product of the query and each key, and the value vector. *)
Definition cpu_tokens (p : kllm_attention_params R) (qv kv vv : Z -> Z) (qi h : Z)
    : list (R * (Z -> R)) :=
  let off a := ((a * at_num_heads p + h) * at_head_dim p)%Z in
  (fun si => (dot_product (at_head_dim p) (fun d => of_bits (qv (off qi + d)%Z))
                (fun d => of_bits (kv (off si + d)%Z)) * at_scale p,
              fun d => of_bits (vv (off si + d)%Z))) <$> seqZ 0 (at_seq_len p).

Lemma attention_ref_exact bd g (p : kllm_attention_params R) qv kv vv qi h d :
  dims_wf p ->
  attention_ref p (score_of bd g p qv kv) vv qi h d =
    to_bits (softmax_average (cpu_tokens p qv kv vv qi h) d).
Proof.
  intros [_ Hd Hn _ _ _]. unfold attention_ref, cpu_tokens, softmax_average.
  rewrite !sumR_fmap. cbn [a_to_bf16 fns real_fns fst snd]. f_equal. rewrite softmax_weighted.
  - f_equal; apply sum_over_ext; intros si _; by rewrite score_of_exact by lia.
  - rewrite seqZ_cons by lia. done.
Qed.

(** A run of the CPU attention. *)
Lemma cpu_run bd g q k v qv kv vv out (p : kllm_attention_params R) :
  dims_wf p ->
  tensor_is q qv (query_len p * at_num_heads p * at_head_dim p) ->
  tensor_is k kv (at_seq_len p * at_num_heads p * at_head_dim p) ->
  tensor_is v vv (at_seq_len p * at_num_heads p * at_head_dim p) ->
  len out = (query_len p * at_num_heads p * at_head_dim p)%Z ->
  exists out',
    kllm_ace_attention bd g (Some q) (Some k) (Some v) (Some out) (Some p) =
      Some (0%Z, Some out') /\
    forall qi h d, in_out p qi h d ->
      out' !! Z.to_nat ((qi * at_num_heads p + h) * at_head_dim p + d) =
        Some (to_bits (softmax_average (cpu_tokens p qv kv vv qi h) d)).
Proof.
  intros Hp Hq Hk Hv Hl.
  destruct (ace_attention_run bd g q k v qv kv vv out p) as (out' & He & _ & Hout); [done..|].
  exists out'. split; [done|]. intros qi h d Hin. rewrite Hout by done.
  by rewrite attention_ref_exact.
Qed.

End exact.

(** ** Bounds *)

Lemma softmax_average_bounds tokens d lo hi :
  tokens <> [] -> (forall tok, tok ∈ tokens -> lo <= snd tok d <= hi) ->
  lo <= softmax_average tokens d <= hi.
Proof.
  intros Hne Hb. unfold softmax_average. pose proof (sum_exp_pos tokens Hne) as Hpos.
  assert (lo * sumR (fun tok => exp (fst tok)) tokens <=
      sumR (fun tok => exp (fst tok) * snd tok d) tokens <=
    hi * sumR (fun tok => exp (fst tok)) tokens) as [H1 H2].
  { clear Hne Hpos. induction tokens as [|tok l IH]; [rewrite !sumR_nil; lra|].
    rewrite !sumR_cons. destruct IH; [intros t Ht; apply Hb; by right|].
    pose proof (Hb tok ltac:(by left)). pose proof (exp_pos (fst tok)). nra. }
  set (S := sumR (fun tok => exp (fst tok)) tokens) in *.
  unfold Rdiv. split; apply (Rmult_le_reg_r S); rewrite ?Rmult_assoc, ?Rinv_l; lra.
Qed.

(** The average over one token is its value. *)
Lemma softmax_average_one sc val d : softmax_average [(sc, val)] d = val d.
Proof.
  unfold softmax_average. rewrite !sumR_cons, !sumR_nil. cbn [fst snd].
  pose proof (exp_pos sc). field. lra.
Qed.

(** ** The tokens of a paged sequence *)

(** When all blocks of a sequence are present, its tokens are its positions. *)
Lemma block_positions (l : launch R) s :
  (0 <= seq_len_of l s)%Z ->
  (forall b, (0 <= b < num_blocks l s)%Z -> exists e,
     arr_get (block_tables l) (s * max_blocks_per_seq l + b) = Some e /\ usable e = true) ->
  seqZ 0 (num_blocks l s) ≫= block_tokens l s =
    (fun t => (t / 128, t mod 128)%Z) <$> seqZ 0 (seq_len_of l s).
Proof.
  intros Hlen Hall.
  assert (forall n, (0 <= n)%Z -> (n <= num_blocks l s)%Z -> seqZ 0 n ≫= block_tokens l s =
    (fun t => (t / 128, t mod 128)%Z) <$> seqZ 0 (Z.min (128 * n) (seq_len_of l s))) as Hn.
  { apply (natlike_ind (fun n => (n <= num_blocks l s)%Z -> _)).
    { intros _. change (128 * 0)%Z with 0%Z. by rewrite Z.min_l by lia. }
    intros n Hn IH Hle. rewrite <- Z.add_1_r, seqZ_app, bind_app, IH by lia.
    unfold num_blocks in Hle. assert (128 * n < seq_len_of l s)%Z by dlia.
    change (seqZ (0 + n) 1) with [(0 + n)%Z]. rewrite Z.add_0_l. cbn [mbind list_bind].
    rewrite app_nil_r. unfold block_tokens.
    destruct (Hall n) as (e & -> & ->); [unfold num_blocks; dlia|].
    rewrite (Z.min_l (128 * n)) by lia.
    replace (Z.min (128 * (n + 1)) (seq_len_of l s)) with
      (128 * n + Z.min 128 (seq_len_of l s - n * 128))%Z by lia.
    rewrite seqZ_app, fmap_app by lia. f_equal. rewrite Z.add_0_l.
    rewrite <- (Z.add_0_r (128 * n)), <- fmap_add_seqZ, <- list_fmap_compose.
    apply list_fmap_ext. intros _ t Ht%list_elem_of_lookup_2%elem_of_seqZ. simpl. f_equal; dlia. }
  rewrite Hn by (unfold num_blocks; dlia). do 2 f_equal. unfold num_blocks. dlia.
Qed.

(** The same request on both paths: sequence [s] of a launch with one query head
    for each KV head, all of its blocks fetched, and the tensors of the CPU, which
    hold the tokens one after the other where a block of the GPU holds the heads
    one after the other. *)
Record same_request (p : kllm_attention_params R) (l : launch R) (s : Z)
    (qv kv vv qf : Z -> Z) (kf vf : Z -> Z -> Z) : Prop := {
  sr_shape : num_heads l = at_num_heads p /\ num_kv_heads l = at_num_heads p /\
    head_dim l = at_head_dim p /\ seq_len_of l s = at_seq_len p /\ scale l = at_scale p /\
    query_len p = 1%Z;
  sr_blocks : forall b, (0 <= b < num_blocks l s)%Z -> exists e,
    arr_get (block_tables l) (s * max_blocks_per_seq l + b) = Some e /\ usable e = true;
  sr_query : forall h d, (0 <= h < at_num_heads p)%Z -> (0 <= d < at_head_dim p)%Z ->
    qf ((s * num_heads l + h) * head_dim l + d)%Z = qv (h * at_head_dim p + d)%Z;
  sr_kv : forall t h d, (0 <= t < at_seq_len p)%Z -> (0 <= h < at_num_heads p)%Z ->
    (0 <= d < at_head_dim p)%Z ->
    let idx := (s * max_blocks_per_seq l + t / 128)%Z in
    let i := ((h * 128 + t mod 128) * at_head_dim p + d)%Z in
    let j := ((t * at_num_heads p + h) * at_head_dim p + d)%Z in
    kf idx i = kv j /\ vf idx i = vv j;
}.

(** With one head the two orders agree: blocks that hold 128 consecutive positions
    of the cached tensor each can be read in place. *)
Lemma one_head_in_place p l s qv kv vv qf kf vf :
  num_heads l = 1%Z -> at_num_heads p = 1%Z -> num_kv_heads l = 1%Z -> head_dim l = at_head_dim p ->
  seq_len_of l s = at_seq_len p -> scale l = at_scale p -> query_len p = 1%Z ->
  (forall b, (0 <= b < num_blocks l s)%Z -> exists e,
    arr_get (block_tables l) (s * max_blocks_per_seq l + b) = Some e /\ usable e = true) ->
  (forall d, (0 <= d < at_head_dim p)%Z -> qf (s * head_dim l + d)%Z = qv d) ->
  (forall b i, (0 <= b)%Z -> (0 <= i < 128 * at_head_dim p)%Z ->
    kf (s * max_blocks_per_seq l + b)%Z i = kv (b * 128 * at_head_dim p + i)%Z /\
    vf (s * max_blocks_per_seq l + b)%Z i = vv (b * 128 * at_head_dim p + i)%Z) ->
  same_request p l s qv kv vv qf kf vf.
Proof.
  intros Hl1 Hp1 Hk1 Hhd Hsl Hsc Hq1 Hblocks Hq Hkv. split; [by rewrite Hl1, Hk1, Hp1|done|..].
  - intros h d Hh Hd. assert (h = 0)%Z as -> by lia. rewrite Hl1, Z.mul_1_r, Z.add_0_r. by apply Hq.
  - intros t h d Ht Hh Hd. assert (h = 0)%Z as -> by lia. cbn zeta. rewrite Hp1.
    pose proof (Z.mod_pos_bound t 128 ltac:(lia)) as Hm. pose proof (Z.div_mod t 128 ltac:(lia)) as Hdm.
    destruct (Hkv (t / 128)%Z ((0 * 128 + t mod 128) * at_head_dim p + d)%Z) as [-> ->];
      [apply Z.div_pos; lia|nia|].
    split; f_equal; rewrite Hdm at 3; ring.
Qed.

(** Both paths average the same tokens. *)
Lemma same_average of_bits p l s qv kv vv qf kf vf h d :
  dims_wf p -> same_request p l s qv kv vv qf kf vf ->
  (0 <= h < at_num_heads p)%Z -> (0 <= d < at_head_dim p)%Z ->
  softmax_average (group_tokens of_bits l qf kf vf s h) d =
    softmax_average (cpu_tokens of_bits p qv kv vv 0 h) d /\
  group_tokens of_bits l qf kf vf s h <> [].
Proof.
  intros Hp [(Hnh & Hkvh & Hhd & Hlen & Hsc & _) Hblocks Hq Hkv] Hh Hd.
  pose proof Hp as [Hnh1 Hdd Hn _ _ _].
  unfold group_tokens. rewrite block_positions by (done || lia). rewrite <- list_fmap_compose, Hlen.
  split; [|intros [=]%fmap_nil_inv%(f_equal length); rewrite length_seqZ in *; lia].
  assert (kv_head l h = h) as Hkh.
  { unfold kv_head. rewrite Hnh, Hkvh, Z.div_same, Z.div_1_r; lia. }
  unfold softmax_average, cpu_tokens. rewrite !sumR_fmap.
  assert (forall t, t ∈ seqZ 0 (at_seq_len p) -> forall e, (0 <= e < at_head_dim p)%Z ->
    let i := (h * 128 * at_head_dim p + t mod 128 * at_head_dim p + e)%Z in
    let j := ((t * at_num_heads p + h) * at_head_dim p + e)%Z in
    kf (s * max_blocks_per_seq l + t / 128)%Z i = kv j /\
    vf (s * max_blocks_per_seq l + t / 128)%Z i = vv j) as Hat.
  { intros t Ht%elem_of_seqZ e He. cbn zeta. rewrite <- Z.mul_add_distr_r.
    apply (Hkv t h e); lia. }
  assert (forall t, t ∈ seqZ 0 (at_seq_len p) ->
    dot_product (at_head_dim p)
      (fun e => of_bits (qf ((s * num_heads l + h) * at_head_dim p + e)%Z))
      (fun e => of_bits (kf (s * max_blocks_per_seq l + t / 128)%Z
         (h * 128 * at_head_dim p + t mod 128 * at_head_dim p + e)%Z)) =
    dot_product (at_head_dim p) (fun e => of_bits (qv ((0 * at_num_heads p + h) * at_head_dim p + e)%Z))
      (fun e => of_bits (kv ((t * at_num_heads p + h) * at_head_dim p + e)%Z))) as Hdot.
  { intros t Ht. apply sum_over_ext. intros e He%elem_of_seqZ.
    rewrite <- Hhd, (Hq h e), Hhd by lia. by rewrite (proj1 (Hat t Ht e ltac:(lia))). }
  f_equal; apply sum_over_ext; intros t Ht; unfold compose; cbn [fst snd];
    rewrite Hkh, Hhd, Hsc, Hdot by done; [|done].
  by rewrite (proj2 (Hat t Ht d ltac:(lia))).
Qed.

(** ** Theorems *)

(** C14. In exact arithmetic the CPU and the GPU give the same answer on the same
    request, if the GPU is given the keys and values in the order in which its
    kernels read them, head by head within a block of 128 positions, while the
    CPU is given them token by token, with one query, as many key-value heads as
    heads, and every block of the sequence in the table ([same_request]).  Then,
    whatever the build and the instruction set of the CPU, the value that its
    attention leaves for an element of a head is the one that the CUDA launch
    writes where the element is a multiple of 32, and the HIP launch where it is
    a multiple of 64, for any length; the two may start the maximum anywhere.
    The blocks of the cache are token by token; with one head both orders are the
    same ([one_head_in_place]), with more heads they are not
    ([layouts_differ]). *)
Theorem cpu_gpu_agree floor floor' of_bits to_bits red bd g (p : kllm_attention_params R)
  (l : launch R) q k v qv kv vv out qf kf vf outg s h d :
  let _ := real_arith floor of_bits in
  let _ := real_fns to_bits in
  let _ := real_avx512 of_bits in
  let _ := real_device floor' of_bits to_bits red in
  dims_wf p ->
  tensor_is q qv (query_len p * at_num_heads p * at_head_dim p) ->
  tensor_is k kv (at_seq_len p * at_num_heads p * at_head_dim p) ->
  tensor_is v vv (at_seq_len p * at_num_heads p * at_head_dim p) ->
  len out = (query_len p * at_num_heads p * at_head_dim p)%Z ->
  launch_ok l qf kf vf -> (num_seqs l * num_heads l * head_dim l <= len outg)%Z ->
  same_request p l s qv kv vv qf kf vf ->
  (0 <= s < num_seqs l)%Z -> (0 <= h < at_num_heads p)%Z ->
  (0 <= d < Z.min 128 (at_head_dim p))%Z ->
  exists o o1 o2 x,
    kllm_ace_attention bd g (Some q) (Some k) (Some v) (Some out) (Some p) = Some (0%Z, Some o) /\
    kllm_gpu_paged_attention_cuda true l outg = Some (0%Z, o1) /\
    kllm_gpu_paged_attention_hip true l outg = Some (0%Z, o2) /\
    let i := ((s * num_heads l + h) * head_dim l + d)%Z in
    arr_get o (h * at_head_dim p + d) = Some (to_bits x) /\
    ((d mod 32 = 0)%Z -> arr_get o1 i = Some (to_bits x)) /\
    ((d mod 64 = 0)%Z -> arr_get o2 i = Some (to_bits x)).
Proof.
  intros ar fn av dev Hp Hq Hk Hv Hl Hok Hog Hsame Hs Hh Hd. pose proof Hp as [_ Hdd _ _ _ _].
  pose proof (sr_shape _ _ _ _ _ _ _ _ _ Hsame) as (Hnh & _ & Hhd & _ & _ & Hq1).
  destruct (same_average of_bits p l s qv kv vv qf kf vf h d) as [Havg Hne]; [done|done|done|lia|].
  destruct (cpu_run floor of_bits to_bits bd g q k v qv kv vv out p) as (o & Ho & Hov); [done..|].
  destruct (lane0_launches floor' of_bits to_bits red l qf kf vf outg s h d)
    as (o1 & o2 & H1 & H2 & Hv1 & Hv2); [done|done|done|lia|lia|done|].
  exists o, o1, o2, (softmax_average (cpu_tokens of_bits p qv kv vv 0 h) d).
  split; [exact Ho|]. split; [exact H1|]. split; [exact H2|]. cbn zeta. rewrite <- Havg.
  split; [|split; [exact Hv1|exact Hv2]]. rewrite arr_get_lookup by nia.
  rewrite Havg, <- (Hov 0%Z h d) by (unfold in_out; lia). done.
Qed.

(** C20. Attention stays within its values: in exact arithmetic, whatever the
    scores, the build and the instruction set, each element that the CPU leaves
    in the output lies between any bounds of that element of the cached values. *)
Theorem attention_bounded floor of_bits to_bits bd g (p : kllm_attention_params R)
  q k v qv kv vv out qi h d lo hi :
  let _ := real_arith floor of_bits in
  let _ := real_fns to_bits in
  let _ := real_avx512 of_bits in
  dims_wf p ->
  tensor_is q qv (query_len p * at_num_heads p * at_head_dim p) ->
  tensor_is k kv (at_seq_len p * at_num_heads p * at_head_dim p) ->
  tensor_is v vv (at_seq_len p * at_num_heads p * at_head_dim p) ->
  len out = (query_len p * at_num_heads p * at_head_dim p)%Z ->
  in_out p qi h d ->
  (forall si, (0 <= si < at_seq_len p)%Z ->
     lo <= of_bits (vv ((si * at_num_heads p + h) * at_head_dim p + d)%Z) <= hi) ->
  exists o x,
    kllm_ace_attention bd g (Some q) (Some k) (Some v) (Some out) (Some p) = Some (0%Z, Some o) /\
    o !! Z.to_nat ((qi * at_num_heads p + h) * at_head_dim p + d) = Some (to_bits x) /\
    lo <= x <= hi.
Proof.
  intros ar fn av Hp Hq Hk Hv Hl Hin Hb. pose proof Hp as [_ _ Hn _ _ _].
  destruct (cpu_run floor of_bits to_bits bd g q k v qv kv vv out p) as (o & Ho & Hov); [done..|].
  exists o, (softmax_average (cpu_tokens of_bits p qv kv vv qi h) d).
  split; [exact Ho|]. split; [by apply Hov|]. apply softmax_average_bounds; unfold cpu_tokens.
  - rewrite seqZ_cons by lia. done.
  - intros tok (si & -> & Hsi%elem_of_seqZ)%list_elem_of_fmap. apply Hb. lia.
Qed.

(** The two paths disagree on a block that both read in place: for a sequence of
    one token the CPU takes the value vector of head [h] from the [h]-th vector of
    the value tensor, and lane 0 of the CUDA kernel from the vector [128 * h]. *)
Theorem layouts_differ floor floor' of_bits to_bits red bd g (p : kllm_attention_params R)
  (l : launch R) q k v qv kv vv out qf kf vf outg e s h :
  let _ := real_arith floor of_bits in
  let _ := real_fns to_bits in
  let _ := real_avx512 of_bits in
  let _ := real_device floor' of_bits to_bits red in
  dims_wf p -> at_seq_len p = 1%Z -> query_len p = 1%Z ->
  tensor_is q qv (query_len p * at_num_heads p * at_head_dim p) ->
  tensor_is k kv (at_seq_len p * at_num_heads p * at_head_dim p) ->
  tensor_is v vv (at_seq_len p * at_num_heads p * at_head_dim p) ->
  len out = (query_len p * at_num_heads p * at_head_dim p)%Z ->
  launch_ok l qf kf vf -> (num_seqs l * num_heads l * head_dim l <= len outg)%Z ->
  num_heads l = at_num_heads p -> num_kv_heads l = at_num_heads p ->
  head_dim l = at_head_dim p -> seq_len_of l s = 1%Z ->
  arr_get (block_tables l) (s * max_blocks_per_seq l) = Some e -> usable e = true ->
  (forall i, vf (s * max_blocks_per_seq l)%Z i = vv i) ->
  (0 <= s < num_seqs l)%Z -> (0 <= h < at_num_heads p)%Z ->
  exists o o1,
    kllm_ace_attention bd g (Some q) (Some k) (Some v) (Some out) (Some p) = Some (0%Z, Some o) /\
    kllm_gpu_paged_attention_cuda true l outg = Some (0%Z, o1) /\
    arr_get o (h * at_head_dim p) = Some (to_bits (of_bits (vv (h * at_head_dim p)%Z))) /\
    arr_get o1 ((s * num_heads l + h) * head_dim l) =
      Some (to_bits (of_bits (vv (h * 128 * at_head_dim p)%Z))).
Proof.
  intros ar fn av dev Hp Hn1 Hq1 Hq Hk Hv Hl Hok Hog Hnh Hkvh Hhd Hlen He Hu Hvf Hs Hh.
  pose proof Hp as [_ Hdd _ _ _ _].
  destruct (cpu_run floor of_bits to_bits bd g q k v qv kv vv out p) as (o & Ho & Hov); [done..|].
  assert (exists sc val, group_tokens of_bits l qf kf vf s h = [(sc, val)] /\
    val 0%Z = of_bits (vv (h * 128 * at_head_dim p)%Z)) as (sc & val & Htok & Hval).
  { unfold group_tokens. rewrite block_positions; [|lia|].
    - rewrite Hlen. change (seqZ 0 1) with [0%Z]. do 2 eexists. split; [reflexivity|]. cbn [fst snd].
      change (0 / 128)%Z with 0%Z. rewrite Z.add_0_r, Hvf. unfold kv_head.
      rewrite Hnh, Hkvh, Z.div_same, Z.div_1_r, Hhd by lia. do 2 f_equal.
      change (0 mod 128)%Z with 0%Z. lia.
    - intros b Hb. unfold num_blocks in Hb. rewrite Hlen in Hb. change ((1 + 127) / 128)%Z with 1%Z in Hb.
      replace (s * max_blocks_per_seq l + b)%Z with (s * max_blocks_per_seq l)%Z by lia. eauto. }
  destruct (lane0_launches floor' of_bits to_bits red l qf kf vf outg s h 0)
    as (o1 & o2 & H1 & _ & Hv1 & _); [done|done|done|lia|lia|by rewrite Htok|].
  exists o, o1. split; [exact Ho|]. split; [exact H1|].
  rewrite Htok, softmax_average_one, Hval, Z.add_0_r in Hv1. split; [|by apply Hv1].
  rewrite arr_get_lookup by nia. assert (in_out p 0 h 0) as Hin by (unfold in_out; lia).
  specialize (Hov 0%Z h 0%Z Hin). unfold cpu_tokens in Hov. rewrite Hn1 in Hov.
  change (seqZ 0 1) with [0%Z] in Hov. cbn [fmap list_fmap] in Hov.
  by rewrite softmax_average_one, Z.mul_0_l, Z.add_0_l, !Z.add_0_r in Hov.
Qed.

(** ** Witnesses *)

(** The request of [demo_launch] on the CPU: one head of 4 elements, two keys. *)
Definition exact_params : kllm_attention_params R := AttentionParams 1 4 2 1 1.

Definition exact_tensor (f : Z -> Z) (n : Z) : tensor :=
  fun i => if (0 <=? i)%Z && (i <? n)%Z then Some (f i) else None.

Lemma exact_tensor_is f n : tensor_is (exact_tensor f n) f n.
Proof.
  intros i Hi. unfold exact_tensor. by rewrite (proj2 (Z.leb_le _ _)), (proj2 (Z.ltb_lt _ _)) by lia.
Qed.

Lemma exact_dims : dims_wf exact_params.
Proof. split; cbn; lia. Qed.

Lemma exact_same : same_request exact_params (demo_launch 1) 0 (fun _ => 1%Z) (fun i => (i / 4)%Z)
  (fun _ => 3%Z) (fun _ => 1%Z) (fun _ i => (i / 4)%Z) (fun _ _ => 3%Z).
Proof.
  split.
  - repeat split.
  - intros b Hb. change (num_blocks (demo_launch 1) 0) with 1%Z in Hb.
    assert (b = 0)%Z as -> by lia. eexists. split; reflexivity.
  - done.
  - intros t h d Ht Hh Hd. cbn in Ht, Hh, Hd. split; [|done]. cbn [exact_params at_num_heads at_head_dim].
    assert (h = 0)%Z as -> by lia. rewrite Z.mod_small by lia. f_equal. lia.
Qed.

Lemma cpu_gpu_agree_witness :
  let _ := real_arith (-1) IZR in
  let _ := real_fns (fun _ => 7%Z) in
  let _ := real_avx512 IZR in
  let _ := real_device (-2) IZR (fun _ => 7%Z) (fun _ => 0) in
  exists o o1,
    kllm_ace_attention (Build true true) ISA_AMX_BF16 (Some (exact_tensor (fun _ => 1%Z) 4))
      (Some (exact_tensor (fun i => (i / 4)%Z) 8)) (Some (exact_tensor (fun _ => 3%Z) 8))
      (Some (zeroed 4)) (Some exact_params) = Some (0%Z, Some o) /\
    kllm_gpu_paged_attention_cuda true (demo_launch 1) [9%Z; 9%Z; 9%Z; 9%Z] = Some (0%Z, o1) /\
    arr_get o 0 = arr_get o1 0.
Proof.
  destruct (cpu_gpu_agree (-1) (-2) IZR (fun _ => 7%Z) (fun _ => 0) (Build true true) ISA_AMX_BF16
    exact_params (demo_launch 1) _ _ _ (fun _ => 1%Z) (fun i => (i / 4)%Z) (fun _ => 3%Z) (zeroed 4)
    _ _ _ [9%Z; 9%Z; 9%Z; 9%Z] 0 0 0 exact_dims
    (exact_tensor_is _ 4) (exact_tensor_is _ 8) (exact_tensor_is _ 8) eq_refl
    (demo_launch_ok 1)) as (o & o1 & o2 & x & Ho & H1 & _ & Hc & Hv & _).
  - vm_compute. congruence.
  - exact exact_same.
  - cbn. lia.
  - cbn. lia.
  - cbn. lia.
  - exists o, o1. split; [exact Ho|]. split; [exact H1|]. etransitivity; [exact Hc|].
    symmetry. exact (Hv eq_refl).
Defined.

Lemma attention_bounded_witness :
  let _ := real_arith (-1) IZR in
  let _ := real_fns (fun _ => 7%Z) in
  let _ := real_avx512 IZR in
  exists o,
    kllm_ace_attention (Build true true) ISA_NONE (Some (exact_tensor (fun _ => 1%Z) 4))
      (Some (exact_tensor (fun i => (i / 4)%Z) 8)) (Some (exact_tensor (fun i => (i mod 3)%Z) 8))
      (Some (zeroed 4)) (Some exact_params) = Some (0%Z, Some o).
Proof.
  destruct (attention_bounded (-1) IZR (fun _ => 7%Z) (Build true true) ISA_NONE exact_params
    _ _ _ (fun _ => 1%Z) (fun i => (i / 4)%Z) (fun i => (i mod 3)%Z) (zeroed 4) 0 0 1 0 2 exact_dims
    (exact_tensor_is _ 4) (exact_tensor_is _ 8) (exact_tensor_is _ 8) eq_refl) as (o & x & Ho & _).
  - unfold in_out. cbn. lia.
  - intros si _. set (i := (_ + 1)%Z). pose proof (Z.mod_pos_bound i 3).
    split; apply IZR_le; lia.
  - exists o. exact Ho.
Defined.
