(* ===== verification/Benchmark.v ===== *)
(** * The tokenizer benchmark

    Models [tests/bench_tokenizer.c] without its device: the life of the
    reference tokenizer, the record of the samples, [bench_userspace] and
    [print_result]; [DeviceTests] models [bench_kernel] and [main].

    The heap is the one of [Lifetimes], and [malloc] may fail at any call.  The
    clock is a function from the number of the reading to nanoseconds.  [qsort]
    with [cmp_u64] has one possible result, which is computed by merge sort.
    The printed line is a record of its values.

    The file proves that the benchmark runs every prompt through the tokenizer,
    releases what it allocates, and prints the percentiles it names. *)

From Stdlib Require Import ZArith Lia SpecFloat.
From stdpp Require Import base numbers list gmap sets sorting infinite.
From S2P Require Import Prelude Floats TokenRing Tokenizer RefTokenizer Lifetimes.

#[local] Open Scope Z_scope.

Definition MAX_PROMPT_LEN : Z := 4096.
Definition MAX_LATENCIES : Z := 10000.

(** ** The samples *)

Record bench_result : Type := BenchResult {
  br_total_ns : Z;
  br_total_tokens : Z;
  latencies : list Z;
  num_samples : Z;
}.

(** [memset] to zero. *)
Definition bench_result0 : bench_result := BenchResult 0 0 (zeroed MAX_LATENCIES) 0.

(** The end of an iteration: the tokens, and the latency while there is room. *)
Definition add_sample (r : bench_result) (n dt : Z) : option bench_result :=
  let total := u64 (br_total_tokens r + n) in
  if num_samples r <? MAX_LATENCIES then
    l ← arr_set (latencies r) (num_samples r) dt;
    Some (BenchResult (br_total_ns r) total l (u32 (num_samples r + 1)))
  else Some (BenchResult (br_total_ns r) total (latencies r) (num_samples r)).

Definition set_total_ns (r : bench_result) (ns : Z) : bench_result :=
  BenchResult ns (br_total_tokens r) (latencies r) (num_samples r).

(** ** The report *)

Definition cmp_u64 (va vb : Z) : Z := Z.b2z (vb <? va) - Z.b2z (va <? vb).

Definition at_most (cmp : Z -> Z -> Z) (a b : Z) : Prop := cmp a b <= 0.

#[export] Instance at_most_dec cmp : RelDecision (at_most cmp).
Proof. intros a b. unfold at_most. apply _. Defined.

(** [qsort] of the first [n] elements; more than the array holds is undefined. *)
Definition qsort (l : list Z) (n : Z) (cmp : Z -> Z -> Z) : option (list Z) :=
  part ← arr_slice l 0 n;
  Some (merge_sort (at_most cmp) part ++ drop (Z.to_nat n) l).

(** [(uint32_t)x]: truncation, undefined when the result does not fit. *)
Definition f64_to_u32 (x : spec_float) : option Z :=
  match x with
  | S754_zero _ => Some 0
  | S754_finite s m e =>
      let t := if 0 <=? e then Z.pos m * 2 ^ e else Z.shiftr (Z.pos m) (- e) in
      if s then (if t =? 0 then Some 0 else None)
      else if t <? 2 ^ 32 then Some t else None
  | _ => None
  end.

Record report : Type := Report {
  throughput : spec_float;
  p50_us : Z;
  p99_us : Z;
  p999_us : Z;
  rep_tokens : Z;
  total_ms : spec_float;
}.

(** [None] inside for "no samples"; the samples are sorted in place. *)
Definition print_result (r : bench_result) : option (option report * bench_result) :=
  if num_samples r =? 0 then Some (None, r)
  else
    l ← qsort (latencies r) (num_samples r) cmp_u64;
    let thr := f64_div (f64_mul (f64_of_Z (br_total_tokens r)) (f64_of_Z (10 ^ 9)))
                 (f64_of_Z (br_total_ns r)) in
    p50 ← arr_get l (num_samples r / 2);
    i99 ← f64_to_u32 (f64_mul (f64_of_Z (num_samples r)) (f64_literal 99 2));
    p99 ← arr_get l i99;
    i999 ← f64_to_u32 (f64_mul (f64_of_Z (num_samples r)) (f64_literal 999 3));
    p999 ← arr_get l i999;
    Some (Some (Report thr (p50 / 1000) (p99 / 1000) (p999 / 1000) (br_total_tokens r)
                  (f64_div (f64_of_Z (br_total_ns r)) (f64_of_Z (10 ^ 6)))),
          BenchResult (br_total_ns r) (br_total_tokens r) l (num_samples r)).

(** ** The reference tokenizer on the heap *)

(** The tokenizer with the addresses of its three blocks. *)
Record tokenizer_object : Type := TokenizerObject {
  to_self : Z;
  to_bytes : option Z;
  to_merges : option Z;
  to_value : userspace_tokenizer;
}.

Definition tokenizer_blocks (t : tokenizer_object) : list (option Z) :=
  [to_bytes t; to_merges t; Some (to_self t)].

Definition destroy_tokenizer (tok : option tokenizer_object) (h : heap) : option heap :=
  match tok with
  | None => Some h
  | Some t =>
      h ← free (to_bytes t) h;
      h ← free (to_merges t) h;
      free (Some (to_self t)) h
  end.

Section bench.
Context (malloc : nat -> gset Z -> option Z) (clock : Z -> Z).

(** [create_synthetic_tokenizer] with its clean-up. *)
Definition tokenizer_create (h : heap) : option (option tokenizer_object * heap) :=
  let '(tok, h) := alloc malloc h in
  match tok with
  | None => Some (None, h)
  | Some a =>
      let '(bytes, h) := alloc malloc h in
      if is_null bytes then h ← free tok h; Some (None, h)
      else
        let '(merges, h) := alloc malloc h in
        if is_null merges then
          h ← free bytes h;
          h ← free tok h;
          Some (None, h)
        else
          Some ((fun v => TokenizerObject a bytes merges v) <$>
                  create_synthetic_tokenizer true (negb (is_null bytes)) (negb (is_null merges)), h)
  end.

(** ** The benchmark *)

(** The state of the loops: the readings of the clock so far, the result, the
    buffer of tokens and the heap. *)
Record bench_state : Type := BenchState {
  bs_tick : Z;
  bs_result : bench_result;
  bs_tokens : list Z;
  bs_heap : heap;
}.

(** One prompt; the scratch buffer of the tokenizer is allocated and freed. *)
Definition bench_prompt (tok : userspace_tokenizer) (prompt : list Z) (s : bench_state)
    : option bench_state :=
  let t0 := clock (bs_tick s) in
  let '(buf, h) := alloc malloc (bs_heap s) in
  '(n, tokens) ← userspace_tokenize (negb (is_null buf)) tok prompt (u32 (len prompt))
                   (bs_tokens s) MAX_PROMPT_LEN;
  h ← free buf h;
  let t1 := clock (bs_tick s + 1) in
  r ← add_sample (bs_result s) n (u64 (t1 - t0));
  Some (BenchState (bs_tick s + 2) r tokens h).

Definition bench_userspace (prompts : list (list Z)) (iterations tick : Z) (h : heap)
    : option (Z * option bench_result * Z * heap) :=
  '(tok, h) ← tokenizer_create h;
  match tok with
  | None => Some (-1, None, tick, h)
  | Some t =>
      let start := clock tick in
      res ← for_range (R := unit) 0 iterations (fun _ s =>
        res ← for_range (R := unit) 0 (len prompts) (fun p s =>
          prompt ← arr_get prompts p;
          s ← bench_prompt (to_value t) prompt s;
          Some (Continue s)) s;
        match res with inl s => Some (Continue s) | inr u => Some (Return u) end)
        (BenchState (tick + 1) bench_result0 (zeroed MAX_PROMPT_LEN) h);
      match res with
      | inr _ => None
      | inl s =>
          let r := set_total_ns (bs_result s) (u64 (clock (bs_tick s) - start)) in
          h ← destroy_tokenizer tok (bs_heap s);
          Some (0, Some r, bs_tick s + 1, h)
      end
  end.

(** ** Lemmas on the tokenizer *)

Hypothesis Hmalloc : malloc_law malloc.

Lemma tokenizer_destroy_ok t h :
  distinct (tokenizer_blocks t) -> pointed (tokenizer_blocks t) ⊆ blocks h ->
  exists h', destroy_tokenizer (Some t) h = Some h' /\ blocks h' = blocks h ∖ pointed (tokenizer_blocks t).
Proof.
  intros Hd Hin. destruct (free_list_ok (tokenizer_blocks t) h Hd Hin) as (h' & Hf & Hb).
  exists h'. split; [|done]. rewrite <- Hf. unfold free_list, tokenizer_blocks. simpl.
  destruct (free (to_bytes t) h) as [h1|]; [|done]. simpl. by destruct (free (to_merges t) h1).
Qed.

Lemma tokenizer_create_ok h :
  exists o h', tokenizer_create h = Some (o, h') /\
    match o with
    | None => blocks h' = blocks h
    | Some t => distinct (tokenizer_blocks t) /\ to_value t = synthetic /\
        pointed (tokenizer_blocks t) ## blocks h /\
        blocks h' = pointed (tokenizer_blocks t) ∪ blocks h
    end.
Proof.
  unfold tokenizer_create. pose proof (alloc_ok malloc Hmalloc h) as H1.
  destruct (alloc malloc h) as [[a|] h1]; destruct H1 as [Hd1 Hb1]; cbn [block_of] in *; cycle 1.
  { do 2 eexists. split; [done|]. rewrite Hb1. clear. set_solver. }
  pose proof (alloc_ok malloc Hmalloc h1) as H2. rewrite Hb1 in H2.
  destruct (alloc malloc h1) as [[b|] h2]; destruct H2 as [Hd2 Hb2]; cbn [block_of is_null] in *; cycle 1.
  { destruct (free_ok (Some a) h2) as (h' & -> & Hb'); [rewrite Hb2; clear; set_solver|].
    do 2 eexists. split; [done|]. cbn. rewrite Hb', Hb2. clear -Hd1. set_solver. }
  pose proof (alloc_ok malloc Hmalloc h2) as H3. rewrite Hb2 in H3.
  destruct (alloc malloc h2) as [[m|] h3]; destruct H3 as [Hd3 Hb3]; cbn [block_of is_null] in *; cycle 1.
  { destruct (free_ok (Some b) h3) as (h' & -> & Hb'); [rewrite Hb3; clear; set_solver|]. cbn [mbind option_bind].
    destruct (free_ok (Some a) h') as (h'' & -> & Hb'').
    { rewrite Hb', Hb3. clear -Hd2. set_solver. }
    do 2 eexists. split; [done|]. cbn. rewrite Hb'', Hb', Hb3. clear -Hd1 Hd2. set_solver. }
  do 2 eexists. split; [reflexivity|]. unfold tokenizer_blocks.
  cbn [fmap option_fmap option_map create_synthetic_tokenizer negb to_bytes to_merges to_self to_value distinct].
  rewrite !pointed_cons.
  change (pointed []) with (∅ : gset Z).
  cbn [block_of]. split; [clear -Hd1 Hd2 Hd3; set_solver|]. split; [reflexivity|]. rewrite Hb3. clear -Hd1 Hd2 Hd3.
  split; set_solver.
Qed.

#[export, refine] Instance tokenizer_life : Lifecycle malloc unit tokenizer_object := {|
  lc_ok _ := True;
  lc_wf t := distinct (tokenizer_blocks t) /\ to_value t = synthetic;
  lc_owned t := pointed (tokenizer_blocks t);
  lc_create _ h := tokenizer_create h;
  lc_destroy := destroy_tokenizer;
|}.
Proof.
  - intros _ h _. destruct (tokenizer_create_ok h) as (o & h' & Hc & Ho). exists o, h'.
    split; [exact Hc|]. destruct o; [|exact Ho]. by destruct Ho as (? & ? & ? & ?).
  - intros t h [Hd _]. by apply tokenizer_destroy_ok.
  - done.
Defined.

(** ** Lemmas on the benchmark *)

(** The tokens of a prompt. *)
Definition tokens_of (prompt : list Z) : Z :=
  len (reference (ut_merges synthetic) (byte_tokens synthetic prompt (len prompt))).

Definition never_fails : Prop := forall n B, is_Some (malloc n B).

(** After [k] prompts, of [total] tokens if no allocation failed. *)
Record bench_inv (B : gset Z) (k total : Z) (s : bench_state) : Prop := {
  bi_heap : blocks (bs_heap s) = B;
  bi_tokens : len (bs_tokens s) = MAX_PROMPT_LEN;
  bi_latencies : len (latencies (bs_result s)) = MAX_LATENCIES;
  bi_samples : num_samples (bs_result s) = Z.min k MAX_LATENCIES;
  bi_values : Forall (fits 64) (take (Z.to_nat (num_samples (bs_result s))) (latencies (bs_result s)));
  bi_total : never_fails -> br_total_tokens (bs_result s) = u64 total;
}.

Lemma add_sample_ok r n dt k :
  len (latencies r) = MAX_LATENCIES -> 0 <= k -> num_samples r = Z.min k MAX_LATENCIES -> fits 64 dt ->
  Forall (fits 64) (take (Z.to_nat (num_samples r)) (latencies r)) ->
  exists r', add_sample r n dt = Some r' /\ br_total_tokens r' = u64 (br_total_tokens r + n) /\
    len (latencies r') = MAX_LATENCIES /\ num_samples r' = Z.min (k + 1) MAX_LATENCIES /\
    Forall (fits 64) (take (Z.to_nat (num_samples r')) (latencies r')).
Proof.
  intros Hl Hk Hn Hdt Hall. unfold add_sample, MAX_LATENCIES in *.
  destruct (Z.ltb_spec (num_samples r) 10000); [|eexists; split; [done|]; simpl; split_and!; (done || lia)].
  rewrite arr_set_in by lia. eexists. split; [done|]. simpl. rewrite length_insert.
  rewrite (wrap_small 32) by (unfold fits; lia). split_and!; [done|done|lia|].
  replace (Z.to_nat (num_samples r + 1)) with (S (Z.to_nat (num_samples r))) by lia.
  erewrite take_S_r by (apply list_lookup_insert_eq; lia). rewrite take_insert_ge by lia.
  by rewrite Forall_app, Forall_singleton.
Qed.

Lemma bench_prompt_ok B k total prompt s :
  len prompt <= MAX_PROMPT_LEN -> 0 <= k -> bench_inv B k total s ->
  exists s', bench_prompt synthetic prompt s = Some s' /\ bench_inv B (k + 1) (total + tokens_of prompt) s'.
Proof.
  intros Hp Hk [HB Ht Hl Hn Hv Htot]. unfold bench_prompt.
  pose proof (alloc_ok malloc Hmalloc (bs_heap s)) as Ha.
  assert (never_fails -> is_null (fst (alloc malloc (bs_heap s))) = false) as Hnf.
  { intros Hne. unfold alloc. by destruct (Hne (calls (bs_heap s)) (blocks (bs_heap s))) as [a ->]. }
  destruct (alloc malloc (bs_heap s)) as [buf h]. destruct Ha as [Hd Hb]. cbn [fst] in Hnf.
  unfold MAX_PROMPT_LEN in *. rewrite (wrap_small 32) by (unfold fits; lia).
  assert (exists n tokens, userspace_tokenize (negb (is_null buf)) synthetic prompt (len prompt)
      (bs_tokens s) 4096 = Some (n, tokens) /\ len tokens = 4096 /\
      (never_fails -> n = tokens_of prompt)) as (n & tokens & -> & Htl & Hnt).
  { destruct buf as [a|]; simpl negb; cycle 1.
    { do 2 eexists. split; [done|]. split; [done|]. intros Hne. by specialize (Hnf Hne). }
    rewrite userspace_tokenize_ok by (done || lia). do 2 eexists. split; [done|].
    pose proof (reference_length (ut_merges synthetic) (byte_tokens synthetic prompt (len prompt))) as Hr.
    unfold byte_tokens in Hr at 2. rewrite length_fmap, length_take in Hr.
    rewrite length_app, length_drop. split; [lia|done]. }
  cbn [mbind option_bind]. destruct (free_ok buf h) as (h' & -> & Hb'); [rewrite Hb; set_solver|].
  cbn [mbind option_bind].
  destruct (add_sample_ok (bs_result s) n (u64 (clock (bs_tick s + 1) - clock (bs_tick s))) k)
    as (r & -> & Hrt & Hrl & Hrn & Hrv); [done..|by apply wrap_fits|done|].
  eexists. split; [done|]. split; simpl; [|done..|].
  - rewrite Hb', Hb, HB in *. set_solver.
  - intros Hne. rewrite Hrt, Htot, Hnt by done. unfold wrap. by rewrite Zplus_mod_idemp_l.
Qed.

(** The tokens of one round. *)
Definition round_tokens (prompts : list (list Z)) : Z := foldr Z.add 0 (tokens_of <$> prompts).

Lemma round_tokens_snoc prompts p : round_tokens (prompts ++ [p]) = round_tokens prompts + tokens_of p.
Proof.
  unfold round_tokens. rewrite fmap_app, foldr_app. simpl.
  induction (tokens_of <$> prompts) as [|x l IH]; simpl; lia.
Qed.

Lemma bench_round_ok prompts B k total s :
  Forall (fun p => len p <= MAX_PROMPT_LEN) prompts -> 0 <= k -> bench_inv B k total s ->
  exists s', for_range (R := unit) 0 (len prompts) (fun p s =>
      prompt ← arr_get prompts p;
      s ← bench_prompt synthetic prompt s;
      Some (Continue s)) s = Some (inl s') /\
    bench_inv B (k + len prompts) (total + round_tokens prompts) s'.
Proof.
  intros Hall Hk Hs.
  replace (round_tokens prompts) with (round_tokens (take (Z.to_nat (len prompts)) prompts))
    by (by rewrite Nat2Z.id, firstn_all).
  apply (for_range_inv (fun j => bench_inv B (k + j) (total + round_tokens (take (Z.to_nat j) prompts))));
    [lia|by rewrite !Z.add_0_r|].
  intros j t Hj Ht. rewrite arr_get_lookup by lia.
  destruct (lookup_lt_is_Some_2 prompts (Z.to_nat j)) as [p Hp]; [lia|]. rewrite Hp. cbn [mbind option_bind].
  destruct (bench_prompt_ok B (k + j) (total + round_tokens (take (Z.to_nat j) prompts)) p t)
    as (t' & -> & Ht'); [|lia|done|].
  { rewrite Forall_lookup in Hall. by eapply (Hall _ _ Hp). }
  eexists. split; [done|]. rewrite Z.add_assoc, (Z2Nat.inj_add j 1), Nat.add_1_r by lia.
  erewrite take_S_r, round_tokens_snoc by done. by rewrite Z.add_assoc.
Qed.

Lemma bench_userspace_ok prompts iterations tick h :
  Forall (fun p => len p <= MAX_PROMPT_LEN) prompts -> 0 <= iterations ->
  exists rc r tick' h', bench_userspace prompts iterations tick h = Some (rc, r, tick', h') /\
    blocks h' = blocks h /\
    match r with
    | None => rc = -1 /\ ~ never_fails
    | Some r => rc = 0 /\ len (latencies r) = MAX_LATENCIES /\
        num_samples r = Z.min (iterations * len prompts) MAX_LATENCIES /\
        Forall (fits 64) (take (Z.to_nat (num_samples r)) (latencies r)) /\
        (never_fails -> br_total_tokens r = u64 (iterations * round_tokens prompts))
    end.
Proof.
  intros Hall Hit. unfold bench_userspace.
  destruct (tokenizer_create_ok h) as (o & h1 & Hc & Ho). rewrite Hc. cbn [mbind option_bind].
  destruct o as [t|]; cycle 1.
  { do 4 eexists. split; [done|]. split; [done|]. split; [done|]. intros Hne. revert Hc.
    unfold tokenizer_create, alloc. do 3 (edestruct Hne as [? ->]; simpl). done. }
  destruct Ho as (Hd & -> & Hdis & Hb1).
  edestruct (for_range_inv (R := unit) (fun i => bench_inv (blocks h1) (i * len prompts)
    (i * round_tokens prompts))) as (s & -> & Hs); [exact Hit| | |].
  - split; cbn; rewrite ?zeroed_len; done.
  - intros i s Hi Hs.
    destruct (bench_round_ok prompts (blocks h1) (i * len prompts) (i * round_tokens prompts) s)
      as (s' & -> & Hs'); [done|nia|done|].
    cbn [mbind option_bind]. eexists. split; [done|]. by rewrite !Z.mul_add_distr_r, !Z.mul_1_l.
  - cbn [mbind option_bind]. destruct Hs as [HB _ Hl Hn Hv Htot].
    destruct (tokenizer_destroy_ok t (bs_heap s) Hd) as (h' & -> & Hb'); [rewrite HB, Hb1; set_solver|].
    cbn [mbind option_bind]. do 4 eexists. split; [done|]. split; [rewrite Hb', HB, Hb1; set_solver|].
    by split_and!.
Qed.

End bench.

(** ** Lemmas on the report *)

Lemma cmp_u64_le a b : at_most cmp_u64 a b <-> a <= b.
Proof. unfold at_most, cmp_u64. destruct (Z.ltb_spec b a), (Z.ltb_spec a b); simpl; lia. Qed.

#[local] Instance cmp_u64_total : Total (at_most cmp_u64).
Proof. intros a b. rewrite !cmp_u64_le. lia. Qed.

#[local] Instance cmp_u64_trans : Transitive (at_most cmp_u64).
Proof. intros a b c. rewrite !cmp_u64_le. lia. Qed.

Lemma sorted_lookup s :
  (forall i j x y, (i <= j)%nat -> s !! i = Some x -> s !! j = Some y -> x <= y) -> Sorted Z.le s.
Proof.
  induction s as [|x s IH]; intros Hs; constructor.
  - apply IH. intros i j a b Hij. apply (Hs (S i) (S j)). lia.
  - destruct s as [|y s]; constructor. by apply (Hs 0%nat 1%nat x y); [lia|..].
Qed.

(** The sorted samples: a permutation of them, in ascending order. *)
Lemma qsort_ok l n :
  0 <= n <= len l ->
  exists s, qsort l n cmp_u64 = Some (s ++ drop (Z.to_nat n) l) /\ len s = n /\
    Permutation s (take (Z.to_nat n) l) /\
    forall i j x y, (i <= j)%nat -> s !! i = Some x -> s !! j = Some y -> x <= y.
Proof.
  intros Hn. unfold qsort. rewrite arr_slice_in by lia. cbn [mbind option_bind]. rewrite drop_0.
  set (p := take (Z.to_nat n) l). exists (merge_sort (at_most cmp_u64) p).
  pose proof (merge_sort_Permutation (at_most cmp_u64) p) as Hp.
  split; [done|]. split; [rewrite Hp; unfold p; rewrite length_take; lia|]. split; [done|].
  intros i j x y Hij Hx Hy. destruct (decide (i = j)) as [->|]; [simplify_eq; lia|].
  apply cmp_u64_le. eapply (StronglySorted_app_1_elem_of _ (take j (merge_sort (at_most cmp_u64) p))
    (drop j (merge_sort (at_most cmp_u64) p))).
  - rewrite take_drop. apply (StronglySorted_merge_sort _ _).
  - apply list_elem_of_lookup_2 with i. rewrite lookup_take_lt by lia. exact Hx.
  - apply list_elem_of_lookup_2 with 0%nat. rewrite lookup_drop, Nat.add_0_r. exact Hy.
Qed.

(** The index of a percentile is the exact one for every number of samples. *)
Fixpoint percentiles_exact (k : nat) (n : Z) (p99 p999 : spec_float) : bool :=
  match k with
  | O => true
  | S k =>
      bool_decide (f64_to_u32 (f64_mul (f64_of_Z n) p99) = Some (n * 99 / 100)) &&
      bool_decide (f64_to_u32 (f64_mul (f64_of_Z n) p999) = Some (n * 999 / 1000)) &&
      percentiles_exact k (n + 1) p99 p999
  end.

Lemma percentiles_checked :
  percentiles_exact (Z.to_nat MAX_LATENCIES) 1 (f64_literal 99 2) (f64_literal 999 3) = true.
Proof. vm_compute. reflexivity. Qed.

Lemma percentiles_exact_at k n p99 p999 m :
  percentiles_exact k n p99 p999 = true -> n <= m < n + Z.of_nat k ->
  f64_to_u32 (f64_mul (f64_of_Z m) p99) = Some (m * 99 / 100) /\
  f64_to_u32 (f64_mul (f64_of_Z m) p999) = Some (m * 999 / 1000).
Proof.
  revert n. induction k as [|k IH]; intros n; cbn [percentiles_exact]; [lia|].
  intros [[H99%bool_decide_eq_true H999%bool_decide_eq_true]%andb_true_iff Hk]%andb_true_iff Hm.
  destruct (decide (m = n)) as [->|]; [done|]. apply (IH (n + 1)); [done|lia].
Qed.

(** What a report says of the samples. *)
Lemma print_result_ok r :
  len (latencies r) = MAX_LATENCIES -> 0 < num_samples r <= MAX_LATENCIES ->
  let n := num_samples r in
  exists s rep r', print_result r = Some (Some rep, r') /\
    Permutation s (take (Z.to_nat n) (latencies r)) /\
    (forall i j x y, (i <= j)%nat -> s !! i = Some x -> s !! j = Some y -> x <= y) /\
    p50_us rep = s !!! Z.to_nat (n / 2) / 1000 /\
    p99_us rep = s !!! Z.to_nat (n * 99 / 100) / 1000 /\
    p999_us rep = s !!! Z.to_nat (n * 999 / 1000) / 1000 /\
    p50_us rep <= p99_us rep /\ p99_us rep <= p999_us rep.
Proof.
  intros Hl Hn n. destruct (qsort_ok (latencies r) n) as (s & Hq & Hs & Hp & Hsort); [lia|].
  destruct (percentiles_exact_at (Z.to_nat MAX_LATENCIES) 1 _ _ n percentiles_checked) as [H99 H999];
    [unfold MAX_LATENCIES in *; lia|].
  assert (forall i, 0 <= i < n -> arr_get (s ++ drop (Z.to_nat n) (latencies r)) i = Some (s !!! Z.to_nat i))
    as Hget.
  { intros i Hi. rewrite arr_get_lookup, lookup_app_l by lia. apply list_lookup_lookup_total_lt. lia. }
  unfold print_result. fold n. rewrite (proj2 (Z.eqb_neq n 0)), Hq by lia. cbn [mbind option_bind].
  rewrite H99, H999. cbn [mbind option_bind]. rewrite !Hget by dlia. cbn [mbind option_bind].
  exists s. do 2 eexists. split; [done|]. split; [done|]. split; [done|]. do 3 (split; [done|]).
  cbn [p50_us p99_us p999_us].
  assert (forall i j, 0 <= i <= j -> j < n -> s !!! Z.to_nat i / 1000 <= s !!! Z.to_nat j / 1000) as Hle.
  { intros i j Hi Hj. apply Z.div_le_mono; [lia|].
    apply (Hsort (Z.to_nat i) (Z.to_nat j)); [lia|apply list_lookup_lookup_total_lt; lia..]. }
  split; apply Hle; dlia.
Qed.

(** ** Theorem *)

(** The benchmark of the reference tokenizer, with an allocator that may fail at
    any call, on any prompts that fit the buffer: it is memory safe, gives the
    heap back, and either cannot allocate the tokenizer or samples every prompt
    of every iteration, up to 10000.  The report of these samples stays inside
    of them, sorts them, names the samples of ranks n/2, 99n/100 and 999n/1000,
    computed in doubles, and these are ordered. *)
Theorem benchmark_ok malloc clock prompts iterations tick h :
  malloc_law malloc -> Forall (fun p => len p <= MAX_PROMPT_LEN) prompts -> 0 <= iterations ->
  exists ret r tick' h', bench_userspace malloc clock prompts iterations tick h = Some (ret, r, tick', h') /\
    blocks h' = blocks h /\
    match r with
    | None => ret = -1 /\ ~ never_fails malloc
    | Some r =>
        let n := Z.min (iterations * len prompts) MAX_LATENCIES in
        ret = 0 /\ num_samples r = n /\
        (never_fails malloc -> br_total_tokens r = u64 (iterations * round_tokens prompts)) /\
        (0 < n -> exists s rep r', print_result r = Some (Some rep, r') /\
          Permutation s (take (Z.to_nat n) (latencies r)) /\ Sorted Z.le s /\
          p50_us rep = s !!! Z.to_nat (n / 2) / 1000 /\
          p99_us rep = s !!! Z.to_nat (n * 99 / 100) / 1000 /\
          p999_us rep = s !!! Z.to_nat (n * 999 / 1000) / 1000 /\
          p50_us rep <= p99_us rep <= p999_us rep)
    end.
Proof.
  intros Hm Hp Hit.
  destruct (bench_userspace_ok malloc clock Hm prompts iterations tick h Hp Hit)
    as (ret & r & tick' & h' & Hrun & Hb & Hr).
  exists ret, r, tick', h'. split; [done|]. split; [done|]. destruct r as [r|]; [|done].
  destruct Hr as (-> & Hl & Hn & _ & Htot). split; [done|]. split; [done|]. split; [done|].
  intros Hpos. rewrite <- Hn in *.
  destruct (print_result_ok r Hl) as (s & rep & r' & Hpr & Hs & Hsort & H50 & H99 & H999 & Ho1 & Ho2);
    [unfold MAX_LATENCIES in *; lia|].
  exists s, rep, r'. split; [done|]. split; [done|]. split; [by apply sorted_lookup|].
  by split_and!.
Qed.

(** ** Witness *)

Definition steady_malloc (_ : nat) (h : gset Z) : option Z := Some (base.fresh h).

(** Two rounds over "Hello". *)
Lemma benchmark_ok_witness :
  exists r tick' h',
    bench_userspace steady_malloc (fun n => 1000 * n * n) [[72; 101; 108; 108; 111]] 2 0 (Heap 0 {[100]}) =
      Some (0, Some r, tick', h') /\
    blocks h' = {[100]} /\ num_samples r = 2 /\ br_total_tokens r = 6 /\
    exists rep r', print_result r = Some (Some rep, r') /\ p50_us rep <= p99_us rep.
Proof.
  destruct (benchmark_ok steady_malloc (fun n => 1000 * n * n) [[72; 101; 108; 108; 111]] 2 0 (Heap 0 {[100]}))
    as (ret & r & tick' & h' & Hrun & Hb & Hr).
  - intros n h a [= <-]. apply is_fresh.
  - repeat constructor. vm_compute. discriminate.
  - lia.
  - destruct r as [r|]; [|destruct Hr as [_ []]; intros n B; by eexists].
    cbv beta iota zeta in Hr. destruct Hr as (-> & Hn & Ht & Hp). exists r, tick', h'. split; [exact Hrun|].
    split; [exact Hb|]. split; [exact Hn|].
    split; [rewrite Ht; [vm_compute; reflexivity|intros n B; by eexists]|].
    destruct Hp as (s & rep & r' & Hpr & _ & _ & _ & _ & _ & [Hle _]); [reflexivity|].
    exists rep, r'. exact (conj Hpr Hle).
Defined.
