(* ===== verification/DeviceTests.v ===== *)
(** * The tests that run against the device

    Models [tests/test_ebpf_tokenizer.c], [test_chardev_path] and [main] of
    [tests/test_e2e_latency.c], and [bench_kernel] and [main] of
    [tests/bench_tokenizer.c], on the device of [FileOps].

    The programs open the device, map its token ring and check the magic number
    in the same way, which is [open_ring].  The mapped ring is the ring of the
    device: what a program consumes is gone for the others.  Whether the device
    can be opened, the results of the allocations and copies of a [write] and the
    clock are functions of an environment; between a prompt and the [read] of
    its answer any calls of other clients can happen.

    The file proves what the programs find: the tokenizer test passes exactly
    when the ring holds the expected tokens, which no [write] can bring about;
    the benchmark of the kernel path counts no token; the latency test measures
    every iteration in which another client answers. *)

From Stdlib Require Import ZArith Lia String Ascii SpecFloat.
From stdpp Require Import base numbers list gmap sets.
From S2P Require Import Prelude Floats TokenRing Chardev FileOps RefTokenizer Arena Wavefront InferGpu Attention Pipeline Lifetimes Benchmark.

#[local] Open Scope Z_scope.

(** ** Strings and arguments *)

Definition bytes_of (s : string) : list Z := (fun a => Z.of_N (N_of_ascii a)) <$> list_ascii_of_string s.

Definition digit (c : Z) : option Z := if (48 <=? c) && (c <=? 57) then Some (c - 48) else None.

Fixpoint digits (acc : Z) (s : list Z) : Z :=
  match s with
  | [] => acc
  | c :: s => match digit c with Some d => digits (10 * acc + d) s | None => acc end
  end.

Fixpoint skip_spaces (s : list Z) : list Z :=
  match s with
  | c :: s' => if (c =? 32) || ((9 <=? c) && (c <=? 13)) then skip_spaces s' else s
  | [] => []
  end.

(** [atoi]: undefined when the number is no [int]. *)
Definition atoi (s : string) : option Z :=
  let n := match skip_spaces (bytes_of s) with
           | 45 :: ds => - digits 0 ds
           | 43 :: ds => digits 0 ds
           | ds => digits 0 ds
           end in
  if (- 2 ^ 31 <=? n) && (n <? 2 ^ 31) then Some n else None.

Definition BENCH_ITERATIONS : Z := 100.
Definition LATENCY_ITERATIONS : Z := 10.
Definition RING_SIZE : Z := 2097152.

(** ** The environment *)

Record dev_env : Type := DevEnv {
  de_open : string -> bool;
  de_start : Z;
  de_flags : Z;
  de_write : Z -> bool * bool;
  de_fault : Z -> bool;
  de_clock : Z -> Z;
}.

Definition CHARDEV_PATH : string := "/dev/llm_prompt1".

(** The device with another token ring. *)
Definition set_ring (w : world) (r : ring) : world :=
  let d := w_dev w in
  World (Device (Some r) (ring_page d) (resp_ring d) (resp_head d) (resp_tail d) (resp_mask d)) (w_files w).

Section tests.
Context `{KL : KernelLib} (remap : vm_area -> Z) (e : dev_env).

(** Opens the device and maps the ring: the descriptor, or nothing after the
    clean-up of a failure. *)
Definition open_ring (path : string) (w : world) : option (option nat * world) :=
  if negb (de_open e path) then Some (None, w)
  else
    let fd := length (w_files w) in
    '(_, w) ← kllm_fops remap w (SysOpen false);
    '(map, w) ← kllm_fops remap w (SysMmap fd
       (VmArea (de_start e) (de_start e + RING_SIZE) 0 (de_flags e)));
    if negb (rc map =? 0) then
      '(_, w) ← kllm_fops remap w (SysClose fd);
      Some (None, w)
    else
      ring ← token_ring (w_dev w);
      if negb (magic ring =? KLLM_TOKEN_RING_MAGIC) then
        '(_, w) ← kllm_fops remap w (SysClose fd);
        Some (None, w)
      else Some (Some fd, w).

(** The [write] of a prompt: number [i] of the program. *)
Definition write_prompt (i : Z) (fd : nat) (prompt : list Z) (w : world) : option (reply * world) :=
  let '(kvmalloc_ok, copy_ok) := de_write e i in
  kllm_fops remap w (SysWrite fd (len prompt) kvmalloc_ok copy_ok).

(** ** test_ebpf_tokenizer.c *)

Record test_case : Type := TestCase {
  tc_prompt : list Z;
  expected_tokens : list Z;
  expected_len : Z;
}.

Definition tests : list test_case := [TestCase (bytes_of "Hello world") [9906; 1917] 2].

Definition run_test (i : Z) (fd : nat) (tc : test_case) (w : world) : option (Z * world) :=
  '(written, w) ← write_prompt i fd (tc_prompt tc) w;
  if rc written <? 0 then Some (-1, w)
  else
    ring ← token_ring (w_dev w);
    let tokens_produced := user_ring_available ring in
    if negb (tokens_produced =? expected_len tc) then Some (-1, w)
    else
      '(consumed, got, ring) ← kllm_ring_consume_batch ring (zeroed 4096) tokens_produced;
      let w := set_ring w ring in
      res ← for_range 0 consumed (fun j _ =>
        g ← arr_get got j;
        x ← arr_get (expected_tokens tc) j;
        if g =? x then Some (Continue tt) else Some (Return tt)) tt;
      match res with
      | inl _ => Some (0, w)
      | inr _ => Some (-1, w)
      end.

(** [argv] is without the name of the program. *)
Definition tokenizer_test_main (argv : list string) (w : world) : option (Z * world) :=
  let devpath := match argv with
                 | a :: path :: _ => if String.eqb a "--chardev" then path else CHARDEV_PATH
                 | _ => CHARDEV_PATH
                 end in
  '(fd, w) ← open_ring devpath w;
  match fd with
  | None => Some (1, w)
  | Some fd =>
      res ← for_range (R := unit) 0 (len tests) (fun i '(failures, w) =>
        tc ← arr_get tests i;
        '(ret, w) ← run_test i fd tc w;
        Some (Continue (if ret <? 0 then failures + 1 else failures, w))) (0, w);
      match res with
      | inr _ => None
      | inl (failures, w) =>
          '(_, w) ← kllm_fops remap w (SysClose fd);
          Some (if 0 <? failures then 1 else 0, w)
      end
  end.

(** ** bench_tokenizer.c *)

Record kbench : Type := KBench {
  kb_tick : Z;
  kb_result : bench_result;
  kb_tokens : list Z;
  kb_world : world;
}.

(** One prompt: [None] inside ends the round. *)
Definition kernel_prompt (fd : nat) (prompt : list Z) (s : kbench) : option (kbench + kbench) :=
  let t0 := de_clock e (kb_tick s) in
  '(wr, w) ← write_prompt (kb_tick s) fd prompt (kb_world s);
  if rc wr <? 0 then Some (inr (KBench (kb_tick s + 1) (kb_result s) (kb_tokens s) w))
  else
    ring ← token_ring (w_dev w);
    '(n, tokens, ring) ← kllm_ring_consume_batch ring (kb_tokens s) MAX_PROMPT_LEN;
    let t1 := de_clock e (kb_tick s + 1) in
    r ← add_sample (kb_result s) n (u64 (t1 - t0));
    Some (inl (KBench (kb_tick s + 2) r tokens (set_ring w ring))).

Definition bench_kernel (prompts : list (list Z)) (iterations tick : Z) (w : world)
    : option (Z * option bench_result * world) :=
  '(fd, w) ← open_ring CHARDEV_PATH w;
  match fd with
  | None => Some (-1, None, w)
  | Some fd =>
      let start := de_clock e tick in
      res ← for_range (R := unit) 0 iterations (fun _ s =>
        res ← for_range (R := unit) 0 (len prompts) (fun p s =>
          prompt ← arr_get prompts p;
          s ← kernel_prompt fd prompt s;
          match s with
          | inl s => Some (Continue s)
          | inr s => Some (Break s)
          end) s;
        match res with inl s => Some (Continue s) | inr u => Some (Return u) end)
        (KBench (tick + 1) bench_result0 (zeroed MAX_PROMPT_LEN) w);
      match res with
      | inr _ => None
      | inl s =>
          let r := set_total_ns (kb_result s) (u64 (de_clock e (kb_tick s) - start)) in
          '(_, w) ← kllm_fops remap (kb_world s) (SysClose fd);
          Some (0, Some r, w)
      end
  end.

Definition prompts : list (list Z) := bytes_of <$>
  ["Hello world";
   "The quick brown fox jumps over the lazy dog";
   "In a hole in the ground there lived a hobbit";
   "To be or not to be, that is the question";
   "Four score and seven years ago our fathers brought forth on this continent a new nation"]%string.

Fixpoint bench_iterations (argv : list string) (iterations : Z) : option Z :=
  match argv with
  | [] => Some iterations
  | a :: rest =>
      match rest with
      | v :: rest' =>
          if String.eqb a "--iterations" then n ← atoi v; bench_iterations rest' n
          else bench_iterations rest iterations
      | [] => Some iterations
      end
  end.

(** The reports of the two paths, and the speedup with whether it is the
    kernel's. *)
Record bench_output : Type := BenchOutput {
  out_userspace : option report;
  out_kernel : option report;
  out_speedup : option (spec_float * bool);
}.

Definition speedup_of (user kernel : bench_result) : option (spec_float * bool) :=
  if (0 <? br_total_ns user) && (0 <? br_total_ns kernel) then
    let speedup := f64_div (f64_of_Z (br_total_ns user)) (f64_of_Z (br_total_ns kernel)) in
    if float_gt speedup (f64_of_Z 1) then Some (speedup, true)
    else Some (f64_div (f64_of_Z 1) speedup, false)
  else None.

(** [printed] is what [print_result] prints of a benchmark that returned 0.  A
    userspace benchmark that fails leaves its result uninitialized, which the
    speedup then reads. *)
Definition print_bench (ret : Z) (r : option bench_result) : option (option report * option bench_result) :=
  match r with
  | Some r => if ret =? 0 then '(rep, r) ← print_result r; Some (rep, Some r) else Some (None, Some r)
  | None => Some (None, None)
  end.

Definition bench_main (malloc : nat -> gset Z -> option Z) (argv : list string) (has_chardev : bool)
    (h : heap) (w : world) : option (bench_output * heap * world) :=
  iterations ← bench_iterations argv BENCH_ITERATIONS;
  '(uret, user, tick, h) ← bench_userspace malloc (de_clock e) prompts iterations 0 h;
  '(urep, user) ← print_bench uret user;
  if negb has_chardev then Some (BenchOutput urep None None, h, w)
  else
    '(kret, kernel, w) ← bench_kernel prompts iterations tick w;
    '(krep, kernel) ← print_bench kret kernel;
    if negb (kret =? 0) then Some (BenchOutput urep None None, h, w)
    else
      user ← user;
      kernel ← kernel;
      Some (BenchOutput urep krep (speedup_of user kernel), h, w).

(** ** test_e2e_latency.c *)

(** [others i] are the calls of other clients between prompt [i] and the read
    of its answer. *)
Definition test_chardev_path (others : Z -> list syscall) (iterations : Z) (w : world)
    : option (Z * latency_stats * world) :=
  '(fd, w) ← open_ring CHARDEV_PATH w;
  match fd with
  | None => Some (-1, stats_init, w)
  | Some fd =>
      res ← for_range (R := unit) 0 iterations (fun i '(ttft, w) =>
        let t0 := de_clock e (2 * i) in
        '(written, w) ← write_prompt i fd (bytes_of "Hello world") w;
        if rc written <? 0 then Some (Break (ttft, w))
        else
          '(_, w) ← run_calls remap w (others i);
          '(nread, w) ← kllm_fops remap w (SysRead fd 4 (de_fault e i));
          let t1 := de_clock e (2 * i + 1) in
          if rc nread <? 0 then Some (Break (ttft, w))
          else if rc nread =? 0 then Some (Continue (ttft, w))
          else Some (Continue (stats_add ttft (u64 (t1 - t0)), w))) (stats_init, w);
      match res with
      | inr _ => None
      | inl (ttft, w) =>
          '(_, w) ← kllm_fops remap w (SysClose fd);
          Some (0, ttft, w)
      end
  end.

Fixpoint latency_args (argv : list string) (opts : bool * Z) : option (bool * Z) :=
  match argv with
  | [] => Some opts
  | a :: rest =>
      if String.eqb a "--chardev" then latency_args rest (true, snd opts)
      else
        match rest with
        | v :: rest' =>
            if String.eqb a "--iterations" then n ← atoi v; latency_args rest' (fst opts, n)
            else latency_args rest opts
        | [] => Some opts
        end
  end.

Definition latency_main `{Sha256} `{Libm} `{!Avx512 spec_float} (bd : build) (g : kllm_isa_level) (env : test_env)
    (others : Z -> list syscall) (argv : list string) (w : world) : option (Z * world) :=
  '(use_chardev, iterations) ← latency_args argv (false, LATENCY_ITERATIONS);
  if use_chardev : bool then
    '(ret, _, w) ← test_chardev_path others iterations w;
    Some (if ret <? 0 then 1 else 0, w)
  else
    '(ret, _, _, _) ← test_synthetic_path bd g env iterations;
    Some (if ret <? 0 then 1 else 0, w).

(** ** Lemmas *)

(** The descriptor is open, and the device has a well-formed ring. *)
Definition ready (fd : nat) (w : world) (r : ring) : Prop :=
  (exists f, open_file w fd = Some f /\ private_data f = true) /\
  token_ring (w_dev w) = Some r /\ ring_wf r.

Lemma ready_close fd w r :
  ready fd w r -> kllm_fops remap w (SysClose fd) =
    Some (Reply 0 [] None, World (w_dev w) (<[fd := None]> (w_files w))).
Proof. intros [(f & Hf & _) _]. simpl. unfold with_file. by rewrite Hf. Qed.

Lemma ready_mmap fd w r :
  ready fd w r -> forall v, exists ret vma,
    kllm_fops remap w (SysMmap fd v) = Some (Reply ret [] (Some vma), w).
Proof.
  intros [(f & Hf & Hp) _] v. simpl. unfold with_file, dev_of. rewrite Hf, Hp. simpl.
  destruct (kllm_mmap _ _ _). by eauto.
Qed.

Lemma ready_set fd w r r' : ready fd w r -> ring_wf r' -> ready fd (set_ring w r') r'.
Proof. intros [Hf _] Hwf. by split. Qed.

(** A prompt changes nothing, and its result is the one of its length. *)
Lemma ready_write i fd prompt w r :
  ready fd w r -> write_prompt i fd prompt w =
    Some (Reply (spec_write (len prompt) (fst (de_write e i)) (snd (de_write e i))) [] None, w).
Proof.
  intros [(f & Hf & Hp) _]. unfold write_prompt. destruct (de_write e i) as [kv cp]. simpl.
  unfold with_file, dev_of. rewrite Hf, Hp. simpl. pose proof (write_refines (len prompt) kv cp) as Hw.
  destruct (kllm_write _ _ _ _). simpl in *. by subst.
Qed.

(** The opening of the device: the ring is mapped, or nothing is left open. *)
Lemma open_ring_ok path w r :
  token_ring (w_dev w) = Some r -> ring_wf r ->
  exists o w', open_ring path w = Some (o, w') /\ w_dev w' = w_dev w /\
    match o with
    | Some fd => ready fd w' r /\ fd = length (w_files w) /\
        w_files w' = w_files w ++ [Some (File false true)] /\ magic r = KLLM_TOKEN_RING_MAGIC
    | None => w_files w' = w_files w \/ w_files w' = w_files w ++ [None]
    end.
Proof.
  intros Hr Hwf. unfold open_ring. destruct (negb (de_open e path)); [by eauto 10|].
  set (w1 := World (w_dev w) (w_files w ++ [Some (File false true)])).
  change (kllm_fops remap w (SysOpen false)) with (Some (Reply 0 [] None, w1)).
  cbn [mbind option_bind].
  assert (ready (length (w_files w)) w1 r) as Hready.
  { split; [|done]. eexists. unfold open_file. simpl. by rewrite list_lookup_middle. }
  assert (<[length (w_files w):=None]> (w_files w1) = w_files w ++ [None]) as Hins.
  { simpl. by rewrite <- (Nat.add_0_r (length (w_files w))), insert_app_r. }
  assert (kllm_fops remap w1 (SysClose (length (w_files w))) =
    Some (Reply 0 [] None, World (w_dev w) (w_files w ++ [None]))) as Hclose.
  { rewrite (ready_close _ _ r Hready). by rewrite Hins. }
  edestruct (ready_mmap _ _ _ Hready) as (ret & vma & ->). cbn [mbind option_bind rc].
  destruct (ret =? 0); cbn [negb]; [|rewrite Hclose; by eauto 10].
  cbn [w_dev w1]. rewrite Hr. cbn [mbind option_bind].
  destruct (Z.eqb_spec (magic r) KLLM_TOKEN_RING_MAGIC); cbn [negb]; [|rewrite Hclose; by eauto 10].
  by eauto 10.
Qed.

(** *** The tokenizer test *)

Lemma compare_loop (got expected : list Z) n tail :
  len got = n -> len expected = n ->
  exists o, for_range 0 n (fun j _ =>
      g ← arr_get (got ++ tail) j;
      x ← arr_get expected j;
      if g =? x then Some (Continue tt) else Some (Return tt)) tt = Some o /\
    (o = inl tt <-> got = expected).
Proof.
  intros Hg He.
  apply (for_range_rule (fun j _ => take (Z.to_nat j) got = take (Z.to_nat j) expected)
    (fun o => o = inl tt <-> got = expected)); [lia|done| |].
  - intros j [] Hj Heq.
    destruct (lookup_lt_is_Some_2 got (Z.to_nat j)) as [g Hgj]; [lia|].
    destruct (lookup_lt_is_Some_2 expected (Z.to_nat j)) as [x Hx]; [lia|].
    rewrite !arr_get_lookup, lookup_app_l, Hgj, Hx by lia. cbn [mbind option_bind].
    destruct (Z.eqb_spec g x) as [->|Hne]; eexists; (split; [done|]).
    + rewrite (Z2Nat.inj_add j 1), Nat.add_1_r by lia. erewrite !take_S_r by done. by rewrite Heq.
    + split; [done|]. intros ->. congruence.
  - intros [] Heq. split; [|done]. intros _. rewrite !take_ge in Heq by lia. done.
Qed.

(** A test passes exactly when the ring holds the expected tokens. *)
Lemma run_test_ok i fd tc w r :
  ready fd w r -> len (expected_tokens tc) = expected_len tc -> expected_len tc <= 4096 ->
  exists ret w' r', run_test i fd tc w = Some (ret, w') /\ ready fd w' r' /\ w_files w' = w_files w /\
    (ret = 0 \/ ret = -1) /\
    (ret = 0 <-> 0 <= spec_write (len (tc_prompt tc)) (fst (de_write e i)) (snd (de_write e i)) /\
                 ring_contents r = expected_tokens tc) /\
    (ring_contents r = [] -> ring_contents r' = []).
Proof.
  intros Hready Hexp Hmax. unfold run_test. rewrite (ready_write i fd (tc_prompt tc) w r Hready).
  cbn [mbind option_bind rc]. pose proof Hready as (_ & Hr & Hwf).
  destruct (Z.ltb_spec (spec_write (len (tc_prompt tc)) (fst (de_write e i)) (snd (de_write e i))) 0).
  { exists (-1), w, r. split; [done|]. split_and!; [done|done|by right|lia|done]. }
  rewrite Hr. cbn [mbind option_bind]. change (user_ring_available r) with (kllm_ring_available r).
  rewrite ring_available_used by done. pose proof (ring_contents_length r Hwf) as Hc.
  destruct (Z.eqb_spec (ring_used r) (expected_len tc)) as [Hu|Hu]; cbn [negb]; cycle 1.
  { exists (-1), w, r. split; [done|]. split_and!; [done|done|by right| |done].
    split; [done|]. intros [_ Heq]. congruence. }
  pose proof (ring_used_bounds r Hwf).
  destruct (ring_consume_batch_ok r (zeroed 4096) (ring_used r)) as (r' & -> & Hwf' & _ & Hc');
    [done|unfold fits; lia|rewrite zeroed_len; lia|].
  cbn [mbind option_bind]. rewrite Z.min_id, (take_ge (ring_contents r)) by lia.
  destruct (compare_loop (ring_contents r) (expected_tokens tc) (ring_used r)
    (drop (Z.to_nat (ring_used r)) (zeroed 4096))) as (o & -> & Ho); [lia..|]. cbn [mbind option_bind].
  assert (ring_contents r = [] -> ring_contents r' = []) as Hemp.
  { intros He. by rewrite Hc', He, drop_nil. }
  pose proof (ready_set fd w r r' Hready Hwf').
  destruct o as [[]|u]; do 3 eexists; (split; [done|]); split_and!; try done; [by left| |by right|].
  - split; [|done]. intros _. split; [done|]. by apply Ho.
  - split; [done|]. intros [_ Heq]. apply Ho in Heq. done.
Qed.

(** The path that the test opens. *)
Definition test_path (argv : list string) : string :=
  match argv with
  | a :: path :: _ => if String.eqb a "--chardev" then path else CHARDEV_PATH
  | _ => CHARDEV_PATH
  end.

Lemma hello_written kv cp : 0 <= spec_write (len (bytes_of "Hello world")) kv cp <-> (kv, cp) = (true, true).
Proof. change (len (bytes_of "Hello world")) with 11. by destruct kv, cp. Qed.

Lemma test_main_ok argv w r :
  token_ring (w_dev w) = Some r -> ring_wf r ->
  exists ret w', tokenizer_test_main argv w = Some (ret, w') /\ (ret = 0 \/ ret = 1) /\
    (ret = 0 <-> (exists fd w1, open_ring (test_path argv) w = Some (Some fd, w1)) /\
                 de_write e 0 = (true, true) /\ ring_contents r = [9906; 1917]).
Proof.
  intros Hr Hwf. unfold tokenizer_test_main. fold (test_path argv).
  destruct (open_ring_ok (test_path argv) w r Hr Hwf) as (o & w1 & -> & _ & Ho). cbn [mbind option_bind].
  destruct o as [fd|]; cycle 1.
  { do 2 eexists. split; [done|]. split; [by right|]. split; [done|]. intros [(fd & w2 & [=]) _]. }
  destruct Ho as (Hready & _). unfold for_range.
  change (Z.to_nat (len tests - 0)) with 1%nat. cbn [for_loop].
  change (arr_get tests 0) with (Some (TestCase (bytes_of "Hello world") [9906; 1917] 2)).
  cbn [mbind option_bind].
  destruct (run_test_ok 0 fd (TestCase (bytes_of "Hello world") [9906; 1917] 2) w1 r Hready)
    as (ret & w2 & r2 & Hrun & Hready2 & _ & Hret & Hiff & _); [done|simpl; lia|].
  rewrite Hrun. cbn [mbind option_bind].
  rewrite (ready_close fd w2 r2 Hready2). cbn [mbind option_bind]. do 2 eexists. split; [done|].
  assert (ret = 0 <-> de_write e 0 = (true, true) /\ ring_contents r = [9906; 1917]) as Hw.
  { rewrite Hiff. cbn [tc_prompt expected_tokens]. rewrite hello_written. by destruct (de_write e 0) as [[] []]. }
  destruct Hret as [-> | ->]; simpl; (split; [by auto|]); naive_solver.
Qed.

(** *** The benchmark *)

(** The state of the benchmark on an empty ring. *)
Record kbench_inv (fd : nat) (s : kbench) : Prop := {
  ki_ready : exists r, ready fd (kb_world s) r /\ ring_contents r = [];
  ki_tokens : len (kb_tokens s) = MAX_PROMPT_LEN;
  ki_lats : len (latencies (kb_result s)) = MAX_LATENCIES;
  ki_samples : 0 <= num_samples (kb_result s) <= MAX_LATENCIES;
  ki_total : br_total_tokens (kb_result s) = 0;
}.

Lemma kernel_prompt_ok fd prompt s :
  kbench_inv fd s ->
  exists o, kernel_prompt fd prompt s = Some o /\
    match o with inl s' | inr s' => kbench_inv fd s' end.
Proof.
  intros [(r & Hready & Hc) Ht Hl Hn Htot]. unfold kernel_prompt.
  rewrite (ready_write _ fd prompt _ r Hready). cbn [mbind option_bind rc].
  destruct (_ <? 0); [eexists; split; [done|]; split; simpl; eauto|].
  pose proof Hready as (_ & Hr & Hwf). rewrite Hr. cbn [mbind option_bind].
  destruct (ring_consume_batch_ok r (kb_tokens s) MAX_PROMPT_LEN) as (r' & -> & Hwf' & _ & Hc');
    [done|unfold fits, MAX_PROMPT_LEN; lia|lia|].
  assert (ring_used r = 0) as Hu by (rewrite <- ring_contents_length, Hc by done; done).
  rewrite Hu, Hc. cbn [mbind option_bind]. rewrite take_nil. change (Z.min 0 MAX_PROMPT_LEN) with 0.
  unfold add_sample. rewrite Htot. unfold MAX_LATENCIES in *.
  assert (exists r', ready fd (set_ring (kb_world s) r') r' /\ ring_contents r' = []) as Hnew.
  { exists r'. split; [by apply (ready_set fd _ r)|]. by rewrite Hc', Hc, drop_nil. }
  destruct (Z.ltb_spec (num_samples (kb_result s)) 10000).
  - rewrite arr_set_in by lia. cbn [mbind option_bind]. eexists. split; [done|].
    split; simpl; [|done|by rewrite length_insert| |done].
    + exists r'. split; [by apply (ready_set fd _ r)|]. by rewrite Hc', Hc, drop_nil.
    + rewrite wrap_small by (unfold fits; lia). unfold MAX_LATENCIES. lia.
  - eexists. split; [done|]. split; simpl; [|done|done|unfold MAX_LATENCIES; lia|done].
    exists r'. split; [by apply (ready_set fd _ r)|]. by rewrite Hc', Hc, drop_nil.
Qed.

Lemma kernel_round_ok fd ps s :
  kbench_inv fd s ->
  exists s', for_range (R := unit) 0 (len ps) (fun p s =>
      prompt ← arr_get ps p;
      s ← kernel_prompt fd prompt s;
      match s with
      | inl s => Some (Continue s)
      | inr s => Some (Break s)
      end) s = Some (inl s') /\ kbench_inv fd s'.
Proof.
  intros Hs.
  match goal with |- context [for_range 0 _ ?body s] =>
    destruct (for_range_rule (R := unit) (fun _ => kbench_inv fd)
      (fun o => exists s', o = inl s' /\ kbench_inv fd s') body 0 (len ps) s)
      as (o & -> & s' & -> & Hs'); [lia|done| |by eauto|by eauto] end.
  intros p t Hp Ht. rewrite arr_get_lookup by lia.
  destruct (lookup_lt_is_Some_2 ps (Z.to_nat p)) as [prompt ->]; [lia|]. cbn [mbind option_bind].
  destruct (kernel_prompt_ok fd prompt t Ht) as ([t'|t'] & -> & Ht'); cbn [mbind option_bind];
    eexists; (split; [done|]); cbn; by eauto.
Qed.

Lemma bench_kernel_ok ps iterations tick w r :
  token_ring (w_dev w) = Some r -> ring_wf r -> ring_contents r = [] -> 0 <= iterations ->
  exists ret o w', bench_kernel ps iterations tick w = Some (ret, o, w') /\
    match o with
    | None => ret = -1
    | Some res => ret = 0 /\ br_total_tokens res = 0 /\ len (latencies res) = MAX_LATENCIES /\
        0 <= num_samples res <= MAX_LATENCIES
    end.
Proof.
  intros Hr Hwf Hc Hit. unfold bench_kernel.
  destruct (open_ring_ok CHARDEV_PATH w r Hr Hwf) as (o & w1 & -> & _ & Ho). cbn [mbind option_bind].
  destruct o as [fd|]; [|by exists (-1), None, w1]. destruct Ho as (Hready & _).
  edestruct (for_range_inv (R := unit) (fun _ => kbench_inv fd)) as (s & -> & Hs); [exact Hit| | |].
  - split; cbn; [by eauto|by rewrite zeroed_len|by rewrite zeroed_len|unfold MAX_LATENCIES; lia|done].
  - intros i s _ Hs.
    destruct (kernel_round_ok fd ps s Hs) as (s' & -> & Hs'). cbn [mbind option_bind]. by eauto.
  - cbn [mbind option_bind]. destruct Hs as [(r' & Hready' & _) _ Hl Hn Htot].
    rewrite (ready_close fd _ r' Hready'). cbn [mbind option_bind]. do 3 eexists. split; [done|]. cbn [set_total_ns br_total_tokens latencies num_samples]. split_and!; (done || lia).
Qed.

(** *** The latency test *)

(** The queue after the test has opened the device. *)
Definition with_reader (q : queue_state) : queue_state :=
  Queue (q_cap q) (q_tokens q) (q_files q ++ [Some false]).

(** The other clients answer a prompt with one token. *)
Definition answers (q : queue_state) (cs : list syscall) : Prop :=
  forallb call_ok cs = true /\ exists t, snd (spec_calls remap q cs) = set_tokens q [t].

Lemma reader_write w q fd i :
  world_rel w q -> mjoin (q_files q !! fd) = Some false -> de_write e i = (true, true) ->
  exists w', write_prompt i fd (bytes_of "Hello world") w = Some (Reply 11 [] None, w') /\ world_rel w' q.
Proof.
  intros Hrel Hfd Hw. unfold write_prompt. rewrite Hw.
  destruct (call_refines remap w q (SysWrite fd (len (bytes_of "Hello world")) true true) Hrel eq_refl)
    as (r & w' & q' & -> & Hs & Hrel').
  cbn [spec_call] in Hs. rewrite Hfd in Hs. simplify_eq. by eauto.
Qed.

Lemma reader_read w q fd t :
  world_rel w (set_tokens q [t]) -> q_tokens q = [] -> mjoin (q_files q !! fd) = Some false ->
  exists w', kllm_fops remap w (SysRead fd 4 false) = Some (Reply 4 [t] None, w') /\ world_rel w' q.
Proof.
  intros Hrel Hq Hfd.
  destruct (call_refines remap w _ (SysRead fd 4 false) Hrel eq_refl) as (r & w' & q' & -> & Hs & Hrel').
  cbn [spec_call q_files set_tokens] in Hs. rewrite Hfd in Hs. cbv beta iota in Hs.
  change (spec_read (set_tokens q [t]) false 4 false) with (Reply 4 [t] None, set_tokens q []) in Hs.
  simplify_eq. exists w'. split; [done|]. rewrite <- Hq in Hrel'. by destruct q.
Qed.

Lemma reader_starves w q fd :
  world_rel w q -> q_tokens q = [] -> mjoin (q_files q !! fd) = Some false ->
  forall fault, exists w', kllm_fops remap w (SysRead fd 4 fault) = Some (Reply (- ERESTARTSYS) [] None, w') /\
    world_rel w' q.
Proof.
  intros Hrel Hq Hfd fault.
  destruct (call_refines remap w _ (SysRead fd 4 fault) Hrel eq_refl) as (r & w' & q' & -> & Hs & Hrel').
  cbn [spec_call] in Hs. rewrite Hfd in Hs. unfold spec_read in Hs. rewrite Hq in Hs. simpl in Hs.
  simplify_eq. by eauto.
Qed.

Lemma opened_rel w q w1 :
  world_rel w q -> w_dev w1 = w_dev w -> w_files w1 = w_files w ++ [Some (File false true)] ->
  world_rel w1 (with_reader q) /\ mjoin (q_files (with_reader q) !! length (w_files w)) = Some false.
Proof.
  intros [Hwf Hcap Htok Hfiles Hopen] Hd Hf. split; [split; rewrite ?Hd; simpl; [done..| |]|].
  - by rewrite Hf, fmap_app, Hfiles.
  - intros fd filp. unfold open_file. rewrite Hf. destruct (decide (fd < length (w_files w))%nat).
    + rewrite lookup_app_l by done. apply Hopen.
    + rewrite lookup_app_r by lia. destruct (fd - _)%nat; [by intros [= <-]|done].
  - simpl. rewrite Hfiles, lookup_app_r by (rewrite length_fmap; lia).
    by rewrite length_fmap, Nat.sub_diag.
Qed.

Lemma chardev_path_ok others iterations w q r fd w1 :
  world_rel w q -> q_tokens q = [] -> token_ring (w_dev w) = Some r -> ring_wf r ->
  open_ring CHARDEV_PATH w = Some (Some fd, w1) ->
  (forall i, de_write e i = (true, true)) -> (forall i, de_fault e i = false) ->
  (forall i, answers (with_reader q) (others i)) -> 0 <= iterations < 2 ^ 31 ->
  exists ttft w', test_chardev_path others iterations w = Some (0, ttft, w') /\
    count ttft = iterations /\ resp_contents (w_dev w') = [].
Proof.
  intros Hrel Hq Hr Hwf Hopen Hw Hfault Hans Hit. unfold test_chardev_path.
  destruct (open_ring_ok CHARDEV_PATH w r Hr Hwf) as (o & w1' & Hopen' & Hd & Ho).
  rewrite Hopen' in Hopen. simplify_eq. destruct Ho as (_ & -> & Hf & _). rewrite Hopen'. cbn [mbind option_bind].
  destruct (opened_rel w q w1 Hrel Hd Hf) as [Hrel1 Hfd].
  assert (q_tokens (with_reader q) = []) as Hq1 by done.
  edestruct (for_range_inv (R := unit) (fun i '(ttft, w) => world_rel w (with_reader q) /\ count ttft = i))
    as ((ttft & w2) & -> & Hrel2 & Hc); [exact (proj1 Hit)|by split| |].
  - intros i [ttft w2] Hi [Hrel2 Hc].
    destruct (reader_write w2 _ (length (w_files w)) i Hrel2 Hfd (Hw i)) as (w3 & -> & Hrel3).
    cbn [mbind option_bind rc]. change (11 <? 0) with false. cbv iota.
    destruct (Hans i) as (Hok & t & Ht).
    destruct (run_calls_refine remap (others i) _ _ Hrel3 Hok) as (w4 & -> & Hrel4). rewrite Ht in Hrel4.
    cbn [mbind option_bind]. rewrite Hfault.
    destruct (reader_read w4 _ _ t Hrel4 Hq1 Hfd) as (w5 & -> & Hrel5).
    cbn [mbind option_bind rc]. eexists. split; [done|]. split; [done|]. simpl.
    rewrite Hc, wrap_small by (unfold fits; lia). done.
  - cbn [mbind option_bind].
    destruct (call_refines remap w2 _ (SysClose (length (w_files w))) Hrel2 eq_refl)
      as (rep & w3 & q3 & -> & Hs & Hrel3).
    cbn [mbind option_bind]. do 2 eexists. split; [done|]. split; [done|].
    cbn [spec_call] in Hs. rewrite Hfd in Hs. simplify_eq. by rewrite <- (wr_tokens _ _ Hrel3).
Qed.

(** Nobody answers: the first read ends with the signal, and there is no sample. *)
Lemma chardev_path_unanswered iterations w q r fd w1 :
  world_rel w q -> q_tokens q = [] -> token_ring (w_dev w) = Some r -> ring_wf r ->
  open_ring CHARDEV_PATH w = Some (Some fd, w1) ->
  exists w', test_chardev_path (fun _ => []) iterations w = Some (0, stats_init, w').
Proof.
  intros Hrel Hq Hr Hwf Hopen. unfold test_chardev_path.
  destruct (open_ring_ok CHARDEV_PATH w r Hr Hwf) as (o & w1' & Hopen' & Hd & Ho).
  rewrite Hopen' in Hopen. simplify_eq. destruct Ho as (Hready & -> & Hf & _). rewrite Hopen'. cbn [mbind option_bind].
  destruct (opened_rel w q w1 Hrel Hd Hf) as [Hrel1 Hfd].
  destruct (Z.le_gt_cases iterations 0).
  { rewrite for_range_empty by done. cbn [mbind option_bind].
    rewrite (ready_close _ _ _ Hready). by eauto. }
  unfold for_range. replace (Z.to_nat (iterations - 0)) with (S (Z.to_nat (iterations - 1))) by lia.
  cbn [for_loop]. rewrite (ready_write _ _ _ _ _ Hready). cbn [mbind option_bind rc].
  destruct (_ <? 0).
  { cbn [mbind option_bind]. rewrite (ready_close _ _ _ Hready). by eauto. }
  cbn [run_calls mbind option_bind].
  destruct (reader_starves w1 _ _ Hrel1 Hq Hfd (de_fault e 0)) as (w2 & -> & Hrel2). cbn [mbind option_bind rc].
  change (- ERESTARTSYS <? 0) with true. cbv iota. cbn [mbind option_bind].
  destruct (call_refines remap w2 _ (SysClose (length (w_files w))) Hrel2 eq_refl) as (rep & w3 & q3 & -> & _).
  by eauto.
Qed.

End tests.

(** ** Theorems *)

(** The module is loaded and clients have made any calls; nobody else writes to
    the token ring. *)
Lemma used_device `{KL : KernelLib} (remap : vm_area -> Z) res cs :
  forallb call_ok cs = true ->
  exists dev res', kllm_init kllm_dev0 res true true 0 = (0, dev, res') /\
    exists w r, run_calls remap (World dev []) cs = Some (fst (spec_calls remap (Queue 4095 [] []) cs), w) /\
      world_rel w (snd (spec_calls remap (Queue 4095 [] []) cs)) /\
      token_ring (w_dev w) = Some r /\ ring_wf r /\ ring_contents r = [].
Proof.
  intros Hok. destruct (loaded_device res) as (dev & res' & Hi & Hrel & r & Hr & Hwf & _ & Hc & _).
  destruct (run_calls_refine remap cs _ _ Hrel Hok) as (w & Hrun & Hrel').
  exists dev, res'. split; [done|]. exists w, r. split; [done|]. split; [done|].
  split; [|done]. by rewrite (run_token_ring _ _ _ _ _ Hrun).
Qed.

(** The tokenizer test exits with 0 exactly when it can open the device, the
    prompt is accepted and the ring holds the two expected tokens. *)
Theorem tokenizer_test_sound `{KL : KernelLib} remap e argv w r :
  token_ring (w_dev w) = Some r -> ring_wf r ->
  exists ret w', tokenizer_test_main remap e argv w = Some (ret, w') /\ (ret = 0 \/ ret = 1) /\
    (ret = 0 <-> (exists fd w1, open_ring remap e (test_path argv) w = Some (Some fd, w1)) /\
                 de_write e 0 = (true, true) /\ ring_contents r = [9906; 1917]).
Proof. apply test_main_ok. Qed.

(** Whatever the clients of the device have called, the tokenizer test fails and
    the benchmark of the kernel path counts no token: a [write] never reaches the
    tokenizer, so that the ring stays empty. *)
Theorem tests_see_no_token `{KL : KernelLib} remap e res cs :
  forallb call_ok cs = true ->
  let '(_, dev, _) := kllm_init kllm_dev0 res true true 0 in
  exists replies w, run_calls remap (World dev []) cs = Some (replies, w) /\
    (forall argv, exists w', tokenizer_test_main remap e argv w = Some (1, w')) /\
    (forall ps iterations tick, 0 <= iterations ->
       exists ret o w', bench_kernel remap e ps iterations tick w = Some (ret, o, w') /\
         forall result, o = Some result -> br_total_tokens result = 0).
Proof.
  intros Hok. destruct (used_device remap res cs Hok) as (dev & res' & -> & w & r & Hrun & _ & Hr & Hwf & Hc).
  exists (fst (spec_calls remap (Queue 4095 [] []) cs)), w. split; [done|]. split.
  - intros argv. destruct (test_main_ok remap e argv w r Hr Hwf) as (ret & w' & Hm & [-> | ->] & Hiff); [|by eauto].
    destruct Hiff as [Hiff _]. destruct (Hiff eq_refl) as (_ & _ & Htok). by rewrite Hc in Htok.
  - intros ps n tick Hn. destruct (bench_kernel_ok remap e ps n tick w r Hr Hwf Hc Hn)
      as (ret & o & w' & Hb & Ho).
    exists ret, o, w'. split; [done|]. intros result ->. by destruct Ho as (_ & ? & _).
Qed.

(** The latency test measures every iteration: when the device can be opened and
    mapped and other clients answer every prompt with one token, in whatever
    calls, each iteration gives a sample and the answers are all consumed.  When
    nobody answers there is no sample. *)
Theorem latency_measured `{KL : KernelLib} remap e res cs others iterations :
  forallb call_ok cs = true -> 0 <= iterations < 2 ^ 31 ->
  let '(_, dev, _) := kllm_init kllm_dev0 res true true 0 in
  let '(replies, q) := spec_calls remap (Queue 4095 [] []) cs in
  exists w, run_calls remap (World dev []) cs = Some (replies, w) /\
    forall fd w1, open_ring remap e CHARDEV_PATH w = Some (Some fd, w1) -> q_tokens q = [] ->
      ((forall i, de_write e i = (true, true)) -> (forall i, de_fault e i = false) ->
       (forall i, answers remap (with_reader q) (others i)) ->
       exists ttft w', test_chardev_path remap e others iterations w = Some (0, ttft, w') /\
         count ttft = iterations /\ resp_contents (w_dev w') = []) /\
      exists w', test_chardev_path remap e (fun _ => []) iterations w = Some (0, stats_init, w').
Proof.
  intros Hok Hit. destruct (used_device remap res cs Hok) as (dev & res' & -> & w & r & Hrun & Hrel & Hr & Hwf & _).
  destruct (spec_calls _ _ _) as [replies q]. exists w. split; [done|]. intros fd w1 Hopen Hq. split.
  - intros Hw Hf Hans. by eapply chardev_path_ok.
  - by eapply chardev_path_unanswered.
Qed.

(** ** The theorems at concrete inputs *)

#[local] Existing Instance linux_kernel_lib.

Definition demo_dev_env : dev_env :=
  DevEnv (fun _ => true) 0x700000000000 0 (fun _ => (true, true)) (fun _ => false) (fun n => 100 * n).

Lemma tests_see_no_token_witness :
  let '(_, dev, _) := kllm_init kllm_dev0 (Res 0 0 false) true true 0 in
  exists replies w, run_calls (fun _ => 0) (World dev []) [SysOpen false; SysWrite 0 11 true true] = Some (replies, w) /\
    exists w', tokenizer_test_main (fun _ => 0) demo_dev_env [] w = Some (1, w').
Proof.
  pose proof (tests_see_no_token (fun _ => 0) demo_dev_env (Res 0 0 false)
    [SysOpen false; SysWrite 0 11 true true] eq_refl) as H.
  destruct (kllm_init _ _ _ _ _) as [[ret dev] res]. destruct H as (replies & w & Hrun & Ht & _).
  exists replies, w. split; [exact Hrun|]. exact (Ht []).
Defined.

(** A responder on descriptor 0 that answers every prompt with token 7. *)
Definition demo_answer (_ : Z) : list syscall :=
  [SysIoctl 0 (KLLM_IOC_EMIT_TOKENS (Some (EmitCmd 1 (replicate 256 7))))].

Lemma latency_measured_witness :
  let '(_, dev, _) := kllm_init kllm_dev0 (Res 0 0 false) true true 0 in
  exists w, run_calls (fun _ => 0) (World dev []) [SysOpen true] = Some ([Reply 0 [] None], w) /\
    forall fd w1, open_ring (fun _ => 0) demo_dev_env CHARDEV_PATH w = Some (Some fd, w1) ->
      exists ttft w', test_chardev_path (fun _ => 0) demo_dev_env demo_answer 5 w = Some (0, ttft, w') /\ count ttft = 5.
Proof.
  pose proof (latency_measured (fun _ => 0) demo_dev_env (Res 0 0 false) [SysOpen true] demo_answer 5
    eq_refl ltac:(lia)) as H.
  destruct (kllm_init _ _ _ _ _) as [[ret dev] res]. cbn [spec_calls spec_call app q_cap q_tokens q_files] in H.
  destruct H as (w & Hrun & H). exists w. split; [exact Hrun|]. intros fd w1 Hopen.
  destruct (H fd w1 Hopen eq_refl) as [Hall _].
  destruct Hall as (ttft & w' & Ht & Hc & _); [reflexivity|reflexivity| |].
  - intros i. split; [reflexivity|]. exists 7. reflexivity.
  - exists ttft, w'. exact (conj Ht Hc).
Defined.

(** The end of a sequence is an answer too: it is read as the word [EOS_SENTINEL],
    so that the test takes a sample of it and does not see a [read] of 0 bytes. *)
Example eos_is_an_answer :
  answers (fun _ => 0) (Queue 4095 [] [Some true; Some false]) [SysIoctl 0 KLLM_IOC_EOS].
Proof. split; [reflexivity|]. by exists EOS_SENTINEL. Qed.
